(** * A shallow embedding of the card-game rules engine

    Sources embedded here:
    - [engine.ts]            runtime types, evaluator, planner, applier,
                             turn/combat actions, mulligan;
    - [core-rules.ts]        the ruleset record and [CORE_RULES];
    - [rules-verifier.ts]    [analyzeRules] (called by [initGame]);
    - [schema.ts]            the effect syntax and the global caps;
    - [analysis.ts]          [effectMultiplicity].

    Conventions.
    - A JavaScript [number] is a [Z]: every arithmetic step below is exact
      on integers of magnitude below 2^53, which is where the program is
      meant to run (the schema asks for integers almost everywhere).
    - A JavaScript [Map] and a plain object used as a record of counters are
      association lists in insertion order; [Map.set] on a present key
      keeps its position.
    - A [RuntimeCard] object is identified with its entry in [s.cards]:
      the engine never replaces an entry once the id is registered, and a
      mutation [rc.f = v] is an update of that entry.
    - The module-level counter [nextId] is carried as a field of the state.
    - A call that does not return normally (a [TypeError] on an undefined
      value, or a recursion that never ends) has no result: [None]. *)

From Stdlib Require Import ZArith List String Ascii Bool Lia Arith PeanoNat Permutation.
From Stdlib Require Decimal DecimalString DecimalNat DecimalFacts.
Import ListNotations.

Set Warnings "-register-all".

Local Open Scope string_scope.
Local Open Scope list_scope.
Local Open Scope Z_scope.

(* ------------------------------------------------------------------ *)
(** ** JavaScript helpers *)

Definition show_nat (n : nat) : string := DecimalString.NilZero.string_of_uint (Nat.to_uint n).
Definition show_Z (z : Z) : string := DecimalString.NilZero.string_of_int (Z.to_int z).

(** [x || 0] and [x ?? 0] on an optional number. *)
Definition or0 (o : option Z) : Z := match o with Some v => v | None => 0 end.

(** [o] is truthy, for an optional boolean. *)
Definition truthy (o : option bool) : bool := match o with Some b => b | None => false end.

(** [id] is truthy, for an optional string: neither [undefined] nor empty. *)
Definition nonempty_id (o : option string) : option string :=
  match o with
  | Some EmptyString => None
  | other => other
  end.

Definition includes_str (x : string) (l : list string) : bool :=
  existsb (String.eqb x) l.

(** [name.includes(txt)]. *)
Fixpoint str_includes (txt name : string) : bool :=
  if String.prefix txt name then true
  else match name with
       | EmptyString => false
       | String _ rest => str_includes txt rest
       end.

(** [arr.slice(0, e)]: a negative [e] counts from the end. *)
Definition slice0 {A} (l : list A) (e : Z) : list A :=
  if e <? 0 then firstn (Z.to_nat (Z.max 0 (Z.of_nat (List.length l) + e))) l
  else firstn (Z.to_nat e) l.

(** [arr.slice(-n)] for [1 <= n <= arr.length]. *)
Definition slice_last {A} (l : list A) (n : nat) : list A :=
  skipn (List.length l - n)%nat l.

(** The first occurrence of [x] is spliced out ([indexOf] then [splice]). *)
Fixpoint remove_first (x : string) (l : list string) : list string :=
  match l with
  | [] => []
  | y :: r => if String.eqb x y then r else y :: remove_first x r
  end.

(** [arr.pop()]: the last element and the rest. *)
Definition pop {A} (l : list A) : option (A * list A) :=
  match List.rev l with
  | [] => None
  | x :: r => Some (x, List.rev r)
  end.

(** [indexOf]. *)
Fixpoint indexOf {A} (eqb : A -> A -> bool) (x : A) (l : list A) : option nat :=
  match l with
  | [] => None
  | y :: r => if eqb x y then Some 0%nat
              else match indexOf eqb x r with Some i => Some (S i) | None => None end
  end.

(** An insertion-ordered map with string keys. *)
Module JsMap.
Definition t (V : Type) := list (string * V).

Fixpoint get {V} (k : string) (m : t V) : option V :=
  match m with
  | [] => None
  | (k', v) :: r => if String.eqb k k' then Some v else get k r
  end.

Fixpoint set {V} (k : string) (v : V) (m : t V) : t V :=
  match m with
  | [] => [(k, v)]
  | (k', v') :: r => if String.eqb k k' then (k', v) :: r else (k', v') :: set k v r
  end.

Definition has {V} (k : string) (m : t V) : bool :=
  match get k m with Some _ => true | None => false end.

(** The entry at [k], if any, is rewritten in place. *)
Fixpoint upd {V} (k : string) (f : V -> V) (m : t V) : t V :=
  match m with
  | [] => []
  | (k', v) :: r => if String.eqb k k' then (k', f v) :: r else (k', v) :: upd k f r
  end.

Definition values {V} (m : t V) : list V := map snd m.
End JsMap.

(* ------------------------------------------------------------------ *)
(** ** schema.ts: the effect syntax *)

Definition MAX_REPEAT : Z := 3.
Definition MAX_FOREACH_TARGETS : Z := 3.
Definition MAX_CASE_BRANCHES : Z := 4.
Definition MAX_LOOKTOP_N : Z := 5.
Definition MAX_TRIGGER_CREDITS_PER_RESOLUTION : Z := 8.
Definition MAX_SPAWN_CREDITS_PER_RESOLUTION : Z := 6.

Inductive PlayerIndex := P0 | P1.
(** [Exclude<Zone, 'STACK'>] *)
Inductive PlayerZone := LIB | HAND | BF | GY | EXILE.
Inductive Zone := PZ (z : PlayerZone) | STACK.
Inductive Phase := UPKEEP | MAIN | COMBAT | END.
Inductive PlayerRef := SELF | OPP.
Inductive NameMode := Exact | Prefix | Contains.
Inductive StatName := ATK | HP.
Inductive CardRef := Target | Self.
Inductive CmpOp := CmpGe | CmpGt | CmpLe | CmpLt | CmpEq | CmpNe.
Inductive CountedEvent := UnitDied | TokenCreated | SpellCast.
Inductive Per := TURN | GAME.
Inductive Duration := EOT | PERM.

Inductive Metric :=
| MConst (n : Z)
| CardStat (stat : StatName) (whose : CardRef)
| BoardCount (who : PlayerRef) (tag : option string) (zone : option Zone)
| Life (who : PlayerRef).

(** The optional [in] field of a leaf predicate is [pin]. *)
Inductive Predicate :=
| PTrue
| HasTag (tag : string) (pin : option CardRef)
| HasAttribute (attr value : string) (pin : option CardRef)
| HasName (mode : NameMode) (text : string) (pin : option CardRef)
| IsToken (pin : option CardRef)
| WasSummonedThisTurn (pin : option CardRef)
| HasCounter (counter : string) (atLeast : Z) (pin : option CardRef)
| ControllerIs (who : PlayerRef) (pin : option CardRef)
| EventOccurred (event : CountedEvent) (who : option PlayerRef) (since : Per) (atLeast : Z)
| Cmp (lhs : Metric) (op : CmpOp) (rhs : Metric)
| PAnd (items : list Predicate)
| POr (items : list Predicate)
| PNot (item : Predicate).

Record Selector := mkSelector {
  sel_owner : option PlayerRef;
  sel_zone : option Zone;
  sel_max : option Z;
  sel_filter : option Predicate }.

Inductive Value :=
| VConst (n : Z)
| Clamp (lo hi : Z) (metric : Metric).

Record Choose := mkChoose {
  ch_keep : Z;
  ch_moveRestTo : Zone;
  ch_reveal : option bool }.

Record StatBlock := mkStatBlock {
  sb_atk : Z;
  sb_hp : Z;
  sb_tags : option (list string);
  sb_attributes : option (list (string * string)) }.

Inductive Effect :=
| DealDamage (target : Selector) (amount : Value)
| PreventDamage (target : Selector) (amount : Value) (duration : Duration)
| Heal (target : Selector) (amount : Value)
| Draw (who : PlayerRef) (n : Value)
| Mill (who : PlayerRef) (n : Value)
| LookAtTop (who : PlayerRef) (n : Z) (choose : option Choose)
| CreateToken (who : PlayerRef) (atk hp : Z) (tags : option (list string))
              (attributes : option (list (string * string)))
| AddCounter (target : Selector) (counter : string) (n : Value) (max : option Z)
| RemoveCounter (target : Selector) (counter : string) (n : Value)
| Buff (target : Selector) (atk hp : option Z) (duration : Duration)
| Move (target : Selector) (dest : Zone)
| ChangeController (target : Selector) (newController : PlayerRef) (duration : Duration)
| Transform (target : Selector) (into : StatBlock) (duration : option Duration)
| CopyStats (src dst : Selector) (clampAtk clampHp : Z * Z) (duration : Duration)
| Conditional (cond : Predicate) (thenE : Effect) (elseE : option Effect)
| Case (branches : list (Predicate * Effect)) (elseE : option Effect)
| ForEach (among : Selector) (maxTargets : Z) (body : Effect)
| Sequence (steps : list Effect)
| Repeat (times : Z) (body : Effect)
| NoOp.

Inductive ReplWhen := WouldDie | WouldBeDamaged | WouldDraw.

Inductive TriggerWhen :=
| OnCast | OnEnter | OnAttack | OnDamageDealt | OnDeath
| OnTokenCreated | OnDraw | OnUpkeepStart | OnNameMatched.

(** [EventKind] of the analyzer has the same nine names. *)
Definition EventKind := TriggerWhen.

Record Limit := mkLimit { lim_per : Per; lim_times : Z }.

Record ReplacementEffect := mkReplacement {
  repl_when : ReplWhen;
  repl_subject : Selector;
  repl_instead : Effect;
  repl_duration : Duration;
  repl_limit : Limit }.

Record Trigger := mkTrigger {
  trg_when : TriggerWhen;
  trg_condition : option Predicate;
  trg_effect : Effect;
  trg_limit : Limit }.

Inductive ContinuousEffect :=
| StaticBuff (target : Selector) (atk hp : option Z)
| CostModifier (predicate : Predicate) (delta : Z) (floor : option Z).

Record ManaCost := mkCost { generic : Z; colors : option (list string) }.
Inductive CardType := Unit | Spell | Artifact | Enchantment.
Inductive Rarity := RarC | RarU | RarR | RarM.

Record TextIR := mkTextIR {
  cast : option Effect;
  triggers : option (list Trigger);
  continuous : option (list ContinuousEffect);
  replacements : option (list ReplacementEffect) }.

Record Budgets := mkBudgets { power : Z; complexity : Z; interaction : option Z }.

Record Card := mkCard {
  card_name : string;
  canonicalName : option string;
  cost : ManaCost;
  card_type : CardType;
  stats : option (Z * Z);          (* {atk, hp} *)
  keywords : option (list string);
  tags : list string;
  attributes : option (list (string * string));
  textIR : TextIR;
  budgets : Budgets;
  rarity : Rarity;
  version : Z }.

(* ------------------------------------------------------------------ *)
(** ** core-rules.ts *)

Record TurnRules := mkTurnRules {
  phases : list Phase;
  drawOnTurnStart : bool;
  playOneLandPerTurn : option bool }.

Record BuildRules := mkBuildRules {
  startingLife : Z;
  startingHand : Z;
  maxHandSize : option Z;
  minDeckSize : Z;
  maxCopiesPerName : Z;
  sideboardSize : option Z }.

Inductive MulliganRules := FreeOnce | London (bottomCount : Z) | DrawOneLess.
Inductive TriggerOrder := ControllerChooses | ActivePlayerFirst.

Record ActionRules := mkActionRules {
  usesStack : bool;
  illegalTargetFizzle : bool;
  simultaneousTriggersOrder : TriggerOrder }.

Record DamageRules := mkDamageRules { lethalAt : Z; damagePersistsTurn : bool }.

(** ['GY' | 'EXILE'] *)
Inductive TokenLeave := LeaveGY | LeaveEXILE.
Definition leave_zone (t : TokenLeave) : PlayerZone :=
  match t with LeaveGY => GY | LeaveEXILE => EXILE end.
Record TokenRules := mkTokenRules { tokensLeaveTo : TokenLeave }.

Inductive Payment := GenericOnly | GenericAndColors.
Inductive ColorPolicy := DeckOnly | InGamePayment.
Record ColorRules := mkColorRules { policy : ColorPolicy; symbols : list string }.

(** [mode] has the single value ['ActionPoints']. *)
Record ResourceRules := mkResourceRules {
  res_name : string;
  perTurnGainBase : Z;
  carryOver : bool;
  maxPool : option Z;
  payment : Payment;
  res_colors : ColorRules }.

Inductive AttackerTargets := PlayerOrUnit | PlayerOnly | UnitOnly.
Record CombatRules := mkCombatRules {
  canBlock : bool;
  attackerTargets : AttackerTargets;
  summoningSickness : bool }.

Record WinLoseRules := mkWinRules { lifeZeroLoss : bool; drawFromEmptyLoss : option bool }.

Record GameRules := mkGameRules {
  turns : TurnRules;
  build : BuildRules;
  mulligan : MulliganRules;
  actions : ActionRules;
  damage : DamageRules;
  tokens : TokenRules;
  combat : CombatRules;
  win : WinLoseRules;
  resources : ResourceRules }.

Definition CORE_RULES : GameRules := {|
  turns := {| phases := [UPKEEP; MAIN; COMBAT; END];
              drawOnTurnStart := true; playOneLandPerTurn := None |};
  build := {| startingLife := 20; startingHand := 5; maxHandSize := Some 10;
              minDeckSize := 40; maxCopiesPerName := 3; sideboardSize := Some 0 |};
  mulligan := London 1;
  actions := {| usesStack := true; illegalTargetFizzle := true;
                simultaneousTriggersOrder := ControllerChooses |};
  damage := {| lethalAt := 0; damagePersistsTurn := true |};
  tokens := {| tokensLeaveTo := LeaveGY |};
  combat := {| canBlock := false; attackerTargets := PlayerOrUnit;
               summoningSickness := true |};
  win := {| lifeZeroLoss := true; drawFromEmptyLoss := Some true |};
  resources := {| res_name := "energy"; perTurnGainBase := 1; carryOver := false;
                  maxPool := None; payment := GenericOnly;
                  res_colors := {| policy := DeckOnly;
                                   symbols := ["W"; "U"; "B"; "R"; "G"] |} |} |}.

(* ------------------------------------------------------------------ *)
(** ** engine.ts: runtime types *)

Definition PlayerIndex_eqb (a b : PlayerIndex) : bool :=
  match a, b with P0, P0 | P1, P1 => true | _, _ => false end.

Definition PlayerZone_eqb (a b : PlayerZone) : bool :=
  match a, b with
  | LIB, LIB | HAND, HAND | BF, BF | GY, GY | EXILE, EXILE => true
  | _, _ => false
  end.

Definition Phase_eqb (a b : Phase) : bool :=
  match a, b with
  | UPKEEP, UPKEEP | MAIN, MAIN | COMBAT, COMBAT | END, END => true
  | _, _ => false
  end.

(** [controller === 0 ? 1 : 0] *)
Definition other (p : PlayerIndex) : PlayerIndex :=
  match p with P0 => P1 | P1 => P0 end.

(** [who === 'SELF' ? controller : (controller === 0 ? 1 : 0)] *)
Definition resolveRef (controller : PlayerIndex) (who : PlayerRef) : PlayerIndex :=
  match who with SELF => controller | OPP => other controller end.

Definition show_player (p : PlayerIndex) : string :=
  match p with P0 => "0" | P1 => "1" end.

Definition show_phase (p : Phase) : string :=
  match p with UPKEEP => "UPKEEP" | MAIN => "MAIN" | COMBAT => "COMBAT" | END => "END" end.

Definition show_event (e : CountedEvent) : string :=
  match e with UnitDied => "UnitDied" | TokenCreated => "TokenCreated"
             | SpellCast => "SpellCast" end.

Definition show_repl (w : ReplWhen) : string :=
  match w with WouldDie => "WouldDie" | WouldBeDamaged => "WouldBeDamaged"
             | WouldDraw => "WouldDraw" end.

Record RuntimeCard := mkRC {
  rc_id : string;
  rc_owner : PlayerIndex;
  rc_card : Card;
  rc_zone : PlayerZone;
  rc_damage : Z;
  turnEntered : option Z;
  isToken : option bool;
  tapped : option bool;
  counters : option (JsMap.t Z);
  bonusAtkPerm : option Z;
  bonusHpPerm : option Z;
  bonusAtkEOT : option Z;
  bonusHpEOT : option Z;
  transformPerm : option (Z * Z);
  transformEOT : option (Z * Z) }.

Definition set_rc_owner (o : PlayerIndex) (rc : RuntimeCard) : RuntimeCard :=
  mkRC (rc_id rc) o (rc_card rc) (rc_zone rc) (rc_damage rc) (turnEntered rc)
       (isToken rc) (tapped rc) (counters rc) (bonusAtkPerm rc) (bonusHpPerm rc)
       (bonusAtkEOT rc) (bonusHpEOT rc) (transformPerm rc) (transformEOT rc).
Definition set_rc_zone (z : PlayerZone) (rc : RuntimeCard) : RuntimeCard :=
  mkRC (rc_id rc) (rc_owner rc) (rc_card rc) z (rc_damage rc) (turnEntered rc)
       (isToken rc) (tapped rc) (counters rc) (bonusAtkPerm rc) (bonusHpPerm rc)
       (bonusAtkEOT rc) (bonusHpEOT rc) (transformPerm rc) (transformEOT rc).
Definition set_rc_damage (d : Z) (rc : RuntimeCard) : RuntimeCard :=
  mkRC (rc_id rc) (rc_owner rc) (rc_card rc) (rc_zone rc) d (turnEntered rc)
       (isToken rc) (tapped rc) (counters rc) (bonusAtkPerm rc) (bonusHpPerm rc)
       (bonusAtkEOT rc) (bonusHpEOT rc) (transformPerm rc) (transformEOT rc).
Definition set_turnEntered (t : option Z) (rc : RuntimeCard) : RuntimeCard :=
  mkRC (rc_id rc) (rc_owner rc) (rc_card rc) (rc_zone rc) (rc_damage rc) t
       (isToken rc) (tapped rc) (counters rc) (bonusAtkPerm rc) (bonusHpPerm rc)
       (bonusAtkEOT rc) (bonusHpEOT rc) (transformPerm rc) (transformEOT rc).
Definition set_tapped (t : option bool) (rc : RuntimeCard) : RuntimeCard :=
  mkRC (rc_id rc) (rc_owner rc) (rc_card rc) (rc_zone rc) (rc_damage rc) (turnEntered rc)
       (isToken rc) t (counters rc) (bonusAtkPerm rc) (bonusHpPerm rc)
       (bonusAtkEOT rc) (bonusHpEOT rc) (transformPerm rc) (transformEOT rc).
Definition set_counters (c : option (JsMap.t Z)) (rc : RuntimeCard) : RuntimeCard :=
  mkRC (rc_id rc) (rc_owner rc) (rc_card rc) (rc_zone rc) (rc_damage rc) (turnEntered rc)
       (isToken rc) (tapped rc) c (bonusAtkPerm rc) (bonusHpPerm rc)
       (bonusAtkEOT rc) (bonusHpEOT rc) (transformPerm rc) (transformEOT rc).
Definition set_bonusPerm (a h : option Z) (rc : RuntimeCard) : RuntimeCard :=
  mkRC (rc_id rc) (rc_owner rc) (rc_card rc) (rc_zone rc) (rc_damage rc) (turnEntered rc)
       (isToken rc) (tapped rc) (counters rc) a h
       (bonusAtkEOT rc) (bonusHpEOT rc) (transformPerm rc) (transformEOT rc).
Definition set_bonusEOT (a h : option Z) (rc : RuntimeCard) : RuntimeCard :=
  mkRC (rc_id rc) (rc_owner rc) (rc_card rc) (rc_zone rc) (rc_damage rc) (turnEntered rc)
       (isToken rc) (tapped rc) (counters rc) (bonusAtkPerm rc) (bonusHpPerm rc)
       a h (transformPerm rc) (transformEOT rc).
Definition set_transformPerm (t : option (Z * Z)) (rc : RuntimeCard) : RuntimeCard :=
  mkRC (rc_id rc) (rc_owner rc) (rc_card rc) (rc_zone rc) (rc_damage rc) (turnEntered rc)
       (isToken rc) (tapped rc) (counters rc) (bonusAtkPerm rc) (bonusHpPerm rc)
       (bonusAtkEOT rc) (bonusHpEOT rc) t (transformEOT rc).
Definition set_transformEOT (t : option (Z * Z)) (rc : RuntimeCard) : RuntimeCard :=
  mkRC (rc_id rc) (rc_owner rc) (rc_card rc) (rc_zone rc) (rc_damage rc) (turnEntered rc)
       (isToken rc) (tapped rc) (counters rc) (bonusAtkPerm rc) (bonusHpPerm rc)
       (bonusAtkEOT rc) (bonusHpEOT rc) (transformPerm rc) t.

Record DeckEntry := mkDeckEntry { de_card : Card; de_count : Z }.
Record RawDeck := mkRawDeck { raw_name : option string; raw_cards : list DeckEntry }.
Record LoadedDeck := mkLoadedDeck { deck_name : option string; deck_list : list RuntimeCard }.

Record PlayerState := mkPlayer {
  idx : PlayerIndex;
  p_name : string;
  life : Z;
  ap : Z;
  colorPool : option (JsMap.t Z);
  library : list string;            (* top is the end of the list *)
  hand : list string;
  battlefield : list string;
  graveyard : list string;
  exile : list string;
  mulligansTaken : Z }.

Definition set_life (v : Z) (p : PlayerState) : PlayerState :=
  mkPlayer (idx p) (p_name p) v (ap p) (colorPool p) (library p) (hand p)
           (battlefield p) (graveyard p) (exile p) (mulligansTaken p).
Definition set_ap (v : Z) (p : PlayerState) : PlayerState :=
  mkPlayer (idx p) (p_name p) (life p) v (colorPool p) (library p) (hand p)
           (battlefield p) (graveyard p) (exile p) (mulligansTaken p).
Definition set_colorPool (v : option (JsMap.t Z)) (p : PlayerState) : PlayerState :=
  mkPlayer (idx p) (p_name p) (life p) (ap p) v (library p) (hand p)
           (battlefield p) (graveyard p) (exile p) (mulligansTaken p).
Definition set_mulligansTaken (v : Z) (p : PlayerState) : PlayerState :=
  mkPlayer (idx p) (p_name p) (life p) (ap p) (colorPool p) (library p) (hand p)
           (battlefield p) (graveyard p) (exile p) v.

Definition getZoneArray (p : PlayerState) (zone : PlayerZone) : list string :=
  match zone with
  | LIB => library p
  | HAND => hand p
  | BF => battlefield p
  | GY => graveyard p
  | EXILE => exile p
  end.

(** The array [getZoneArray(p, zone)] is replaced by [l]. *)
Definition setZoneArray (zone : PlayerZone) (l : list string) (p : PlayerState) : PlayerState :=
  match zone with
  | LIB => mkPlayer (idx p) (p_name p) (life p) (ap p) (colorPool p) l (hand p)
                    (battlefield p) (graveyard p) (exile p) (mulligansTaken p)
  | HAND => mkPlayer (idx p) (p_name p) (life p) (ap p) (colorPool p) (library p) l
                     (battlefield p) (graveyard p) (exile p) (mulligansTaken p)
  | BF => mkPlayer (idx p) (p_name p) (life p) (ap p) (colorPool p) (library p) (hand p)
                   l (graveyard p) (exile p) (mulligansTaken p)
  | GY => mkPlayer (idx p) (p_name p) (life p) (ap p) (colorPool p) (library p) (hand p)
                   (battlefield p) l (exile p) (mulligansTaken p)
  | EXILE => mkPlayer (idx p) (p_name p) (life p) (ap p) (colorPool p) (library p) (hand p)
                      (battlefield p) (graveyard p) l (mulligansTaken p)
  end.

Definition PLAYER_ZONES : list PlayerZone := [LIB; HAND; BF; GY; EXILE].

Record Turn := mkTurn { number : Z; active : PlayerIndex; phase : Phase }.

Record StackItem := mkStackItem {
  st_controller : PlayerIndex;
  st_sourceId : string;
  st_effect : Effect;
  st_targets : option (list string) }.

Record GameState := mkState {
  rules : GameRules;
  players : PlayerState * PlayerState;
  cards : JsMap.t RuntimeCard;
  turn : Turn;
  stack : list StackItem;
  winner : option PlayerIndex;
  preventEOT : JsMap.t Z;
  preventPERM : JsMap.t Z;
  controlRevertEOT : JsMap.t PlayerIndex;
  eventsTurn : JsMap.t Z;
  eventsGame : JsMap.t Z;
  triggerUseTurn : JsMap.t Z;
  triggerUseGame : JsMap.t Z;
  replUseTurn : JsMap.t Z;
  replUseGame : JsMap.t Z;
  log : list string;
  nextId : nat                       (* the module-level [let nextId] *) }.

Definition set_players (v : PlayerState * PlayerState) (s : GameState) : GameState :=
  mkState (rules s) v (cards s) (turn s) (stack s) (winner s) (preventEOT s)
          (preventPERM s) (controlRevertEOT s) (eventsTurn s) (eventsGame s)
          (triggerUseTurn s) (triggerUseGame s) (replUseTurn s) (replUseGame s)
          (log s) (nextId s).
Definition set_cards (v : JsMap.t RuntimeCard) (s : GameState) : GameState :=
  mkState (rules s) (players s) v (turn s) (stack s) (winner s) (preventEOT s)
          (preventPERM s) (controlRevertEOT s) (eventsTurn s) (eventsGame s)
          (triggerUseTurn s) (triggerUseGame s) (replUseTurn s) (replUseGame s)
          (log s) (nextId s).
Definition set_turn (v : Turn) (s : GameState) : GameState :=
  mkState (rules s) (players s) (cards s) v (stack s) (winner s) (preventEOT s)
          (preventPERM s) (controlRevertEOT s) (eventsTurn s) (eventsGame s)
          (triggerUseTurn s) (triggerUseGame s) (replUseTurn s) (replUseGame s)
          (log s) (nextId s).
Definition set_winner (v : option PlayerIndex) (s : GameState) : GameState :=
  mkState (rules s) (players s) (cards s) (turn s) (stack s) v (preventEOT s)
          (preventPERM s) (controlRevertEOT s) (eventsTurn s) (eventsGame s)
          (triggerUseTurn s) (triggerUseGame s) (replUseTurn s) (replUseGame s)
          (log s) (nextId s).
Definition set_preventEOT (v : JsMap.t Z) (s : GameState) : GameState :=
  mkState (rules s) (players s) (cards s) (turn s) (stack s) (winner s) v
          (preventPERM s) (controlRevertEOT s) (eventsTurn s) (eventsGame s)
          (triggerUseTurn s) (triggerUseGame s) (replUseTurn s) (replUseGame s)
          (log s) (nextId s).
Definition set_preventPERM (v : JsMap.t Z) (s : GameState) : GameState :=
  mkState (rules s) (players s) (cards s) (turn s) (stack s) (winner s) (preventEOT s)
          v (controlRevertEOT s) (eventsTurn s) (eventsGame s)
          (triggerUseTurn s) (triggerUseGame s) (replUseTurn s) (replUseGame s)
          (log s) (nextId s).
Definition set_controlRevertEOT (v : JsMap.t PlayerIndex) (s : GameState) : GameState :=
  mkState (rules s) (players s) (cards s) (turn s) (stack s) (winner s) (preventEOT s)
          (preventPERM s) v (eventsTurn s) (eventsGame s)
          (triggerUseTurn s) (triggerUseGame s) (replUseTurn s) (replUseGame s)
          (log s) (nextId s).
Definition set_eventsTurn (v : JsMap.t Z) (s : GameState) : GameState :=
  mkState (rules s) (players s) (cards s) (turn s) (stack s) (winner s) (preventEOT s)
          (preventPERM s) (controlRevertEOT s) v (eventsGame s)
          (triggerUseTurn s) (triggerUseGame s) (replUseTurn s) (replUseGame s)
          (log s) (nextId s).
Definition set_eventsGame (v : JsMap.t Z) (s : GameState) : GameState :=
  mkState (rules s) (players s) (cards s) (turn s) (stack s) (winner s) (preventEOT s)
          (preventPERM s) (controlRevertEOT s) (eventsTurn s) v
          (triggerUseTurn s) (triggerUseGame s) (replUseTurn s) (replUseGame s)
          (log s) (nextId s).
Definition set_triggerUseTurn (v : JsMap.t Z) (s : GameState) : GameState :=
  mkState (rules s) (players s) (cards s) (turn s) (stack s) (winner s) (preventEOT s)
          (preventPERM s) (controlRevertEOT s) (eventsTurn s) (eventsGame s)
          v (triggerUseGame s) (replUseTurn s) (replUseGame s)
          (log s) (nextId s).
Definition set_triggerUseGame (v : JsMap.t Z) (s : GameState) : GameState :=
  mkState (rules s) (players s) (cards s) (turn s) (stack s) (winner s) (preventEOT s)
          (preventPERM s) (controlRevertEOT s) (eventsTurn s) (eventsGame s)
          (triggerUseTurn s) v (replUseTurn s) (replUseGame s)
          (log s) (nextId s).
Definition set_replUseTurn (v : JsMap.t Z) (s : GameState) : GameState :=
  mkState (rules s) (players s) (cards s) (turn s) (stack s) (winner s) (preventEOT s)
          (preventPERM s) (controlRevertEOT s) (eventsTurn s) (eventsGame s)
          (triggerUseTurn s) (triggerUseGame s) v (replUseGame s)
          (log s) (nextId s).
Definition set_replUseGame (v : JsMap.t Z) (s : GameState) : GameState :=
  mkState (rules s) (players s) (cards s) (turn s) (stack s) (winner s) (preventEOT s)
          (preventPERM s) (controlRevertEOT s) (eventsTurn s) (eventsGame s)
          (triggerUseTurn s) (triggerUseGame s) (replUseTurn s) v
          (log s) (nextId s).
Definition set_log (v : list string) (s : GameState) : GameState :=
  mkState (rules s) (players s) (cards s) (turn s) (stack s) (winner s) (preventEOT s)
          (preventPERM s) (controlRevertEOT s) (eventsTurn s) (eventsGame s)
          (triggerUseTurn s) (triggerUseGame s) (replUseTurn s) (replUseGame s)
          v (nextId s).
Definition set_nextId (v : nat) (s : GameState) : GameState :=
  mkState (rules s) (players s) (cards s) (turn s) (stack s) (winner s) (preventEOT s)
          (preventPERM s) (controlRevertEOT s) (eventsTurn s) (eventsGame s)
          (triggerUseTurn s) (triggerUseGame s) (replUseTurn s) (replUseGame s)
          (log s) v.

(** [s.players[pid]] *)
Definition player (s : GameState) (pid : PlayerIndex) : PlayerState :=
  match pid with P0 => fst (players s) | P1 => snd (players s) end.

Definition upd_player (pid : PlayerIndex) (f : PlayerState -> PlayerState)
  (s : GameState) : GameState :=
  match pid with
  | P0 => set_players (f (fst (players s)), snd (players s)) s
  | P1 => set_players (fst (players s), f (snd (players s))) s
  end.

(** A field of the card object registered under [id] is assigned. *)
Definition upd_card (id : string) (f : RuntimeCard -> RuntimeCard) (s : GameState) : GameState :=
  set_cards (JsMap.upd id f (cards s)) s.

Definition hasKeyword (rc : RuntimeCard) (k : string) : bool :=
  match keywords (rc_card rc) with Some ks => includes_str k ks | None => false end.

(** [makeId()]: the id made from the counter value [n]. *)
Definition makeId (n : nat) : string := "C" ++ show_nat n.

(* ------------------------------------------------------------------ *)
(** ** Reads that may not return, and the state-passing monad *)

Definition obind {A B} (o : option A) (k : A -> option B) : option B :=
  match o with Some a => k a | None => None end.

Notation "'let?' x ':=' c 'in' k" := (obind c (fun x => k))
  (at level 10, x name, c at level 100, k at level 200).

(** [arr.filter(f)], [arr.find(f)], [arr.every(f)] and [arr.some(f)] for a
    callback that may not return. *)
Fixpoint filterO {A} (f : A -> option bool) (l : list A) : option (list A) :=
  match l with
  | [] => Some []
  | x :: r =>
      let? b := f x in
      let? r' := filterO f r in
      Some (if b then x :: r' else r')
  end.

Fixpoint findO {A} (f : A -> option bool) (l : list A) : option (option A) :=
  match l with
  | [] => Some None
  | x :: r => let? b := f x in if b then Some (Some x) else findO f r
  end.

Fixpoint everyO {A} (f : A -> option bool) (l : list A) : option bool :=
  match l with
  | [] => Some true
  | x :: r => let? b := f x in if b then everyO f r else Some false
  end.

Fixpoint someO {A} (f : A -> option bool) (l : list A) : option bool :=
  match l with
  | [] => Some false
  | x :: r => let? b := f x in if b then Some true else someO f r
  end.

(** A computation on the one mutable [GameState]. *)
Definition M (A : Type) : Type := GameState -> option (A * GameState).

Definition ret {A} (a : A) : M A := fun s => Some (a, s).
Definition bind {A B} (m : M A) (k : A -> M B) : M B :=
  fun s => match m s with Some (a, s') => k a s' | None => None end.
Definition fail {A} : M A := fun _ => None.
Definition getS : M GameState := fun s => Some (s, s).
Definition modify (f : GameState -> GameState) : M unit := fun s => Some (tt, f s).
(** A read of the state that may not return. *)
Definition readO {A} (f : GameState -> option A) : M A :=
  fun s => match f s with Some a => Some (a, s) | None => None end.

Notation "x <- c1 ;; c2" := (bind c1 (fun x => c2))
  (at level 61, c1 at next level, right associativity).
Notation "c1 ;;; c2" := (bind c1 (fun _ => c2))
  (at level 61, right associativity).

(** [for (const x of l) f(x)] *)
Fixpoint forM {A} (l : list A) (f : A -> M unit) : M unit :=
  match l with
  | [] => ret tt
  | x :: r => f x ;;; forM r f
  end.

(** [for (let i = 0; i < n; i++) body] *)
Fixpoint times (n : nat) (body : M unit) : M unit :=
  match n with
  | O => ret tt
  | S k => body ;;; times k body
  end.

Definition when_ (b : bool) (m : M unit) : M unit := if b then m else ret tt.

Definition pushLog (msg : string) : M unit :=
  modify (fun s => set_log (log s ++ [msg]) s).

(* ------------------------------------------------------------------ *)
(** ** Evaluator: values, metrics, predicates, target legality

    [matchesPredicate] reaches itself through [evalMetric],
    [getEffectiveBaseStats], [getStaticBuffBonus] and [isLegalTarget] on
    the filters of the static buffs in play, so the recursion is not on the
    predicate alone: the functions below take the recursive evaluator as
    [matches_rec], and [matchesPredicate] closes the knot on a fuel. *)

Section Evaluator.
Variable matches_rec :
  GameState -> PlayerIndex -> option string -> string -> option Predicate -> option bool.

Definition isLegalTarget (s : GameState) (controller : PlayerIndex) (sel : Selector)
  (id : string) (selfId : option string) : option bool :=
  match JsMap.get id (cards s) with
  | None => Some false
  | Some rc =>
      let ownerOk :=
        match sel_owner sel with
        | Some r => PlayerIndex_eqb (rc_owner rc) (resolveRef controller r)
        | None => true
        end in
      if negb ownerOk then Some false else
      let zoneOk :=
        match sel_zone sel with
        | Some (PZ z) => PlayerZone_eqb z (rc_zone rc)
        | Some STACK => false
        | None => PlayerZone_eqb BF (rc_zone rc)
        end in
      if negb zoneOk then Some false else
      let? predOk :=
        match sel_filter sel with
        | Some f => matches_rec s controller selfId id (Some f)
        | None => Some true
        end in
      if negb predOk then Some false else
      if hasKeyword rc "Hexproof" && negb (PlayerIndex_eqb (rc_owner rc) controller)
      then Some false else Some true
  end.

Definition listContinuousEffects (s : GameState) : list (RuntimeCard * ContinuousEffect) :=
  flat_map (fun rc =>
              if PlayerZone_eqb (rc_zone rc) BF
              then map (fun eff => (rc, eff))
                       (match continuous (textIR (rc_card rc)) with
                        | Some l => l | None => [] end)
              else [])
           (JsMap.values (cards s)).

Fixpoint staticBuffLoop (s : GameState) (targetId : string)
  (l : list (RuntimeCard * ContinuousEffect)) (acc : Z * Z) : option (Z * Z) :=
  match l with
  | [] => Some acc
  | (host, eff) :: r =>
      match eff with
      | StaticBuff target a h =>
          let? ok := isLegalTarget s (rc_owner host) target targetId (Some (rc_id host)) in
          staticBuffLoop s targetId r
            (if ok then (fst acc + or0 a, snd acc + or0 h) else acc)
      | CostModifier _ _ _ => staticBuffLoop s targetId r acc
      end
  end.

Definition getStaticBuffBonus (s : GameState) (targetId : string) : option (Z * Z) :=
  staticBuffLoop s targetId (listContinuousEffects s) (0, 0).

Definition getEffectiveBaseStats (s : GameState) (rc : RuntimeCard) : option (Z * Z) :=
  let baseAtk := match stats (rc_card rc) with Some st => fst st | None => 0 end in
  let baseHp := match stats (rc_card rc) with Some st => snd st | None => 0 end in
  let core :=
    match transformEOT rc with
    | Some eot => eot
    | None => match transformPerm rc with
              | Some perm => perm
              | None => (baseAtk, baseHp)
              end
    end in
  let? buff := getStaticBuffBonus s (rc_id rc) in
  Some (fst core + fst buff, snd core + snd buff).

(** [stats.atk + (rc.bonusAtkPerm || 0) + (rc.bonusAtkEOT || 0)] and the
    same for hit points, as the engine writes it at every use. *)
Definition effAtk (st : Z * Z) (rc : RuntimeCard) : Z :=
  fst st + or0 (bonusAtkPerm rc) + or0 (bonusAtkEOT rc).
Definition effHpMax (st : Z * Z) (rc : RuntimeCard) : Z :=
  snd st + or0 (bonusHpPerm rc) + or0 (bonusHpEOT rc).

Definition evalMetric (s : GameState) (controller : PlayerIndex)
  (selfId targetId : option string) (m : Metric) : option Z :=
  match m with
  | MConst n => Some n
  | Life who => Some (life (player s (resolveRef controller who)))
  | BoardCount who tag zone =>
      let p := player s (resolveRef controller who) in
      match zone with
      | Some STACK => Some 0
      | _ =>
          let ids := match zone with
                     | Some (PZ z) => getZoneArray p z
                     | _ => battlefield p
                     end in
          match tag with
          | None | Some EmptyString => Some (Z.of_nat (List.length ids))
          | Some t =>
              Some (Z.of_nat (List.length
                (filter (fun id => match JsMap.get id (cards s) with
                                   | Some rc => includes_str t (tags (rc_card rc))
                                   | None => false
                                   end) ids)))
          end
      end
  | CardStat stat whose =>
      match nonempty_id (match whose with Self => selfId | Target => targetId end) with
      | None => Some 0
      | Some id =>
          match JsMap.get id (cards s) with
          | None => Some 0
          | Some rc =>
              match stats (rc_card rc) with
              | None => Some 0
              | Some _ =>
                  let? st := getEffectiveBaseStats s rc in
                  Some (match stat with
                        | ATK => effAtk st rc
                        | HP => Z.max 0 (effHpMax st rc - rc_damage rc)
                        end)
              end
          end
      end
  end.

Definition evalValue (s : GameState) (controller : PlayerIndex)
  (selfId targetId : option string) (v : Value) : option Z :=
  match v with
  | VConst n => Some n
  | Clamp lo hi m =>
      let? raw := evalMetric s controller selfId targetId m in
      Some (Z.min hi (Z.max lo raw))
  end.

(** [subjId ? s.cards.get(subjId) : undefined] with
    [subjId = (pred.in === 'Self') ? selfId : targetId]. *)
Definition subject (s : GameState) (selfId : option string) (targetId : string)
  (pin : option CardRef) : option RuntimeCard :=
  match nonempty_id (match pin with Some Self => selfId | _ => Some targetId end) with
  | Some id => JsMap.get id (cards s)
  | None => None
  end.

Definition matchesPredicate_body (s : GameState) (controller : PlayerIndex)
  (selfId : option string) (targetId : string) (pred : option Predicate) : option bool :=
  match pred with
  | None => Some true
  | Some PTrue => Some true
  | Some (HasTag tag pin) =>
      Some (match subject s selfId targetId pin with
            | Some rc => includes_str tag (tags (rc_card rc))
            | None => false
            end)
  | Some (HasAttribute attr value pin) =>
      Some (match subject s selfId targetId pin with
            | Some rc =>
                match attributes (rc_card rc) with
                | Some attrs => match JsMap.get attr attrs with
                                | Some v => String.eqb v value
                                | None => false
                                end
                | None => false
                end
            | None => false
            end)
  | Some (HasName mode txt pin) =>
      Some (match subject s selfId targetId pin with
            | Some rc =>
                let name := card_name (rc_card rc) in
                match mode with
                | Exact => String.eqb name txt
                | Prefix => String.prefix txt name
                | Contains => str_includes txt name
                end
            | None => false
            end)
  | Some (IsToken pin) =>
      Some (match subject s selfId targetId pin with
            | Some rc => truthy (isToken rc)
            | None => false
            end)
  | Some (WasSummonedThisTurn pin) =>
      Some (match subject s selfId targetId pin with
            | Some rc => match turnEntered rc with
                         | Some t => t =? number (turn s)
                         | None => false
                         end
            | None => false
            end)
  | Some (HasCounter counter atLeast pin) =>
      Some (match subject s selfId targetId pin with
            | Some rc =>
                let cur := match counters rc with
                           | Some cs => or0 (JsMap.get counter cs)
                           | None => 0
                           end in
                atLeast <=? cur
            | None => false
            end)
  | Some (ControllerIs who pin) =>
      Some (match subject s selfId targetId pin with
            | Some rc => PlayerIndex_eqb (rc_owner rc) (resolveRef controller who)
            | None => false
            end)
  | Some (EventOccurred event who since atLeast) =>
      let whoPid := match who with
                    | None => controller
                    | Some r => resolveRef controller r
                    end in
      let key := (show_event event ++ ":" ++ show_player whoPid)%string in
      let turnCount := or0 (JsMap.get key (eventsTurn s)) in
      let gameCount := or0 (JsMap.get key (eventsGame s)) in
      let count := match since with TURN => turnCount | GAME => gameCount end in
      Some (atLeast <=? count)
  | Some (Cmp l op r) =>
      let? lv := evalMetric s controller selfId (Some targetId) l in
      let? rv := evalMetric s controller selfId (Some targetId) r in
      Some (match op with
            | CmpGe => rv <=? lv
            | CmpGt => rv <? lv
            | CmpLe => lv <=? rv
            | CmpLt => lv <? rv
            | CmpEq => lv =? rv
            | CmpNe => negb (lv =? rv)
            end)
  | Some (PAnd items) =>
      everyO (fun p => matches_rec s controller selfId targetId (Some p)) items
  | Some (POr items) =>
      someO (fun p => matches_rec s controller selfId targetId (Some p)) items
  | Some (PNot item) =>
      let? b := matches_rec s controller selfId targetId (Some item) in
      Some (negb b)
  end.
End Evaluator.

Fixpoint matchesPredicate (fuel : nat) (s : GameState) (controller : PlayerIndex)
  (selfId : option string) (targetId : string) (pred : option Predicate) : option bool :=
  match fuel with
  | O => None
  | S n => matchesPredicate_body (matchesPredicate n) s controller selfId targetId pred
  end.

(* ------------------------------------------------------------------ *)
(** ** Planner: from an effect to a list of primitive operations *)

Record TrigCtx := mkCtx {
  subjectId : option string;
  subjectPlayer : option PlayerIndex;
  ctx_sourceId : option string;
  forPlayer : option PlayerIndex }.

(** The chosen part of a [LookAtTop] operation: keep, moveRestTo, reveal. *)
Record OpChoose := mkOpChoose {
  oc_keep : Z;
  oc_moveRestTo : PlayerZone;
  oc_reveal : option bool }.

Inductive Operation :=
| Log (msg : string)
| FireTriggers (when : TriggerWhen) (ctx : TrigCtx)
| ResolveEffectOp (controller : PlayerIndex) (sourceId : option string)
                  (effect : Effect) (targets : option (list string))
| DealDamageMany (targets : list string) (amount : Z) (sourceId : option string)
| PreventDamageMany (targets : list string) (amount : Z) (duration : Duration)
| HealMany (targets : list string) (amount : Z)
| OpDraw (pid : PlayerIndex) (n : Z)
| OpMill (pid : PlayerIndex) (n : Z)
| OpLookAtTop (pid : PlayerIndex) (n : Z) (choose : option OpChoose)
| OpCreateToken (pid : PlayerIndex) (atk hp : Z) (tags : option (list string))
                (attributes : option (list (string * string)))
| AddCounterMany (targets : list string) (counter : string) (n : Z) (max : option Z)
| RemoveCounterMany (targets : list string) (counter : string) (n : Z)
| BuffMany (targets : list string) (atkDelta hpDelta : Z) (duration : Duration)
| MoveMany (targets : list string) (dest : PlayerZone)
| ChangeControllerMany (targets : list string) (newOwner : PlayerIndex) (duration : Duration)
| TransformMany (targets : list string) (into : Z * Z) (duration : option Duration)
| CopyStatsToMany (targets : list string) (toAtk toHp : Z) (duration : Duration)
| SetPhase (ph : Phase)
| TurnStart
| EndTurn
| IncTriggerUsage (key : string) (per : Per)
| IncReplacementUsage (key : string) (per : Per)
| IncEvent (event : CountedEvent) (who : PlayerIndex)
| SpendAP (pid : PlayerIndex) (amount : Z)
| SpendColors (pid : PlayerIndex) (colors : JsMap.t Z)
| SetTurnEntered (id : string) (t : Z)
| SetTapped (id : string) (b : bool)
| DamagePlayer (pid : PlayerIndex) (amount : Z) (sourceId : option string)
| CheckPlayers.

Definition TriggerWhen_eqb (a b : TriggerWhen) : bool :=
  match a, b with
  | OnCast, OnCast | OnEnter, OnEnter | OnAttack, OnAttack
  | OnDamageDealt, OnDamageDealt | OnDeath, OnDeath
  | OnTokenCreated, OnTokenCreated | OnDraw, OnDraw
  | OnUpkeepStart, OnUpkeepStart | OnNameMatched, OnNameMatched => true
  | _, _ => false
  end.

Definition ReplWhen_eqb (a b : ReplWhen) : bool :=
  match a, b with
  | WouldDie, WouldDie | WouldBeDamaged, WouldBeDamaged | WouldDraw, WouldDraw => true
  | _, _ => false
  end.

(** The elements of a list with their indices from [i]. *)
Fixpoint indexed {A} (i : nat) (l : list A) : list (nat * A) :=
  match l with
  | [] => []
  | x :: r => (i, x) :: indexed (S i) r
  end.

(** [for (const x of l) ops.push(...f(x))] *)
Fixpoint concatM {A B} (f : A -> M (list B)) (l : list A) : M (list B) :=
  match l with
  | [] => ret []
  | x :: r => a <- f x ;; b <- concatM f r ;; ret (a ++ b)
  end.

(** [for (let i = 0; i < n; i++) ops.push(...m)] *)
Fixpoint repeatM {B} (n : nat) (m : M (list B)) : M (list B) :=
  match n with
  | O => ret []
  | S k => a <- m ;; b <- repeatM k m ;; ret (a ++ b)
  end.

Section Planner.
Variable fuel : nat.
Variable planEffect_rec :
  PlayerIndex -> option string -> Effect -> option (list string) -> M (list Operation).

Definition selectTargets (controller : PlayerIndex) (sel : Selector) : M (list string) :=
  match sel_zone sel with
  | Some STACK =>
      pushLog "Selector with zone=STACK unsupported; ignoring." ;;; ret []
  | z =>
      let zone := match z with Some (PZ z') => z' | _ => BF end in
      let keep (p : PlayerState) :=
        match sel_owner sel with
        | Some r => PlayerIndex_eqb (idx p) (resolveRef controller r)
        | None => true
        end in
      pool <- readO (fun s =>
        let from (p : PlayerState) :=
          if keep p
          then filterO (fun id =>
                 match sel_filter sel with
                 | Some f => matchesPredicate fuel s controller None id (Some f)
                 | None => Some true
                 end) (getZoneArray p zone)
          else Some [] in
        let? a := from (player s controller) in
        let? b := from (player s (other controller)) in
        Some (a ++ b)) ;;
      ret (match sel_max sel with Some m => slice0 pool m | None => pool end)
  end.

(** The two lines every targeted effect starts with: the chosen targets
    when some were given, else a selection; then the legality filter. *)
Definition legalTargets (controller : PlayerIndex) (sel : Selector)
  (sourceId : option string) (chosenTargets : option (list string)) : M (list string) :=
  initial <- match chosenTargets with
             | Some (x :: r) => ret (x :: r)
             | _ => selectTargets controller sel
             end ;;
  readO (fun s =>
    filterO (fun id => isLegalTarget (matchesPredicate fuel) s controller sel id sourceId)
            initial).

(** [targets.length === 0 && s.rules.actions.illegalTargetFizzle] *)
Definition fizzle (targets : list string) : M bool :=
  s <- getS ;;
  ret (match targets with
       | [] => illegalTargetFizzle (actions (rules s))
       | _ => false
       end).

Definition valueAt (controller : PlayerIndex) (sourceId targetId : option string)
  (v : Value) : M Z :=
  readO (fun s => evalValue (matchesPredicate fuel) s controller sourceId targetId v).

Definition holds (controller : PlayerIndex) (sourceId : option string) (p : Predicate)
  : M bool :=
  readO (fun s =>
    matchesPredicate fuel s controller sourceId
      (match nonempty_id sourceId with Some i => i | None => "" end) (Some p)).

Fixpoint firstBranch (controller : PlayerIndex) (sourceId : option string)
  (chosenTargets : option (list string)) (branches : list (Predicate * Effect))
  (elseE : option Effect) : M (list Operation) :=
  match branches with
  | [] => match elseE with
          | Some e => planEffect_rec controller sourceId e chosenTargets
          | None => ret []
          end
  | (w, d) :: r =>
      b <- holds controller sourceId w ;;
      if b then planEffect_rec controller sourceId d chosenTargets
      else firstBranch controller sourceId chosenTargets r elseE
  end.

Definition planEffect_body (controller : PlayerIndex) (sourceId : option string)
  (eff : Effect) (chosenTargets : option (list string)) : M (list Operation) :=
  match eff with
  | DealDamage target amount =>
      targets <- legalTargets controller target sourceId chosenTargets ;;
      fz <- fizzle targets ;;
      if fz then ret [Log "Effect DealDamage fizzles (no legal targets)."] else
      n <- valueAt controller sourceId (hd_error targets) amount ;;
      ret [DealDamageMany targets n sourceId]
  | PreventDamage target amount duration =>
      targets <- legalTargets controller target sourceId chosenTargets ;;
      fz <- fizzle targets ;;
      if fz then ret [Log "Effect PreventDamage fizzles (no legal targets)."] else
      n <- valueAt controller sourceId (hd_error targets) amount ;;
      ret [PreventDamageMany targets n duration]
  | Heal target amount =>
      targets <- legalTargets controller target sourceId chosenTargets ;;
      fz <- fizzle targets ;;
      if fz then ret [Log "Effect Heal fizzles (no legal targets)."] else
      n <- valueAt controller sourceId (hd_error targets) amount ;;
      ret [HealMany targets n]
  | Draw who n =>
      k <- valueAt controller sourceId None n ;;
      ret [OpDraw (resolveRef controller who) k]
  | Mill who n =>
      k <- valueAt controller sourceId None n ;;
      ret [OpMill (resolveRef controller who) k]
  | LookAtTop who n choose =>
      ret [OpLookAtTop (resolveRef controller who) n
             (match choose with
              | Some c => match ch_moveRestTo c with
                          | PZ z => Some (mkOpChoose (ch_keep c) z (ch_reveal c))
                          | STACK => None
                          end
              | None => None
              end)]
  | CreateToken who atk hp tgs attrs =>
      ret [OpCreateToken (resolveRef controller who) atk hp tgs attrs]
  | AddCounter target counter n mx =>
      targets <- legalTargets controller target sourceId chosenTargets ;;
      fz <- fizzle targets ;;
      if fz then ret [Log "Effect AddCounter fizzles (no legal targets)."] else
      k <- valueAt controller sourceId (hd_error targets) n ;;
      ret [AddCounterMany targets counter (Z.max 0 k) mx]
  | RemoveCounter target counter n =>
      targets <- legalTargets controller target sourceId chosenTargets ;;
      fz <- fizzle targets ;;
      if fz then ret [Log "Effect RemoveCounter fizzles (no legal targets)."] else
      k <- valueAt controller sourceId (hd_error targets) n ;;
      ret [RemoveCounterMany targets counter (Z.max 0 k)]
  | Buff target atk hp _ =>
      targets <- legalTargets controller target sourceId chosenTargets ;;
      fz <- fizzle targets ;;
      if fz then ret [Log "Effect Buff fizzles (no legal targets)."] else
      ret [BuffMany targets (or0 atk) (or0 hp) EOT]
  | Move target dest =>
      match dest with
      | STACK => ret [Log "Move to STACK unsupported; NoOp."]
      | PZ z =>
          targets <- legalTargets controller target sourceId chosenTargets ;;
          fz <- fizzle targets ;;
          if fz then ret [Log "Effect Move fizzles (no legal targets)."] else
          ret [MoveMany targets z]
      end
  | ChangeController target newController _ =>
      targets <- legalTargets controller target sourceId chosenTargets ;;
      fz <- fizzle targets ;;
      if fz then ret [Log "Effect ChangeController fizzles (no legal targets)."] else
      ret [ChangeControllerMany targets (resolveRef controller newController) EOT]
  | Transform target into duration =>
      targets <- legalTargets controller target sourceId chosenTargets ;;
      fz <- fizzle targets ;;
      if fz then ret [Log "Effect Transform fizzles (no legal targets)."] else
      ret [TransformMany targets (sb_atk into, sb_hp into)
             (Some (match duration with Some EOT => EOT | _ => PERM end))]
  | CopyStats src dst clampAtk clampHp duration =>
      fromIds <- selectTargets controller src ;;
      srcId <- readO (fun s =>
        findO (fun id => isLegalTarget (matchesPredicate fuel) s controller src id sourceId)
              fromIds) ;;
      match nonempty_id srcId with
      | None => ret [Log "CopyStats: no valid source"]
      | Some sid =>
          s <- getS ;;
          match JsMap.get sid (cards s) with
          | None => ret [Log "CopyStats: source lacks stats"]
          | Some srcRc =>
              match stats (rc_card srcRc) with
              | None => ret [Log "CopyStats: source lacks stats"]
              | Some _ =>
                  srcStats <- readO (fun s =>
                    getEffectiveBaseStats (matchesPredicate fuel) s srcRc) ;;
                  let toAtk := Z.max (fst clampAtk) (Z.min (snd clampAtk) (effAtk srcStats srcRc)) in
                  let toHp := Z.max (fst clampHp) (Z.min (snd clampHp) (effHpMax srcStats srcRc)) in
                  sel <- selectTargets controller dst ;;
                  toIds <- readO (fun s =>
                    filterO (fun id =>
                      isLegalTarget (matchesPredicate fuel) s controller dst id sourceId) sel) ;;
                  fz <- fizzle toIds ;;
                  if fz then ret [Log "CopyStats fizzles (no legal targets)."] else
                  ret [CopyStatsToMany toIds toAtk toHp duration]
              end
          end
      end
  | Conditional cond thenE elseE =>
      b <- holds controller sourceId cond ;;
      match (if b then Some thenE else elseE) with
      | None => ret []
      | Some inner => planEffect_rec controller sourceId inner chosenTargets
      end
  | Case branches elseE =>
      firstBranch controller sourceId chosenTargets branches elseE
  | ForEach among maxTargets body =>
      sel <- selectTargets controller among ;;
      concatM (fun tid => planEffect_rec controller (Some tid) body (Some [tid]))
              (slice0 sel maxTargets)
  | Sequence steps =>
      concatM (fun step => planEffect_rec controller sourceId step chosenTargets) steps
  | Repeat n body =>
      repeatM (Z.to_nat n) (planEffect_rec controller sourceId body chosenTargets)
  | NoOp => ret []
  end.
End Planner.

Fixpoint planEffect (fuel : nat) (controller : PlayerIndex) (sourceId : option string)
  (eff : Effect) (chosenTargets : option (list string)) : M (list Operation) :=
  match fuel with
  | O => fail
  | S n => planEffect_body n (planEffect n) controller sourceId eff chosenTargets
  end.

(** [`${rc.id}#${i}`] *)
Definition usageKey (id : string) (i : nat) : string := id ++ "#" ++ show_nat i.

Definition usedCount (per : Per) (turnMap gameMap : JsMap.t Z) (key : string) : Z :=
  or0 (JsMap.get key (match per with TURN => turnMap | GAME => gameMap end)).

Definition opt_list {A} (o : option (list A)) : list A :=
  match o with Some l => l | None => [] end.

Definition planTriggers (fuel : nat) (when : TriggerWhen) (ctx : TrigCtx) : M (list Operation) :=
  s0 <- getS ;;
  concatM (fun rc =>
    concatM (fun it : nat * Trigger =>
      let (i, t) := it in
      if negb (TriggerWhen_eqb (trg_when t) when) then ret [] else
      s <- getS ;;
      let key := usageKey (rc_id rc) i in
      let used := usedCount (lim_per (trg_limit t)) (triggerUseTurn s) (triggerUseGame s) key in
      if lim_times (trg_limit t) <=? used then ret [] else
      if negb (PlayerZone_eqb (rc_zone rc) BF
               || match subjectId ctx with
                  | Some sid => String.eqb (rc_id rc) sid
                  | None => false
                  end)
      then ret [] else
      condOk <- match trg_condition t with
                | Some c =>
                    let tid := match nonempty_id (subjectId ctx) with
                               | Some i => i
                               | None => match nonempty_id (ctx_sourceId ctx) with
                                         | Some i => i
                                         | None => rc_id rc
                                         end
                               end in
                    readO (fun s => matchesPredicate fuel s (rc_owner rc) (Some (rc_id rc))
                                      tid (Some c))
                | None => ret true
                end ;;
      if negb condOk then ret [] else
      effOps <- planEffect fuel (rc_owner rc) (Some (rc_id rc)) (trg_effect t)
                  (match nonempty_id (subjectId ctx) with
                   | Some sid => Some [sid]
                   | None => None
                   end) ;;
      ret (IncTriggerUsage key (lim_per (trg_limit t)) :: effOps))
      (indexed 0 (opt_list (triggers (textIR (rc_card rc))))))
    (JsMap.values (cards s0)).

Definition listActiveReplacements (s : GameState)
  : list (RuntimeCard * ReplacementEffect * nat) :=
  flat_map (fun rc =>
              if PlayerZone_eqb (rc_zone rc) BF
              then map (fun it : nat * ReplacementEffect => (rc, snd it, fst it))
                       (indexed 0 (opt_list (replacements (textIR (rc_card rc)))))
              else [])
           (JsMap.values (cards s)).

Fixpoint replacementLoop (fuel : nat) (subjId : string)
  (l : list (RuntimeCard * ReplacementEffect * nat)) : M (list Operation) :=
  match l with
  | [] => ret []
  | (host, repl, index) :: r =>
      s <- getS ;;
      let key := usageKey (rc_id host) index in
      let used := usedCount (lim_per (repl_limit repl)) (replUseTurn s) (replUseGame s) key in
      if lim_times (repl_limit repl) <=? used then replacementLoop fuel subjId r else
      ok <- readO (fun s => isLegalTarget (matchesPredicate fuel) s (rc_owner host)
                              (repl_subject repl) subjId (Some (rc_id host))) ;;
      if negb ok then replacementLoop fuel subjId r else
      effOps <- planEffect fuel (rc_owner host) (Some (rc_id host)) (repl_instead repl)
                  (Some [subjId]) ;;
      ret (Log ("Replacement (" ++ show_repl (repl_when repl) ++ ") from "
                ++ card_name (rc_card host) ++ " applies.")
           :: IncReplacementUsage key (lim_per (repl_limit repl)) :: effOps)
  end.

Definition planReplacementForSubject (fuel : nat) (when : ReplWhen) (subjId : string)
  : M (list Operation) :=
  s <- getS ;;
  replacementLoop fuel subjId
    (filter (fun c => ReplWhen_eqb (repl_when (snd (fst c))) when) (listActiveReplacements s)).

Fixpoint wouldDrawLoop (fuel : nat) (who : PlayerIndex)
  (l : list (RuntimeCard * ReplacementEffect * nat)) : M (list Operation) :=
  match l with
  | [] => ret []
  | (host, repl, index) :: r =>
      if negb (ReplWhen_eqb (repl_when repl) WouldDraw) then wouldDrawLoop fuel who r else
      let targetPid := match sel_owner (repl_subject repl) with
                       | None => rc_owner host
                       | Some ref => resolveRef (rc_owner host) ref
                       end in
      if negb (PlayerIndex_eqb targetPid who) then wouldDrawLoop fuel who r else
      s <- getS ;;
      let key := usageKey (rc_id host) index in
      let used := usedCount (lim_per (repl_limit repl)) (replUseTurn s) (replUseGame s) key in
      if lim_times (repl_limit repl) <=? used then wouldDrawLoop fuel who r else
      effOps <- planEffect fuel (rc_owner host) (Some (rc_id host)) (repl_instead repl) None ;;
      ret (Log ("Replacement (WouldDraw) from " ++ card_name (rc_card host)
                ++ " applies to player " ++ p_name (player s who) ++ ".")
           :: IncReplacementUsage key (lim_per (repl_limit repl)) :: effOps)
  end.

Definition planWouldDrawReplacement (fuel : nat) (who : PlayerIndex) : M (list Operation) :=
  s <- getS ;;
  wouldDrawLoop fuel who (listActiveReplacements s).

(* ------------------------------------------------------------------ *)
(** ** Applier: the operations that mutate the state

    [applyOperation] is reached again from the triggers and replacements
    its own cases fire; the functions of this section take it as
    [applyOperation_rec], and [applyOperation] closes the knot on a fuel. *)

Definition removeFromAll (id : string) (p : PlayerState) : PlayerState :=
  fold_left (fun q z => setZoneArray z (remove_first id (getZoneArray q z)) q) PLAYER_ZONES p.

Definition pushZone (z : PlayerZone) (id : string) (p : PlayerState) : PlayerState :=
  setZoneArray z (getZoneArray p z ++ [id]) p.

(** [m.set(k, (m.get(k) || 0) + d)] *)
Definition bump (k : string) (d : Z) (m : JsMap.t Z) : JsMap.t Z :=
  JsMap.set k (or0 (JsMap.get k m) + d) m.

Definition eventKey (event : CountedEvent) (who : PlayerIndex) : string :=
  show_event event ++ ":" ++ show_player who.

Definition incEvent (event : CountedEvent) (who : PlayerIndex) : M unit :=
  modify (fun s => set_eventsGame (bump (eventKey event who) 1 (eventsGame s))
                     (set_eventsTurn (bump (eventKey event who) 1 (eventsTurn s)) s)).

Definition transferControl (id : string) (newOwner : PlayerIndex) : M unit :=
  s <- getS ;;
  match JsMap.get id (cards s) with
  | None => ret tt
  | Some rc =>
      if PlayerIndex_eqb (rc_owner rc) newOwner then ret tt else
      modify (upd_player (rc_owner rc) (removeFromAll id)) ;;;
      modify (upd_player newOwner (pushZone (rc_zone rc) id)) ;;;
      modify (upd_card id (set_rc_owner newOwner))
  end.

Definition healPermanent (id : string) (n : Z) : M unit :=
  s <- getS ;;
  match JsMap.get id (cards s) with
  | None => ret tt
  | Some rc =>
      match stats (rc_card rc) with
      | None => ret tt
      | Some _ =>
          let d := Z.max 0 (rc_damage rc - n) in
          modify (upd_card id (set_rc_damage d)) ;;;
          pushLog (card_name (rc_card rc) ++ " heals " ++ show_Z n
                   ++ " (damage now " ++ show_Z d ++ ").")
      end
  end.

Definition checkPlayerDeath : M unit :=
  s <- getS ;;
  if negb (lifeZeroLoss (win (rules s))) then ret tt else
  forM [P0; P1] (fun i =>
    s <- getS ;;
    let p := player s i in
    if life p <=? 0 then
      modify (set_winner (Some (other (idx p)))) ;;;
      pushLog (p_name p ++ " has 0 or less life and loses.")
    else ret tt).

(** The card object held in [rc], as it is now. *)
Definition current (s : GameState) (id : string) (rc : RuntimeCard) : RuntimeCard :=
  match JsMap.get id (cards s) with Some r => r | None => rc end.

Definition subjectCtx (id : string) : TrigCtx := mkCtx (Some id) None None None.

Section Applier.
Variable fuel : nat.
Variable applyOperation_rec : Operation -> M unit.

Definition applyAll (ops : list Operation) : M unit := forM ops applyOperation_rec.

Definition fireTriggers (when : TriggerWhen) (ctx : TrigCtx) : M unit :=
  ops <- planTriggers fuel when ctx ;;
  applyAll ops.

Definition applyReplacement (when : ReplWhen) (subjId : string) : M bool :=
  ops <- planReplacementForSubject fuel when subjId ;;
  match ops with
  | [] => ret false
  | _ => applyAll ops ;;; ret true
  end.

Definition applyWouldDrawReplacement (who : PlayerIndex) : M bool :=
  ops <- planWouldDrawReplacement fuel who ;;
  match ops with
  | [] => ret false
  | _ => applyAll ops ;;; ret true
  end.

Definition moveCard (cardId : string) (toZone : PlayerZone) : M unit :=
  s <- getS ;;
  match JsMap.get cardId (cards s) with
  | None => ret tt
  | Some rc =>
      let dest :=
        if truthy (isToken rc) && PlayerZone_eqb (rc_zone rc) BF
           && negb (PlayerZone_eqb toZone BF)
        then leave_zone (tokensLeaveTo (tokens (rules s)))
        else toZone in
      modify (upd_player (rc_owner rc)
                (fun p => pushZone dest cardId (removeFromAll cardId p))) ;;;
      modify (upd_card cardId (set_rc_zone dest)) ;;;
      if PlayerZone_eqb dest BF then
        modify (upd_card cardId (set_tapped (Some false))) ;;;
        fireTriggers OnEnter (subjectCtx cardId) ;;;
        fireTriggers OnNameMatched (subjectCtx cardId)
      else ret tt
  end.

Fixpoint topDrawLoop (who : PlayerIndex) (n : nat) : M bool :=
  match n with
  | O => ret true
  | S k =>
      handled <- applyWouldDrawReplacement who ;;
      if handled then topDrawLoop who k else
      s <- getS ;;
      match pop (library (player s who)) with
      | None =>
          (if truthy (drawFromEmptyLoss (win (rules s))) then
             modify (set_winner (Some (other who))) ;;;
             pushLog ("Player " ++ p_name (player s who) ++ " cannot draw and loses.")
           else ret tt) ;;;
          ret false
      | Some (id, rest) =>
          modify (upd_player who (setZoneArray LIB rest)) ;;;
          moveCard id HAND ;;;
          pushLog (p_name (player s who) ++ " draws a card.") ;;;
          fireTriggers OnDraw (mkCtx (Some id) (Some who) None None) ;;;
          fireTriggers OnNameMatched (mkCtx (Some id) (Some who) None None) ;;;
          topDrawLoop who k
      end
  end.

Definition topDraw (who : PlayerIndex) (n : Z) : M bool := topDrawLoop who (Z.to_nat n).

Definition destroyPermanent (id : string) : M unit :=
  s <- getS ;;
  match JsMap.get id (cards s) with
  | None => ret tt
  | Some rc =>
      if negb (PlayerZone_eqb (rc_zone rc) BF) then ret tt else
      replaced <- applyReplacement WouldDie id ;;
      if replaced then ret tt else
      pushLog (card_name (rc_card rc) ++ " dies.") ;;;
      s1 <- getS ;;
      incEvent UnitDied (rc_owner (current s1 id rc)) ;;;
      fireTriggers OnDeath (subjectCtx id) ;;;
      s2 <- getS ;;
      moveCard id (if truthy (isToken (current s2 id rc))
                   then leave_zone (tokensLeaveTo (tokens (rules s2)))
                   else GY)
  end.

Definition lifelink (sourceId : option string) (amount : Z) : M unit :=
  match nonempty_id sourceId with
  | None => ret tt
  | Some sid =>
      s <- getS ;;
      match JsMap.get sid (cards s) with
      | None => ret tt
      | Some src =>
          if hasKeyword src "Lifelink" then
            modify (upd_player (rc_owner src) (fun p => set_life (life p + amount) p)) ;;;
            s' <- getS ;;
            let ctrl := player s' (rc_owner src) in
            pushLog (p_name ctrl ++ " gains " ++ show_Z amount
                     ++ " life (Lifelink). (life " ++ show_Z (life ctrl) ++ ")")
          else ret tt
      end
  end.

Definition dealDamageToPermanent (id : string) (n : Z) (sourceId : option string) : M unit :=
  s <- getS ;;
  match JsMap.get id (cards s) with
  | None => ret tt
  | Some rc =>
      match stats (rc_card rc) with
      | None => ret tt
      | Some _ =>
          replaced <- applyReplacement WouldBeDamaged id ;;
          if replaced then ret tt else
          s0 <- getS ;;
          let usePerm := Z.min n (or0 (JsMap.get id (preventPERM s0))) in
          (if 0 <? usePerm
           then modify (fun s => set_preventPERM (bump id (- usePerm) (preventPERM s)) s)
           else ret tt) ;;;
          let dmg1 := if 0 <? usePerm then n - usePerm else n in
          let useEOT := Z.min dmg1 (or0 (JsMap.get id (preventEOT s0))) in
          (if 0 <? useEOT
           then modify (fun s => set_preventEOT (bump id (- useEOT) (preventEOT s)) s)
           else ret tt) ;;;
          let dmg := if 0 <? useEOT then dmg1 - useEOT else dmg1 in
          if dmg <=? 0 then
            pushLog (card_name (rc_card rc) ++ " damage prevented (" ++ show_Z n ++ ").")
          else
            modify (upd_card id (fun c => set_rc_damage (rc_damage c + dmg) c)) ;;;
            s1 <- getS ;;
            st <- readO (fun s => getEffectiveBaseStats (matchesPredicate fuel) s
                                    (current s id rc)) ;;
            let hpMax := effHpMax st (current s1 id rc) in
            pushLog (card_name (rc_card rc) ++ " takes " ++ show_Z n ++ " damage (HP "
                     ++ show_Z (Z.max 0 (hpMax - rc_damage (current s1 id rc))) ++ ").") ;;;
            lifelink sourceId dmg ;;;
            s2 <- getS ;;
            let deathtouch :=
              match nonempty_id sourceId with
              | None => false
              | Some sid =>
                  match JsMap.get sid (cards s2) with
                  | Some src => hasKeyword src "Deathtouch"
                                && negb (hasKeyword rc "Indestructible")
                  | None => false
                  end
              end in
            if deathtouch then destroyPermanent id else
            fireTriggers OnDamageDealt (mkCtx (Some id) None sourceId None) ;;;
            s3 <- getS ;;
            if hpMax - rc_damage (current s3 id rc) <=? lethalAt (damage (rules s3)) then
              if hasKeyword rc "Indestructible" then
                pushLog (card_name (rc_card rc)
                         ++ " is indestructible and survives lethal damage.")
              else destroyPermanent id
            else ret tt
      end
  end.

Definition checkLethalAfterStatChange (id : string) : M unit :=
  s <- getS ;;
  match JsMap.get id (cards s) with
  | None => ret tt
  | Some rc =>
      match stats (rc_card rc) with
      | None => ret tt
      | Some _ =>
          st <- readO (fun s => getEffectiveBaseStats (matchesPredicate fuel) s rc) ;;
          if effHpMax st rc - rc_damage rc <=? lethalAt (damage (rules s)) then
            if hasKeyword rc "Indestructible" then
              pushLog (card_name (rc_card rc)
                       ++ " is indestructible and survives lethal change.")
            else destroyPermanent id
          else ret tt
      end
  end.
End Applier.

Definition tokenCard (atk hp : Z) (tgs : option (list string))
  (attrs : option (list (string * string))) : Card :=
  {| card_name := "Token " ++ show_Z atk ++ "/" ++ show_Z hp;
     canonicalName := None;
     cost := {| generic := 0; colors := None |};
     card_type := Unit;
     stats := Some (atk, hp);
     keywords := Some [];
     tags := opt_list tgs;
     attributes := attrs;
     textIR := {| cast := None; triggers := None; continuous := None; replacements := None |};
     budgets := {| power := 0; complexity := 0; interaction := Some 0 |};
     rarity := RarC;
     version := 1 |}.

(** [s.cards.get(id)?.card.name || '???'] *)
Definition nameOrUnknown (s : GameState) (id : string) : string :=
  match JsMap.get id (cards s) with
  | Some rc => match card_name (rc_card rc) with
               | EmptyString => "???"
               | nm => nm
               end
  | None => "???"
  end.

Section ApplierCases.
Variable fuel : nat.
Variable applyOperation_rec : Operation -> M unit.

Local Abbreviation fire := (fireTriggers fuel applyOperation_rec).
Local Abbreviation move := (moveCard fuel applyOperation_rec).

Fixpoint millLoop (pid : PlayerIndex) (n : nat) (moved : nat) : M nat :=
  match n with
  | O => ret moved
  | S k =>
      s <- getS ;;
      match pop (library (player s pid)) with
      | None => ret moved
      | Some (id, rest) =>
          modify (upd_player pid (setZoneArray LIB rest)) ;;;
          move id GY ;;;
          millLoop pid k (S moved)
      end
  end.

Definition lookAtTop (pid : PlayerIndex) (cnt : Z) (choose : option OpChoose) : M unit :=
  s <- getS ;;
  let p := player s pid in
  let n := Z.to_nat (Z.max 0 (Z.min cnt (Z.of_nat (List.length (library p))))) in
  match n with
  | O => pushLog (p_name p ++ " looks at top: empty.")
  | _ =>
      let topN := slice_last (library p) n in
      match choose with
      | None =>
          pushLog (p_name p ++ " looks at top " ++ show_nat n ++ ": "
                   ++ String.concat ", " (map (nameOrUnknown s) topN))
      | Some c =>
          let keep := Z.to_nat (Z.max 0 (Z.min (oc_keep c) (Z.of_nat n))) in
          let rest := firstn (n - keep) topN in
          (if truthy (oc_reveal c) then
             pushLog (p_name p ++ " reveals moving: "
                      ++ String.concat ", " (map (nameOrUnknown s) rest))
           else ret tt) ;;;
          forM rest (fun id =>
            modify (upd_player pid (fun q => setZoneArray LIB (remove_first id (library q)) q)) ;;;
            move id (oc_moveRestTo c))
      end
  end.

Definition createToken (pid : PlayerIndex) (atk hp : Z) (tgs : option (list string))
  (attrs : option (list (string * string))) : M unit :=
  s <- getS ;;
  let card := tokenCard atk hp tgs attrs in
  let id := makeId (nextId s) in
  let rc := mkRC id pid card BF 0 (Some (number (turn s))) (Some true)
                 None None None None None None None None in
  modify (set_nextId (S (nextId s))) ;;;
  modify (fun s => set_cards (JsMap.set id rc (cards s)) s) ;;;
  modify (upd_player pid (pushZone BF id)) ;;;
  pushLog (p_name (player s pid) ++ " creates a token " ++ card_name card ++ ".") ;;;
  incEvent TokenCreated pid ;;;
  fire OnTokenCreated (subjectCtx id) ;;;
  fire OnEnter (subjectCtx id) ;;;
  fire OnNameMatched (subjectCtx id).

Definition turnStart : M unit :=
  s <- getS ;;
  let pid := active (turn s) in
  let p := player s pid in
  modify (fun s => set_turn (mkTurn (number (turn s)) (active (turn s)) UPKEEP) s) ;;;
  pushLog ("-- Turn " ++ show_Z (number (turn s)) ++ " start: " ++ p_name p ++ " --") ;;;
  forM (battlefield p) (fun id => modify (upd_card id (set_tapped (Some false)))) ;;;
  modify (set_eventsTurn []) ;;;
  modify (set_triggerUseTurn []) ;;;
  modify (set_replUseTurn []) ;;;
  fire OnUpkeepStart (mkCtx None None None (Some (idx p))) ;;;
  modify (fun s =>
    let res := resources (rules s) in
    upd_player pid (fun q =>
      let a := if carryOver res then ap q + perTurnGainBase res else perTurnGainBase res in
      set_ap (match maxPool res with Some mx => Z.min a mx | None => a end) q) s) ;;;
  s' <- getS ;;
  if drawOnTurnStart (turns (rules s')) then
    _ <- topDraw fuel applyOperation_rec (idx p) 1 ;; ret tt
  else ret tt.

(** [const rc = s.cards.get(id)!; rc.f = v] for each id of a zone array:
    a missing card is a [TypeError]. *)
Definition assignEach (ids : list string) (f : RuntimeCard -> RuntimeCard) : M unit :=
  forM ids (fun id =>
    s <- getS ;;
    match JsMap.get id (cards s) with
    | Some _ => modify (upd_card id f)
    | None => fail
    end).

Definition endTurnCleanup (pid : PlayerIndex) : M unit :=
  s <- getS ;;
  let p := player s pid in
  (match maxHandSize (build (rules s)) with
   | Some mx =>
       if mx <? Z.of_nat (List.length (hand p)) then
         times (Z.to_nat (Z.of_nat (List.length (hand p)) - mx))
           (s1 <- getS ;;
            (match hand (player s1 pid) with
             | [] => ret tt
             | id :: rest =>
                 modify (upd_player pid (setZoneArray HAND rest)) ;;;
                 move id GY
             end) ;;;
            pushLog (p_name p ++ " discards down to max hand."))
       else ret tt
   | None => ret tt
   end) ;;;
  s2 <- getS ;;
  (if damagePersistsTurn (damage (rules s2)) then
     assignEach (battlefield (player s2 pid)) (set_rc_damage 0)
   else ret tt) ;;;
  s3 <- getS ;;
  assignEach (battlefield (player s3 pid))
    (fun rc => set_transformEOT None (set_bonusEOT (Some 0) (Some 0) rc)).

Definition endTurnOp : M unit :=
  endTurnCleanup P0 ;;;
  endTurnCleanup P1 ;;;
  modify (set_preventEOT []) ;;;
  s <- getS ;;
  forM (controlRevertEOT s) (fun e =>
    s1 <- getS ;;
    match JsMap.get (fst e) (cards s1) with
    | Some _ => transferControl (fst e) (snd e)
    | None => ret tt
    end) ;;;
  modify (set_controlRevertEOT []) ;;;
  modify (fun s => set_turn (mkTurn (number (turn s) + 1) (other (active (turn s))) UPKEEP) s).

Definition applyOperation_body (op : Operation) : M unit :=
  match op with
  | Log msg => pushLog msg
  | FireTriggers when ctx => fire when ctx
  | ResolveEffectOp controller sourceId effect targets =>
      ops <- planEffect fuel controller sourceId effect targets ;;
      applyAll applyOperation_rec ops
  | SetPhase ph =>
      modify (fun s => set_turn (mkTurn (number (turn s)) (active (turn s)) ph) s) ;;;
      pushLog ("Phase -> " ++ show_phase ph)
  | DealDamageMany targets amount sourceId =>
      forM targets (fun id =>
        dealDamageToPermanent fuel applyOperation_rec id amount sourceId)
  | PreventDamageMany targets amount duration =>
      forM targets (fun id =>
        match duration with
        | EOT => modify (fun s => set_preventEOT (bump id amount (preventEOT s)) s)
        | PERM => modify (fun s => set_preventPERM (bump id amount (preventPERM s)) s)
        end) ;;;
      pushLog ("Prevent up to " ++ show_Z amount ++ " damage "
               ++ match duration with EOT => "until EOT" | PERM => "permanently" end
               ++ " to " ++ show_nat (List.length targets) ++ " target(s).")
  | HealMany targets amount => forM targets (fun id => healPermanent id amount)
  | OpDraw pid n => _ <- topDraw fuel applyOperation_rec pid n ;; ret tt
  | OpMill pid n =>
      moved <- millLoop pid (Z.to_nat n) 0 ;;
      s <- getS ;;
      pushLog (p_name (player s pid) ++ " mills " ++ show_nat moved ++ " card(s).")
  | OpLookAtTop pid n choose => lookAtTop pid n choose
  | OpCreateToken pid atk hp tgs attrs => createToken pid atk hp tgs attrs
  | AddCounterMany targets counter n mx =>
      forM targets (fun id =>
        modify (upd_card id (fun rc =>
          let cs := match counters rc with Some c => c | None => [] end in
          let cur := or0 (JsMap.get counter cs) in
          let next := match mx with Some m => Z.min m (cur + n) | None => cur + n end in
          set_counters (Some (JsMap.set counter next cs)) rc)))
  | RemoveCounterMany targets counter n =>
      forM targets (fun id =>
        modify (upd_card id (fun rc =>
          match counters rc with
          | None => rc
          | Some cs =>
              set_counters
                (Some (JsMap.set counter (Z.max 0 (or0 (JsMap.get counter cs) - n)) cs)) rc
          end)))
  | BuffMany targets atkDelta hpDelta duration =>
      forM targets (fun id =>
        s <- getS ;;
        match JsMap.get id (cards s) with
        | None => ret tt
        | Some rc =>
            match stats (rc_card rc) with
            | None => ret tt
            | Some _ =>
                modify (upd_card id (fun c =>
                  match duration with
                  | EOT => set_bonusEOT (Some (or0 (bonusAtkEOT c) + atkDelta))
                                        (Some (or0 (bonusHpEOT c) + hpDelta)) c
                  | PERM => set_bonusPerm (Some (or0 (bonusAtkPerm c) + atkDelta))
                                          (Some (or0 (bonusHpPerm c) + hpDelta)) c
                  end)) ;;;
                checkLethalAfterStatChange fuel applyOperation_rec id
            end
        end)
  | MoveMany targets dest => forM targets (fun id => move id dest)
  | ChangeControllerMany targets newOwner duration =>
      forM targets (fun id =>
        s <- getS ;;
        match JsMap.get id (cards s) with
        | None => ret tt
        | Some rc =>
            (match duration with
             | EOT =>
                 if JsMap.has id (controlRevertEOT s) then ret tt
                 else modify (fun s => set_controlRevertEOT
                                         (JsMap.set id (rc_owner rc) (controlRevertEOT s)) s)
             | PERM => ret tt
             end) ;;;
            transferControl id newOwner
        end)
  | TransformMany targets into duration =>
      forM targets (fun id =>
        s <- getS ;;
        match JsMap.get id (cards s) with
        | None => ret tt
        | Some rc =>
            match stats (rc_card rc) with
            | None => ret tt
            | Some _ =>
                modify (upd_card id (match duration with
                                     | Some EOT => set_transformEOT (Some into)
                                     | _ => set_transformPerm (Some into)
                                     end)) ;;;
                checkLethalAfterStatChange fuel applyOperation_rec id
            end
        end)
  | CopyStatsToMany targets toAtk toHp duration =>
      forM targets (fun id =>
        s <- getS ;;
        match JsMap.get id (cards s) with
        | None => ret tt
        | Some rc =>
            match stats (rc_card rc) with
            | None => ret tt
            | Some _ =>
                modify (upd_card id (match duration with
                                     | EOT => set_transformEOT (Some (toAtk, toHp))
                                     | PERM => set_transformPerm (Some (toAtk, toHp))
                                     end)) ;;;
                checkLethalAfterStatChange fuel applyOperation_rec id
            end
        end)
  | TurnStart => turnStart
  | EndTurn => endTurnOp
  | IncTriggerUsage key per =>
      modify (fun s => match per with
                       | TURN => set_triggerUseTurn (bump key 1 (triggerUseTurn s)) s
                       | GAME => set_triggerUseGame (bump key 1 (triggerUseGame s)) s
                       end)
  | IncReplacementUsage key per =>
      modify (fun s => match per with
                       | TURN => set_replUseTurn (bump key 1 (replUseTurn s)) s
                       | GAME => set_replUseGame (bump key 1 (replUseGame s)) s
                       end)
  | IncEvent event who => incEvent event who
  | SpendAP pid amount =>
      modify (upd_player pid (fun p =>
        let a := ap p - amount in set_ap (if a <? 0 then 0 else a) p))
  | SpendColors pid cols =>
      forM cols (fun e =>
        modify (upd_player pid (fun p =>
          let pool := match colorPool p with Some c => c | None => [] end in
          set_colorPool
            (Some (JsMap.set (fst e) (Z.max 0 (or0 (JsMap.get (fst e) pool) - snd e)) pool))
            p)))
  | SetTurnEntered id t => modify (upd_card id (set_turnEntered (Some t)))
  | SetTapped id b => modify (upd_card id (set_tapped (Some b)))
  | DamagePlayer pid amount sourceId =>
      modify (upd_player pid (fun p => set_life (life p - amount) p)) ;;;
      s <- getS ;;
      pushLog (p_name (player s pid) ++ " takes " ++ show_Z amount
               ++ " damage. (life " ++ show_Z (life (player s pid)) ++ ")") ;;;
      lifelink sourceId amount ;;;
      fire OnDamageDealt (mkCtx None (Some pid) sourceId None) ;;;
      checkPlayerDeath
  | CheckPlayers => checkPlayerDeath
  end.
End ApplierCases.

Fixpoint applyOperation (fuel : nat) (op : Operation) : M unit :=
  match fuel with
  | O => fail
  | S n => applyOperation_body n (applyOperation n) op
  end.

(* ------------------------------------------------------------------ *)
(** ** The exported actions *)

(** [{ ok: boolean; reason?: string }] *)
Inductive Outcome := Ok | Refused (reason : string).

Definition forOps (fuel : nat) (ops : list Operation) : M unit :=
  forM ops (applyOperation fuel).

Definition resolveEffect (fuel : nat) (controller : PlayerIndex) (sourceId : option string)
  (eff : Effect) (chosenTargets : option (list string)) : M unit :=
  ops <- planEffect fuel controller sourceId eff chosenTargets ;;
  forOps fuel ops.

Definition startTurn (fuel : nat) : M unit := forOps fuel [TurnStart].

Definition advancePhase (fuel : nat) : M unit :=
  s <- getS ;;
  let phs := phases (turns (rules s)) in
  match indexOf Phase_eqb (phase (turn s)) phs with
  | None => ret tt
  | Some i =>
      if Nat.eqb (S i) (List.length phs) then ret tt else
      match nth_error phs (S i) with
      | Some ph => applyOperation fuel (SetPhase ph)
      | None => ret tt
      end
  end.

Definition endTurn (fuel : nat) : M unit := applyOperation fuel EndTurn.

Fixpoint costModifierLoop (fuel : nat) (s : GameState) (cardId : string)
  (l : list (RuntimeCard * ContinuousEffect)) (cost : Z) : option Z :=
  match l with
  | [] => Some cost
  | (host, eff) :: r =>
      match eff with
      | CostModifier pred delta floor =>
          let? b := matchesPredicate fuel s (rc_owner host) (Some (rc_id host)) cardId (Some pred) in
          costModifierLoop fuel s cardId r
            (if b then
               let c := cost + delta in
               match floor with
               | Some f => if c <? f then f else c
               | None => c
               end
             else cost)
      | StaticBuff _ _ _ => costModifierLoop fuel s cardId r cost
      end
  end.

Definition applyCostModifiers (fuel : nat) (s : GameState) (controller : PlayerIndex)
  (cardId : string) (baseCost : Z) : option Z :=
  costModifierLoop fuel s cardId (listContinuousEffects s) baseCost.

Definition tallyColors (cols : list string) : JsMap.t Z :=
  fold_left (fun need c => bump c 1 need) cols [].

(** [{ ok: true; toSpend }] is [inl toSpend], [{ ok: false; reason }] is [inr reason]. *)
Definition canPayColoredCost (s : GameState) (pid : PlayerIndex) (cols : list string)
  : JsMap.t Z + string :=
  match cols with
  | [] => inl []
  | _ =>
      let res := resources (rules s) in
      match payment res with
      | GenericOnly => inl []
      | GenericAndColors =>
          match policy (res_colors res) with
          | DeckOnly => inl []
          | InGamePayment =>
              let need := tallyColors cols in
              let pool := match colorPool (player s pid) with Some c => c | None => [] end in
              let lacking :=
                flat_map (fun e : string * Z =>
                            if or0 (JsMap.get (fst e) pool) <? snd e
                            then [(fst e ++ "x" ++ show_Z (snd e))%string] else [])
                         need in
              match lacking with
              | [] => inl need
              | _ => inr ("Not enough colors (" ++ String.concat ", " lacking ++ ")")%string
              end
          end
      end
  end.

Definition canCastFromHand (fuel : nat) (s : GameState) (pid : PlayerIndex) (handIndex : Z)
  : option Outcome :=
  let p := player s pid in
  if negb (PlayerIndex_eqb (active (turn s)) pid) then Some (Refused "Not your turn") else
  if negb (Phase_eqb (phase (turn s)) MAIN) then Some (Refused "Can cast only in MAIN phase") else
  if (handIndex <? 0) || (Z.of_nat (List.length (hand p)) <=? handIndex)
  then Some (Refused "Invalid hand index") else
  let? id := nth_error (hand p) (Z.to_nat handIndex) in
  let? rc := JsMap.get id (cards s) in
  let? c := applyCostModifiers fuel s pid (rc_id rc) (generic (cost (rc_card rc))) in
  let cst := Z.max 0 c in
  if ap p <? cst then Some (Refused "Not enough AP") else
  match canPayColoredCost s pid (opt_list (colors (cost (rc_card rc)))) with
  | inr reason => Some (Refused reason)
  | inl _ => Some Ok
  end.

Definition isPermanentType (t : CardType) : bool :=
  match t with Unit | Artifact | Enchantment => true | Spell => false end.

Definition castFromHand (fuel : nat) (pid : PlayerIndex) (handIndex : Z)
  (chosenTargets : option (list string)) : M Outcome :=
  s <- getS ;;
  let p := player s pid in
  if (handIndex <? 0) || (Z.of_nat (List.length (hand p)) <=? handIndex)
  then ret (Refused "Invalid hand index") else
  id <- readO (fun _ => nth_error (hand p) (Z.to_nat handIndex)) ;;
  rc <- readO (fun _ => JsMap.get id (cards s)) ;;
  c <- readO (fun s => applyCostModifiers fuel s pid id (generic (cost (rc_card rc)))) ;;
  let cst := Z.max 0 c in
  if ap p <? cst then ret (Refused "Not enough AP") else
  match canPayColoredCost s pid (opt_list (colors (cost (rc_card rc)))) with
  | inr reason => ret (Refused reason)
  | inl toSpend =>
      let newAp := ap p - cst in
      let ops :=
        [SpendAP pid cst]
        ++ (match toSpend with [] => [] | _ => [SpendColors pid toSpend] end)
        ++ [Log (p_name p ++ " casts " ++ card_name (rc_card rc) ++ " (cost "
                 ++ show_Z cst ++ ", AP " ++ show_Z newAp ++ ").");
            IncEvent SpellCast pid;
            FireTriggers OnCast (subjectCtx id);
            FireTriggers OnNameMatched (subjectCtx id)]
        ++ (if isPermanentType (card_type (rc_card rc))
            then [MoveMany [id] BF; SetTurnEntered id (number (turn s))]
            else (match cast (textIR (rc_card rc)) with
                  | Some e => [ResolveEffectOp pid (Some id) e chosenTargets]
                  | None => []
                  end) ++ [MoveMany [id] GY])
        ++ [CheckPlayers] in
      forOps fuel ops ;;;
      ret Ok
  end.

Definition listBattlefield (s : GameState) (pid : PlayerIndex) : list RuntimeCard :=
  flat_map (fun id => match JsMap.get id (cards s) with Some rc => [rc] | None => [] end)
           (battlefield (player s pid)).

Definition canAttack (s : GameState) (pid : PlayerIndex) (bfIndex : Z) : Outcome :=
  let units := listBattlefield s pid in
  if (bfIndex <? 0) || (Z.of_nat (List.length units) <=? bfIndex)
  then Refused "Invalid unit index" else
  match nth_error units (Z.to_nat bfIndex) with
  | None => Refused "Invalid unit index"
  | Some rc =>
      match stats (rc_card rc) with
      | None => Refused "Not a unit"
      | Some _ =>
          if truthy (tapped rc) then Refused "Tapped" else
          let sick := summoningSickness (combat (rules s))
                      && match turnEntered rc with
                         | Some t => t =? number (turn s)
                         | None => false
                         end
                      && negb (hasKeyword rc "Haste") in
          if sick then Refused "Summoning sickness" else
          if hasKeyword rc "Defender" then Refused "Defender (can't attack)" else Ok
      end
  end.

Inductive AttackTarget := AtPlayer | AtUnit (index : Z).

Definition attack (fuel : nat) (pid : PlayerIndex) (bfIndex : Z) (target : AttackTarget)
  : M Outcome :=
  s <- getS ;;
  if negb (PlayerIndex_eqb (active (turn s)) pid) then ret (Refused "Not your turn") else
  if negb (Phase_eqb (phase (turn s)) COMBAT) then ret (Refused "Attacks only in COMBAT phase") else
  match canAttack s pid bfIndex with
  | Refused r => ret (Refused r)
  | Ok =>
      attacker <- readO (fun _ => nth_error (listBattlefield s pid) (Z.to_nat bfIndex)) ;;
      let oppId := other pid in
      let policyRefusal :=
        match attackerTargets (combat (rules s)), target with
        | PlayerOnly, AtUnit _ => Some "Must attack player"
        | UnitOnly, AtPlayer => Some "Must attack unit"
        | _, _ => None
        end in
      match policyRefusal with
      | Some r => ret (Refused r)
      | None =>
          let ops0 :=
            (if hasKeyword attacker "Vigilance" then []
             else [SetTapped (rc_id attacker) true])
            ++ [FireTriggers OnAttack (subjectCtx (rc_id attacker))] in
          aStats <- readO (fun s => getEffectiveBaseStats (matchesPredicate fuel) s attacker) ;;
          let dmg := effAtk aStats attacker in
          match target with
          | AtPlayer =>
              forOps fuel
                (ops0 ++
                 [Log (p_name (player s pid) ++ "'s " ++ card_name (rc_card attacker)
                       ++ " hits " ++ p_name (player s oppId) ++ " for " ++ show_Z dmg
                       ++ ". (life " ++ show_Z (life (player s oppId) - dmg) ++ ")");
                  DamagePlayer oppId dmg (Some (rc_id attacker))]) ;;;
              ret Ok
          | AtUnit index =>
              let oppUnits := listBattlefield s oppId in
              if (index <? 0) || (Z.of_nat (List.length oppUnits) <=? index)
              then ret (Refused "Invalid target unit") else
              defender <- readO (fun _ => nth_error oppUnits (Z.to_nat index)) ;;
              forOps fuel
                (ops0 ++ [DealDamageMany [rc_id defender] dmg (Some (rc_id attacker))]) ;;;
              ret Ok
          end
      end
  end.

Definition gameOver (s : GameState) : bool :=
  match winner s with Some _ => true | None => false end.

(* ------------------------------------------------------------------ *)
(** ** Shuffling, deck loading and match setup *)

(** [[arr[i], arr[j]] = [arr[j], arr[i]]] for indices inside the array. *)
Definition set_nth {A} (i : nat) (x : A) (l : list A) : list A :=
  firstn i l ++ match skipn i l with [] => [] | _ :: r => x :: r end.

Definition swap {A} (i j : nat) (l : list A) : list A :=
  match nth_error l i, nth_error l j with
  | Some a, Some b => set_nth j a (set_nth i b l)
  | _, _ => l
  end.

(** A generator [rng : R -> Z * R] yields a sample [x], standing for the
    number [x / 2^32] of the unit interval, and its next state. The index
    [Math.floor(rng() * (i + 1))] is then [x * (i + 1) / 2^32], exactly so
    for arrays of fewer than 2^21 elements. *)
Section Shuffle.
Context {R A : Type}.
Variable rng : R -> Z * R.

Fixpoint shuffleFrom (i : nat) (arr : list A) (r : R) : list A * R :=
  match i with
  | O => (arr, r)
  | S k =>
      let (x, r') := rng r in
      let j := Z.to_nat (x * Z.of_nat (S (S k)) / 2 ^ 32) in
      shuffleFrom k (swap (S k) j arr) r'
  end.

Definition shuffle (arr : list A) (r : R) : list A * R :=
  shuffleFrom (List.length arr - 1) arr r.
End Shuffle.

Definition to_uint32 (z : Z) : Z := z mod 2 ^ 32.
Definition to_int32 (z : Z) : Z :=
  let u := z mod 2 ^ 32 in if u <? 2 ^ 31 then u else u - 2 ^ 32.

(** The generator of [initGame]: xorshift32 as JavaScript computes it,
    where [<<] and [>>] work on signed 32-bit values and [>>>= 0] brings
    the state back to an unsigned one. *)
Definition xorshift32 (state : Z) : Z * Z :=
  let s1 := to_uint32 (Z.lxor (to_int32 state) (Z.shiftl (to_int32 state) 13)) in
  let s2 := to_uint32 (Z.lxor (to_int32 s1) (Z.shiftr (to_int32 s1) 17)) in
  let s3 := to_uint32 (Z.lxor (to_int32 s2) (Z.shiftl (to_int32 s2) 5)) in
  (s3, s3).

(** [Math.random]: the samples it will return, in order, are an input. *)
Definition ambient (r : list Z) : Z * list Z :=
  match r with
  | [] => (0, [])
  | x :: rest => (x, rest)
  end.

Fixpoint loadCopies (owner : PlayerIndex) (card : Card) (count : nat) (nid : nat)
  : list RuntimeCard * nat :=
  match count with
  | O => ([], nid)
  | S k =>
      let rc := mkRC (makeId nid) owner card LIB 0 None None None None
                     None None None None None None in
      let (rest, nid') := loadCopies owner card k (S nid) in
      (rc :: rest, nid')
  end.

Fixpoint loadEntries (owner : PlayerIndex) (entries : list DeckEntry) (nid : nat)
  : list RuntimeCard * nat :=
  match entries with
  | [] => ([], nid)
  | e :: r =>
      let (a, nid1) := loadCopies owner (de_card e) (Z.to_nat (Z.max 0 (de_count e))) nid in
      let (b, nid2) := loadEntries owner r nid1 in
      (a ++ b, nid2)
  end.

(** [loadDeck(raw, owner)], with the id counter before and after. *)
Definition loadDeck (raw : RawDeck) (owner : PlayerIndex) (nid : nat) : LoadedDeck * nat :=
  let (l, nid') := loadEntries owner (raw_cards raw) nid in
  (mkLoadedDeck (raw_name raw) l, nid').

(** rules-verifier.ts: the codes of the errors and of the warnings. *)
Definition analyzeRules (r : GameRules) : list string * list string :=
  let res := resources r in
  ( (match phases (turns r) with [] => ["TURN_PHASES_EMPTY"] | _ => [] end)
    ++ (if startingHand (build r) <=? 0 then ["START_HAND_ZERO"] else [])
    ++ (if perTurnGainBase res <? 0 then ["RES_GAIN_NEG"] else [])
    ++ (match payment res, policy (res_colors res) with
        | GenericAndColors, DeckOnly => ["COLOR_POLICY_MISMATCH"]
        | _, _ => []
        end),
    (if minDeckSize (build r) <? startingHand (build r) then ["DECK_LT_HAND"] else [])
    ++ (match maxHandSize (build r) with
        | Some m => if m <? startingHand (build r) then ["HAND_MAX_LT_START"] else []
        | None => []
        end)
    ++ (if 0 <? lethalAt (damage r) then ["LETHAL_POSITIVE"] else [])
    ++ (match canBlock (combat r), attackerTargets (combat r) with
        | false, UnitOnly => ["NO_BLOCK_UNIT_ONLY"]
        | _, _ => []
        end)
    ++ (match payment res, policy (res_colors res) with
        | GenericOnly, InGamePayment => ["COLOR_UNUSED"]
        | _, _ => []
        end)
    ++ (match symbols (res_colors res) with [] => ["COLOR_SYMBOLS_EMPTY"] | _ => [] end)
    ++ (if negb (lifeZeroLoss (win r)) && negb (truthy (drawFromEmptyLoss (win r)))
        then ["WIN_CONDS_WEAK"] else []) ).

Definition nameOr (o : option string) (dflt : string) : string :=
  match o with
  | Some EmptyString | None => dflt
  | Some n => n
  end.

Definition registerDeck (d : LoadedDeck) (cs : JsMap.t RuntimeCard) : JsMap.t RuntimeCard :=
  fold_left (fun m rc => JsMap.set (rc_id rc) rc m) (deck_list d) cs.

(** [initGame(deckA, deckB, seed)], run when the id counter is [nid]. *)
Definition initGame (fuel : nat) (deckA deckB : LoadedDeck) (seed : Z) (nid : nat)
  : option GameState :=
  let rules := CORE_RULES in
  let cs := registerDeck deckB (registerDeck deckA []) in
  let (lib0, st1) := shuffle xorshift32 (map rc_id (deck_list deckA)) (to_uint32 seed) in
  let (lib1, _) := shuffle xorshift32 (map rc_id (deck_list deckB)) st1 in
  let p0 := mkPlayer P0 (nameOr (deck_name deckA) "P1") (startingLife (build rules)) 0
                     (Some []) lib0 [] [] [] [] 0 in
  let p1 := mkPlayer P1 (nameOr (deck_name deckB) "P2") (startingLife (build rules)) 0
                     (Some []) lib1 [] [] [] [] 0 in
  let s := mkState rules (p0, p1) cs (mkTurn 1 P0 UPKEEP) [] None
                   [] [] [] [] [] [] [] [] [] [] nid in
  let (errs, warns) := analyzeRules rules in
  let setup : M unit :=
    (match errs with
     | [] => ret tt
     | _ => pushLog ("[RulesVerifier] Errors: " ++ String.concat ", " errs)
     end) ;;;
    (match warns with
     | [] => ret tt
     | _ => pushLog ("[RulesVerifier] Warnings: " ++ String.concat ", " warns)
     end) ;;;
    _ <- topDraw fuel (applyOperation fuel) P0 (startingHand (build rules)) ;;
    _ <- topDraw fuel (applyOperation fuel) P1 (startingHand (build rules)) ;;
    ret tt in
  match setup s with
  | Some (_, s') => Some s'
  | None => None
  end.

(** [mulliganLondon(s, pid)]; [rnd] holds what [Math.random] returns. *)
Definition mulliganLondon (fuel : nat) (pid : PlayerIndex) (rnd : list Z) : M Outcome :=
  s <- getS ;;
  match mulligan (rules s) with
  | London bottomCount =>
      modify (upd_player pid (fun p =>
        setZoneArray HAND [] (setZoneArray LIB (library p ++ List.rev (hand p)) p))) ;;;
      modify (upd_player pid (fun p =>
        setZoneArray LIB (fst (shuffle ambient (library p) rnd)) p)) ;;;
      _ <- topDraw fuel (applyOperation fuel) pid (startingHand (build (rules s))) ;;
      s1 <- getS ;;
      let bottom := Z.min bottomCount (Z.of_nat (List.length (hand (player s1 pid)))) in
      times (Z.to_nat bottom)
        (s2 <- getS ;;
         match pop (hand (player s2 pid)) with
         | None => fail
         | Some (id, rest) =>
             modify (upd_player pid (fun p =>
               setZoneArray LIB (id :: library p) (setZoneArray HAND rest p))) ;;;
             match JsMap.get id (cards s2) with
             | Some _ => modify (upd_card id (set_rc_zone LIB))
             | None => fail
             end
         end) ;;;
      modify (upd_player pid (fun p => set_mulligansTaken (mulligansTaken p + 1) p)) ;;;
      pushLog (p_name (player s pid) ++ " mulligans and bottoms " ++ show_Z bottom ++ ".") ;;;
      ret Ok
  | _ => ret (Refused "Mulligan rule is not London")
  end.

(* ------------------------------------------------------------------ *)
(** ** analysis.ts: worst-case multiplicity of emitted events and spawns *)

Definition MAX_SAFE_INTEGER : Z := 2 ^ 53 - 1.

(** [a || 1] *)
Definition or1 (a : Z) : Z := if a =? 0 then 1 else a.

Definition multiply (a b : Z) : Z := Z.min MAX_SAFE_INTEGER (or1 a * or1 b).

(** [Partial<Record<EventKind, number>>], in insertion order. *)
Definition EmitCount := list (EventKind * Z).

Fixpoint emitted (k : EventKind) (e : EmitCount) : Z :=
  match e with
  | [] => 0
  | (k', n) :: r => if TriggerWhen_eqb k k' then n else emitted k r
  end.

(** [emits[k] = (emits[k] || 0) + n] *)
Fixpoint add (k : EventKind) (n : Z) (e : EmitCount) : EmitCount :=
  match e with
  | [] => [(k, 0 + n)]
  | (k', v) :: r => if TriggerWhen_eqb k k' then (k', v + n) :: r else (k', v) :: add k n r
  end.

Record Multiplicity := mkMult { emits : EmitCount; spawns : Z }.

Fixpoint recur (node : Effect) (mult : Z) (acc : Multiplicity) : Multiplicity :=
  match node with
  | CreateToken _ _ _ _ _ =>
      mkMult (add OnEnter mult (add OnTokenCreated mult (emits acc))) (spawns acc + mult)
  | Move _ dest =>
      match dest with
      | PZ BF => mkMult (add OnEnter mult (emits acc)) (spawns acc + mult)
      | _ => acc
      end
  | Draw _ _ => mkMult (add OnDraw mult (emits acc)) (spawns acc)
  | DealDamage _ _ => mkMult (add OnDamageDealt mult (emits acc)) (spawns acc)
  | Sequence steps =>
      (fix each (l : list Effect) (a : Multiplicity) : Multiplicity :=
         match l with
         | [] => a
         | s :: r => each r (recur s mult a)
         end) steps acc
  | Conditional _ thenE elseE =>
      let a := recur thenE mult acc in
      match elseE with
      | Some e => recur e mult a
      | None => a
      end
  | Case branches elseE =>
      let a :=
        (fix each (l : list (Predicate * Effect)) (a : Multiplicity) : Multiplicity :=
           match l with
           | [] => a
           | b :: r => each r (recur (snd b) mult a)
           end) branches acc in
      match elseE with
      | Some e => recur e mult a
      | None => a
      end
  | ForEach _ maxTargets body =>
      recur body (multiply mult (Z.min maxTargets MAX_FOREACH_TARGETS)) acc
  | Repeat n body =>
      recur body (multiply mult (Z.min n MAX_REPEAT)) acc
  | _ => acc
  end.

Definition effectMultiplicity (e : Effect) (contextMult : Z) : Multiplicity :=
  recur e contextMult (mkMult [] 0).

(* ================================================================== *)
(** * Properties stated over the model

    The predicates, invariants and concrete boards the theorems below are
    about.  Nothing here is part of the engine. *)

(* ------------------------------------------------------------------ *)
(** ** Zone placement, well-formed states, reachable states *)

(** Occurrences of an id in a zone array. *)
Definition occ (l : list string) (id : string) : nat := count_occ string_dec l id.

Definition zoneCount (p : PlayerState) (id : string) : nat :=
  (occ (library p) id + occ (hand p) id + occ (battlefield p) id
   + occ (graveyard p) id + occ (exile p) id)%nat.

(** The id is in one zone array of its owner, once, and in none of the
    other player; an id that is not registered is in no zone array. *)
Definition placedOnce (s : GameState) (id : string) : Prop :=
  match JsMap.get id (cards s) with
  | Some rc => zoneCount (player s (rc_owner rc)) id = 1%nat
               /\ zoneCount (player s (other (rc_owner rc))) id = 0%nat
  | None => zoneCount (player s P0) id = 0%nat /\ zoneCount (player s P1) id = 0%nat
  end.

(** The ids [makeId] will return are not registered yet. *)
Definition freshIds (s : GameState) : Prop :=
  forall k, (nextId s <= k)%nat -> JsMap.get (makeId k) (cards s) = None.

Definition damageNonneg (s : GameState) : Prop :=
  forall id rc, JsMap.get id (cards s) = Some rc -> 0 <= rc_damage rc.

Definition wellFormed (s : GameState) : Prop :=
  (forall id, placedOnce s id) /\ freshIds s /\ damageNonneg s.

(** In the middle of a transfer the id being moved may be in no zone. *)
Definition inTransit (s : GameState) (id : string) : Prop :=
  match JsMap.get id (cards s) with
  | Some rc => (forall z, (occ (getZoneArray (player s (rc_owner rc)) z) id <= 1)%nat)
               /\ zoneCount (player s (other (rc_owner rc))) id = 0%nat
  | None => zoneCount (player s P0) id = 0%nat /\ zoneCount (player s P1) id = 0%nat
  end.

Definition wellFormedBut (id : string) (s : GameState) : Prop :=
  (forall id', id' <> id -> placedOnce s id') /\ inTransit s id
  /\ freshIds s /\ damageNonneg s.

Definition logOnly {A} (m : M A) : Prop :=
  forall s a s', m s = Some (a, s') -> exists msgs, s' = set_log (log s ++ msgs) s.

Definition keeps {A} (m : M A) : Prop :=
  forall s a s', wellFormed s -> m s = Some (a, s') -> wellFormed s'.

(** The zone a card moved to [toZone] ends in: a token that leaves the
    battlefield goes where the rules send tokens. *)
Definition moveDest (s : GameState) (rc : RuntimeCard) (toZone : PlayerZone) : PlayerZone :=
  if truthy (isToken rc) && PlayerZone_eqb (rc_zone rc) BF && negb (PlayerZone_eqb toZone BF)
  then leave_zone (tokensLeaveTo (tokens (rules s))) else toZone.

Definition relocate (id : string) (owner : PlayerIndex) (dest : PlayerZone)
  (s : GameState) : GameState :=
  upd_card id (set_rc_zone dest)
    (upd_player owner (fun p => pushZone dest id (removeFromAll id p)) s).

(** The cards [loadDeck] makes from counter value [a] up to [b]. *)
Definition loaded (owner : PlayerIndex) (a b : nat) (l : list RuntimeCard) : Prop :=
  map rc_id l = map makeId (seq a (b - a)) /\ (a <= b)%nat
  /\ Forall (fun rc => rc_owner rc = owner /\ rc_damage rc = 0) l.

(** What a host program can do to a match once it is set up.  [OtherIds k]
    stands for [k] calls of [makeId] made for other matches of the same
    process, which advance the shared counter. *)
Inductive Action :=
| DoStartTurn
| DoAdvancePhase
| DoEndTurn
| DoCast (pid : PlayerIndex) (handIndex : Z) (chosenTargets : option (list string))
| DoAttack (pid : PlayerIndex) (bfIndex : Z) (target : AttackTarget)
| DoResolve (controller : PlayerIndex) (sourceId : option string) (eff : Effect)
            (chosenTargets : option (list string))
| DoMulligan (pid : PlayerIndex) (rnd : list Z)
| OtherIds (k : nat).

Definition perform (fuel : nat) (a : Action) : M unit :=
  match a with
  | DoStartTurn => startTurn fuel
  | DoAdvancePhase => advancePhase fuel
  | DoEndTurn => endTurn fuel
  | DoCast pid i t => _ <- castFromHand fuel pid i t ;; ret tt
  | DoAttack pid i t => _ <- attack fuel pid i t ;; ret tt
  | DoResolve c o e t => resolveEffect fuel c o e t
  | DoMulligan pid rnd => _ <- mulliganLondon fuel pid rnd ;; ret tt
  | OtherIds k => modify (fun s => set_nextId (nextId s + k) s)
  end.

(** A match starts from two decks loaded for player 0 and for player 1, at
    counter values [a] and [b] whose id ranges do not overlap, and set up
    when the counter has passed both ranges. *)
Inductive reachable : GameState -> Prop :=
| reach_init fuel rawA rawB a b seed nid s :
    (snd (loadDeck rawA P0 a) <= b \/ snd (loadDeck rawB P1 b) <= a)%nat ->
    (snd (loadDeck rawA P0 a) <= nid)%nat ->
    (snd (loadDeck rawB P1 b) <= nid)%nat ->
    initGame fuel (fst (loadDeck rawA P0 a)) (fst (loadDeck rawB P1 b)) seed nid = Some s ->
    reachable s
| reach_step fuel act s s' :
    reachable s -> perform fuel act s = Some (tt, s') -> reachable s'.

(** [id] is once in zone [z] of [owner] and in no other zone array. *)
Definition placedAt (s : GameState) (id : string) (owner : PlayerIndex) (z : PlayerZone)
  : Prop :=
  forall p' z', occ (getZoneArray (player s p') z') id
                = if PlayerIndex_eqb p' owner && PlayerZone_eqb z' z then 1%nat else 0%nat.

(** Every registered id is in exactly one zone array, once, and that array
    belongs to the owner of the card. *)
Definition exclusiveZones (s : GameState) : Prop :=
  forall id rc, JsMap.get id (cards s) = Some rc ->
    exists z, placedAt s id (rc_owner rc) z.

(* ------------------------------------------------------------------ *)
(** ** Damage, prevention and death *)

(** What is taken from a pool holding [pool] against [dmg] points: the
    engine consumes [min dmg pool] when that is positive, nothing
    otherwise. *)
Definition consumed (dmg pool : Z) : Z := Z.max 0 (Z.min dmg pool).

Definition permPool (s : GameState) (id : string) : Z := or0 (JsMap.get id (preventPERM s)).
Definition eotPool (s : GameState) (id : string) : Z := or0 (JsMap.get id (preventEOT s)).

(** The pools after a hit of [n] on [id]: the permanent pool gives what it
    can, the end-of-turn pool gives of what is left. *)
Definition drained (id : string) (n : Z) (s : GameState) : GameState :=
  let usePerm := consumed n (permPool s id) in
  let useEOT := consumed (n - usePerm) (eotPool s id) in
  let s2 := if 0 <? usePerm
            then set_preventPERM (JsMap.set id (permPool s id - usePerm) (preventPERM s)) s
            else s in
  if 0 <? useEOT
  then set_preventEOT (JsMap.set id (eotPool s id - useEOT) (preventEOT s2)) s2
  else s2.

(** What of a hit of [n] on [id] the pools do not take. *)
Definition remainder (id : string) (n : Z) (s : GameState) : Z :=
  n - consumed n (permPool s id)
  - consumed (n - consumed n (permPool s id)) (eotPool s id).

(** The state after a fully prevented hit of [n] on [id], from the state
    [s1] the replacement pass left. *)
Definition absorbed (id : string) (n : Z) (name : string) (s1 : GameState) : GameState :=
  set_log (log (drained id n s1)
           ++ [(name ++ " damage prevented (" ++ show_Z n ++ ").")%string])
    (drained id n s1).

(** A card whose text has no trigger on damage or death, no replacement of
    damage or death, and no static buff. *)
Definition quietCard (c : Card) : bool :=
  forallb (fun t => negb (TriggerWhen_eqb (trg_when t) OnDamageDealt)
                    && negb (TriggerWhen_eqb (trg_when t) OnDeath))
          (opt_list (triggers (textIR c)))
  && forallb (fun r => negb (ReplWhen_eqb (repl_when r) WouldBeDamaged)
                       && negb (ReplWhen_eqb (repl_when r) WouldDie))
             (opt_list (replacements (textIR c)))
  && forallb (fun e => match e with StaticBuff _ _ _ => false | CostModifier _ _ _ => true end)
             (opt_list (continuous (textIR c))).

Definition quiet (s : GameState) : bool :=
  forallb (fun rc => quietCard (rc_card rc)) (JsMap.values (cards s)).

(** [eventsGame] count of the deaths of units of [who]. *)
Definition diedCount (s : GameState) (who : PlayerIndex) : Z :=
  or0 (JsMap.get (eventKey UnitDied who) (eventsGame s)).

(** [transformEOT ?? transformPerm ?? printed stats] *)
Definition coreStats (rc : RuntimeCard) : Z * Z :=
  match transformEOT rc with
  | Some eot => eot
  | None => match transformPerm rc with
            | Some perm => perm
            | None => match stats (rc_card rc) with Some st => st | None => (0, 0) end
            end
  end.

(** [t] shows the same cards in the same places as [s], under the same
    rules, with the same counters and pools: life totals and the log may
    differ. *)
Definition sameBoard (s t : GameState) : Prop :=
  cards t = cards s /\ rules t = rules s /\ eventsGame t = eventsGame s
  /\ preventPERM t = preventPERM s /\ preventEOT t = preventEOT s
  /\ forall p z, getZoneArray (player t p) z = getZoneArray (player s p) z.

(** The zone a dying permanent is sent to. *)
Definition deathZone (s : GameState) (rc : RuntimeCard) : PlayerZone :=
  if truthy (isToken rc) then leave_zone (tokensLeaveTo (tokens (rules s))) else GY.

Definition marked (id : string) (n : Z) (s : GameState) : GameState :=
  upd_card id (fun c => set_rc_damage (rc_damage c + n) c) s.

(* ------------------------------------------------------------------ *)
(** ** The analyzer's counts *)

(** Induction on effects, through the lists and options they nest. *)
Section EffectInduction.
Variable P : Effect -> Prop.

Definition leafEffect (e : Effect) : Prop :=
  match e with
  | Conditional _ _ _ | Case _ _ | ForEach _ _ _ | Sequence _ | Repeat _ _ => False
  | _ => True
  end.

Definition onOption (o : option Effect) : Prop :=
  match o with Some e => P e | None => True end.

Hypothesis Hleaf : forall e, leafEffect e -> P e.
Hypothesis Hcond : forall c t e, P t -> onOption e -> P (Conditional c t e).
Hypothesis Hcase : forall bs e,
    Forall (fun b : Predicate * Effect => P (snd b)) bs -> onOption e -> P (Case bs e).
Hypothesis Hforeach : forall a n b, P b -> P (ForEach a n b).
Hypothesis Hseq : forall steps, Forall P steps -> P (Sequence steps).
Hypothesis Hrepeat : forall n b, P b -> P (Repeat n b).

Fixpoint Effect_nested_ind (e : Effect) : P e :=
  match e with
  | Conditional c t el =>
      Hcond c t el (Effect_nested_ind t)
        (match el as o return onOption o with
         | Some x => Effect_nested_ind x
         | None => I
         end)
  | Case bs el =>
      Hcase bs el
        ((fix go (l : list (Predicate * Effect)) : Forall (fun b => P (snd b)) l :=
            match l with
            | [] => Forall_nil _
            | b :: r => Forall_cons b (Effect_nested_ind (snd b)) (go r)
            end) bs)
        (match el as o return onOption o with
         | Some x => Effect_nested_ind x
         | None => I
         end)
  | ForEach a n b => Hforeach a n b (Effect_nested_ind b)
  | Sequence steps =>
      Hseq steps
        ((fix go (l : list Effect) : Forall P l :=
            match l with
            | [] => Forall_nil _
            | x :: r => Forall_cons x (Effect_nested_ind x) (go r)
            end) steps)
  | Repeat n b => Hrepeat n b (Effect_nested_ind b)
  | other => Hleaf other I
  end.
End EffectInduction.

(** The countOf of event [k] and the spawn countOf of a result. *)
Definition countOf (k : EventKind) (x : Multiplicity) : Z := emitted k (emits x).

Definition emptyMult : Multiplicity := mkMult [] 0.

(** What a subtree adds does not depend on what was accumulated before. *)
Definition additiveNode (node : Effect) : Prop :=
  forall mult acc,
    (forall k, countOf k (recur node mult acc) = countOf k acc + countOf k (recur node mult emptyMult))
    /\ spawns (recur node mult acc) = spawns acc + spawns (recur node mult emptyMult).

Definition sumZ (l : list Z) : Z := fold_right Z.add 0 l.

(** Every loop countOf below [node] is at least 1, and no product of loop
    counts, started from the context multiplier [mult], passes
    [MAX_SAFE_INTEGER]. *)
Fixpoint boundedFrom (node : Effect) (mult : Z) : bool :=
  match node with
  | Sequence steps => forallb (fun s => boundedFrom s mult) steps
  | Conditional _ t e =>
      boundedFrom t mult && match e with Some x => boundedFrom x mult | None => true end
  | Case bs e =>
      forallb (fun b : Predicate * Effect => boundedFrom (snd b) mult) bs
      && match e with Some x => boundedFrom x mult | None => true end
  | ForEach _ n body =>
      (1 <=? n) && (mult * Z.min n MAX_FOREACH_TARGETS <=? MAX_SAFE_INTEGER)
      && boundedFrom body (mult * Z.min n MAX_FOREACH_TARGETS)
  | Repeat n body =>
      (1 <=? n) && (mult * Z.min n MAX_REPEAT <=? MAX_SAFE_INTEGER)
      && boundedFrom body (mult * Z.min n MAX_REPEAT)
  | _ => true
  end.

Definition linearNode (node : Effect) : Prop :=
  forall m t, 1 <= m -> 1 <= t -> boundedFrom node (m * t) = true ->
    (forall k, countOf k (recur node (m * t) emptyMult) = t * countOf k (recur node m emptyMult))
    /\ spawns (recur node (m * t) emptyMult) = t * spawns (recur node m emptyMult).

Definition nonnegNode (node : Effect) : Prop :=
  forall m, 1 <= m -> boundedFrom node m = true ->
    (forall k, 0 <= countOf k (recur node m emptyMult)) /\ 0 <= spawns (recur node m emptyMult).

(* ------------------------------------------------------------------ *)
(** ** Concrete cards, decks and boards *)

Module Fixtures.

(** A unit card with no text. *)
Definition mkUnit (name : string) (atk hp : Z) : Card :=
mkCard name (Some name) (mkCost 0 (Some [])) Unit (Some (atk, hp)) (Some []) []
  (Some []) (mkTextIR None None None None) (mkBudgets 0 0 None) RarC 1.

(** A runtime card with every optional field unset. *)
Definition plain (id : string) (owner : PlayerIndex) (card : Card) (zone : PlayerZone)
(dmg : Z) : RuntimeCard :=
mkRC id owner card zone dmg None None None None None None None None None None.

Definition seat (i : PlayerIndex) (n : string) : PlayerState :=
mkPlayer i n 20 0 None [] [] [] [] [] 0.

(** A state under the core rules, on turn 1 of player 0. *)
Definition board (p0 p1 : PlayerState) (cs : JsMap.t RuntimeCard) (ph : Phase)
(nid : nat) : GameState :=
mkState CORE_RULES (p0, p1) cs (mkTurn 1 P0 ph) [] None [] [] [] [] [] [] [] [] [] [] nid.

Definition deckAnn : RawDeck :=
mkRawDeck (Some "Ann") [mkDeckEntry (mkUnit "Goblin" 1 1) 4; mkDeckEntry (mkUnit "Bear" 2 2) 4].
Definition deckBob : RawDeck :=
mkRawDeck (Some "Bob") [mkDeckEntry (mkUnit "Wolf" 2 1) 7].

(** The match of the two decks above, loaded one after the other from
  counter value 1 and set up with seed 42. *)
Definition opening : option GameState :=
initGame 10 (fst (loadDeck deckAnn P0 1)) (fst (loadDeck deckBob P1 9)) 42 16.

Definition openingState : GameState :=
match opening with
| Some s => s
| None => board (seat P0 "Ann") (seat P1 "Bob") [] UPKEEP 16
end.

End Fixtures.

Module Scenes.
Import Fixtures.

(** A Goblin 1/1 alone on the battlefield of player 0. *)
Definition duel : GameState :=
board (setZoneArray BF ["C1"] (seat P0 "A")) (seat P1 "B")
  [("C1", plain "C1" P0 (mkUnit "Goblin" 1 1) BF 0)] MAIN 2.

Definition hit : Operation := DealDamageMany ["C1"] 1 None.

(** The state a call leaves, the state itself when the call does not return. *)
Definition after (m : M unit) (s : GameState) : GameState :=
match m s with Some (_, s') => s' | None => s end.

Definition duelHit : GameState := after (applyOperation 3 hit) duel.
Definition duelHitTwice : GameState := after (applyOperation 3 hit) duelHit.

(** A 1/1 whose text replaces its death by nothing, once per game. *)
Definition phoenix : Card :=
mkCard "Phoenix" (Some "Phoenix") (mkCost 0 (Some [])) Unit (Some (1, 1)) (Some []) []
  (Some [])
  (mkTextIR None None None
     (Some [mkReplacement WouldDie (mkSelector None None None None) NoOp PERM
              (mkLimit GAME 1)]))
  (mkBudgets 0 0 None) RarC 1.

Definition guarded : GameState :=
board (setZoneArray BF ["C1"] (seat P0 "A")) (seat P1 "B")
  [("C1", plain "C1" P0 phoenix BF 0)] MAIN 2.

(** The Goblin with one point of permanent and two of end-of-turn prevention. *)
Definition shielded : GameState :=
set_preventEOT [("C1", 2)] (set_preventPERM [("C1", 1)] duel).

Definition stackSel : Selector := mkSelector None (Some STACK) None None.
Definition ownBoard : Selector := mkSelector (Some SELF) None None None.

(** Buff the own board until end of turn, then return it to hand. *)
Definition pumpAndBounce : Effect :=
Sequence [Buff ownBoard (Some 2) (Some 2) EOT; Move ownBoard (PZ HAND)].

(** Player 0 starts the turn, enters the main phase, casts the first card
  in hand (a Goblin), buffs it until end of turn and returns it to hand. *)
Definition pumpLine : M unit :=
startTurn 10 ;;; advancePhase 10 ;;;
(_ <- castFromHand 10 P0 0 None ;; resolveEffect 10 P0 None pumpAndBounce None).

Definition pumped : GameState := after pumpLine openingState.

Definition drawFive : Effect := Repeat 5 (Draw SELF (VConst 1)).

(** [k] nested [Repeat 3] around [e]. *)
Fixpoint nest (k : nat) (e : Effect) : Effect :=
match k with
| O => e
| S j => Repeat 3 (nest j e)
end.

(** Two streams of [Math.random] samples, as 32-bit fractions. *)
Definition allZero : list Z := [].
Definition allHalf : list Z := repeat 2147483648 8.

End Scenes.
Import Fixtures Scenes.

(* ------------------------------------------------------------------ *)
(** ** Further predicates and boards *)

Module Scenes2.
Import Fixtures Scenes.

(** The state planning a stack-targeting effect leaves. *)
Definition stackPlanned : GameState :=
  match planEffect 3 P0 None (DealDamage stackSel (VConst 1)) None openingState with
  | Some (_, s') => s'
  | None => openingState
  end.

(** Both players at zero life or less. *)
Definition bothDown : GameState :=
  board (set_life 0 (seat P0 "A")) (set_life (-1) (seat P1 "B")) [] MAIN 2.

(** The core rules, with coloured costs paid in game. *)
Definition tintedRules : GameRules :=
  mkGameRules (turns CORE_RULES) (build CORE_RULES) (mulligan CORE_RULES)
    (actions CORE_RULES) (damage CORE_RULES) (tokens CORE_RULES) (combat CORE_RULES)
    (win CORE_RULES)
    (mkResourceRules "energy" 1 false None GenericAndColors
       {| policy := InGamePayment; symbols := ["R"; "G"] |}).

(** Under those rules, player 0 holds two red and no green. *)
Definition tinted : GameState :=
  mkState tintedRules (set_colorPool (Some [("R", 2)]) (seat P0 "A"), seat P1 "B") []
    (mkTurn 1 P0 MAIN) [] None [] [] [] [] [] [] [] [] [] [] 2.

End Scenes2.
Import Fixtures Scenes Scenes2.

Fixpoint hashFree (s : string) : bool :=
  match s with
  | EmptyString => true
  | String c r => negb (Ascii.eqb c "#") && hashFree r
  end.

(** The colour pool of a player, read as the engine reads it. *)
Definition poolOf (s : GameState) (pid : PlayerIndex) (c : string) : Z :=
  or0 (JsMap.get c (match colorPool (player s pid) with Some p => p | None => [] end)).

Module Scenes3.
Import Fixtures Scenes Scenes2.

(** A unit card with keywords and no text. *)
Definition keyworded (name : string) (atk hp : Z) (ks : list string) : Card :=
  mkCard name (Some name) (mkCost 0 (Some [])) Unit (Some (atk, hp)) (Some ks) []
    (Some []) (mkTextIR None None None None) (mkBudgets 0 0 None) RarC 1.

Definition titanCard : RuntimeCard :=
  plain "C1" P0 (keyworded "Titan" 1 1 ["Indestructible"]) BF 0.
Definition bearCard : RuntimeCard := plain "C1" P0 (mkUnit "Bear" 2 5) BF 0.
Definition aspCard : RuntimeCard :=
  plain "C2" P1 (keyworded "Asp" 1 1 ["Deathtouch"]) BF 0.

(** An Indestructible 1/1 alone on the battlefield of player 0. *)
Definition titanBoard : GameState :=
  board (setZoneArray BF ["C1"] (seat P0 "A")) (seat P1 "B") [("C1", titanCard)] MAIN 2.

(** A 2/5 Bear of player 0 facing a 1/1 Deathtouch Asp of player 1. *)
Definition aspBoard : GameState :=
  board (setZoneArray BF ["C1"] (seat P0 "A")) (setZoneArray BF ["C2"] (seat P1 "B"))
    [("C1", bearCard); ("C2", aspCard)] COMBAT 3.

End Scenes3.
Import Fixtures Scenes Scenes2 Scenes3.

Module Scenes4.
Import Fixtures Scenes.

(** Buff the own board until end of turn. *)
Definition rally : Effect := Buff ownBoard (Some 2) (Some 2) EOT.

(** Player 0 starts the turn, enters the main phase, casts the first card
    in hand (a Goblin) and buffs it until end of turn. *)
Definition rallyLine : M unit :=
  startTurn 10 ;;; advancePhase 10 ;;;
  (_ <- castFromHand 10 P0 0 None ;; resolveEffect 10 P0 None rally None).

Definition rallied : GameState := after rallyLine openingState.

End Scenes4.
Import Fixtures Scenes Scenes2 Scenes3 Scenes4.

(** [m] leaves the observation [f] of the state as it was. *)
Definition pres {X A} (f : GameState -> X) (m : M A) : Prop :=
  forall s a s', m s = Some (a, s') -> f s' = f s.

(** Everything of a state but its players, its cards and its log. *)
Definition table (s : GameState) :=
  (rules s, turn s, winner s, stack s, nextId s,
   (preventPERM s, preventEOT s, controlRevertEOT s),
   (eventsTurn s, eventsGame s),
   (triggerUseTurn s, triggerUseGame s, replUseTurn s, replUseGame s)).

(** What the cleanup assigns to a card on the battlefield. *)
Definition cleanse (s : GameState) (rc : RuntimeCard) : RuntimeCard :=
  set_transformEOT None
    (set_bonusEOT (Some 0) (Some 0)
       (if damagePersistsTurn (damage (rules s)) then set_rc_damage 0 rc else rc)).

(** A card as it is but for its owner. *)
Definition ownerless (i : string) (s : GameState) : option RuntimeCard :=
  option_map (set_rc_owner P0) (JsMap.get i (cards s)).

(** The fields of a player that are not zone arrays. *)
Definition seatOf (p : PlayerState) :=
  (idx p, p_name p, life p, ap p, colorPool p, mulligansTaken p).

(** How many cards a loop of [n] rounds takes off the library of [pid]. *)
Definition topCount (s : GameState) (pid : PlayerIndex) (n : Z) : nat :=
  Nat.min (Z.to_nat n) (List.length (library (player s pid))).

(** The cards it takes, the top one first. *)
Definition topCards (s : GameState) (pid : PlayerIndex) (n : Z) : list string :=
  List.rev (skipn (List.length (library (player s pid)) - topCount s pid n)
              (library (player s pid))).

(** The card [id] ends in zone [z] when it is moved to zone [to]. *)
Definition goes (s : GameState) (to z : PlayerZone) (id : string) : bool :=
  match JsMap.get id (cards s) with
  | Some rc => PlayerZone_eqb z (moveDest s rc to)
  | None => false
  end.

(** [s'] is [s] after the top [k] cards of the library of [pid] were
    moved to zone [to], one by one; the log apart. *)
Definition tookTop (to : PlayerZone) (pid : PlayerIndex) (k : nat) (s s' : GameState)
  : Prop :=
  let lib := library (player s pid) in
  let top := List.rev (skipn (List.length lib - k) lib) in
  wellFormed s'
  /\ (forall z,
        getZoneArray (player s' pid) z
        = (if PlayerZone_eqb z LIB then firstn (List.length lib - k) lib
           else getZoneArray (player s pid) z)
          ++ filter (goes s to z) top)
  /\ player s' (other pid) = player s (other pid)
  /\ seatOf (player s' pid) = seatOf (player s pid)
  /\ table s' = table s
  /\ forall i,
       JsMap.get i (cards s')
       = option_map
           (fun rc => if existsb (String.eqb i) top
                      then set_rc_zone (moveDest s rc to) rc else rc)
           (JsMap.get i (cards s)).

(** No card has a trigger on a draw or on a matched name, and none
    replaces a draw. *)
Definition drawQuietCard (c : Card) : bool :=
  forallb (fun t => negb (TriggerWhen_eqb (trg_when t) OnDraw)
                    && negb (TriggerWhen_eqb (trg_when t) OnNameMatched))
          (opt_list (triggers (textIR c)))
  && forallb (fun r => negb (ReplWhen_eqb (repl_when r) WouldDraw))
             (opt_list (replacements (textIR c))).

Definition drawQuiet (s : GameState) : bool :=
  forallb (fun rc => drawQuietCard (rc_card rc)) (JsMap.values (cards s)).

(** The draw loop ran out of library: [n] rounds on fewer cards. *)
Definition ranOut (s : GameState) (pid : PlayerIndex) (n : Z) : bool :=
  (List.length (library (player s pid)) <? Z.to_nat n)%nat.

(** [rc.card.canonicalName || rc.card.name] *)
Definition deckKey (c : Card) : string :=
  match nonempty_id (canonicalName c) with
  | Some n => n
  | None => card_name c
  end.

(** [validateDeck(list, rules)]: [ok] and [issues]; [lst] is the source's [list]. *)
Definition validateDeck (lst : list RuntimeCard) (rules : GameRules) : bool * list string :=
  let size := Z.of_nat (List.length lst) in
  let small :=
    if size <? minDeckSize (build rules)
    then [("Deck too small: " ++ show_Z size ++ " < "
           ++ show_Z (minDeckSize (build rules)))%string]
    else [] in
  let byName := fold_left (fun m rc => bump (deckKey (rc_card rc)) 1 m) lst [] in
  let many :=
    flat_map (fun e : string * Z =>
                if maxCopiesPerName (build rules) <? snd e
                then [("Too many copies of " ++ fst e ++ ": " ++ show_Z (snd e)
                       ++ " > " ++ show_Z (maxCopiesPerName (build rules)))%string]
                else [])
             byName in
  let issues := small ++ many in
  (match issues with [] => true | _ => false end, issues).

(** How many cards of the list go by the name [k]. *)
Definition copiesOf (lst : list RuntimeCard) (k : string) : Z :=
  Z.of_nat (count_occ string_dec (map (fun rc => deckKey (rc_card rc)) lst) k).

(** The libraries [initGame] shuffles for the two players. *)
Definition shuffledLibraries (deckA deckB : LoadedDeck) (seed : Z)
  : list string * list string :=
  let (lib0, st1) := shuffle xorshift32 (map rc_id (deck_list deckA)) (to_uint32 seed) in
  let (lib1, _) := shuffle xorshift32 (map rc_id (deck_list deckB)) st1 in
  (lib0, lib1).

(** The starting hand size of the core rules, as a count. *)
Definition handSize : nat := Z.to_nat (startingHand (build CORE_RULES)).

(** The shuffled library of player [p]. *)
Definition shuffledFor (deckA deckB : LoadedDeck) (seed : Z) (p : PlayerIndex) : list string :=
  match p with
  | P0 => fst (shuffledLibraries deckA deckB seed)
  | P1 => snd (shuffledLibraries deckA deckB seed)
  end.

(** No registered card is a token. *)
Definition tokenFree (s : GameState) : Prop :=
  forall id rc, JsMap.get id (cards s) = Some rc -> truthy (isToken rc) = false.

(** [id] is the card [c], owned by [o], with zone field BF, on the
    battlefield of [o]. *)
Definition heldBy (s : GameState) (id : string) (o : PlayerIndex) (c : Card) : Prop :=
  exists r, JsMap.get id (cards s) = Some r /\ rc_owner r = o /\ rc_zone r = BF
            /\ rc_card r = c /\ In id (battlefield (player s o)).

(** No card has a trigger of one of the kinds [ws]. *)
Definition mute (ws : list TriggerWhen) (s : GameState) : bool :=
  forallb (fun rc =>
             forallb (fun t => negb (existsb (TriggerWhen_eqb (trg_when t)) ws))
                     (opt_list (triggers (textIR (rc_card rc)))))
          (JsMap.values (cards s)).

(** What the start of a turn makes of the action points [a]. *)
Definition refill (r : GameRules) (a : Z) : Z :=
  let g := if carryOver (resources r) then a + perTurnGainBase (resources r)
           else perTurnGainBase (resources r) in
  match maxPool (resources r) with Some mx => Z.min g mx | None => g end.

(** The cards of [l] are untapped, one after the other. *)
Definition untapped (l : list string) (s : GameState) : GameState :=
  fold_left (fun t id => upd_card id (set_tapped (Some false)) t) l s.

(** Player [q] gains life from damage dealt by the source [src]: the
    source is a registered card with Lifelink, and [q] owns it. *)
Definition gains (s : GameState) (src : option string) (q : PlayerIndex) : bool :=
  match nonempty_id src with
  | Some sid =>
      match JsMap.get sid (cards s) with
      | Some c => hasKeyword c "Lifelink" && PlayerIndex_eqb (rc_owner c) q
      | None => false
      end
  | None => false
  end.

(** The card object CreateToken registers. *)
Definition tokenOf (s : GameState) (pid : PlayerIndex) (atk hp : Z)
  (tgs : option (list string)) (attrs : option (list (string * string))) : RuntimeCard :=
  mkRC (makeId (nextId s)) pid (tokenCard atk hp tgs attrs) BF 0
       (Some (number (turn s))) (Some true) None None None None None None None None.

Module Scenes5.
Import Fixtures Scenes.

(** Player 0 has started the first turn and entered the main phase. *)
Definition mainPhase : GameState := after (startTurn 10 ;;; advancePhase 10) openingState.

End Scenes5.
Import Scenes5.

(** The card object of a permanent that was cast in state [s]. *)
Definition arrived (s : GameState) (rc : RuntimeCard) : RuntimeCard :=
  set_turnEntered (Some (number (turn s))) (set_tapped (Some false) (set_rc_zone BF rc)).

Module Scenes6.
Import Fixtures Scenes.

Definition goblin : RuntimeCard := plain "C1" P0 (mkUnit "Goblin" 1 1) BF 0.

(** Player 0 has a Goblin on the battlefield, in the combat phase. *)
Definition clash : GameState :=
  board (setZoneArray BF ["C1"] (seat P0 "A")) (seat P1 "B") [("C1", goblin)] COMBAT 2.

End Scenes6.
Import Scenes6.

(** The state after the attacker was tapped, unless it has Vigilance. *)
Definition committed (s : GameState) (attacker : RuntimeCard) : GameState :=
  if hasKeyword attacker "Vigilance" then s
  else upd_card (rc_id attacker) (set_tapped (Some true)) s.

(** What the attacker hits for: its core attack and its bonuses. *)
Definition strike (attacker : RuntimeCard) : Z := effAtk (coreStats attacker) attacker.

(* ================================================================== *)
(** * Lemmas and theorems *)

(* ------------------------------------------------------------------ *)
(** ** Facts on the JavaScript helpers *)

Lemma show_nat_inj n m : show_nat n = show_nat m -> n = m.
Proof.
  unfold show_nat. intros H.
  assert (N : forall k, Nat.to_uint k <> Decimal.Nil).
  { intros k E. pose proof (DecimalNat.Unsigned.to_of (Nat.to_uint k)) as T.
    rewrite DecimalNat.Unsigned.of_to in T. rewrite E in T. discriminate T. }
  apply DecimalNat.Unsigned.to_uint_inj.
  pose proof (DecimalString.NilZero.usu (Nat.to_uint n) (N n)) as A.
  pose proof (DecimalString.NilZero.usu (Nat.to_uint m) (N m)) as B.
  rewrite H in A. rewrite A in B. now inversion B.
Qed.

Lemma makeId_inj n m : makeId n = makeId m -> n = m.
Proof. unfold makeId. simpl. intros H. inversion H. now apply show_nat_inj. Qed.

Module JsMapFacts.
Import JsMap.

Lemma get_set_eq {V} k (v : V) m : get k (set k v m) = Some v.
Proof.
  induction m as [|[k' v'] r IH]; simpl.
  - now rewrite String.eqb_refl.
  - destruct (String.eqb_spec k k'); simpl.
    + subst. now rewrite String.eqb_refl.
    + destruct (String.eqb_spec k k'); [congruence|assumption].
Qed.

Lemma get_set_neq {V} k k' (v : V) m : k <> k' -> get k (set k' v m) = get k m.
Proof.
  intros Hne. induction m as [|[k0 v0] r IH]; simpl.
  - destruct (String.eqb_spec k k'); [congruence|reflexivity].
  - destruct (String.eqb_spec k' k0); simpl.
    + subst. destruct (String.eqb_spec k k0); [congruence|reflexivity].
    + destruct (String.eqb_spec k k0); [reflexivity|assumption].
Qed.

Lemma get_upd {V} k k' (f : V -> V) m :
  get k (upd k' f m) = if String.eqb k k' then option_map f (get k m) else get k m.
Proof.
  induction m as [|[k0 v0] r IH]; simpl.
  - now destruct (String.eqb k k').
  - destruct (String.eqb_spec k' k0); simpl.
    + subst. destruct (String.eqb_spec k k0); reflexivity.
    + destruct (String.eqb_spec k k0); simpl.
      * subst. destruct (String.eqb_spec k0 k'); [congruence|reflexivity].
      * exact IH.
Qed.

Lemma get_In {V} k (v : V) m : get k m = Some v -> In (k, v) m.
Proof.
  induction m as [|[k0 v0] r IH]; simpl; [discriminate|].
  destruct (String.eqb_spec k k0).
  - intros [= ->]. subst. now left.
  - intros H. right. now apply IH.
Qed.

Lemma upd_map_snd {V W} (g : V -> W) k (f : V -> V) m :
  (forall v, g (f v) = g v) ->
  map (fun e => g (snd e)) (upd k f m) = map (fun e => g (snd e)) m.
Proof.
  intros Hg. induction m as [|[k0 v0] r IH]; simpl; [reflexivity|].
  destruct (String.eqb k k0); simpl; [now rewrite Hg|now rewrite IH].
Qed.
End JsMapFacts.

Lemma occ_app l1 l2 id : occ (l1 ++ l2) id = (occ l1 id + occ l2 id)%nat.
Proof. apply count_occ_app. Qed.

Lemma occ_cons x l id : occ (x :: l) id = ((if String.eqb x id then 1 else 0) + occ l id)%nat.
Proof.
  unfold occ. simpl. destruct (string_dec x id), (String.eqb_spec x id); congruence || lia.
Qed.

Lemma occ_nil id : occ [] id = 0%nat.
Proof. reflexivity. Qed.

Lemma occ_rev l id : occ (List.rev l) id = occ l id.
Proof. apply count_occ_rev. Qed.

Lemma occ_remove_first x l id :
  occ (remove_first x l) id
  = if String.eqb x id then Nat.pred (occ l id) else occ l id.
Proof.
  induction l as [|y r IH]; cbn [remove_first].
  - now destruct (String.eqb x id).
  - destruct (String.eqb_spec x y) as [->|Hxy].
    + rewrite occ_cons. destruct (String.eqb_spec y id); lia.
    + rewrite !occ_cons, IH.
      destruct (String.eqb_spec x id), (String.eqb_spec y id); subst; try congruence; lia.
Qed.

Lemma pop_app {A} (l : list A) x r : pop l = Some (x, r) -> l = r ++ [x].
Proof.
  unfold pop. destruct (List.rev l) as [|y t] eqn:E; [discriminate|].
  intros H. inversion H; subst. rewrite <- (rev_involutive l), E. reflexivity.
Qed.

Lemma occ_pop l x r id :
  pop l = Some (x, r) -> occ l id = (occ r id + (if String.eqb x id then 1 else 0))%nat.
Proof.
  intros H. apply pop_app in H. subst. rewrite occ_app, occ_cons, occ_nil. lia.
Qed.

Lemma occ_firstn_skipn n l id : occ l id = (occ (firstn n l) id + occ (skipn n l) id)%nat.
Proof. rewrite <- occ_app, firstn_skipn. reflexivity. Qed.

Lemma occ_set_nth i x l y id :
  nth_error l i = Some y ->
  (occ (set_nth i x l) id + (if String.eqb y id then 1 else 0)
   = occ l id + (if String.eqb x id then 1 else 0))%nat.
Proof.
  intros H. unfold set_nth.
  rewrite (occ_firstn_skipn i l id) at 1. rewrite occ_app.
  assert (E : exists r, skipn i l = y :: r).
  { revert l H. induction i as [|i IH]; intros [|z l] H; simpl in *; try discriminate.
    - inversion H. eauto.
    - eauto. }
  destruct E as [r ->]. rewrite !occ_cons. lia.
Qed.

Lemma nth_error_set_nth {A} i j (x : A) l :
  nth_error (set_nth i x l) j
  = if Nat.eqb i j then (match nth_error l i with Some _ => Some x | None => None end)
    else nth_error l j.
Proof.
  unfold set_nth. revert j l. induction i as [|i IH]; intros j [|z l]; simpl.
  - destruct j; reflexivity.
  - destruct j; reflexivity.
  - destruct j; simpl; [reflexivity|]. now destruct (Nat.eqb i j).
  - destruct j; simpl; [reflexivity|]. apply IH.
Qed.

Lemma occ_swap i j l id : occ (swap i j l) id = occ l id.
Proof.
  unfold swap.
  destruct (nth_error l i) as [a|] eqn:Ei; [|reflexivity].
  destruct (nth_error l j) as [b|] eqn:Ej; [|reflexivity].
  pose proof (occ_set_nth i b l a id Ei) as H1.
  assert (Ej' : nth_error (set_nth i b l) j = Some b).
  { rewrite nth_error_set_nth, Ei. destruct (Nat.eqb i j); [reflexivity|exact Ej]. }
  pose proof (occ_set_nth j a (set_nth i b l) b id Ej') as H2. lia.
Qed.

Lemma occ_shuffleFrom {R} (rng : R -> Z * R) i l r id :
  occ (fst (shuffleFrom rng i l r)) id = occ l id.
Proof.
  revert l r. induction i as [|i IH]; intros l r; simpl; [reflexivity|].
  destruct (rng r) as [x r']. rewrite IH. apply occ_swap.
Qed.

Lemma occ_shuffle {R} (rng : R -> Z * R) l r id : occ (fst (shuffle rng l r)) id = occ l id.
Proof. apply occ_shuffleFrom. Qed.

(* ------------------------------------------------------------------ *)
(** ** The zone invariant *)

Lemma zoneCount_zones p id :
  zoneCount p id = (occ (getZoneArray p LIB) id + occ (getZoneArray p HAND) id
                    + occ (getZoneArray p BF) id + occ (getZoneArray p GY) id
                    + occ (getZoneArray p EXILE) id)%nat.
Proof. reflexivity. Qed.

Lemma occ_le_zoneCount p z id : (occ (getZoneArray p z) id <= zoneCount p id)%nat.
Proof. rewrite zoneCount_zones. destruct z; lia. Qed.

Lemma wellFormed_but id s : wellFormed s -> wellFormedBut id s.
Proof.
  intros (G & F & D). repeat split; auto.
  specialize (G id). unfold placedOnce, inTransit in *.
  destruct (JsMap.get id (cards s)) as [rc|]; [|assumption].
  destruct G as [G1 G2]. split; [|assumption].
  intros z. pose proof (occ_le_zoneCount (player s (rc_owner rc)) z id). lia.
Qed.

Lemma wellFormed_frame s s' :
  players s' = players s -> cards s' = cards s -> nextId s' = nextId s ->
  wellFormed s -> wellFormed s'.
Proof.
  intros Hp Hc Hn (G & F & D).
  unfold wellFormed, placedOnce, freshIds, damageNonneg, player in *.
  rewrite Hp, Hc, Hn. auto.
Qed.

Lemma wellFormedBut_frame id s s' :
  players s' = players s -> cards s' = cards s -> nextId s' = nextId s ->
  wellFormedBut id s -> wellFormedBut id s'.
Proof.
  intros Hp Hc Hn (G & T & F & D).
  unfold wellFormedBut, placedOnce, inTransit, freshIds, damageNonneg, player in *.
  rewrite Hp, Hc, Hn. auto.
Qed.

Lemma player_upd_player s pid f q :
  player (upd_player pid f s) q
  = if PlayerIndex_eqb q pid then f (player s q) else player s q.
Proof. destruct pid, q; reflexivity. Qed.

Lemma cards_upd_player s pid f : cards (upd_player pid f s) = cards s.
Proof. destruct pid; reflexivity. Qed.

Lemma nextId_upd_player s pid f : nextId (upd_player pid f s) = nextId s.
Proof. destruct pid; reflexivity. Qed.

Lemma other_neq p : PlayerIndex_eqb (other p) p = false.
Proof. now destruct p. Qed.

Lemma other_neq' p : PlayerIndex_eqb p (other p) = false.
Proof. now destruct p. Qed.

Lemma PlayerIndex_eqb_refl p : PlayerIndex_eqb p p = true.
Proof. now destruct p. Qed.

Lemma PlayerIndex_eqb_eq p q : PlayerIndex_eqb p q = true <-> p = q.
Proof. destruct p, q; simpl; split; congruence. Qed.

Lemma PlayerIndex_cases p q : q = p \/ q = other p.
Proof. destruct p, q; auto. Qed.

(** A change of the fields of a player that are not zone arrays. *)
Lemma wellFormed_upd_player_fields s pid f :
  (forall p z, getZoneArray (f p) z = getZoneArray p z) ->
  wellFormed s -> wellFormed (upd_player pid f s).
Proof.
  intros Hf (G & F & D).
  assert (Z : forall q id, zoneCount (player (upd_player pid f s) q) id
                           = zoneCount (player s q) id).
  { intros q id. rewrite player_upd_player. destruct (PlayerIndex_eqb q pid); [|reflexivity].
    rewrite !zoneCount_zones, !Hf. reflexivity. }
  split; [|split].
  - intros id. specialize (G id). unfold placedOnce in *.
    rewrite cards_upd_player. destruct (JsMap.get id (cards s)); rewrite !Z; exact G.
  - unfold freshIds. rewrite cards_upd_player, nextId_upd_player. exact F.
  - unfold damageNonneg. rewrite cards_upd_player. exact D.
Qed.

(** A change of the fields of a card other than its owner. *)
Lemma wellFormed_upd_card s id f :
  (forall rc, rc_owner (f rc) = rc_owner rc) ->
  (forall rc, 0 <= rc_damage rc -> 0 <= rc_damage (f rc)) ->
  wellFormed s -> wellFormed (upd_card id f s).
Proof.
  intros Ho Hd (G & F & D). split; [|split].
  - intros i. specialize (G i). unfold placedOnce in *. simpl.
    rewrite JsMapFacts.get_upd.
    destruct (String.eqb i id); [|exact G].
    destruct (JsMap.get i (cards s)) as [rc|]; simpl; [|exact G].
    rewrite Ho. exact G.
  - intros k Hk. simpl. rewrite JsMapFacts.get_upd, (F k Hk).
    now destruct (String.eqb (makeId k) id).
  - intros i rc. simpl. rewrite JsMapFacts.get_upd.
    destruct (String.eqb i id); [|apply D].
    destruct (JsMap.get i (cards s)) as [rc0|] eqn:E; simpl; [|discriminate].
    intros [= <-]. apply Hd. eapply D; eauto.
Qed.

Lemma getZoneArray_set z z' l p :
  getZoneArray (setZoneArray z l p) z'
  = if PlayerZone_eqb z' z then l else getZoneArray p z'.
Proof. destruct z, z'; reflexivity. Qed.

Lemma getZoneArray_removeFromAll id p z :
  getZoneArray (removeFromAll id p) z = remove_first id (getZoneArray p z).
Proof. destruct z; reflexivity. Qed.

Lemma getZoneArray_pushZone z id p z' :
  getZoneArray (pushZone z id p) z'
  = if PlayerZone_eqb z' z then getZoneArray p z' ++ [id] else getZoneArray p z'.
Proof. destruct z, z'; reflexivity. Qed.

Lemma zoneCount_pushZone z id p i :
  zoneCount (pushZone z id p) i
  = (zoneCount p i + (if String.eqb id i then 1 else 0))%nat.
Proof.
  rewrite !zoneCount_zones, !getZoneArray_pushZone.
  destruct z; simpl; rewrite occ_app, occ_cons, occ_nil; lia.
Qed.

Lemma zoneCount_removeFromAll_other id p i :
  i <> id -> zoneCount (removeFromAll id p) i = zoneCount p i.
Proof.
  intros Hne. rewrite !zoneCount_zones, !getZoneArray_removeFromAll, !occ_remove_first.
  destruct (String.eqb_spec id i); [congruence|reflexivity].
Qed.

Lemma zoneCount_removeFromAll_same id p :
  (forall z, (occ (getZoneArray p z) id <= 1)%nat) ->
  zoneCount (removeFromAll id p) id = 0%nat.
Proof.
  intros H. rewrite !zoneCount_zones, !getZoneArray_removeFromAll, !occ_remove_first.
  rewrite String.eqb_refl.
  pose proof (H LIB); pose proof (H HAND); pose proof (H BF);
    pose proof (H GY); pose proof (H EXILE). lia.
Qed.

Lemma zoneCount_setZoneArray z l p i :
  (zoneCount (setZoneArray z l p) i + occ (getZoneArray p z) i
   = zoneCount p i + occ l i)%nat.
Proof. rewrite !zoneCount_zones, !getZoneArray_set. destruct z; simpl; lia. Qed.

(* ------------------------------------------------------------------ *)
(** ** Planning touches nothing but the log *)

Lemma set_log_same s : set_log (log s ++ []) s = s.
Proof. destruct s; simpl. now rewrite app_nil_r. Qed.

Lemma logOnly_ret {A} (a : A) : logOnly (ret a).
Proof. intros s a' s' [= <- <-]. exists []. now rewrite set_log_same. Qed.

Lemma logOnly_fail {A} : logOnly (@fail A).
Proof. intros s a s' H. discriminate H. Qed.

Lemma logOnly_getS : logOnly getS.
Proof. intros s a' s' [= <- <-]. exists []. now rewrite set_log_same. Qed.

Lemma logOnly_readO {A} (f : GameState -> option A) : logOnly (readO f).
Proof.
  intros s a s' H. unfold readO in H. destruct (f s); [|discriminate].
  inversion H; subst. exists []. now rewrite set_log_same.
Qed.

Lemma logOnly_pushLog msg : logOnly (pushLog msg).
Proof. intros s a s' [= <- <-]. now exists [msg]. Qed.

Lemma logOnly_bind {A B} (m : M A) (k : A -> M B) :
  logOnly m -> (forall a, logOnly (k a)) -> logOnly (bind m k).
Proof.
  intros Hm Hk s b s' H. unfold bind in H.
  destruct (m s) as [[a s1]|] eqn:E; [|discriminate].
  destruct (Hm _ _ _ E) as [l1 ->]. destruct (Hk a _ _ _ H) as [l2 ->].
  exists (l1 ++ l2). simpl. now rewrite app_assoc.
Qed.

Lemma logOnly_concatM {A B} (f : A -> M (list B)) l :
  (forall x, logOnly (f x)) -> logOnly (concatM f l).
Proof.
  intros Hf. induction l as [|x r IH]; simpl.
  - apply logOnly_ret.
  - apply logOnly_bind; [apply Hf|]. intros a.
    apply logOnly_bind; [apply IH|]. intros b. apply logOnly_ret.
Qed.

Lemma logOnly_repeatM {B} n (m : M (list B)) : logOnly m -> logOnly (repeatM n m).
Proof.
  intros Hm. induction n as [|n IH]; simpl.
  - apply logOnly_ret.
  - apply logOnly_bind; [apply Hm|]. intros a.
    apply logOnly_bind; [apply IH|]. intros b. apply logOnly_ret.
Qed.

Ltac logonly :=
  repeat first
    [ apply logOnly_ret | apply logOnly_fail | apply logOnly_getS
    | apply logOnly_readO | apply logOnly_pushLog
    | apply logOnly_bind; [|intros ?]
    | apply logOnly_concatM; intros ?
    | apply logOnly_repeatM
    | assumption
    | match goal with
      | H : forall c o e t, logOnly (?f c o e t) |- logOnly (?f _ _ _ _) => apply H
      | |- logOnly (match ?x with _ => _ end) => destruct x
      | |- logOnly (if ?b then _ else _) => destruct b
      | |- logOnly (let (_, _) := ?x in _) => destruct x
      end ].

Section PlannerLog.
Variable fuel : nat.
Variable rec : PlayerIndex -> option string -> Effect -> option (list string)
               -> M (list Operation).
Hypothesis Hrec : forall c o e t, logOnly (rec c o e t).

Lemma logOnly_selectTargets c sel : logOnly (selectTargets fuel c sel).
Proof. unfold selectTargets. logonly. Qed.

Lemma logOnly_legalTargets c sel o t : logOnly (legalTargets fuel c sel o t).
Proof. unfold legalTargets. logonly; apply logOnly_selectTargets. Qed.

Lemma logOnly_firstBranch c o t bs e : logOnly (firstBranch fuel rec c o t bs e).
Proof. induction bs as [|[w d] r IH]; simpl; unfold holds; logonly. Qed.

Lemma logOnly_planEffect_body c o e t : logOnly (planEffect_body fuel rec c o e t).
Proof.
  destruct e; simpl; unfold fizzle, valueAt, holds;
    try (logonly; try apply logOnly_legalTargets; try apply logOnly_selectTargets; fail).
  apply logOnly_firstBranch.
Qed.
End PlannerLog.

Lemma logOnly_planEffect fuel c o e t : logOnly (planEffect fuel c o e t).
Proof.
  revert c o e t. induction fuel as [|n IH]; intros c o e t; simpl.
  - apply logOnly_fail.
  - apply logOnly_planEffect_body. exact IH.
Qed.

Lemma logOnly_planTriggers fuel w ctx : logOnly (planTriggers fuel w ctx).
Proof.
  unfold planTriggers. logonly; apply logOnly_planEffect.
Qed.

Lemma logOnly_replacementLoop fuel sid l : logOnly (replacementLoop fuel sid l).
Proof.
  induction l as [|[[h r] i] l IH]; simpl; logonly; apply logOnly_planEffect.
Qed.

Lemma logOnly_planReplacementForSubject fuel w sid :
  logOnly (planReplacementForSubject fuel w sid).
Proof. unfold planReplacementForSubject. logonly. apply logOnly_replacementLoop. Qed.

Lemma logOnly_wouldDrawLoop fuel who l : logOnly (wouldDrawLoop fuel who l).
Proof.
  induction l as [|[[h r] i] l IH]; simpl; logonly; apply logOnly_planEffect.
Qed.

Lemma logOnly_planWouldDrawReplacement fuel who :
  logOnly (planWouldDrawReplacement fuel who).
Proof. unfold planWouldDrawReplacement. logonly. apply logOnly_wouldDrawLoop. Qed.

(* ------------------------------------------------------------------ *)
(** ** Every operation keeps the invariant *)

Lemma keeps_ret {A} (a : A) : keeps (ret a).
Proof. intros s a' s' W [= <- <-]. exact W. Qed.

Lemma keeps_fail {A} : keeps (@fail A).
Proof. intros s a s' _ H. discriminate H. Qed.

Lemma keeps_getS : keeps getS.
Proof. intros s a' s' W [= <- <-]. exact W. Qed.

Lemma keeps_readO {A} (f : GameState -> option A) : keeps (readO f).
Proof.
  intros s a s' W H. unfold readO in H. destruct (f s); [|discriminate].
  now inversion H; subst.
Qed.

Lemma keeps_logOnly {A} (m : M A) : logOnly m -> keeps m.
Proof.
  intros L s a s' W H. destruct (L _ _ _ H) as [msgs ->].
  revert W. now apply wellFormed_frame.
Qed.

Lemma keeps_pushLog msg : keeps (pushLog msg).
Proof. apply keeps_logOnly, logOnly_pushLog. Qed.

Lemma keeps_bind {A B} (m : M A) (k : A -> M B) :
  keeps m -> (forall a, keeps (k a)) -> keeps (bind m k).
Proof.
  intros Hm Hk s b s' W H. unfold bind in H.
  destruct (m s) as [[a s1]|] eqn:E; [|discriminate].
  eapply Hk; [|exact H]. eapply Hm; eauto.
Qed.

Lemma keeps_modify f : (forall s, wellFormed s -> wellFormed (f s)) -> keeps (modify f).
Proof. intros Hf s a s' W [= <- <-]. now apply Hf. Qed.

Lemma keeps_forM {A} (l : list A) (f : A -> M unit) :
  (forall x, keeps (f x)) -> keeps (forM l f).
Proof.
  intros Hf. induction l as [|x r IH]; simpl.
  - apply keeps_ret.
  - apply keeps_bind; [apply Hf|]. intros _. exact IH.
Qed.

Lemma keeps_times n (m : M unit) : keeps m -> keeps (times n m).
Proof.
  intros Hm. induction n as [|n IH]; simpl.
  - apply keeps_ret.
  - apply keeps_bind; [exact Hm|]. intros _. exact IH.
Qed.

Ltac split_matches :=
  repeat match goal with
         | |- context [match ?x with _ => _ end] => destruct x
         end.

Ltac wf_frame :=
  repeat match goal with
         | |- wellFormed (match ?x with _ => _ end) => destruct x
         end;
  match goal with
  | W : wellFormed ?s |- wellFormed _ =>
      first
        [ exact W
        | apply (wellFormed_frame s); [reflexivity|reflexivity|reflexivity|exact W]
        | apply wellFormed_upd_card;
            [ intros ?; split_matches; reflexivity
            | intros ? ?; split_matches; simpl;
              repeat match goal with
                     | H : (_ <=? _) = false |- _ => apply Z.leb_gt in H
                     end; lia
            | exact W ]
        | apply wellFormed_upd_player_fields;
            [intros ? z; destruct z; reflexivity | exact W] ]
  end.

Ltac keeps_step known :=
  first
    [ assumption
    | known
    | match goal with
      | |- keeps (ret _) => apply keeps_ret
      | |- keeps fail => apply keeps_fail
      | |- keeps getS => apply keeps_getS
      | |- keeps (readO _) => apply keeps_readO
      | |- keeps (pushLog _) => apply keeps_pushLog
      | |- keeps (bind _ _) => apply keeps_bind; [|intros ?]
      | |- keeps (forM _ _) => apply keeps_forM; intros ?
      | |- keeps (times _ _) => apply keeps_times
      | |- keeps (modify _) => apply keeps_modify; intros ? ?; wf_frame
      | |- keeps (match ?x with _ => _ end) => destruct x eqn:?
      | |- keeps (if ?b then _ else _) => destruct b eqn:?
      end ].

Ltac keeps_with known := repeat keeps_step known.
Ltac keeps_auto := keeps_with fail.

Lemma keeps_healPermanent id n : keeps (healPermanent id n).
Proof. unfold healPermanent. keeps_auto. Qed.

Lemma keeps_checkPlayerDeath : keeps checkPlayerDeath.
Proof. unfold checkPlayerDeath. keeps_auto. Qed.

Lemma keeps_incEvent e who : keeps (incEvent e who).
Proof. unfold incEvent. keeps_auto. Qed.

Lemma player_upd_card s id f q : player (upd_card id f s) q = player s q.
Proof. reflexivity. Qed.

Lemma cards_upd_card s id f : cards (upd_card id f s) = JsMap.upd id f (cards s).
Proof. reflexivity. Qed.

Lemma nextId_upd_card s id f : nextId (upd_card id f s) = nextId s.
Proof. reflexivity. Qed.

(** The relocation at the heart of [moveCard]. *)
Lemma wellFormed_relocate s id rc dest :
  wellFormedBut id s -> JsMap.get id (cards s) = Some rc ->
  wellFormed
    (upd_card id (set_rc_zone dest)
       (upd_player (rc_owner rc) (fun p => pushZone dest id (removeFromAll id p)) s)).
Proof.
  intros (G & T & F & D) Hget.
  unfold inTransit in T. rewrite Hget in T. destruct T as [T1 T2].
  set (o := rc_owner rc) in *.
  assert (Z : forall q i,
    zoneCount (player (upd_card id (set_rc_zone dest)
                 (upd_player o (fun p => pushZone dest id (removeFromAll id p)) s)) q) i
    = if String.eqb i id then (if PlayerIndex_eqb q o then 1%nat else zoneCount (player s q) i)
      else zoneCount (player s q) i).
  { intros q i. rewrite player_upd_card, player_upd_player.
    destruct (PlayerIndex_eqb q o) eqn:Eq.
    - apply PlayerIndex_eqb_eq in Eq. subst q.
      rewrite zoneCount_pushZone.
      destruct (String.eqb_spec i id) as [->|Hne].
      + rewrite zoneCount_removeFromAll_same by exact T1. now rewrite String.eqb_refl.
      + rewrite zoneCount_removeFromAll_other by exact Hne.
        destruct (String.eqb_spec id i); [congruence|lia].
    - now destruct (String.eqb i id). }
  split; [|split].
  - intros i. unfold placedOnce.
    rewrite cards_upd_card, cards_upd_player, JsMapFacts.get_upd.
    destruct (String.eqb_spec i id) as [->|Hne].
    + rewrite Hget. cbn [option_map]. change (rc_owner (set_rc_zone dest rc)) with o.
      rewrite !Z, String.eqb_refl, PlayerIndex_eqb_refl, other_neq. auto.
    + specialize (G i Hne). unfold placedOnce in G.
      destruct (JsMap.get i (cards s)); rewrite !Z;
        (destruct (String.eqb_spec i id); [congruence|exact G]).
  - intros k Hk. rewrite nextId_upd_card, nextId_upd_player in Hk.
    rewrite cards_upd_card, cards_upd_player, JsMapFacts.get_upd.
    rewrite (F k Hk). now destruct (String.eqb _ _).
  - intros i rc0. rewrite cards_upd_card, cards_upd_player, JsMapFacts.get_upd.
    destruct (String.eqb i id); [|apply D].
    destruct (JsMap.get i (cards s)) as [r|] eqn:E; cbn [option_map]; [|discriminate].
    intros [= <-]. change (rc_damage (set_rc_zone dest r)) with (rc_damage r).
    eapply D; eauto.
Qed.

(** A card taken off the zone arrays of a player is in transit. *)
Lemma wellFormedBut_shrink s pid f id :
  wellFormed s ->
  (forall z i, i <> id -> occ (getZoneArray (f (player s pid)) z) i
                          = occ (getZoneArray (player s pid) z) i) ->
  (forall z, (occ (getZoneArray (f (player s pid)) z) id
              <= occ (getZoneArray (player s pid) z) id)%nat) ->
  wellFormedBut id (upd_player pid f s).
Proof.
  intros (G & F & D) Hother Hid.
  assert (Zo : forall q i, i <> id ->
    zoneCount (player (upd_player pid f s) q) i = zoneCount (player s q) i).
  { intros q i Hne. rewrite player_upd_player.
    destruct (PlayerIndex_eqb q pid) eqn:Eq; [|reflexivity].
    apply PlayerIndex_eqb_eq in Eq. subst q.
    rewrite !zoneCount_zones, !Hother by exact Hne. reflexivity. }
  assert (Zz : forall q z,
    (occ (getZoneArray (player (upd_player pid f s) q) z) id
     <= occ (getZoneArray (player s q) z) id)%nat).
  { intros q z. rewrite player_upd_player.
    destruct (PlayerIndex_eqb q pid) eqn:Eq; [|lia].
    apply PlayerIndex_eqb_eq in Eq. subst q. apply Hid. }
  assert (Zi : forall q,
    (zoneCount (player (upd_player pid f s) q) id <= zoneCount (player s q) id)%nat).
  { intros q. rewrite !zoneCount_zones.
    pose proof (Zz q LIB); pose proof (Zz q HAND); pose proof (Zz q BF);
      pose proof (Zz q GY); pose proof (Zz q EXILE). lia. }
  split; [|split; [|split]].
  - intros i Hne. specialize (G i). unfold placedOnce in *. rewrite cards_upd_player.
    destruct (JsMap.get i (cards s)); rewrite !Zo by exact Hne; exact G.
  - specialize (G id). unfold placedOnce, inTransit in *. rewrite cards_upd_player.
    destruct (JsMap.get id (cards s)) as [rc|].
    + destruct G as [G1 G2]. split.
      * intros z. pose proof (Zz (rc_owner rc) z).
        pose proof (occ_le_zoneCount (player s (rc_owner rc)) z id). lia.
      * pose proof (Zi (other (rc_owner rc))). lia.
    + pose proof (Zi P0). pose proof (Zi P1). lia.
  - unfold freshIds. rewrite cards_upd_player, nextId_upd_player. exact F.
  - unfold damageNonneg. rewrite cards_upd_player. exact D.
Qed.

Lemma wellFormedBut_take s pid z l id :
  wellFormed s ->
  (forall i, occ (getZoneArray (player s pid) z) i
             = occ l i + (if String.eqb id i then 1 else 0))%nat ->
  wellFormedBut id (upd_player pid (setZoneArray z l) s).
Proof.
  intros W Hl. apply wellFormedBut_shrink; [exact W| |].
  - intros z' i Hne. rewrite getZoneArray_set.
    destruct z, z'; simpl; try reflexivity;
      (specialize (Hl i); simpl in Hl; rewrite Hl;
       destruct (String.eqb_spec id i); [congruence|lia]).
  - intros z'. rewrite getZoneArray_set.
    destruct z, z'; simpl; try lia; (specialize (Hl id); simpl in Hl; lia).
Qed.

Lemma occ_remove_first_le x l i : (occ (remove_first x l) i <= occ l i)%nat.
Proof. rewrite occ_remove_first. destruct (String.eqb x i); lia. Qed.

Lemma wellFormedBut_remove s pid z id :
  wellFormed s ->
  wellFormedBut id
    (upd_player pid (fun q => setZoneArray z (remove_first id (getZoneArray q z)) q) s).
Proof.
  intros W. apply wellFormedBut_shrink; [exact W| |].
  - intros z' i Hne. rewrite getZoneArray_set.
    destruct (PlayerZone_eqb z' z) eqn:E; [|reflexivity].
    assert (z' = z) by (destruct z, z'; simpl in E; congruence). subst z'.
    rewrite occ_remove_first. destruct (String.eqb_spec id i); [congruence|reflexivity].
  - intros z'. rewrite getZoneArray_set.
    destruct (PlayerZone_eqb z' z) eqn:E; [|lia].
    assert (z' = z) by (destruct z, z'; simpl in E; congruence). subst z'.
    apply occ_remove_first_le.
Qed.

(** A rearrangement of the zone arrays of one player. *)
Lemma wellFormed_upd_player_zones s pid f :
  (forall i, zoneCount (f (player s pid)) i = zoneCount (player s pid) i) ->
  wellFormed s -> wellFormed (upd_player pid f s).
Proof.
  intros Hf (G & F & D).
  assert (Z : forall q id, zoneCount (player (upd_player pid f s) q) id
                           = zoneCount (player s q) id).
  { intros q id. rewrite player_upd_player.
    destruct (PlayerIndex_eqb q pid) eqn:Eq; [|reflexivity].
    apply PlayerIndex_eqb_eq in Eq. subst q. apply Hf. }
  split; [|split].
  - intros id. specialize (G id). unfold placedOnce in *.
    rewrite cards_upd_player. destruct (JsMap.get id (cards s)); rewrite !Z; exact G.
  - unfold freshIds. rewrite cards_upd_player, nextId_upd_player. exact F.
  - unfold damageNonneg. rewrite cards_upd_player. exact D.
Qed.

(** The transfer at the heart of [transferControl]. *)
Lemma wellFormed_transfer s id rc newOwner :
  wellFormed s -> JsMap.get id (cards s) = Some rc ->
  PlayerIndex_eqb (rc_owner rc) newOwner = false ->
  wellFormed
    (upd_card id (set_rc_owner newOwner)
       (upd_player newOwner (pushZone (rc_zone rc) id)
          (upd_player (rc_owner rc) (removeFromAll id) s))).
Proof.
  intros (G & F & D) Hget Hne.
  set (o := rc_owner rc) in *.
  assert (No : newOwner = other o) by (destruct o, newOwner; simpl in *; congruence).
  pose proof (G id) as Gid. unfold placedOnce in Gid. rewrite Hget in Gid. fold o in Gid.
  destruct Gid as [G1 G2].
  assert (Z : forall q i,
    zoneCount (player (upd_card id (set_rc_owner newOwner)
                 (upd_player newOwner (pushZone (rc_zone rc) id)
                    (upd_player o (removeFromAll id) s))) q) i
    = if String.eqb i id then (if PlayerIndex_eqb q newOwner then 1%nat else 0%nat)
      else zoneCount (player s q) i).
  { intros q i. rewrite player_upd_card, !player_upd_player.
    destruct (PlayerIndex_cases o q) as [->| ->].
    - rewrite Hne, PlayerIndex_eqb_refl.
      destruct (String.eqb_spec i id) as [->|Hi].
      + apply zoneCount_removeFromAll_same. intros z.
        pose proof (occ_le_zoneCount (player s o) z id). lia.
      + now apply zoneCount_removeFromAll_other.
    - rewrite <- No, PlayerIndex_eqb_refl, zoneCount_pushZone.
      replace (PlayerIndex_eqb newOwner o) with false
        by (subst newOwner; now rewrite other_neq).
      destruct (String.eqb_spec i id) as [->|Hi].
      + rewrite String.eqb_refl. rewrite No. lia.
      + destruct (String.eqb_spec id i); [congruence|lia]. }
  split; [|split].
  - intros i. unfold placedOnce.
    rewrite cards_upd_card, !cards_upd_player, JsMapFacts.get_upd.
    destruct (String.eqb_spec i id) as [->|Hi].
    + rewrite Hget. cbn [option_map]. change (rc_owner (set_rc_owner newOwner rc)) with newOwner.
      rewrite !Z, String.eqb_refl, PlayerIndex_eqb_refl, other_neq. auto.
    + specialize (G i). unfold placedOnce in G.
      destruct (JsMap.get i (cards s)); rewrite !Z;
        (destruct (String.eqb_spec i id); [congruence|exact G]).
  - intros k Hk. rewrite nextId_upd_card, !nextId_upd_player in Hk.
    rewrite cards_upd_card, !cards_upd_player, JsMapFacts.get_upd.
    rewrite (F k Hk). now destruct (String.eqb _ _).
  - intros i rc0. rewrite cards_upd_card, !cards_upd_player, JsMapFacts.get_upd.
    destruct (String.eqb i id); [|apply D].
    destruct (JsMap.get i (cards s)) as [r|] eqn:E; cbn [option_map]; [|discriminate].
    intros [= <-]. change (rc_damage (set_rc_owner newOwner r)) with (rc_damage r).
    eapply D; eauto.
Qed.

(** The registration at the heart of [CreateToken]. *)
Lemma wellFormed_register s pid rc :
  wellFormed s -> rc_owner rc = pid -> 0 <= rc_damage rc ->
  wellFormed
    (upd_player pid (pushZone BF (makeId (nextId s)))
       (set_cards (JsMap.set (makeId (nextId s)) rc (cards s))
          (set_nextId (S (nextId s)) s))).
Proof.
  intros (G & F & D) Ho Hd.
  set (id := makeId (nextId s)).
  assert (Hnew : JsMap.get id (cards s) = None) by (apply F; lia).
  pose proof (G id) as Gid. unfold placedOnce in Gid. rewrite Hnew in Gid.
  assert (Z : forall q i,
    zoneCount (player (upd_player pid (pushZone BF id)
                 (set_cards (JsMap.set id rc (cards s)) (set_nextId (S (nextId s)) s))) q) i
    = (zoneCount (player s q) i
       + (if PlayerIndex_eqb q pid then (if String.eqb id i then 1 else 0) else 0))%nat).
  { intros q i. rewrite player_upd_player.
    change (player (set_cards _ (set_nextId _ s)) q) with (player s q).
    destruct (PlayerIndex_eqb q pid); [apply zoneCount_pushZone|lia]. }
  split; [|split].
  - intros i. unfold placedOnce. rewrite cards_upd_player.
    change (cards (set_cards (JsMap.set id rc (cards s)) (set_nextId (S (nextId s)) s)))
      with (JsMap.set id rc (cards s)).
    destruct (String.eqb_spec i id) as [->|Hi].
    + rewrite JsMapFacts.get_set_eq, !Z, Ho, String.eqb_refl, PlayerIndex_eqb_refl, other_neq.
      destruct pid; cbn [other]; lia.
    + rewrite JsMapFacts.get_set_neq by exact Hi.
      specialize (G i). unfold placedOnce in G.
      assert (E : String.eqb id i = false) by (apply String.eqb_neq; congruence).
      destruct (JsMap.get i (cards s)); rewrite !Z, E;
        repeat match goal with |- context [PlayerIndex_eqb ?a ?b] =>
                 destruct (PlayerIndex_eqb a b) end; lia.
  - intros k Hk. rewrite nextId_upd_player in Hk. cbn [nextId set_cards set_nextId] in Hk.
    rewrite cards_upd_player.
    change (cards (set_cards (JsMap.set id rc (cards s)) (set_nextId (S (nextId s)) s)))
      with (JsMap.set id rc (cards s)).
    rewrite JsMapFacts.get_set_neq; [apply F; lia|].
    intros E. apply makeId_inj in E. lia.
  - intros i rc0. rewrite cards_upd_player.
    change (cards (set_cards (JsMap.set id rc (cards s)) (set_nextId (S (nextId s)) s)))
      with (JsMap.set id rc (cards s)).
    destruct (String.eqb_spec i id) as [->|Hi].
    + rewrite JsMapFacts.get_set_eq. intros [= <-]. exact Hd.
    + rewrite JsMapFacts.get_set_neq by exact Hi. apply D.
Qed.

Lemma moveCard_unfold fuel rec id z s :
  moveCard fuel rec id z s =
  match JsMap.get id (cards s) with
  | None => Some (tt, s)
  | Some rc =>
      let s1 := relocate id (rc_owner rc) (moveDest s rc z) s in
      if PlayerZone_eqb (moveDest s rc z) BF then
        (fireTriggers fuel rec OnEnter (subjectCtx id) ;;;
         fireTriggers fuel rec OnNameMatched (subjectCtx id))
          (upd_card id (set_tapped (Some false)) s1)
      else Some (tt, s1)
  end.
Proof.
  unfold moveCard, moveDest, relocate. cbv beta iota delta [bind getS].
  destruct (JsMap.get id (cards s)) as [rc|]; [|reflexivity].
  cbv beta iota zeta delta [bind modify].
  destruct (PlayerZone_eqb _ BF); reflexivity.
Qed.

Section ApplierKeeps.
Variable fuel : nat.
Variable rec : Operation -> M unit.
Hypothesis Hrec : forall op, keeps (rec op).

Lemma keeps_applyAll ops : keeps (applyAll rec ops).
Proof. unfold applyAll. apply keeps_forM. exact Hrec. Qed.

Lemma keeps_fireTriggers w ctx : keeps (fireTriggers fuel rec w ctx).
Proof.
  unfold fireTriggers. apply keeps_bind.
  - apply keeps_logOnly, logOnly_planTriggers.
  - intros ops. apply keeps_applyAll.
Qed.

Lemma keeps_applyReplacement w sid : keeps (applyReplacement fuel rec w sid).
Proof.
  unfold applyReplacement. apply keeps_bind.
  - apply keeps_logOnly, logOnly_planReplacementForSubject.
  - intros ops. destruct ops; [apply keeps_ret|].
    apply keeps_bind; [apply keeps_applyAll|intros _; apply keeps_ret].
Qed.

Lemma keeps_applyWouldDrawReplacement who :
  keeps (applyWouldDrawReplacement fuel rec who).
Proof.
  unfold applyWouldDrawReplacement. apply keeps_bind.
  - apply keeps_logOnly, logOnly_planWouldDrawReplacement.
  - intros ops. destruct ops; [apply keeps_ret|].
    apply keeps_bind; [apply keeps_applyAll|intros _; apply keeps_ret].
Qed.

(** [moveCard] completes a transfer: it may start with the card in
    transit and ends with the invariant. *)
Lemma moveCard_completes id z s a s' :
  wellFormedBut id s -> moveCard fuel rec id z s = Some (a, s') -> wellFormed s'.
Proof.
  intros W H. rewrite moveCard_unfold in H.
  destruct (JsMap.get id (cards s)) as [rc|] eqn:Hget.
  - cbv zeta in H.
    pose proof (wellFormed_relocate s id rc (moveDest s rc z) W Hget) as W1.
    destruct (PlayerZone_eqb (moveDest s rc z) BF).
    + assert (K : keeps (fireTriggers fuel rec OnEnter (subjectCtx id) ;;;
                         fireTriggers fuel rec OnNameMatched (subjectCtx id)))
        by (apply keeps_bind; [|intros _]; apply keeps_fireTriggers).
      eapply K; [|exact H]. revert W1. apply wellFormed_upd_card; [reflexivity|auto].
    + inversion H; subst. exact W1.
  - inversion H; subst. destruct W as (G & T & F & D).
    split; [|split]; auto.
    intros i. destruct (String.eqb_spec i id) as [->|Hne]; [|now apply G].
    unfold placedOnce, inTransit in *. now rewrite Hget in *.
Qed.

Lemma keeps_moveCard id z : keeps (moveCard fuel rec id z).
Proof. intros s a s' W. apply moveCard_completes. now apply wellFormed_but. Qed.

Lemma keeps_getS_bind {A} (k : GameState -> M A) :
  (forall s0 a s', wellFormed s0 -> k s0 s0 = Some (a, s') -> wellFormed s') ->
  keeps (bind getS k).
Proof. intros H s a s' W E. exact (H s a s' W E). Qed.

Lemma keeps_transferControl id newOwner : keeps (transferControl id newOwner).
Proof.
  unfold transferControl. apply keeps_getS_bind. intros s a s' W H.
  destruct (JsMap.get id (cards s)) as [rc|] eqn:Hget.
  - destruct (PlayerIndex_eqb (rc_owner rc) newOwner) eqn:Eo.
    + now inversion H; subst.
    + inversion H; subst. now apply wellFormed_transfer.
  - now inversion H; subst.
Qed.

(** A card is taken off a zone array and handed to [moveCard]. *)
Lemma take_then_move {A} pid z l id dest (k : M A) s a s' :
  keeps k -> wellFormed s ->
  (forall i, occ (getZoneArray (player s pid) z) i
             = occ l i + (if String.eqb id i then 1 else 0))%nat ->
  (modify (upd_player pid (setZoneArray z l)) ;;; moveCard fuel rec id dest ;;; k) s
  = Some (a, s') ->
  wellFormed s'.
Proof.
  intros Hk W Hl H. cbv beta iota delta [bind modify] in H.
  destruct (moveCard fuel rec id dest _) as [[[] s1]|] eqn:E; [|discriminate].
  eapply Hk; [|exact H]. eapply moveCard_completes; [|exact E].
  now apply wellFormedBut_take.
Qed.

Lemma keeps_topDrawLoop who n : keeps (topDrawLoop fuel rec who n).
Proof.
  induction n as [|n IH]; cbn [topDrawLoop].
  - apply keeps_ret.
  - apply keeps_bind; [apply keeps_applyWouldDrawReplacement|].
    intros handled. destruct handled; [exact IH|].
    apply keeps_getS_bind. intros s a s' W H.
    destruct (pop (library (player s who))) as [[id rest]|] eqn:Ep.
    + eapply (take_then_move who LIB rest id HAND); [|exact W| |exact H].
      * keeps_with ltac:(first [apply keeps_fireTriggers | exact IH]).
      * intros i. cbn [getZoneArray]. now apply occ_pop.
    + match type of H with
      | ?m s = _ => assert (K : keeps m) by keeps_auto; exact (K _ _ _ W H)
      end.
Qed.

Lemma keeps_topDraw who n : keeps (topDraw fuel rec who n).
Proof. apply keeps_topDrawLoop. Qed.

Lemma keeps_destroyPermanent id : keeps (destroyPermanent fuel rec id).
Proof.
  unfold destroyPermanent.
  keeps_with ltac:(first [apply keeps_applyReplacement | apply keeps_incEvent
                         | apply keeps_fireTriggers | apply keeps_moveCard]).
Qed.

Lemma keeps_lifelink src n : keeps (lifelink src n).
Proof. unfold lifelink. keeps_auto. Qed.

Lemma keeps_dealDamageToPermanent id n src :
  keeps (dealDamageToPermanent fuel rec id n src).
Proof.
  unfold dealDamageToPermanent.
  keeps_with ltac:(first [apply keeps_applyReplacement | apply keeps_lifelink
                         | apply keeps_fireTriggers | apply keeps_destroyPermanent]).
Qed.

Lemma keeps_checkLethalAfterStatChange id :
  keeps (checkLethalAfterStatChange fuel rec id).
Proof.
  unfold checkLethalAfterStatChange.
  keeps_with ltac:(apply keeps_destroyPermanent).
Qed.
End ApplierKeeps.

Lemma bind_modify {A} f (k : unit -> M A) s : bind (modify f) k s = k tt (f s).
Proof. reflexivity. Qed.

Section CasesKeep.
Variable fuel : nat.
Variable rec : Operation -> M unit.
Hypothesis Hrec : forall op, keeps (rec op).

Ltac known :=
  first [ apply keeps_fireTriggers; exact Hrec
        | apply keeps_moveCard; exact Hrec
        | apply keeps_topDraw; exact Hrec
        | apply keeps_applyAll; exact Hrec
        | apply keeps_dealDamageToPermanent; exact Hrec
        | apply keeps_checkLethalAfterStatChange; exact Hrec
        | apply keeps_transferControl
        | apply keeps_healPermanent
        | apply keeps_lifelink
        | apply keeps_incEvent
        | apply keeps_checkPlayerDeath ].

Lemma keeps_millLoop pid n moved : keeps (millLoop fuel rec pid n moved).
Proof.
  revert moved. induction n as [|n IH]; intros moved; cbn [millLoop].
  - apply keeps_ret.
  - apply keeps_getS_bind. intros s a s' W H.
    destruct (pop (library (player s pid))) as [[id rest]|] eqn:Ep.
    + eapply (take_then_move fuel rec Hrec pid LIB rest id GY); [|exact W| |exact H].
      * apply IH.
      * intros i. cbn [getZoneArray]. now apply occ_pop.
    + now inversion H; subst.
Qed.

Lemma keeps_lookAtTop pid cnt choose : keeps (lookAtTop fuel rec pid cnt choose).
Proof.
  unfold lookAtTop. apply keeps_bind; [apply keeps_getS|]. intros s0. cbv zeta.
  destruct (Z.to_nat _) as [|n]; [apply keeps_pushLog|].
  destruct choose as [c|]; [|apply keeps_pushLog].
  apply keeps_bind; [keeps_auto|]. intros _.
  apply keeps_forM. intros id s a s' W H.
  cbv beta iota delta [bind modify] in H.
  eapply moveCard_completes; [exact Hrec| |exact H].
  apply (wellFormedBut_remove s pid LIB id W).
Qed.

Lemma keeps_createToken pid atk hp tgs attrs :
  keeps (createToken fuel rec pid atk hp tgs attrs).
Proof.
  unfold createToken. apply keeps_getS_bind. intros s a s' W H.
  cbv zeta in H. repeat (rewrite bind_modify in H; cbv beta in H).
  match type of H with
  | ?m ?st = _ =>
      assert (K : keeps m) by (keeps_with known);
      apply (K st a s'); [|exact H]
  end.
  apply (wellFormed_register s pid); [exact W|reflexivity|simpl; lia].
Qed.

Lemma keeps_turnStart : keeps (turnStart fuel rec).
Proof.
  unfold turnStart. keeps_with known.
Qed.

Lemma keeps_assignEach ids f :
  (forall rc, rc_owner (f rc) = rc_owner rc) ->
  (forall rc, 0 <= rc_damage rc -> 0 <= rc_damage (f rc)) ->
  keeps (assignEach ids f).
Proof.
  intros Ho Hd. unfold assignEach. keeps_auto.
  apply keeps_modify. intros ? ?. now apply wellFormed_upd_card.
Qed.

Lemma keeps_endTurnCleanup pid : keeps (endTurnCleanup fuel rec pid).
Proof.
  unfold endTurnCleanup.
  apply keeps_bind; [apply keeps_getS|]. intros s0. cbv zeta.
  apply keeps_bind; [|intros _].
  - destruct (maxHandSize (build (rules s0))) as [mx|]; [|apply keeps_ret].
    destruct (mx <? _); [|apply keeps_ret].
    apply keeps_times. apply keeps_getS_bind. intros s a s' W H.
    destruct (hand (player s pid)) as [|id rest] eqn:Eh.
    + revert H. match goal with |- ?m s = _ -> _ =>
        assert (K : keeps m) by keeps_auto; intros H; exact (K _ _ _ W H) end.
    + cbv beta iota delta [bind modify] in H.
      destruct (moveCard fuel rec id GY _) as [[[] s1]|] eqn:E; [|discriminate].
      eapply keeps_pushLog; [|exact H].
      eapply moveCard_completes; [exact Hrec| |exact E].
      apply wellFormedBut_take; [exact W|].
      intros i. cbn [getZoneArray]. rewrite Eh, occ_cons. lia.
  - apply keeps_bind; [apply keeps_getS|]. intros s2.
    apply keeps_bind; [|intros _].
    + destruct (damagePersistsTurn _); [|apply keeps_ret].
      apply keeps_assignEach; [reflexivity|simpl; lia].
    + apply keeps_bind; [apply keeps_getS|]. intros s3.
      apply keeps_assignEach; [reflexivity|simpl; auto].
Qed.

Lemma keeps_endTurnOp : keeps (endTurnOp fuel rec).
Proof.
  unfold endTurnOp.
  keeps_with ltac:(first [apply keeps_endTurnCleanup | known]).
Qed.

Lemma keeps_applyOperation_body op : keeps (applyOperation_body fuel rec op).
Proof.
  destruct op; cbn [applyOperation_body];
    try (keeps_with ltac:(first [ apply keeps_turnStart | apply keeps_endTurnOp
                                | apply keeps_createToken | apply keeps_lookAtTop
                                | apply keeps_millLoop | known ]); fail).
  all: keeps_with ltac:(first [ apply keeps_logOnly, logOnly_planEffect | known ]).
Qed.
End CasesKeep.

Lemma keeps_applyOperation fuel op : keeps (applyOperation fuel op).
Proof.
  revert op. induction fuel as [|n IH]; intros op; cbn [applyOperation].
  - apply keeps_fail.
  - apply keeps_applyOperation_body. exact IH.
Qed.

(* ------------------------------------------------------------------ *)
(** ** The exported actions keep the invariant *)

Lemma keeps_forOps fuel ops : keeps (forOps fuel ops).
Proof. unfold forOps. apply keeps_forM. intros op. apply keeps_applyOperation. Qed.

Lemma keeps_resolveEffect fuel c o e t : keeps (resolveEffect fuel c o e t).
Proof.
  unfold resolveEffect. apply keeps_bind; [apply keeps_logOnly, logOnly_planEffect|].
  intros ops. apply keeps_forOps.
Qed.

Lemma keeps_startTurn fuel : keeps (startTurn fuel).
Proof. apply keeps_forOps. Qed.

Lemma keeps_advancePhase fuel : keeps (advancePhase fuel).
Proof. unfold advancePhase. keeps_with ltac:(apply keeps_applyOperation). Qed.

Lemma keeps_endTurn fuel : keeps (endTurn fuel).
Proof. apply keeps_applyOperation. Qed.

Lemma keeps_castFromHand fuel pid i t : keeps (castFromHand fuel pid i t).
Proof. unfold castFromHand. keeps_with ltac:(apply keeps_forOps). Qed.

Lemma keeps_attack fuel pid i t : keeps (attack fuel pid i t).
Proof. unfold attack. keeps_with ltac:(apply keeps_forOps). Qed.

Lemma keeps_mulliganLondon fuel pid rnd : keeps (mulliganLondon fuel pid rnd).
Proof.
  unfold mulliganLondon. apply keeps_bind; [apply keeps_getS|]. intros s0.
  destruct (mulligan (rules s0)); try apply keeps_ret.
  apply keeps_bind; [|intros _].
  { apply keeps_modify. intros s W. apply wellFormed_upd_player_zones; [|exact W].
    intros i. rewrite !zoneCount_zones, !getZoneArray_set.
    cbn [PlayerZone_eqb getZoneArray].
    rewrite occ_app, occ_rev, occ_nil. lia. }
  apply keeps_bind; [|intros _].
  { apply keeps_modify. intros s W. apply wellFormed_upd_player_zones; [|exact W].
    intros i. rewrite !zoneCount_zones, !getZoneArray_set.
    cbn [PlayerZone_eqb getZoneArray].
    rewrite occ_shuffle. reflexivity. }
  apply keeps_bind; [apply keeps_topDraw; intros op; apply keeps_applyOperation|intros _].
  apply keeps_bind; [apply keeps_getS|]. intros s1. cbv zeta.
  apply keeps_bind; [|intros _; keeps_auto].
  apply keeps_times. apply keeps_getS_bind. intros s a s' W H.
  destruct (pop (hand (player s pid))) as [[id rest]|] eqn:Ep; [|discriminate H].
  rewrite bind_modify in H.
  destruct (JsMap.get id (cards s)); [|discriminate H].
  inversion H; subst.
  apply wellFormed_upd_card; [reflexivity|auto|].
  apply wellFormed_upd_player_zones; [|exact W].
  intros i. cbv beta. rewrite !zoneCount_zones.
  cbn [getZoneArray setZoneArray library hand battlefield graveyard exile].
  rewrite occ_cons, (occ_pop _ _ _ i Ep). lia.
Qed.

(* ------------------------------------------------------------------ *)
(** ** Deck loading and match setup establish the invariant *)

Lemma loadCopies_loaded owner card count nid :
  loaded owner nid (snd (loadCopies owner card count nid))
         (fst (loadCopies owner card count nid))
  /\ snd (loadCopies owner card count nid) = (nid + count)%nat.
Proof.
  revert nid. induction count as [|k IH]; intros nid; cbn [loadCopies].
  - cbn [fst snd]. split; [|lia]. unfold loaded. rewrite Nat.sub_diag. cbn [map seq]. auto.
  - destruct (IH (S nid)) as [(Hm & Hle & HF) Hn].
    destruct (loadCopies owner card k (S nid)) as [rest nid'] eqn:E.
    cbn [fst snd] in *. subst nid'. split; [|lia].
    split; [|split; [lia|]].
    + replace (S nid + k - nid)%nat with (S k) by lia.
      replace (S nid + k - S nid)%nat with k in Hm by lia.
      cbn [map seq rc_id]. now rewrite Hm.
    + constructor; [split; reflexivity|exact HF].
Qed.

Lemma loaded_app owner a b c l1 l2 :
  loaded owner a b l1 -> loaded owner b c l2 -> loaded owner a c (l1 ++ l2).
Proof.
  intros (M1 & L1 & F1) (M2 & L2 & F2). split; [|split; [lia|]].
  - rewrite map_app, M1, M2, <- map_app. f_equal.
    replace (c - a)%nat with ((b - a) + (c - b))%nat by lia.
    rewrite seq_app. f_equal. f_equal. lia.
  - apply Forall_app. auto.
Qed.

Lemma loadEntries_loaded owner entries nid :
  loaded owner nid (snd (loadEntries owner entries nid))
         (fst (loadEntries owner entries nid)).
Proof.
  revert nid. induction entries as [|e r IH]; intros nid; cbn [loadEntries].
  - cbn [fst snd]. unfold loaded. rewrite Nat.sub_diag. cbn [map seq]. auto.
  - destruct (loadCopies_loaded owner (de_card e) (Z.to_nat (Z.max 0 (de_count e))) nid)
      as [H1 _].
    destruct (loadCopies owner (de_card e) (Z.to_nat (Z.max 0 (de_count e))) nid)
      as [a nid1]. cbn [fst snd] in H1.
    specialize (IH nid1). destruct (loadEntries owner r nid1) as [b nid2].
    cbn [fst snd] in *. eapply loaded_app; eauto.
Qed.

Lemma loadDeck_loaded raw owner nid :
  loaded owner nid (snd (loadDeck raw owner nid)) (deck_list (fst (loadDeck raw owner nid))).
Proof.
  unfold loadDeck. pose proof (loadEntries_loaded owner (raw_cards raw) nid) as H.
  destruct (loadEntries owner (raw_cards raw) nid) as [l nid']. exact H.
Qed.

Lemma in_ids a n i :
  In i (map makeId (seq a n)) <-> exists k, i = makeId k /\ (a <= k < a + n)%nat.
Proof.
  rewrite in_map_iff. split.
  - intros (k & <- & Hk). apply in_seq in Hk. eauto.
  - intros (k & -> & Hk). exists k. split; [reflexivity|]. now apply in_seq.
Qed.

Lemma ids_NoDup a n : NoDup (map makeId (seq a n)).
Proof.
  revert a. induction n as [|n IH]; intros a; cbn [seq map]; constructor.
  - intros Hin. apply in_ids in Hin as (k & E & Hk). apply makeId_inj in E. lia.
  - apply IH.
Qed.

Lemma occ_NoDup l i : NoDup l -> occ l i = if in_dec string_dec i l then 1%nat else 0%nat.
Proof.
  intros N. destruct (in_dec string_dec i l) as [Hin|Hout].
  - pose proof (proj1 (NoDup_count_occ string_dec l) N i).
    pose proof (proj1 (count_occ_In string_dec l i) Hin). unfold occ. lia.
  - now apply count_occ_not_In.
Qed.

Lemma get_registerDeck_out l cs id :
  ~ In id (map rc_id l) ->
  JsMap.get id (fold_left (fun m rc => JsMap.set (rc_id rc) rc m) l cs) = JsMap.get id cs.
Proof.
  revert cs. induction l as [|x r IH]; intros cs Hout; cbn [fold_left]; [reflexivity|].
  cbn in Hout. rewrite IH by tauto. apply JsMapFacts.get_set_neq. intros E. apply Hout. auto.
Qed.

Lemma get_registerDeck_in l cs id :
  In id (map rc_id l) ->
  exists rc, JsMap.get id (fold_left (fun m rc => JsMap.set (rc_id rc) rc m) l cs) = Some rc
             /\ In rc l.
Proof.
  revert cs. induction l as [|x r IH]; intros cs Hin; cbn [fold_left]; [contradiction|].
  destruct (in_dec string_dec id (map rc_id r)) as [Hr|Hr].
  - destruct (IH (JsMap.set (rc_id x) x cs) Hr) as (rc & E & I). exists rc. split; [exact E|now right].
  - destruct Hin as [E|Hin]; [|contradiction].
    exists x. split; [|now left].
    rewrite get_registerDeck_out by exact Hr. subst id. apply JsMapFacts.get_set_eq.
Qed.

Lemma wellFormed_initial a a' b b' dA dB lib0 lib1 nid n0 n1 l0 l1 cp0 cp1 rls trn :
  loaded P0 a a' (deck_list dA) -> loaded P1 b b' (deck_list dB) ->
  (a' <= b \/ b' <= a)%nat -> (a' <= nid)%nat -> (b' <= nid)%nat ->
  (forall i, occ lib0 i = occ (map rc_id (deck_list dA)) i) ->
  (forall i, occ lib1 i = occ (map rc_id (deck_list dB)) i) ->
  wellFormed
    (mkState rls
       (mkPlayer P0 n0 l0 0 cp0 lib0 [] [] [] [] 0, mkPlayer P1 n1 l1 0 cp1 lib1 [] [] [] [] 0)
       (registerDeck dB (registerDeck dA [])) trn [] None [] [] [] [] [] [] [] [] [] [] nid).
Proof.
  intros (MA & LA & FA) (MB & LB & FB) Hdis Hna Hnb H0 H1.
  unfold registerDeck.
  set (csA := fold_left _ (deck_list dA) _).
  assert (Z0 : forall i, occ lib0 i
                         = if in_dec string_dec i (map makeId (seq a (a' - a))) then 1%nat
                           else 0%nat).
  { intros i. rewrite H0, MA. apply occ_NoDup, ids_NoDup. }
  assert (Z1 : forall i, occ lib1 i
                         = if in_dec string_dec i (map makeId (seq b (b' - b))) then 1%nat
                           else 0%nat).
  { intros i. rewrite H1, MB. apply occ_NoDup, ids_NoDup. }
  assert (Dis : forall i, In i (map makeId (seq a (a' - a))) ->
                          In i (map makeId (seq b (b' - b))) -> False).
  { intros i Ha Hb. apply in_ids in Ha as (k & -> & Hk). apply in_ids in Hb as (k' & E & Hk').
    apply makeId_inj in E. lia. }
  rewrite Forall_forall in FA, FB.
  split; [|split].
  - intros i. unfold placedOnce. cbn [cards player players fst snd].
    unfold zoneCount. cbn [library hand battlefield graveyard exile].
    rewrite !occ_nil, !Nat.add_0_r.
    destruct (in_dec string_dec i (map rc_id (deck_list dB))) as [HB|HB].
    + destruct (get_registerDeck_in (deck_list dB) csA i HB) as (rc & E & I). rewrite E.
      destruct (FB rc I) as [Ho _]. rewrite Ho. cbn [other player players fst snd].
      cbn [library hand battlefield graveyard exile]. rewrite !occ_nil, !Nat.add_0_r.
      rewrite Z0, Z1. rewrite MB in HB.
      destruct (in_dec string_dec i (map makeId (seq b (b' - b)))); [|contradiction].
      destruct (in_dec string_dec i (map makeId (seq a (a' - a)))); [exfalso; eauto|auto].
    + rewrite get_registerDeck_out by exact HB.
      destruct (in_dec string_dec i (map rc_id (deck_list dA))) as [HA|HA].
      * destruct (get_registerDeck_in (deck_list dA) [] i HA) as (rc & E & I).
        fold csA in E. rewrite E.
        destruct (FA rc I) as [Ho _]. rewrite Ho. cbn [other player players fst snd].
        cbn [library hand battlefield graveyard exile]. rewrite !occ_nil, !Nat.add_0_r.
        rewrite Z0, Z1. rewrite MA in HA. rewrite MB in HB.
        destruct (in_dec string_dec i (map makeId (seq a (a' - a)))); [|contradiction].
        destruct (in_dec string_dec i (map makeId (seq b (b' - b)))); [contradiction|auto].
      * unfold csA. rewrite get_registerDeck_out by exact HA. cbn [JsMap.get].
        rewrite Z0, Z1. rewrite MA in HA. rewrite MB in HB.
        destruct (in_dec string_dec i (map makeId (seq a (a' - a)))); [contradiction|].
        destruct (in_dec string_dec i (map makeId (seq b (b' - b)))); [contradiction|auto].
  - intros k Hk. cbn [cards nextId] in *.
    rewrite get_registerDeck_out.
    + unfold csA. rewrite get_registerDeck_out; [reflexivity|].
      rewrite MA. intros Hin. apply in_ids in Hin as (k' & E & Hk').
      apply makeId_inj in E. lia.
    + rewrite MB. intros Hin. apply in_ids in Hin as (k' & E & Hk').
      apply makeId_inj in E. lia.
  - intros i rc. cbn [cards].
    destruct (in_dec string_dec i (map rc_id (deck_list dB))) as [HB|HB].
    + destruct (get_registerDeck_in (deck_list dB) csA i HB) as (rc' & E & I). rewrite E.
      intros [= <-]. destruct (FB rc' I) as [_ Hd]. lia.
    + rewrite get_registerDeck_out by exact HB.
      destruct (in_dec string_dec i (map rc_id (deck_list dA))) as [HA|HA].
      * destruct (get_registerDeck_in (deck_list dA) [] i HA) as (rc' & E & I).
        fold csA in E. rewrite E. intros [= <-]. destruct (FA rc' I) as [_ Hd]. lia.
      * unfold csA. rewrite get_registerDeck_out by exact HA. discriminate.
Qed.

Lemma wellFormed_initGame fuel a a' b b' dA dB seed nid s :
  loaded P0 a a' (deck_list dA) -> loaded P1 b b' (deck_list dB) ->
  (a' <= b \/ b' <= a)%nat -> (a' <= nid)%nat -> (b' <= nid)%nat ->
  initGame fuel dA dB seed nid = Some s -> wellFormed s.
Proof.
  intros LA LB Hdis Hna Hnb H. unfold initGame in H.
  pose proof (occ_shuffle xorshift32 (map rc_id (deck_list dA)) (to_uint32 seed)) as O0.
  destruct (shuffle xorshift32 (map rc_id (deck_list dA)) (to_uint32 seed)) as [lib0 st1].
  pose proof (occ_shuffle xorshift32 (map rc_id (deck_list dB)) st1) as O1.
  destruct (shuffle xorshift32 (map rc_id (deck_list dB)) st1) as [lib1 st2].
  cbn [fst] in O0, O1.
  destruct (analyzeRules CORE_RULES) as [errs warns].
  match type of H with
  | match ?m ?s0 with _ => _ end = _ =>
      destruct (m s0) as [[[] s1]|] eqn:E; [|discriminate];
      assert (K : keeps m)
  end.
  { keeps_with ltac:(apply keeps_topDraw; intros op; apply keeps_applyOperation). }
  inversion H; subst. eapply K; [|exact E].
  eapply wellFormed_initial; eauto.
Qed.

(* ------------------------------------------------------------------ *)
(** ** Reachable states *)

Lemma keeps_perform fuel a : keeps (perform fuel a).
Proof.
  destruct a; cbn [perform];
    keeps_with ltac:(first [ apply keeps_startTurn | apply keeps_advancePhase
                           | apply keeps_endTurn | apply keeps_castFromHand
                           | apply keeps_attack | apply keeps_resolveEffect
                           | apply keeps_mulliganLondon ]).
  apply keeps_modify. intros s (G & F & D). split; [|split]; auto.
  intros i Hi. apply F. cbn [nextId set_nextId] in Hi. lia.
Qed.

Lemma reachable_wellFormed s : reachable s -> wellFormed s.
Proof.
  induction 1 as [fuel rawA rawB a b seed nid s Hdis Ha Hb Hinit|fuel act s s' _ IH Hstep].
  - eapply wellFormed_initGame; [apply loadDeck_loaded|apply loadDeck_loaded| | | |exact Hinit];
      assumption.
  - eapply keeps_perform; eauto.
Qed.

Lemma wellFormed_exclusive s : wellFormed s -> exclusiveZones s.
Proof.
  intros (G & _ & _) id rc Hget. specialize (G id). unfold placedOnce in G.
  rewrite Hget in G. destruct G as [G1 G2]. rewrite zoneCount_zones in G1, G2.
  set (o := rc_owner rc) in *.
  assert (C : exists z, forall z', occ (getZoneArray (player s o) z') id
                                   = if PlayerZone_eqb z' z then 1%nat else 0%nat).
  { assert (D : (occ (getZoneArray (player s o) LIB) id = 1
                 \/ occ (getZoneArray (player s o) HAND) id = 1
                 \/ occ (getZoneArray (player s o) BF) id = 1
                 \/ occ (getZoneArray (player s o) GY) id = 1
                 \/ occ (getZoneArray (player s o) EXILE) id = 1)%nat) by lia.
    destruct D as [D|[D|[D|[D|D]]]];
      [exists LIB|exists HAND|exists BF|exists GY|exists EXILE];
      intros z'; destruct z'; cbn [PlayerZone_eqb]; lia. }
  destruct C as [z C]. exists z. intros p' z'.
  destruct (PlayerIndex_cases o p') as [->| ->].
  - rewrite PlayerIndex_eqb_refl. cbn [andb]. apply C.
  - rewrite other_neq. cbn [andb].
    pose proof (occ_le_zoneCount (player s (other o)) z' id) as L.
    rewrite zoneCount_zones in L. lia.
Qed.

(** C1.  In every reachable state, every id registered in the card map is
    in exactly one of the five zone arrays of exactly one player (its
    owner), once; and whatever is applied next, an operation of the
    applier (a move, a change of control, a token creation, a draw, a mill
    or any other), [moveCard], [transferControl] or [topDraw] called on
    their own, or a mulligan, the state it ends in has the same property:
    no transfer is left half done. *)
Theorem zone_exclusivity (s : GameState) :
  reachable s ->
  exclusiveZones s
  /\ (forall fuel op s', applyOperation fuel op s = Some (tt, s') -> exclusiveZones s')
  /\ (forall fuel id z s',
        moveCard fuel (applyOperation fuel) id z s = Some (tt, s') -> exclusiveZones s')
  /\ (forall id newOwner s',
        transferControl id newOwner s = Some (tt, s') -> exclusiveZones s')
  /\ (forall fuel who n drawn s',
        topDraw fuel (applyOperation fuel) who n s = Some (drawn, s') -> exclusiveZones s')
  /\ (forall fuel pid rnd r s', mulliganLondon fuel pid rnd s = Some (r, s') ->
        exclusiveZones s').
Proof.
  intros R. pose proof (reachable_wellFormed s R) as W.
  split; [|split; [|split; [|split; [|split]]]].
  - now apply wellFormed_exclusive.
  - intros fuel op s' H. apply wellFormed_exclusive. eapply keeps_applyOperation; eauto.
  - intros fuel id z s' H. apply wellFormed_exclusive.
    eapply (keeps_moveCard fuel (applyOperation fuel)); eauto using keeps_applyOperation.
  - intros id newOwner s' H. apply wellFormed_exclusive.
    eapply keeps_transferControl; eauto.
  - intros fuel who n drawn s' H. apply wellFormed_exclusive.
    eapply (keeps_topDraw fuel (applyOperation fuel)); eauto using keeps_applyOperation.
  - intros fuel pid rnd r s' H. apply wellFormed_exclusive.
    eapply keeps_mulliganLondon; eauto.
Qed.

Lemma assignEach_cons i r (g : RuntimeCard -> RuntimeCard) s s' :
  assignEach (i :: r) g s = Some (tt, s') ->
  (exists rc, JsMap.get i (cards s) = Some rc)
  /\ assignEach r g (upd_card i g s) = Some (tt, s').
Proof.
  unfold assignEach. cbn [forM]. intros H.
  cbv beta iota delta [bind getS] in H.
  destruct (JsMap.get i (cards s)) as [rc|]; [|discriminate H].
  unfold modify at 1 in H. cbv beta iota in H. split; [eauto|exact H].
Qed.

Lemma assignEach_get (ids : list string) (g : RuntimeCard -> RuntimeCard) s s' :
  (forall rc, g (g rc) = g rc) ->
  assignEach ids g s = Some (tt, s') ->
  forall id rc, JsMap.get id (cards s) = Some rc ->
    JsMap.get id (cards s') = Some (if existsb (String.eqb id) ids then g rc else rc).
Proof.
  intros Hg. revert s. induction ids as [|i r IH]; intros s H id rc Hget.
  - cbn in H. injection H as <-. exact Hget.
  - apply assignEach_cons in H. destruct H as [_ H].
    rewrite (IH _ H id (if String.eqb id i then g rc else rc)).
    + cbn [existsb]. destruct (String.eqb id i), (existsb (String.eqb id) r);
        cbn [orb]; rewrite ?Hg; reflexivity.
    + rewrite cards_upd_card, JsMapFacts.get_upd, Hget.
      destruct (String.eqb id i); reflexivity.
Qed.

Lemma assignEach_sets (ids : list string) (g : RuntimeCard -> RuntimeCard) s s' :
  (forall rc, g (g rc) = g rc) ->
  assignEach ids g s = Some (tt, s') ->
  forall id, In id ids -> exists rc, JsMap.get id (cards s) = Some rc
                                     /\ JsMap.get id (cards s') = Some (g rc).
Proof.
  intros Hg H id Hin.
  assert (E : exists rc, JsMap.get id (cards s) = Some rc).
  { revert s H. induction ids as [|i r IH]; intros s H; [destruct Hin|].
    apply assignEach_cons in H. destruct H as [Hi H]. destruct Hin as [->|Hin]; [exact Hi|].
    destruct (IH Hin _ H) as [x Hx].
    rewrite cards_upd_card, JsMapFacts.get_upd in Hx.
    destruct (JsMap.get id (cards s)) as [y|]; [eauto|].
    destruct (String.eqb id i); discriminate Hx. }
  destruct E as [rc E]. exists rc. split; [exact E|].
  rewrite (assignEach_get _ _ _ _ Hg H id rc E).
  replace (existsb (String.eqb id) ids) with true; [reflexivity|].
  symmetry. apply existsb_exists. exists id. split; [exact Hin|apply String.eqb_refl].
Qed.

Import Fixtures.

(** The opening state of the two sample decks is reachable. *)
Lemma opening_reachable : reachable openingState.
Proof.
  apply (reach_init 10 deckAnn deckBob 1 9 42 16).
  - left. vm_compute. apply le_n.
  - vm_compute. repeat constructor.
  - vm_compute. repeat constructor.
  - vm_compute. reflexivity.
Defined.

(** Zone exclusivity on the opening state. *)
Lemma zone_exclusivity_witness :
  exclusiveZones openingState
  /\ (forall fuel op s', applyOperation fuel op openingState = Some (tt, s') ->
        exclusiveZones s')
  /\ (forall fuel id z s',
        moveCard fuel (applyOperation fuel) id z openingState = Some (tt, s') ->
        exclusiveZones s')
  /\ (forall id newOwner s',
        transferControl id newOwner openingState = Some (tt, s') -> exclusiveZones s')
  /\ (forall fuel who n drawn s',
        topDraw fuel (applyOperation fuel) who n openingState = Some (drawn, s') ->
        exclusiveZones s')
  /\ (forall fuel pid rnd r s', mulliganLondon fuel pid rnd openingState = Some (r, s') ->
        exclusiveZones s').
Proof. exact (zone_exclusivity openingState opening_reachable). Defined.

(* ------------------------------------------------------------------ *)
(** ** Damage to a permanent: prevention *)

Lemma applyReplacement_false fuel rec w id s s1 :
  applyReplacement fuel rec w id s = Some (false, s1) ->
  exists msgs, s1 = set_log (log s ++ msgs) s.
Proof.
  unfold applyReplacement, bind. intros H.
  destruct (planReplacementForSubject fuel w id s) as [[ops t]|] eqn:E; [|discriminate].
  destruct ops.
  - injection H as <-. exact (logOnly_planReplacementForSubject fuel w id s _ _ E).
  - destruct (applyAll rec (o :: ops) t) as [[[] u]|]; discriminate.
Qed.

(** The two pool steps of [dealDamageToPermanent], as the code writes
    them, leave [drained] and [remainder]. *)
Lemma prevention_steps {A} id n s0 (k : Z -> M A) :
  (let usePerm := Z.min n (or0 (JsMap.get id (preventPERM s0))) in
   (if 0 <? usePerm
    then modify (fun s => set_preventPERM (bump id (- usePerm) (preventPERM s)) s)
    else ret tt) ;;;
   let dmg1 := if 0 <? usePerm then n - usePerm else n in
   let useEOT := Z.min dmg1 (or0 (JsMap.get id (preventEOT s0))) in
   (if 0 <? useEOT
    then modify (fun s => set_preventEOT (bump id (- useEOT) (preventEOT s)) s)
    else ret tt) ;;;
   k (if 0 <? useEOT then dmg1 - useEOT else dmg1)) s0
  = k (remainder id n s0) (drained id n s0).
Proof.
  cbv zeta. unfold remainder, drained, consumed, permPool, eotPool, bump.
  set (perm := or0 (JsMap.get id (preventPERM s0))).
  set (eot := or0 (JsMap.get id (preventEOT s0))).
  destruct (Z.ltb_spec 0 (Z.min n perm)) as [Hp|Hp].
  - replace (Z.max 0 (Z.min n perm)) with (Z.min n perm) by lia.
    destruct (Z.ltb_spec 0 (Z.min n perm)); [|lia].
    rewrite bind_modify.
    destruct (Z.ltb_spec 0 (Z.min (n - Z.min n perm) eot)) as [He|He].
    + replace (Z.max 0 (Z.min (n - Z.min n perm) eot))
        with (Z.min (n - Z.min n perm) eot) by lia.
      destruct (Z.ltb_spec 0 (Z.min (n - Z.min n perm) eot)); [|lia].
      rewrite bind_modify. cbn [preventPERM preventEOT set_preventPERM]. fold perm. fold eot.
      reflexivity.
    + replace (Z.max 0 (Z.min (n - Z.min n perm) eot)) with 0 by lia.
      cbn [Z.ltb Z.compare]. unfold bind, ret. fold perm. rewrite Z.sub_0_r. reflexivity.
  - replace (Z.max 0 (Z.min n perm)) with 0 by lia.
    cbn [Z.ltb Z.compare]. rewrite !Z.sub_0_r. unfold bind at 1, ret at 1.
    destruct (Z.ltb_spec 0 (Z.min n eot)) as [He|He].
    + replace (Z.max 0 (Z.min n eot)) with (Z.min n eot) by lia.
      destruct (Z.ltb_spec 0 (Z.min n eot)); [|lia].
      rewrite bind_modify. fold eot. reflexivity.
    + replace (Z.max 0 (Z.min n eot)) with 0 by lia.
      cbn [Z.ltb Z.compare]. unfold bind, ret. rewrite Z.sub_0_r. reflexivity.
Qed.

Lemma raw_remainder id n s :
  (if 0 <? Z.min (if 0 <? Z.min n (or0 (JsMap.get id (preventPERM s)))
                  then n - Z.min n (or0 (JsMap.get id (preventPERM s))) else n)
                 (or0 (JsMap.get id (preventEOT s)))
   then (if 0 <? Z.min n (or0 (JsMap.get id (preventPERM s)))
         then n - Z.min n (or0 (JsMap.get id (preventPERM s))) else n)
        - Z.min (if 0 <? Z.min n (or0 (JsMap.get id (preventPERM s)))
                 then n - Z.min n (or0 (JsMap.get id (preventPERM s))) else n)
                (or0 (JsMap.get id (preventEOT s)))
   else if 0 <? Z.min n (or0 (JsMap.get id (preventPERM s)))
        then n - Z.min n (or0 (JsMap.get id (preventPERM s))) else n)
  = remainder id n s.
Proof.
  unfold remainder, consumed, permPool, eotPool.
  repeat match goal with |- context [0 <? ?x] => destruct (Z.ltb_spec 0 x) end; lia.
Qed.

Lemma remainder_covered id n s :
  n <= permPool s id + eotPool s id -> remainder id n s <= 0.
Proof. unfold remainder, consumed. lia. Qed.

Lemma dealDamage_prevented fuel rec id n src s s1 rc st :
  JsMap.get id (cards s) = Some rc ->
  stats (rc_card rc) = Some st ->
  applyReplacement fuel rec WouldBeDamaged id s = Some (false, s1) ->
  remainder id n s1 <= 0 ->
  dealDamageToPermanent fuel rec id n src s
  = Some (tt, absorbed id n (card_name (rc_card rc)) s1).
Proof.
  intros Hget Hst Hrepl Hn. unfold dealDamageToPermanent.
  unfold bind at 1, getS at 1. rewrite Hget, Hst.
  unfold bind at 1. rewrite Hrepl. cbv beta iota.
  unfold bind at 1, getS at 1.
  rewrite (prevention_steps id n s1
             (fun dmg => if dmg <=? 0
                         then pushLog _
                         else _)).
  destruct (Z.leb_spec (remainder id n s1) 0); [|lia]. reflexivity.
Qed.

Lemma forM_single {A} (x : A) (f : A -> M unit) s : forM [x] f s = f x s.
Proof.
  cbn [forM]. unfold bind. destruct (f x s) as [[[] t]|]; reflexivity.
Qed.

Lemma get_set_pool id j v (m : JsMap.t Z) :
  or0 (JsMap.get j (JsMap.set id v m))
  = if String.eqb j id then v else or0 (JsMap.get j m).
Proof.
  destruct (String.eqb_spec j id) as [->|Hne].
  - now rewrite JsMapFacts.get_set_eq.
  - rewrite JsMapFacts.get_set_neq; auto.
Qed.


(* ------------------------------------------------------------------ *)
(** ** Lethal damage on a board where nothing answers damage or death *)

Lemma concatM_nil {A B} (f : A -> M (list B)) l s :
  (forall x, In x l -> f x s = Some ([], s)) -> concatM f l s = Some ([], s).
Proof.
  induction l as [|x r IH]; intros H; [reflexivity|].
  cbn [concatM]. unfold bind. rewrite (H x (or_introl eq_refl)).
  rewrite IH; [reflexivity|]. intros y Hy. apply H. now right.
Qed.

Lemma In_indexed {A} (l : list A) k i x : In (i, x) (indexed k l) -> In x l.
Proof.
  revert k. induction l as [|y r IH]; intros k H; [destruct H|].
  destruct H as [[= _ ->]|H]; [now left|right; eauto].
Qed.

Lemma quiet_card s rc : quiet s = true -> In rc (JsMap.values (cards s)) ->
  quietCard (rc_card rc) = true.
Proof.
  unfold quiet. rewrite forallb_forall. intros H Hin. exact (H rc Hin).
Qed.

Lemma planTriggers_quiet fuel w ctx s :
  quiet s = true -> w = OnDamageDealt \/ w = OnDeath ->
  planTriggers fuel w ctx s = Some ([], s).
Proof.
  intros Q Hw. unfold planTriggers. cbv beta iota delta [bind getS].
  apply concatM_nil. intros rc Hrc. apply concatM_nil. intros [i t] Hit.
  apply In_indexed in Hit.
  pose proof (quiet_card s rc Q Hrc) as Qc. unfold quietCard in Qc.
  apply andb_prop in Qc. destruct Qc as [Qc _]. apply andb_prop in Qc. destruct Qc as [Qt _].
  rewrite forallb_forall in Qt. specialize (Qt t Hit).
  apply andb_prop in Qt. destruct Qt as [Q1 Q2].
  destruct Hw as [-> | ->].
  - rewrite Q1. reflexivity.
  - rewrite Q2. reflexivity.
Qed.

Lemma fireTriggers_quiet fuel rec w ctx s :
  quiet s = true -> w = OnDamageDealt \/ w = OnDeath ->
  fireTriggers fuel rec w ctx s = Some (tt, s).
Proof.
  intros Q Hw. unfold fireTriggers, bind. rewrite planTriggers_quiet by assumption.
  reflexivity.
Qed.

Lemma activeReplacements_quiet s w :
  quiet s = true -> w = WouldBeDamaged \/ w = WouldDie ->
  filter (fun c => ReplWhen_eqb (repl_when (snd (fst c))) w) (listActiveReplacements s) = [].
Proof.
  intros Q Hw. unfold listActiveReplacements.
  assert (G : forall l, (forall rc, In rc l -> quietCard (rc_card rc) = true) ->
    filter (fun c : RuntimeCard * ReplacementEffect * nat =>
              ReplWhen_eqb (repl_when (snd (fst c))) w)
      (flat_map (fun rc =>
         if PlayerZone_eqb (rc_zone rc) BF
         then map (fun it : nat * ReplacementEffect => (rc, snd it, fst it))
                  (indexed 0 (opt_list (replacements (textIR (rc_card rc)))))
         else []) l) = []).
  { induction l as [|rc l IH]; intros H; [reflexivity|].
    cbn [flat_map]. rewrite filter_app, IH by (intros; apply H; now right).
    rewrite app_nil_r. destruct (PlayerZone_eqb (rc_zone rc) BF); [|reflexivity].
    pose proof (H rc (or_introl eq_refl)) as Qc. unfold quietCard in Qc.
    apply andb_prop in Qc. destruct Qc as [Qc _]. apply andb_prop in Qc.
    destruct Qc as [_ Qr]. rewrite forallb_forall in Qr.
    generalize 0%nat. revert Qr.
    induction (opt_list (replacements (textIR (rc_card rc)))) as [|r rs IHr];
      intros Qr k; [reflexivity|].
    cbn [indexed map filter snd fst].
    pose proof (Qr r (or_introl eq_refl)) as Q1. apply andb_prop in Q1.
    destruct Q1 as [Q1 Q2].
    replace (ReplWhen_eqb (repl_when r) w) with false.
    - apply IHr. intros x Hx. apply Qr. now right.
    - destruct Hw as [-> | ->]; symmetry; [apply negb_true_iff in Q1|apply negb_true_iff in Q2];
        assumption. }
  apply G. intros rc Hrc. now apply (quiet_card s).
Qed.

Lemma applyReplacement_quiet fuel rec w id s :
  quiet s = true -> w = WouldBeDamaged \/ w = WouldDie ->
  applyReplacement fuel rec w id s = Some (false, s).
Proof.
  intros Q Hw. unfold applyReplacement, planReplacementForSubject.
  cbv beta iota delta [bind getS]. rewrite activeReplacements_quiet by assumption.
  reflexivity.
Qed.

Lemma getEffectiveBaseStats_quiet m s rc :
  quiet s = true -> getEffectiveBaseStats m s rc = Some (coreStats rc).
Proof.
  intros Q. unfold getEffectiveBaseStats, getStaticBuffBonus, listContinuousEffects.
  assert (G : forall l acc, (forall x, In x l -> quietCard (rc_card x) = true) ->
    staticBuffLoop m s (rc_id rc)
      (flat_map (fun x =>
         if PlayerZone_eqb (rc_zone x) BF
         then map (fun eff => (x, eff))
                  (match continuous (textIR (rc_card x)) with Some l0 => l0 | None => [] end)
         else []) l) acc = Some acc).
  { induction l as [|x l IH]; intros acc H; [reflexivity|].
    cbn [flat_map]. pose proof (H x (or_introl eq_refl)) as Qc. unfold quietCard in Qc.
    apply andb_prop in Qc. destruct Qc as [_ Qk]. unfold opt_list in Qk.
    destruct (PlayerZone_eqb (rc_zone x) BF);
      [|cbn [app]; apply IH; intros; apply H; now right].
    induction (match continuous (textIR (rc_card x)) with Some l0 => l0 | None => [] end)
      as [|e es IHe]; [cbn [map app]; apply IH; intros; apply H; now right|].
    cbn [forallb] in Qk. apply andb_prop in Qk. destruct Qk as [Qe Qes].
    destruct e; [discriminate Qe|]. cbn [map app staticBuffLoop]. apply IHe. exact Qes. }
  rewrite G by (intros x Hx; now apply (quiet_card s)).
  unfold obind, coreStats. cbn [fst snd]. rewrite !Z.add_0_r.
  destruct (transformEOT rc) as [[a b]|]; [reflexivity|].
  destruct (transformPerm rc) as [[a b]|]; [reflexivity|].
  destruct (stats (rc_card rc)) as [[a b]|]; reflexivity.
Qed.

Lemma sameBoard_refl s : sameBoard s s.
Proof. repeat split. Qed.

Lemma sameBoard_trans s t u : sameBoard s t -> sameBoard t u -> sameBoard s u.
Proof.
  intros (A1 & A2 & A3 & A4 & A5 & A6) (B1 & B2 & B3 & B4 & B5 & B6).
  repeat split; congruence || (now rewrite B6).
Qed.

Lemma sameBoard_log s l : sameBoard s (set_log l s).
Proof. repeat split. Qed.

Lemma quiet_same s t : cards t = cards s -> quiet t = quiet s.
Proof. unfold quiet. now intros ->. Qed.

Lemma values_upd id (f : RuntimeCard -> RuntimeCard) (m : JsMap.t RuntimeCard) :
  (forall c, rc_card (f c) = rc_card c) ->
  map rc_card (JsMap.values (JsMap.upd id f m)) = map rc_card (JsMap.values m).
Proof.
  intros Hf. unfold JsMap.values. induction m as [|[k v] r IH]; [reflexivity|].
  cbn [JsMap.upd]. destruct (String.eqb id k); cbn [map snd]; [now rewrite Hf|now rewrite IH].
Qed.

Lemma quiet_upd id f s :
  (forall c, rc_card (f c) = rc_card c) -> quiet (upd_card id f s) = quiet s.
Proof.
  intros Hf. unfold quiet. rewrite cards_upd_card.
  assert (E : forall l, forallb (fun rc => quietCard (rc_card rc)) l
                        = forallb quietCard (map rc_card l)).
  { induction l as [|x l IH]; [reflexivity|]. cbn. now rewrite IH. }
  now rewrite !E, values_upd.
Qed.

Lemma lifelink_board src n s : exists t, lifelink src n s = Some (tt, t) /\ sameBoard s t.
Proof.
  unfold lifelink. destruct (nonempty_id src) as [sid|]; [|exists s; split; [reflexivity|apply sameBoard_refl]].
  cbv beta iota delta [bind getS].
  destruct (JsMap.get sid (cards s)) as [c|]; [|exists s; split; [reflexivity|apply sameBoard_refl]].
  destruct (hasKeyword c "Lifelink"); [|exists s; split; [reflexivity|apply sameBoard_refl]].
  unfold modify at 1. cbv beta iota. unfold pushLog, modify. eexists. split; [reflexivity|].
  repeat split; try (destruct (rc_owner c); reflexivity).
  intros p z. destruct (rc_owner c), p, z; reflexivity.
Qed.

Lemma deathZone_not_BF s rc : PlayerZone_eqb (deathZone s rc) BF = false.
Proof.
  unfold deathZone. destruct (truthy (isToken rc)); [|reflexivity].
  now destruct (tokensLeaveTo (tokens (rules s))).
Qed.

Lemma destroyPermanent_quiet fuel rec id t rc :
  quiet t = true -> JsMap.get id (cards t) = Some rc -> rc_zone rc = BF ->
  exists u, destroyPermanent fuel rec id t = Some (tt, u)
    /\ cards u = JsMap.upd id (set_rc_zone (deathZone t rc)) (cards t)
    /\ rules u = rules t
    /\ eventsGame u = bump (eventKey UnitDied (rc_owner rc)) 1 (eventsGame t)
    /\ preventPERM u = preventPERM t /\ preventEOT u = preventEOT t
    /\ (forall p z, getZoneArray (player u p) z
          = if PlayerIndex_eqb p (rc_owner rc)
            then if PlayerZone_eqb z (deathZone t rc)
                 then remove_first id (getZoneArray (player t p) z) ++ [id]
                 else remove_first id (getZoneArray (player t p) z)
            else getZoneArray (player t p) z)
    /\ log u = log t ++ [(card_name (rc_card rc) ++ " dies.")%string].
Proof.
  intros Q Hget Hz. unfold destroyPermanent.
  cbv beta iota delta [bind getS]. rewrite Hget, Hz. cbn [PlayerZone_eqb negb].
  rewrite applyReplacement_quiet by auto. cbv beta iota.
  unfold pushLog at 1. unfold modify at 1. cbv beta iota.
  unfold incEvent at 1. unfold modify at 1. cbv beta iota.
  unfold current. cbn [cards set_log]. rewrite Hget.
  rewrite fireTriggers_quiet; [|rewrite <- Q; now apply quiet_same|now right].
  cbv beta iota. rewrite moveCard_unfold.
  cbn [cards set_log set_eventsGame set_eventsTurn]. rewrite Hget. cbv zeta.
  match goal with |- context [moveDest ?st rc ?z] =>
    assert (Hd : moveDest st rc z = deathZone t rc)
  end.
  { unfold moveDest, deathZone. cbn [rules set_eventsGame set_eventsTurn set_log].
    rewrite Hz. destruct (truthy (isToken rc)); cbn [andb PlayerZone_eqb negb];
      [|reflexivity]. now destruct (tokensLeaveTo (tokens (rules t))). }
  rewrite Hd, deathZone_not_BF. unfold ret. eexists. split; [reflexivity|].
  unfold relocate. split; [now rewrite cards_upd_card, cards_upd_player|].
  split; [destruct (rc_owner rc); reflexivity|].
  split; [destruct (rc_owner rc); reflexivity|].
  split; [destruct (rc_owner rc); reflexivity|].
  split; [destruct (rc_owner rc); reflexivity|].
  split; [|destruct (rc_owner rc); reflexivity].
  intros p z. rewrite player_upd_card, player_upd_player.
  destruct (PlayerIndex_eqb p (rc_owner rc)); [|reflexivity].
  rewrite getZoneArray_pushZone, getZoneArray_removeFromAll. reflexivity.
Qed.

Lemma get_marked id n s rc :
  JsMap.get id (cards s) = Some rc ->
  JsMap.get id (cards (marked id n s)) = Some (set_rc_damage (rc_damage rc + n) rc).
Proof.
  intros H. unfold marked. now rewrite cards_upd_card, JsMapFacts.get_upd, H, String.eqb_refl.
Qed.

Lemma quiet_marked id n s : quiet (marked id n s) = quiet s.
Proof. apply quiet_upd. now intros []. Qed.

Lemma coreStats_damage d rc : coreStats (set_rc_damage d rc) = coreStats rc.
Proof. now destruct rc. Qed.

Lemma effHpMax_damage st d rc : effHpMax st (set_rc_damage d rc) = effHpMax st rc.
Proof. now destruct rc. Qed.

Lemma cards_drained id n s : cards (drained id n s) = cards s.
Proof. unfold drained. cbv zeta. now repeat destruct (_ <? _). Qed.

Lemma rules_drained id n s : rules (drained id n s) = rules s.
Proof. unfold drained. cbv zeta. now repeat destruct (_ <? _). Qed.

Lemma players_drained id n s : players (drained id n s) = players s.
Proof. unfold drained. cbv zeta. now repeat destruct (_ <? _). Qed.

Lemma eventsGame_drained id n s : eventsGame (drained id n s) = eventsGame s.
Proof. unfold drained. cbv zeta. now repeat destruct (_ <? _). Qed.

Lemma quiet_drained id n s : quiet (drained id n s) = quiet s.
Proof. apply quiet_same, cards_drained. Qed.

(** With nothing in the pools, a positive hit is taken whole. *)
Lemma nothing_drained id n s :
  permPool s id <= 0 -> eotPool s id <= 0 ->
  drained id n s = s /\ remainder id n s = n.
Proof.
  intros Hp He. unfold drained, remainder, consumed. cbv zeta.
  replace (Z.max 0 (Z.min n (permPool s id))) with 0 by lia.
  rewrite Z.sub_0_r.
  replace (Z.max 0 (Z.min n (eotPool s id))) with 0 by lia.
  cbn [Z.ltb Z.compare]. split; [reflexivity|lia].
Qed.

(** The part of [dealDamageToPermanent] up to the death checks, on a quiet
    board, for a hit the pools do not cover. *)
Lemma dealDamage_quiet_head fuel rec id n src s rc st :
  quiet s = true ->
  JsMap.get id (cards s) = Some rc -> stats (rc_card rc) = Some st ->
  0 < remainder id n s ->
  exists t, sameBoard (marked id (remainder id n s) (drained id n s)) t
    /\ dealDamageToPermanent fuel rec id n src s
       = (if match nonempty_id src with
             | None => false
             | Some sid =>
                 match JsMap.get sid (cards t) with
                 | Some c => hasKeyword c "Deathtouch" && negb (hasKeyword rc "Indestructible")
                 | None => false
                 end
             end
          then destroyPermanent fuel rec id t
          else if effHpMax (coreStats rc) rc - (rc_damage rc + remainder id n s)
                  <=? lethalAt (damage (rules t))
               then if hasKeyword rc "Indestructible"
                    then pushLog (card_name (rc_card rc)
                                  ++ " is indestructible and survives lethal damage.") t
                    else destroyPermanent fuel rec id t
               else Some (tt, t)).
Proof.
  intros Q Hget Hst Hr.
  set (r := remainder id n s) in *. set (d := drained id n s).
  assert (Hgd : JsMap.get id (cards d) = Some rc) by (subst d; now rewrite cards_drained).
  assert (Qd : quiet d = true) by (subst d; now rewrite quiet_drained).
  unfold dealDamageToPermanent.
  unfold bind at 1, getS at 1. rewrite Hget, Hst.
  unfold bind at 1. rewrite applyReplacement_quiet by auto. cbv beta iota.
  unfold bind at 1, getS at 1.
  rewrite (prevention_steps id n s (fun dmg => if dmg <=? 0 then pushLog _ else _)).
  fold r. fold d. destruct (Z.leb_spec r 0); [lia|].
  cbv beta iota delta [bind getS].
  unfold modify at 1. cbv beta iota. fold (marked id r d).
  rewrite !raw_remainder. fold r. fold (marked id r d).
  unfold readO at 1. unfold current.
  rewrite (get_marked id r d rc Hgd).
  rewrite getEffectiveBaseStats_quiet by (now rewrite quiet_marked).
  unfold pushLog at 1. unfold modify at 1. cbv beta iota.
  match goal with |- context [lifelink ?a ?b ?c] =>
    destruct (lifelink_board a b c) as (t & -> & B) end.
  cbv beta iota.
  assert (Bt : sameBoard (marked id r d) t).
  { eapply sameBoard_trans; [|exact B]. apply sameBoard_log. }
  exists t. split; [exact Bt|].
  destruct Bt as (Bc & Br & _).
  assert (Qt : quiet t = true) by (rewrite (quiet_same _ _ Bc), quiet_marked; exact Qd).
  assert (Gt : JsMap.get id (cards t) = Some (set_rc_damage (rc_damage rc + r) rc))
    by (rewrite Bc; now apply get_marked).
  rewrite coreStats_damage, effHpMax_damage.
  match goal with |- (if ?b then _ else _) _ = _ => destruct b; [reflexivity|] end.
  rewrite fireTriggers_quiet by auto. cbv beta iota. rewrite Gt.
  replace (rc_damage (set_rc_damage (rc_damage rc + r) rc)) with (rc_damage rc + r)
    by now destruct rc.
  destruct (_ <=? _); [destruct (hasKeyword rc "Indestructible")|]; reflexivity.
Qed.

Lemma destroyPermanent_offBoard fuel rec id t rc :
  JsMap.get id (cards t) = Some rc -> rc_zone rc <> BF ->
  destroyPermanent fuel rec id t = Some (tt, t).
Proof.
  intros Hget Hz. unfold destroyPermanent. cbv beta iota delta [bind getS]. rewrite Hget.
  destruct (rc_zone rc); try reflexivity. now elim Hz.
Qed.

Lemma quiet_cards_upd id f t u :
  cards u = JsMap.upd id f (cards t) -> (forall c, rc_card (f c) = rc_card c) ->
  quiet u = quiet t.
Proof.
  intros E Hf. rewrite <- (quiet_upd id f t Hf). apply quiet_same.
  now rewrite cards_upd_card.
Qed.

Lemma PlayerZone_eqb_refl z : PlayerZone_eqb z z = true.
Proof. now destruct z. Qed.


(** On a quiet board a hit leaves the damage of its target as it was, or
    adds the remainder the pools did not take. *)
Lemma dealDamage_quiet_damage fuel rec id n src s rc st s' :
  quiet s = true ->
  JsMap.get id (cards s) = Some rc -> stats (rc_card rc) = Some st ->
  dealDamageToPermanent fuel rec id n src s = Some (tt, s') ->
  exists rc', JsMap.get id (cards s') = Some rc'
              /\ (rc_damage rc' = rc_damage rc
                  \/ 0 < remainder id n s
                     /\ rc_damage rc' = rc_damage rc + remainder id n s).
Proof.
  intros Q Hget Hst H.
  destruct (Z.leb_spec (remainder id n s) 0) as [Hr|Hr].
  - rewrite (dealDamage_prevented fuel rec id n src s s rc st Hget Hst) in H;
      [|apply applyReplacement_quiet; auto|exact Hr].
    injection H as <-. exists rc. split; [|now left].
    unfold absorbed. cbn [cards set_log]. now rewrite cards_drained.
  - destruct (dealDamage_quiet_head fuel rec id n src s rc st Q Hget Hst Hr)
      as (t & Bt & E).
    rewrite E in H. clear E.
    destruct Bt as (Bc & Br & _).
    set (r := remainder id n s) in *.
    set (rcA := set_rc_damage (rc_damage rc + r) rc).
    assert (Gt : JsMap.get id (cards t) = Some rcA).
    { rewrite Bc. apply get_marked. now rewrite cards_drained. }
    assert (Da : rc_damage rcA = rc_damage rc + r) by (subst rcA; now destruct rc).
    assert (Qt : quiet t = true).
    { rewrite (quiet_same _ _ Bc), quiet_marked, quiet_drained. exact Q. }
    assert (Dest : forall u, destroyPermanent fuel rec id t = Some (tt, u) ->
              exists rc', JsMap.get id (cards u) = Some rc'
                          /\ rc_damage rc' = rc_damage rc + r).
    { intros u Hu. destruct (PlayerZone_eqb (rc_zone rcA) BF) eqn:Ez.
      - assert (Hz : rc_zone rcA = BF) by (destruct (rc_zone rcA); congruence || discriminate).
        destruct (destroyPermanent_quiet fuel rec id t rcA Qt Gt Hz) as (u' & Eu & Uc & _).
        rewrite Eu in Hu. injection Hu as <-.
        exists (set_rc_zone (deathZone t rcA) rcA). split.
        + rewrite Uc, JsMapFacts.get_upd, Gt, String.eqb_refl. reflexivity.
        + rewrite <- Da. now destruct rcA.
      - assert (Hz : rc_zone rcA <> BF) by (intros C; rewrite C in Ez; discriminate).
        rewrite (destroyPermanent_offBoard fuel rec id t rcA Gt Hz) in Hu.
        injection Hu as <-. exists rcA. split; [exact Gt|exact Da]. }
    assert (Fin : exists rc', JsMap.get id (cards s') = Some rc'
                              /\ rc_damage rc' = rc_damage rc + r).
    { match type of H with (if ?b then _ else _) = _ => destruct b end;
        [now apply Dest|].
      match type of H with (if ?b then _ else _) = _ => destruct b end.
      - destruct (hasKeyword rc "Indestructible"); [|now apply Dest].
        injection H as <-. exists rcA. split; [exact Gt|exact Da].
      - injection H as <-. exists rcA. split; [exact Gt|exact Da]. }
    destruct Fin as (rc' & G & D). exists rc'. split; [exact G|]. right. split; [exact Hr|exact D].
Qed.


(* ------------------------------------------------------------------ *)
(** ** The static analyzer's worst-case multiplicity *)

Lemma TriggerWhen_eqb_spec (a b : TriggerWhen) : reflect (a = b) (TriggerWhen_eqb a b).
Proof. destruct a, b; simpl; constructor; congruence. Qed.

Lemma emitted_add k k' n e :
  emitted k (add k' n e) = emitted k e + (if TriggerWhen_eqb k k' then n else 0).
Proof.
  induction e as [|[k0 v] r IH]; simpl.
  - destruct (TriggerWhen_eqb k k'); lia.
  - destruct (TriggerWhen_eqb_spec k' k0) as [->|Hne]; simpl.
    + destruct (TriggerWhen_eqb k k0); lia.
    + destruct (TriggerWhen_eqb_spec k k0) as [->|Hne'].
      * destruct (TriggerWhen_eqb_spec k0 k'); [congruence|lia].
      * exact IH.
Qed.

Ltac split_ifs :=
  repeat match goal with
         | |- context [if ?b then _ else _] => destruct b
         end; lia.

Lemma recur_Sequence steps mult acc :
  recur (Sequence steps) mult acc = fold_left (fun a s => recur s mult a) steps acc.
Proof. simpl. revert acc. induction steps as [|x r IH]; intros acc; simpl; auto. Qed.

Lemma recur_Case bs e mult acc :
  recur (Case bs e) mult acc =
  let a := fold_left (fun a (b : Predicate * Effect) => recur (snd b) mult a) bs acc in
  match e with Some e' => recur e' mult a | None => a end.
Proof.
  simpl.
  assert (E : forall acc,
    (fix each (l : list (Predicate * Effect)) (a : Multiplicity) : Multiplicity :=
       match l with [] => a | b :: r => each r (recur (snd b) mult a) end) bs acc
    = fold_left (fun a (b : Predicate * Effect) => recur (snd b) mult a) bs acc).
  { induction bs as [|x r IH]; intros a; simpl; auto. }
  rewrite E. reflexivity.
Qed.

Lemma additive_fold {A} (f : A -> Effect) (l : list A) mult :
  Forall (fun x => additiveNode (f x)) l ->
  forall acc,
    (forall k, countOf k (fold_left (fun a x => recur (f x) mult a) l acc)
               = countOf k acc + countOf k (fold_left (fun a x => recur (f x) mult a) l emptyMult))
    /\ spawns (fold_left (fun a x => recur (f x) mult a) l acc)
       = spawns acc + spawns (fold_left (fun a x => recur (f x) mult a) l emptyMult).
Proof.
  intros HF. induction HF as [|x r Hx _ IH]; intros acc; simpl.
  - split; [intros k|]; unfold countOf; simpl; lia.
  - destruct (IH (recur (f x) mult acc)) as [A1 A2].
    destruct (IH (recur (f x) mult emptyMult)) as [B1 B2].
    destruct (Hx mult acc) as [C1 C2].
    split; [intros k; rewrite A1, B1, C1|rewrite A2, B2, C2]; lia.
Qed.

Lemma recur_additive node : additiveNode node.
Proof.
  induction node using Effect_nested_ind.
  - (* leaves *)
    intros mult acc.
    destruct node; try contradiction; try destruct dest as [[]|]; simpl;
      (split; [intros k; destruct k|]; unfold countOf; simpl; rewrite ?emitted_add; simpl; lia).
  - (* Conditional *)
    intros mult acc. simpl.
    destruct e as [e'|]; simpl in *.
    + destruct (IHnode mult acc) as [A1 A2].
      destruct (H mult (recur node mult acc)) as [B1 B2].
      destruct (H mult (recur node mult emptyMult)) as [C1 C2].
      split; [intros k; rewrite B1, C1, A1|rewrite B2, C2, A2]; lia.
    + apply IHnode.
  - (* Case *)
    intros mult acc. rewrite !recur_Case. cbv zeta.
    destruct (additive_fold snd bs mult H acc) as [A1 A2].
    destruct e as [e'|]; simpl in *.
    + set (F := fold_left _ bs) in *.
      destruct (H0 mult (F acc)) as [B1 B2].
      destruct (H0 mult (F emptyMult)) as [C1 C2].
      split; [intros k; rewrite B1, C1, A1|rewrite B2, C2, A2]; lia.
    + split; assumption.
  - (* ForEach *) intros mult acc. simpl. apply IHnode.
  - (* Sequence *)
    intros mult acc. rewrite !recur_Sequence.
    apply (additive_fold (fun x => x) steps mult H acc).
  - (* Repeat *) intros mult acc. simpl. apply IHnode.
Qed.

Lemma count_fold {A} (f : A -> Effect) (l : list A) mult acc k :
  countOf k (fold_left (fun a x => recur (f x) mult a) l acc)
  = countOf k acc + sumZ (map (fun x => countOf k (recur (f x) mult emptyMult)) l).
Proof.
  revert acc. induction l as [|x r IH]; intros acc; simpl; [lia|].
  rewrite IH. destruct (recur_additive (f x) mult acc) as [E _]. rewrite E. lia.
Qed.

Lemma spawns_fold {A} (f : A -> Effect) (l : list A) mult acc :
  spawns (fold_left (fun a x => recur (f x) mult a) l acc)
  = spawns acc + sumZ (map (fun x => spawns (recur (f x) mult emptyMult)) l).
Proof.
  revert acc. induction l as [|x r IH]; intros acc; simpl; [lia|].
  rewrite IH. destruct (recur_additive (f x) mult acc) as [_ E]. rewrite E. lia.
Qed.

Lemma multiply_exact a b :
  1 <= a -> 1 <= b -> a * b <= MAX_SAFE_INTEGER -> multiply a b = a * b.
Proof.
  intros Ha Hb Hab. unfold multiply, or1.
  destruct (Z.eqb_spec a 0); [lia|]. destruct (Z.eqb_spec b 0); [lia|]. lia.
Qed.

Lemma sumZ_scale {A} (f g : A -> Z) (t : Z) (l : list A) :
  Forall (fun x => f x = t * g x) l -> sumZ (map f l) = t * sumZ (map g l).
Proof. induction 1 as [|x r Hx _ IH]; simpl; [lia|]. rewrite Hx, IH. lia. Qed.

Lemma loop_linear (cap n : Z) (body : Effect) m t :
  1 <= cap -> linearNode body -> 1 <= m -> 1 <= t ->
  ((1 <=? n) && (m * t * Z.min n cap <=? MAX_SAFE_INTEGER)
   && boundedFrom body (m * t * Z.min n cap) = true) ->
  (forall k, countOf k (recur body (multiply (m * t) (Z.min n cap)) emptyMult)
             = t * countOf k (recur body (multiply m (Z.min n cap)) emptyMult))
  /\ spawns (recur body (multiply (m * t) (Z.min n cap)) emptyMult)
     = t * spawns (recur body (multiply m (Z.min n cap)) emptyMult).
Proof.
  intros Hcap IH Hm Ht Hb.
  apply andb_prop in Hb as [Hb Hbody]. apply andb_prop in Hb as [Hn Hle].
  apply Z.leb_le in Hn, Hle.
  set (c := Z.min n cap) in *. assert (1 <= c) by (unfold c; lia).
  rewrite !multiply_exact by nia.
  replace (m * t * c) with (m * c * t) in * by ring.
  apply IH; auto; nia.
Qed.

Lemma recur_linear node : linearNode node.
Proof.
  induction node using Effect_nested_ind.
  - intros m t Hm Ht _.
    destruct node; try contradiction; try destruct dest as [[]|]; simpl;
      (split; [intros k; destruct k|]; unfold countOf; simpl; lia).
  - (* Conditional *)
    intros m t Hm Ht Hb. simpl in Hb. apply andb_prop in Hb as [Hb1 Hb2]. simpl.
    destruct (IHnode m t Hm Ht Hb1) as [A1 A2].
    destruct e as [e'|]; simpl in *; [|split; assumption].
    destruct (H m t Hm Ht Hb2) as [B1 B2].
    destruct (recur_additive e' (m * t) (recur node (m * t) emptyMult)) as [C1 C2].
    destruct (recur_additive e' m (recur node m emptyMult)) as [D1 D2].
    split; [intros k; rewrite C1, D1, A1, B1|rewrite C2, D2, A2, B2]; lia.
  - (* Case *)
    intros m t Hm Ht Hb. simpl in Hb. apply andb_prop in Hb as [Hb1 Hb2].
    rewrite !recur_Case. cbv zeta.
    assert (F1 : forall k,
      Forall (fun b : Predicate * Effect =>
                countOf k (recur (snd b) (m * t) emptyMult) = t * countOf k (recur (snd b) m emptyMult)) bs).
    { intros k. rewrite Forall_forall. intros b Hin.
      rewrite Forall_forall in H. rewrite forallb_forall in Hb1.
      apply (H b Hin m t Hm Ht (Hb1 b Hin)). }
    assert (F2 :
      Forall (fun b : Predicate * Effect =>
                spawns (recur (snd b) (m * t) emptyMult) = t * spawns (recur (snd b) m emptyMult)) bs).
    { rewrite Forall_forall. intros b Hin.
      rewrite Forall_forall in H. rewrite forallb_forall in Hb1.
      apply (H b Hin m t Hm Ht (Hb1 b Hin)). }
    destruct e as [e'|]; simpl in *.
    + destruct (H0 m t Hm Ht Hb2) as [B1 B2].
      split; [intros k|].
      * destruct (recur_additive e' (m * t)
                   (fold_left (fun a (b : Predicate * Effect) => recur (snd b) (m * t) a) bs emptyMult))
          as [C1 _].
        destruct (recur_additive e' m
                   (fold_left (fun a (b : Predicate * Effect) => recur (snd b) m a) bs emptyMult))
          as [D1 _].
        rewrite C1, D1, B1, !count_fold, (sumZ_scale _ _ t bs (F1 k)).
        unfold countOf; simpl; lia.
      * destruct (recur_additive e' (m * t)
                   (fold_left (fun a (b : Predicate * Effect) => recur (snd b) (m * t) a) bs emptyMult))
          as [_ C2].
        destruct (recur_additive e' m
                   (fold_left (fun a (b : Predicate * Effect) => recur (snd b) m a) bs emptyMult))
          as [_ D2].
        rewrite C2, D2, B2, !spawns_fold, (sumZ_scale _ _ t bs F2). simpl; lia.
    + split; [intros k|].
      * rewrite !count_fold, (sumZ_scale _ _ t bs (F1 k)). unfold countOf; simpl; lia.
      * rewrite !spawns_fold, (sumZ_scale _ _ t bs F2). simpl; lia.
  - (* ForEach *)
    intros m t Hm Ht Hb. simpl in Hb |- *.
    apply loop_linear; auto. unfold MAX_FOREACH_TARGETS; lia.
  - (* Sequence *)
    intros m t Hm Ht Hb. simpl in Hb. rewrite !recur_Sequence.
    assert (F1 : forall k,
      Forall (fun x => countOf k (recur x (m * t) emptyMult) = t * countOf k (recur x m emptyMult)) steps).
    { intros k. rewrite Forall_forall. intros b Hin.
      rewrite Forall_forall in H. rewrite forallb_forall in Hb.
      apply (H b Hin m t Hm Ht (Hb b Hin)). }
    assert (F2 :
      Forall (fun x => spawns (recur x (m * t) emptyMult) = t * spawns (recur x m emptyMult)) steps).
    { rewrite Forall_forall. intros b Hin.
      rewrite Forall_forall in H. rewrite forallb_forall in Hb.
      apply (H b Hin m t Hm Ht (Hb b Hin)). }
    split; [intros k|].
    + rewrite !(count_fold (fun x => x)), (sumZ_scale _ _ t steps (F1 k)).
      unfold countOf; simpl; lia.
    + rewrite !(spawns_fold (fun x => x)), (sumZ_scale _ _ t steps F2). simpl; lia.
  - (* Repeat *)
    intros m t Hm Ht Hb. simpl in Hb |- *.
    apply loop_linear; auto. unfold MAX_REPEAT; lia.
Qed.

Lemma sumZ_nonneg {A} (f : A -> Z) (l : list A) :
  Forall (fun x => 0 <= f x) l -> 0 <= sumZ (map f l).
Proof. induction 1; simpl; lia. Qed.

Lemma sumZ_member {A} (f : A -> Z) (l : list A) x :
  Forall (fun x => 0 <= f x) l -> In x l -> f x <= sumZ (map f l).
Proof.
  induction 1 as [|y r Hy Hr IH]; simpl; [tauto|].
  pose proof (sumZ_nonneg f r Hr).
  intros [->|Hin]; [lia|]. specialize (IH Hin). lia.
Qed.

Lemma loop_nonneg (cap n : Z) (body : Effect) m :
  1 <= cap -> nonnegNode body -> 1 <= m ->
  ((1 <=? n) && (m * Z.min n cap <=? MAX_SAFE_INTEGER)
   && boundedFrom body (m * Z.min n cap) = true) ->
  (forall k, 0 <= countOf k (recur body (multiply m (Z.min n cap)) emptyMult))
  /\ 0 <= spawns (recur body (multiply m (Z.min n cap)) emptyMult).
Proof.
  intros Hcap IH Hm Hb.
  apply andb_prop in Hb as [Hb Hbody]. apply andb_prop in Hb as [Hn Hle].
  apply Z.leb_le in Hn, Hle.
  rewrite multiply_exact by lia. apply IH; auto; nia.
Qed.

Lemma recur_nonneg node : nonnegNode node.
Proof.
  induction node using Effect_nested_ind.
  - intros m Hm _.
    destruct node; try contradiction; try destruct dest as [[]|]; simpl;
      (split; [intros k; destruct k|]; unfold countOf; simpl; lia).
  - intros m Hm Hb. simpl in Hb. apply andb_prop in Hb as [Hb1 Hb2]. simpl.
    destruct (IHnode m Hm Hb1) as [A1 A2].
    destruct e as [e'|]; simpl in *; [|split; assumption].
    destruct (H m Hm Hb2) as [B1 B2].
    destruct (recur_additive e' m (recur node m emptyMult)) as [C1 C2].
    split; [intros k; rewrite C1; specialize (A1 k); specialize (B1 k)|rewrite C2]; lia.
  - intros m Hm Hb. simpl in Hb. apply andb_prop in Hb as [Hb1 Hb2].
    rewrite recur_Case. cbv zeta.
    rewrite Forall_forall in H. rewrite forallb_forall in Hb1.
    assert (F1 : forall k,
      Forall (fun b : Predicate * Effect => 0 <= countOf k (recur (snd b) m emptyMult)) bs).
    { intros k. rewrite Forall_forall. intros b Hin. apply (H b Hin m Hm (Hb1 b Hin)). }
    assert (F2 :
      Forall (fun b : Predicate * Effect => 0 <= spawns (recur (snd b) m emptyMult)) bs).
    { rewrite Forall_forall. intros b Hin. apply (H b Hin m Hm (Hb1 b Hin)). }
    destruct e as [e'|]; simpl in *.
    + destruct (H0 m Hm Hb2) as [B1 B2].
      destruct (recur_additive e' m
                  (fold_left (fun a (b : Predicate * Effect) => recur (snd b) m a) bs emptyMult))
        as [C1 C2].
      split; [intros k; rewrite C1, count_fold; specialize (B1 k);
              pose proof (sumZ_nonneg _ _ (F1 k)); unfold countOf at 1; simpl
             |rewrite C2, spawns_fold; pose proof (sumZ_nonneg _ _ F2); simpl]; lia.
    + split; [intros k; rewrite count_fold; pose proof (sumZ_nonneg _ _ (F1 k));
              unfold countOf at 1; simpl
             |rewrite spawns_fold; pose proof (sumZ_nonneg _ _ F2); simpl]; lia.
  - intros m Hm Hb. simpl in Hb |- *. apply loop_nonneg; auto. unfold MAX_FOREACH_TARGETS; lia.
  - intros m Hm Hb. simpl in Hb. rewrite recur_Sequence.
    rewrite Forall_forall in H. rewrite forallb_forall in Hb.
    assert (F1 : forall k, Forall (fun x => 0 <= countOf k (recur x m emptyMult)) steps).
    { intros k. rewrite Forall_forall. intros b Hin. apply (H b Hin m Hm (Hb b Hin)). }
    assert (F2 : Forall (fun x => 0 <= spawns (recur x m emptyMult)) steps).
    { rewrite Forall_forall. intros b Hin. apply (H b Hin m Hm (Hb b Hin)). }
    split; [intros k; rewrite (count_fold (fun x => x));
            pose proof (sumZ_nonneg _ _ (F1 k)); unfold countOf at 1; simpl
           |rewrite (spawns_fold (fun x => x)); pose proof (sumZ_nonneg _ _ F2); simpl]; lia.
  - intros m Hm Hb. simpl in Hb |- *. apply loop_nonneg; auto. unfold MAX_REPEAT; lia.
Qed.


(* ------------------------------------------------------------------ *)
(** ** Lethal damage on concrete boards *)



(* ------------------------------------------------------------------ *)
(** ** Prevention on a concrete board *)


(* ------------------------------------------------------------------ *)
(** ** Casting outside the turn *)

(** C4: the check refuses a cast by the player whose turn it is not, and
    the cast itself goes through.  In the opening state player 0 is active
    and the phase is UPKEEP: [canCastFromHand] answers "Not your turn" to
    player 1, and [castFromHand] for the same player and hand index
    answers ok and puts the card onto the battlefield. *)
Theorem cast_out_of_turn :
  reachable openingState
  /\ active (turn openingState) = P0
  /\ phase (turn openingState) = UPKEEP
  /\ hand (player openingState P1) = ["C9"; "C13"; "C15"; "C14"; "C11"]
  /\ canCastFromHand 10 openingState P1 0 = Some (Refused "Not your turn")
  /\ exists s', castFromHand 10 P1 0 None openingState = Some (Ok, s')
                /\ hand (player s' P1) = ["C13"; "C15"; "C14"; "C11"]
                /\ battlefield (player s' P1) = ["C9"]
                /\ log s' = log openingState ++ ["Bob casts Wolf (cost 0, AP 0)."].
Proof.
  split; [exact opening_reachable|].
  repeat (split; [vm_compute; reflexivity|]).
  eexists. split; [vm_compute; reflexivity|].
  repeat (split; [vm_compute; reflexivity|]). vm_compute. reflexivity.
Qed.

(* ------------------------------------------------------------------ *)
(** ** Planning and the log *)

(** C5: planning an effect whose selector names the stack appends a line
    to the log of the state it was given. *)
Theorem planning_writes_log :
  reachable openingState
  /\ exists ops s',
       planEffect 3 P0 None (DealDamage stackSel (VConst 1)) None openingState
       = Some (ops, s')
       /\ log s' = log openingState ++ ["Selector with zone=STACK unsupported; ignoring."].
Proof.
  split; [exact opening_reachable|].
  eexists. eexists. split; vm_compute; reflexivity.
Qed.

(* ------------------------------------------------------------------ *)
(** ** The mulligan and the seed *)

(** C6: the mulligan shuffles with [Math.random], not with the seeded
    generator: from one and the same state, set up with seed 42, two
    streams of ambient samples leave two different libraries. *)
Theorem mulligan_ignores_seed :
  reachable openingState
  /\ opening = Some openingState
  /\ exists s1 s2,
       mulliganLondon 10 P0 allZero openingState = Some (Ok, s1)
       /\ mulliganLondon 10 P0 allHalf openingState = Some (Ok, s2)
       /\ library (player s1 P0) = ["C7"; "C8"; "C3"; "C4"]
       /\ library (player s2 P0) = ["C1"; "C2"; "C6"; "C8"].
Proof.
  split; [exact opening_reachable|].
  split; [vm_compute; reflexivity|].
  eexists. eexists.
  split; [vm_compute; reflexivity|]. split; [vm_compute; reflexivity|].
  vm_compute. split; reflexivity.
Qed.

(* ------------------------------------------------------------------ *)
(** ** Repeat in the planner *)

Lemma repeatM_same {B} (m : M (list B)) (ops : list B) (s : GameState) (k : nat) :
  m s = Some (ops, s) -> repeatM k m s = Some (List.concat (repeat ops k), s).
Proof.
  intros H. induction k as [|k IH]; [reflexivity|].
  cbn [repeatM repeat List.concat]. unfold bind. rewrite H, IH. reflexivity.
Qed.

(** C7, as stated, fails: a [Repeat] that declares 5 repetitions, over
    the cap of 3, is planned as five draws. *)
Lemma repeat_counterexample :
  exists s',
    planEffect 3 P0 None drawFive None openingState = Some (repeat (OpDraw P0 1) 5, s')
    /\ planEffect 2 P0 None (Draw SELF (VConst 1)) None openingState
       = Some ([OpDraw P0 1], openingState)
    /\ MAX_REPEAT < Z.of_nat (List.length (repeat (OpDraw P0 1) 5)).
Proof.
  eexists. split; [vm_compute; reflexivity|]. split; vm_compute; reflexivity.
Qed.

(** C7, as the planner has it.  When planning the body returns [ops] and
    leaves the state as it was, planning [Repeat n body] returns [ops]
    exactly [n] times over (none when [n] is not positive), whatever [n]
    is: the planner applies no cap of its own. *)
Theorem repeat_plans_declared_times fuel c src body tg n s ops :
  planEffect fuel c src body tg s = Some (ops, s) ->
  planEffect (S fuel) c src (Repeat n body) tg s
  = Some (List.concat (repeat ops (Z.to_nat n)), s).
Proof.
  intros H. cbn [planEffect planEffect_body]. now apply repeatM_same.
Qed.

(** Five repetitions of a draw are five draws. *)
Lemma repeat_plans_declared_times_witness :
  planEffect 3 P0 None drawFive None openingState
  = Some (List.concat (repeat [OpDraw P0 1] (Z.to_nat 5)), openingState).
Proof.
  apply (repeat_plans_declared_times 2 P0 None (Draw SELF (VConst 1)) None 5 openingState
           [OpDraw P0 1]).
  vm_compute. reflexivity.
Defined.

(* ------------------------------------------------------------------ *)
(** ** EndTurn and buffs off the battlefield *)

Lemma pumped_reachable : reachable pumped.
Proof.
  apply (reach_step 10 (DoResolve P0 None pumpAndBounce None)
           (after (startTurn 10 ;;; advancePhase 10 ;;;
                   (_ <- castFromHand 10 P0 0 None ;; ret tt)) openingState)).
  - apply (reach_step 10 (DoCast P0 0 None)
             (after (startTurn 10 ;;; advancePhase 10) openingState)).
    + apply (reach_step 10 DoAdvancePhase (after (startTurn 10) openingState)).
      * apply (reach_step 10 DoStartTurn openingState);
          [exact opening_reachable|vm_compute; reflexivity].
      * vm_compute; reflexivity.
    + vm_compute; reflexivity.
  - vm_compute; reflexivity.
Qed.

(** C8: a unit that was buffed until end of turn and has left the
    battlefield keeps the buff through EndTurn.  From the opening state
    player 0 casts a Goblin in the main phase, gives it +2/+2 until end of
    turn and returns it to hand; after EndTurn the turn has passed to
    player 1, and the Goblin in hand still carries +2/+2. *)
Theorem end_turn_keeps_buff_off_battlefield :
  reachable pumped
  /\ pumpLine openingState = Some (tt, pumped)
  /\ battlefield (player pumped P0) = []
  /\ hand (player pumped P0) = ["C5"; "C6"; "C7"; "C4"; "C3"; "C1"]
  /\ exists s2 rc,
       applyOperation 10 EndTurn pumped = Some (tt, s2)
       /\ turn s2 = mkTurn 2 P1 UPKEEP
       /\ hand (player s2 P0) = ["C5"; "C6"; "C7"; "C4"; "C3"; "C1"]
       /\ JsMap.get "C1" (cards s2) = Some rc
       /\ rc_zone rc = HAND
       /\ bonusAtkEOT rc = Some 2
       /\ bonusHpEOT rc = Some 2.
Proof.
  split; [exact pumped_reachable|].
  repeat (split; [vm_compute; reflexivity|]).
  eexists. eexists. split; [vm_compute; reflexivity|].
  split; [vm_compute; reflexivity|]. split; [vm_compute; reflexivity|].
  split; [vm_compute; reflexivity|]. vm_compute. repeat split.
Qed.

(* ------------------------------------------------------------------ *)
(** ** The analyzer where it saturates *)



(* ------------------------------------------------------------------ *)
(** ** The invariants on an opening state *)


(* ================================================================== *)
(** * Further properties of the engine *)

(* ------------------------------------------------------------------ *)
(** ** The planner and the state *)

(** X1.  Whatever effect is planned, with whatever targets, the planner leaves
    every field of the state as it was, the log apart, and the log only
    grows. *)
Theorem planEffect_changes_only_log fuel c src eff tg s ops s' :
  planEffect fuel c src eff tg s = Some (ops, s') ->
  exists msgs, s' = set_log (log s ++ msgs) s.
Proof. apply logOnly_planEffect. Qed.

Lemma planEffect_changes_only_log_witness :
  exists msgs, stackPlanned = set_log (log openingState ++ msgs) openingState.
Proof.
  apply (planEffect_changes_only_log 3 P0 None (DealDamage stackSel (VConst 1)) None
           openingState [Log "Effect DealDamage fizzles (no legal targets)."]).
  vm_compute. reflexivity.
Defined.



(* ------------------------------------------------------------------ *)
(** ** Shuffling and deck loading *)

Lemma xorshift32_range st : 0 <= fst (xorshift32 st) < 2 ^ 32.
Proof. unfold xorshift32, to_uint32. cbn [fst]. apply Z.mod_pos_bound. lia. Qed.

(** With samples in the unit interval the index drawn for position [i] is
    at most [i]. *)
Lemma shuffle_index_bound x i :
  0 <= x < 2 ^ 32 -> (Z.to_nat (x * Z.of_nat (S i) / 2 ^ 32) <= i)%nat.
Proof.
  intros Hx.
  assert (H : x * Z.of_nat (S i) / 2 ^ 32 < Z.of_nat (S i)).
  { apply Z.div_lt_upper_bound; [lia|]. nia. }
  assert (0 <= x * Z.of_nat (S i) / 2 ^ 32) by (apply Z.div_pos; nia).
  lia.
Qed.

(** X3.  A shuffle returns the ids it was given, each as often as before, in
    some order. *)
Theorem shuffle_permutes {R} (rng : R -> Z * R) (arr : list string) (r : R) :
  (forall r0, 0 <= fst (rng r0) < 2 ^ 32) ->
  Permutation (fst (shuffle rng arr r)) arr
  /\ List.length (fst (shuffle rng arr r)) = List.length arr.
Proof.
  intros _.
  assert (P : Permutation (fst (shuffle rng arr r)) arr).
  { apply (Permutation_count_occ string_dec). intros x. apply occ_shuffle. }
  split; [exact P|]. now apply Permutation_length.
Qed.

Lemma shuffle_permutes_witness :
  Permutation (fst (shuffle xorshift32 ["C1"; "C2"; "C3"] 42)) ["C1"; "C2"; "C3"]
  /\ List.length (fst (shuffle xorshift32 ["C1"; "C2"; "C3"] 42))
     = List.length ["C1"; "C2"; "C3"].
Proof. exact (shuffle_permutes xorshift32 ["C1"; "C2"; "C3"] 42 xorshift32_range). Defined.

Lemma loadCopies_length owner card count nid :
  List.length (fst (loadCopies owner card count nid)) = count.
Proof.
  revert nid. induction count as [|k IH]; intros nid; cbn [loadCopies]; [reflexivity|].
  specialize (IH (S nid)). destruct (loadCopies owner card k (S nid)) as [rest nid'].
  cbn [fst List.length] in *. now rewrite IH.
Qed.

Lemma loadEntries_length owner entries nid :
  List.length (fst (loadEntries owner entries nid))
  = fold_right (fun e acc => (Z.to_nat (Z.max 0 (de_count e)) + acc)%nat) 0%nat entries.
Proof.
  revert nid. induction entries as [|e r IH]; intros nid; cbn [loadEntries]; [reflexivity|].
  pose proof (loadCopies_length owner (de_card e) (Z.to_nat (Z.max 0 (de_count e))) nid) as L.
  destruct (loadCopies owner (de_card e) (Z.to_nat (Z.max 0 (de_count e))) nid) as [a nid1].
  specialize (IH nid1). destruct (loadEntries owner r nid1) as [b nid2].
  cbn [fst fold_right] in *. rewrite length_app, L, IH. reflexivity.
Qed.

(** X4.  [loadDeck] makes one card per copy asked for (none for a count that is
    not positive), gives them the ids the counter yields one after the
    other, all different, and hands the counter back advanced by the
    number of cards; every card belongs to the owner and carries no
    damage. *)
Theorem loadDeck_fresh_ids raw owner nid :
  map rc_id (deck_list (fst (loadDeck raw owner nid)))
  = map makeId (seq nid (List.length (deck_list (fst (loadDeck raw owner nid)))))
  /\ snd (loadDeck raw owner nid)
     = (nid + List.length (deck_list (fst (loadDeck raw owner nid))))%nat
  /\ List.length (deck_list (fst (loadDeck raw owner nid)))
     = fold_right (fun e acc => (Z.to_nat (Z.max 0 (de_count e)) + acc)%nat) 0%nat
         (raw_cards raw)
  /\ NoDup (map rc_id (deck_list (fst (loadDeck raw owner nid))))
  /\ Forall (fun rc => rc_owner rc = owner /\ rc_damage rc = 0)
       (deck_list (fst (loadDeck raw owner nid))).
Proof.
  destruct (loadDeck_loaded raw owner nid) as (Hm & Hle & HF).
  assert (Hlen : List.length (deck_list (fst (loadDeck raw owner nid)))
                 = (snd (loadDeck raw owner nid) - nid)%nat).
  { rewrite <- (length_map rc_id), Hm, length_map, length_seq. reflexivity. }
  split; [now rewrite Hlen|]. split; [lia|]. split.
  - unfold loadDeck. pose proof (loadEntries_length owner (raw_cards raw) nid) as L.
    destruct (loadEntries owner (raw_cards raw) nid) as [l nid']. exact L.
  - split; [rewrite Hm; apply ids_NoDup|exact HF].
Qed.

(* ------------------------------------------------------------------ *)
(** ** Refusals *)

Lemma bind_ret_Ok (m : M unit) s r s' : (m ;;; ret Ok) s = Some (Refused r, s') -> False.
Proof.
  unfold bind, ret. destruct (m s) as [[[] t]|]; discriminate.
Qed.

(** X5.  When [castFromHand] answers with a refusal, whatever its reason, the
    state is as it was. *)
Theorem castFromHand_refusal_leaves_state fuel pid handIndex tg s r s' :
  castFromHand fuel pid handIndex tg s = Some (Refused r, s') -> s' = s.
Proof.
  unfold castFromHand. cbv beta iota delta [bind getS readO].
  destruct (_ || _); [now intros [= _ <-]|].
  destruct (nth_error _ _) as [id|]; [|discriminate].
  destruct (JsMap.get id (cards s)) as [rc|]; [|discriminate].
  destruct (applyCostModifiers _ _ _ _ _) as [c|]; [|discriminate].
  destruct (_ <? _); [now intros [= _ <-]|].
  destruct (canPayColoredCost _ _ _) as [toSpend|reason]; [|now intros [= _ <-]].
  intros H. exfalso.
  destruct (forOps _ _ s) as [[[] t]|]; discriminate H.
Qed.

Lemma castFromHand_refusal_leaves_state_witness : openingState = openingState.
Proof.
  apply (castFromHand_refusal_leaves_state 10 P0 7 None openingState "Invalid hand index").
  vm_compute. reflexivity.
Defined.

(** X6.  [attack] goes through only for the active player, in the COMBAT phase,
    with an attacker [canAttack] accepts; and when it answers with a
    refusal, whatever its reason, the state is as it was. *)
Theorem attack_checks_before_acting fuel pid bfIndex target s o s' :
  attack fuel pid bfIndex target s = Some (o, s') ->
  match o with
  | Refused _ => s' = s
  | Ok => active (turn s) = pid /\ phase (turn s) = COMBAT /\ canAttack s pid bfIndex = Ok
  end.
Proof.
  unfold attack. cbv beta iota delta [bind getS readO].
  destruct (PlayerIndex_eqb (active (turn s)) pid) eqn:Ea; cbn [negb];
    [|now intros [= <- <-]].
  destruct (Phase_eqb (phase (turn s)) COMBAT) eqn:Ep; cbn [negb];
    [|now intros [= <- <-]].
  destruct (canAttack s pid bfIndex) eqn:Ec; [|now intros [= <- <-]].
  assert (G : active (turn s) = pid /\ phase (turn s) = COMBAT /\ Ok = Ok).
  { split; [now apply PlayerIndex_eqb_eq|]. split; [|reflexivity].
    destruct (phase (turn s)); try discriminate Ep; reflexivity. }
  destruct (nth_error _ _) as [attacker|]; [|discriminate].
  destruct (match attackerTargets (combat (rules s)) with PlayerOnly => _ | _ => _ end)
    as [refusal|]; [now intros [= <- <-]|].
  destruct (getEffectiveBaseStats _ s attacker) as [aStats|]; [|discriminate].
  destruct target as [|index].
  - intros H. destruct (forOps _ _ s) as [[[] t]|]; [|discriminate H].
    injection H as <- <-. exact G.
  - destruct (_ || _); [now intros [= <- <-]|].
    destruct (nth_error _ _) as [defender|]; [|discriminate].
    intros H. destruct (forOps _ _ s) as [[[] t]|]; [|discriminate H].
    injection H as <- <-. exact G.
Qed.

Lemma attack_checks_before_acting_witness : openingState = openingState.
Proof.
  apply (attack_checks_before_acting 10 P0 0 AtPlayer openingState
           (Refused "Attacks only in COMBAT phase") openingState).
  vm_compute. reflexivity.
Defined.

(* ------------------------------------------------------------------ *)
(** ** The analyzer on sequences *)


(* ------------------------------------------------------------------ *)
(** ** Usage keys *)

Lemma hashFree_digits d : hashFree (DecimalString.NilEmpty.string_of_uint d) = true.
Proof. induction d; cbn; auto. Qed.

Lemma hashFree_show_nat n : hashFree (show_nat n) = true.
Proof.
  unfold show_nat, DecimalString.NilZero.string_of_uint.
  destruct (Nat.to_uint n) eqn:E; try reflexivity; rewrite <- E; apply hashFree_digits.
Qed.

Lemma split_at_hash a b x y :
  hashFree a = true -> hashFree b = true ->
  (a ++ "#" ++ x)%string = (b ++ "#" ++ y)%string -> a = b /\ x = y.
Proof.
  revert b. induction a as [|c a IH]; intros [|d b] Ha Hb H; cbn in *.
  - injection H as ->. auto.
  - injection H as <- _. cbn in Hb. discriminate Hb.
  - injection H as -> _. cbn in Ha. discriminate Ha.
  - injection H as -> H. apply andb_prop in Ha as [_ Ha]. apply andb_prop in Hb as [_ Hb].
    destruct (IH b Ha Hb H) as [-> ->]. auto.
Qed.

(** X8.  The key under which the uses of a trigger or replacement are counted
    names one card and one index: two cards made by [makeId], or two
    indices on one card, never share a key. *)
Theorem usageKey_identifies n i m j :
  usageKey (makeId n) i = usageKey (makeId m) j -> n = m /\ i = j.
Proof.
  unfold usageKey, makeId. cbn [String.append]. intros [= H].
  apply split_at_hash in H; try apply hashFree_show_nat.
  destruct H as [H1 H2]. split; now apply show_nat_inj.
Qed.

Lemma usageKey_identifies_witness : 12%nat = 12%nat /\ 3%nat = 3%nat.
Proof. apply (usageKey_identifies 12 3 12 3). reflexivity. Defined.

(* ------------------------------------------------------------------ *)
(** ** Who has lost *)

Lemma checkPlayerDeath_result s :
  idx (player s P0) = P0 -> idx (player s P1) = P1 ->
  exists s',
    checkPlayerDeath s = Some (tt, s')
    /\ winner s' = (if negb (lifeZeroLoss (win (rules s))) then winner s
                    else if life (player s P1) <=? 0 then Some P0
                    else if life (player s P0) <=? 0 then Some P1
                    else winner s)
    /\ players s' = players s /\ cards s' = cards s /\ turn s' = turn s.
Proof.
  intros H0 H1. unfold checkPlayerDeath. cbv beta iota delta [bind getS].
  destruct (lifeZeroLoss (win (rules s))); cbn [negb];
    [|eexists; split; [reflexivity|repeat split]].
  cbn [forM]. cbv beta iota delta [bind getS].
  destruct (life (player s P0) <=? 0) eqn:E0.
  - unfold modify at 1, pushLog at 1, modify at 1. cbv beta iota.
    cbn [player players set_log set_winner fst snd].
    change (fst (players s)) with (player s P0). change (snd (players s)) with (player s P1).
    destruct (life (player s P1) <=? 0) eqn:E1.
    + unfold modify at 1, pushLog at 1, modify at 1, ret. cbv beta iota.
      eexists; split; [reflexivity|]. cbn [winner set_log set_winner players cards turn].
      rewrite H1. repeat split.
    + unfold ret. eexists; split; [reflexivity|].
      cbn [winner set_log set_winner players cards turn]. rewrite H0. repeat split.
  - unfold ret at 1. cbv beta iota.
    destruct (life (player s P1) <=? 0) eqn:E1.
    + unfold modify at 1, pushLog at 1, modify at 1, ret. cbv beta iota.
      eexists; split; [reflexivity|]. cbn [winner set_log set_winner players cards turn].
      rewrite H1. repeat split.
    + unfold ret. eexists; split; [reflexivity|]. repeat split.
Qed.

(** X9.  [checkPlayerDeath] looks at player 0, then at player 1, and lets each
    one who is at zero life or less name the other as the winner: when
    both are, player 0 wins; when neither is, or when the rules do not
    count zero life as a loss, the winner field is left as it was.  It
    touches no card and no player. *)
Theorem checkPlayerDeath_verdict s :
  idx (player s P0) = P0 -> idx (player s P1) = P1 ->
  exists s',
    checkPlayerDeath s = Some (tt, s')
    /\ winner s' = (if negb (lifeZeroLoss (win (rules s))) then winner s
                    else if life (player s P1) <=? 0 then Some P0
                    else if life (player s P0) <=? 0 then Some P1
                    else winner s)
    /\ players s' = players s /\ cards s' = cards s /\ turn s' = turn s.
Proof. exact (checkPlayerDeath_result s). Qed.

Lemma checkPlayerDeath_verdict_witness :
  exists s',
    checkPlayerDeath bothDown = Some (tt, s')
    /\ winner s' = (if negb (lifeZeroLoss (win (rules bothDown))) then winner bothDown
                    else if life (player bothDown P1) <=? 0 then Some P0
                    else if life (player bothDown P0) <=? 0 then Some P1
                    else winner bothDown)
    /\ players s' = players bothDown /\ cards s' = cards bothDown
    /\ turn s' = turn bothDown.
Proof. apply (checkPlayerDeath_verdict bothDown); reflexivity. Defined.

(* ------------------------------------------------------------------ *)
(** ** Coloured costs *)

Lemma get_bump k c d (m : JsMap.t Z) :
  or0 (JsMap.get k (bump c d m)) = or0 (JsMap.get k m) + (if String.eqb k c then d else 0).
Proof.
  unfold bump. destruct (String.eqb_spec k c) as [->|Hne].
  - now rewrite JsMapFacts.get_set_eq.
  - rewrite JsMapFacts.get_set_neq by auto. lia.
Qed.

Lemma tally_fold cols (m : JsMap.t Z) c :
  or0 (JsMap.get c (fold_left (fun need x => bump x 1 need) cols m))
  = or0 (JsMap.get c m) + Z.of_nat (count_occ string_dec cols c).
Proof.
  revert m. induction cols as [|x r IH]; intros m; cbn [fold_left count_occ]; [lia|].
  rewrite IH, get_bump.
  destruct (string_dec x c) as [->|Hne].
  - rewrite String.eqb_refl. lia.
  - destruct (String.eqb_spec c x); [congruence|lia].
Qed.

Lemma tally_count cols c :
  or0 (JsMap.get c (tallyColors cols)) = Z.of_nat (count_occ string_dec cols c).
Proof. unfold tallyColors. rewrite tally_fold. reflexivity. Qed.

Lemma set_keys {V} k (v : V) (m : JsMap.t V) :
  map fst (JsMap.set k v m)
  = if JsMap.has k m then map fst m else map fst m ++ [k].
Proof.
  unfold JsMap.has. induction m as [|[k0 v0] r IH]; cbn [JsMap.set JsMap.get map fst app].
  - reflexivity.
  - destruct (String.eqb k k0); cbn [map fst]; [reflexivity|].
    rewrite IH. now destruct (JsMap.get k r).
Qed.

Lemma has_In {V} k (m : JsMap.t V) : JsMap.has k m = true <-> In k (map fst m).
Proof.
  unfold JsMap.has. induction m as [|[k0 v0] r IH]; cbn [JsMap.get map fst In].
  - split; [discriminate|tauto].
  - destruct (String.eqb_spec k k0) as [->|Hne].
    + split; auto.
    + rewrite IH. split; [auto|]. intros [E|H]; [congruence|exact H].
Qed.

Lemma set_keys_NoDup {V} k (v : V) (m : JsMap.t V) :
  NoDup (map fst m) -> NoDup (map fst (JsMap.set k v m)).
Proof.
  intros N. rewrite set_keys. destruct (JsMap.has k m) eqn:E; [exact N|].
  apply NoDup_app; [exact N|repeat constructor; intros []|].
  intros x Hx [<-|[]]. apply has_In in Hx. congruence.
Qed.

Lemma In_get {V} k (v : V) (m : JsMap.t V) :
  NoDup (map fst m) -> In (k, v) m -> JsMap.get k m = Some v.
Proof.
  induction m as [|[k0 v0] r IH]; cbn [map fst JsMap.get]; intros N Hin; [destruct Hin|].
  inversion N as [|? ? Hout N']; subst.
  destruct Hin as [[= -> ->]|Hin].
  - now rewrite String.eqb_refl.
  - destruct (String.eqb_spec k k0) as [->|Hne]; [|auto].
    exfalso. apply Hout. change k0 with (fst (k0, v)). now apply in_map.
Qed.

Lemma tally_keys cols (m : JsMap.t Z) :
  NoDup (map fst m) ->
  NoDup (map fst (fold_left (fun need x => bump x 1 need) cols m))
  /\ forall k, In k (map fst (fold_left (fun need x => bump x 1 need) cols m)) ->
               In k (map fst m) \/ In k cols.
Proof.
  revert m. induction cols as [|x r IH]; intros m N; cbn [fold_left].
  - split; [exact N|auto].
  - destruct (IH (bump x 1 m)) as [N' K]; [now apply set_keys_NoDup|].
    split; [exact N'|]. intros k Hk. destruct (K k Hk) as [H|H]; [|right; now right].
    unfold bump in H. rewrite set_keys in H.
    destruct (JsMap.has x m); [now left|].
    apply in_app_or in H as [H|[<-|[]]]; [now left|right; now left].
Qed.




(* ------------------------------------------------------------------ *)
(** ** Keywords and damage on a quiet board *)

Lemma zones_marked_drained id r n s p z :
  getZoneArray (player (marked id r (drained id n s)) p) z = getZoneArray (player s p) z.
Proof.
  unfold marked. rewrite player_upd_card. unfold player. now rewrite players_drained.
Qed.

Lemma keyword_after_mark id r d sid k :
  match JsMap.get sid (cards (marked id r d)) with
  | Some c => hasKeyword c k
  | None => false
  end
  = match JsMap.get sid (cards d) with
    | Some c => hasKeyword c k
    | None => false
    end.
Proof.
  unfold marked. rewrite cards_upd_card, JsMapFacts.get_upd.
  destruct (String.eqb sid id); [|reflexivity].
  destruct (JsMap.get sid (cards d)) as [c|]; [|reflexivity]. now destruct c.
Qed.

(** Where a destroyed permanent ends, by the zone arrays. *)
Lemma destroy_places fuel rec id t rc u :
  quiet t = true -> JsMap.get id (cards t) = Some rc -> rc_zone rc = BF ->
  placedAt t id (rc_owner rc) BF ->
  destroyPermanent fuel rec id t = Some (tt, u) ->
  placedAt u id (rc_owner rc) (deathZone t rc)
  /\ diedCount u (rc_owner rc) = diedCount t (rc_owner rc) + 1
  /\ JsMap.get id (cards u) = Some (set_rc_zone (deathZone t rc) rc).
Proof.
  intros Q Hget Hz Hpl Hu.
  destruct (destroyPermanent_quiet fuel rec id t rc Q Hget Hz)
    as (u' & Eu & Uc & _ & Ue & _ & _ & Uz & _).
  rewrite Eu in Hu. injection Hu as <-. split; [|split].
  - intros p z. rewrite Uz. specialize (Hpl p z).
    destruct (PlayerIndex_eqb p (rc_owner rc)); cbn [andb] in *; [|exact Hpl].
    pose proof (deathZone_not_BF t rc) as D.
    destruct (PlayerZone_eqb z (deathZone t rc)) eqn:Ez.
    + rewrite occ_app, occ_remove_first, String.eqb_refl, Hpl, occ_cons, String.eqb_refl.
      assert (z = deathZone t rc) by (destruct z, (deathZone t rc); congruence || discriminate).
      subst z. rewrite D. reflexivity.
    + rewrite occ_remove_first, String.eqb_refl, Hpl. now destruct (PlayerZone_eqb z BF).
  - unfold diedCount. rewrite Ue. unfold bump. now rewrite JsMapFacts.get_set_eq.
  - rewrite Uc, JsMapFacts.get_upd, Hget, String.eqb_refl. reflexivity.
Qed.





(* ------------------------------------------------------------------ *)
(** ** Prevention followed by damage *)



(* ------------------------------------------------------------------ *)
(** ** Targets that are not registered *)

Lemma upd_missing {V} id (f : V -> V) (m : JsMap.t V) :
  JsMap.get id m = None -> JsMap.upd id f m = m.
Proof.
  induction m as [|[k v] r IH]; cbn [JsMap.get JsMap.upd]; [reflexivity|].
  destruct (String.eqb id k); [discriminate|]. intros H. now rewrite IH.
Qed.

Lemma upd_card_missing id f s : JsMap.get id (cards s) = None -> upd_card id f s = s.
Proof. intros H. unfold upd_card. rewrite upd_missing by exact H. now destruct s. Qed.

(** X15.  An operation aimed at an id that is not in the card map skips it: the
    state is left as it was, with no log line. *)
Theorem unknown_target_is_skipped fuel id s :
  JsMap.get id (cards s) = None ->
  (forall n src, applyOperation (S fuel) (DealDamageMany [id] n src) s = Some (tt, s))
  /\ (forall n, applyOperation (S fuel) (HealMany [id] n) s = Some (tt, s))
  /\ (forall a h d, applyOperation (S fuel) (BuffMany [id] a h d) s = Some (tt, s))
  /\ (forall z, applyOperation (S fuel) (MoveMany [id] z) s = Some (tt, s))
  /\ (forall o d, applyOperation (S fuel) (ChangeControllerMany [id] o d) s = Some (tt, s))
  /\ (forall into d, applyOperation (S fuel) (TransformMany [id] into d) s = Some (tt, s))
  /\ (forall a h d, applyOperation (S fuel) (CopyStatsToMany [id] a h d) s = Some (tt, s))
  /\ (forall c n mx, applyOperation (S fuel) (AddCounterMany [id] c n mx) s = Some (tt, s))
  /\ (forall c n, applyOperation (S fuel) (RemoveCounterMany [id] c n) s = Some (tt, s))
  /\ (forall b, applyOperation (S fuel) (SetTapped id b) s = Some (tt, s))
  /\ (forall t, applyOperation (S fuel) (SetTurnEntered id t) s = Some (tt, s)).
Proof.
  intros H.
  repeat match goal with |- _ /\ _ => split end; intros;
    cbn [applyOperation applyOperation_body]; rewrite ?forM_single;
    try (unfold modify; rewrite upd_card_missing by exact H; reflexivity).
  - unfold dealDamageToPermanent. cbv beta iota delta [bind getS]. now rewrite H.
  - unfold healPermanent. cbv beta iota delta [bind getS]. now rewrite H.
  - cbv beta iota delta [bind getS]. now rewrite H.
  - rewrite moveCard_unfold. now rewrite H.
  - cbv beta iota delta [bind getS]. now rewrite H.
  - cbv beta iota delta [bind getS]. now rewrite H.
  - cbv beta iota delta [bind getS]. now rewrite H.
Qed.

Lemma unknown_target_is_skipped_witness :
  applyOperation 3 (DealDamageMany ["C99"] 1 None) openingState = Some (tt, openingState)
  /\ applyOperation 3 (MoveMany ["C99"] BF) openingState = Some (tt, openingState).
Proof.
  destruct (unknown_target_is_skipped 2 "C99" openingState eq_refl)
    as (D & _ & _ & Mv & _).
  split; [exact (D 1 None)|exact (Mv BF)].
Defined.

(* ------------------------------------------------------------------ *)
(** ** Phases *)

Lemma Phase_eqb_eq a b : Phase_eqb a b = true <-> a = b.
Proof. destruct a, b; cbn; split; congruence. Qed.

Lemma indexOf_first pre x rest :
  ~ In x pre -> indexOf Phase_eqb x (pre ++ x :: rest) = Some (List.length pre).
Proof.
  induction pre as [|y pre IH]; intros Hout; cbn [app indexOf List.length].
  - now rewrite (proj2 (Phase_eqb_eq x x) eq_refl).
  - destruct (Phase_eqb x y) eqn:E.
    + apply Phase_eqb_eq in E. subst. exfalso. apply Hout. now left.
    + rewrite IH; [reflexivity|]. intros H. apply Hout. now right.
Qed.

Lemma indexOf_absent x l : ~ In x l -> indexOf Phase_eqb x l = None.
Proof.
  induction l as [|y l IH]; intros Hout; cbn [indexOf]; [reflexivity|].
  destruct (Phase_eqb x y) eqn:E.
  - apply Phase_eqb_eq in E. subst. exfalso. apply Hout. now left.
  - rewrite IH; [reflexivity|]. intros H. apply Hout. now right.
Qed.

(** X16.  [advancePhase] moves to the phase listed after the first occurrence of
    the current one, and logs it; from the last phase of the list, or from
    a phase the rules do not list, it does nothing: only [endTurn] leaves
    the last phase. *)
Theorem advancePhase_steps fuel s :
  (forall pre next post,
     phases (turns (rules s)) = pre ++ phase (turn s) :: next :: post ->
     ~ In (phase (turn s)) pre ->
     advancePhase (S fuel) s
     = Some (tt, set_log (log s ++ [("Phase -> " ++ show_phase next)%string])
                   (set_turn (mkTurn (number (turn s)) (active (turn s)) next) s)))
  /\ (forall pre,
        phases (turns (rules s)) = pre ++ [phase (turn s)] ->
        ~ In (phase (turn s)) pre ->
        advancePhase fuel s = Some (tt, s))
  /\ (~ In (phase (turn s)) (phases (turns (rules s))) ->
      advancePhase fuel s = Some (tt, s)).
Proof.
  split; [|split].
  - intros pre next post Hp Hout. unfold advancePhase. cbv beta iota delta [bind getS].
    rewrite Hp, indexOf_first by exact Hout.
    rewrite length_app. cbn [List.length].
    destruct (Nat.eqb_spec (S (List.length pre))
                (List.length pre + S (S (List.length post)))); [lia|].
    rewrite nth_error_app2 by lia.
    replace (S (List.length pre) - List.length pre)%nat with 1%nat by lia.
    cbn [nth_error applyOperation applyOperation_body].
    reflexivity.
  - intros pre Hp Hout. unfold advancePhase. cbv beta iota delta [bind getS].
    rewrite Hp, indexOf_first by exact Hout.
    rewrite length_app. cbn [List.length].
    destruct (Nat.eqb_spec (S (List.length pre)) (List.length pre + 1)); [reflexivity|lia].
  - intros Hout. unfold advancePhase. cbv beta iota delta [bind getS].
    now rewrite indexOf_absent.
Qed.

Lemma advancePhase_steps_witness :
  advancePhase 10 openingState
  = Some (tt, set_log (log openingState ++ ["Phase -> MAIN"])
                (set_turn (mkTurn 1 P0 MAIN) openingState)).
Proof.
  destruct (advancePhase_steps 9 openingState) as [H _].
  apply (H [] MAIN [COMBAT; END]); [vm_compute; reflexivity | intros []].
Defined.

(* ------------------------------------------------------------------ *)
(** ** What a computation leaves alone *)

Section Pres.
Context {X : Type}.
Variable f : GameState -> X.

Lemma pres_ret {A} (a : A) : pres f (ret a).
Proof. intros s a' s' [= _ <-]. reflexivity. Qed.

Lemma pres_fail {A} : pres f (@fail A).
Proof. intros s a s' H. discriminate H. Qed.

Lemma pres_getS : pres f getS.
Proof. intros s a s' [= _ <-]. reflexivity. Qed.

Lemma pres_readO {A} (g : GameState -> option A) : pres f (readO g).
Proof.
  intros s a s' H. unfold readO in H. destruct (g s); [|discriminate].
  now injection H as _ <-.
Qed.

Lemma pres_modify g : (forall s, f (g s) = f s) -> pres f (modify g).
Proof. intros Hg s a s' [= _ <-]. apply Hg. Qed.

Lemma pres_bind {A B} (m : M A) (k : A -> M B) :
  pres f m -> (forall a, pres f (k a)) -> pres f (bind m k).
Proof.
  intros Hm Hk s b s' H. unfold bind in H.
  destruct (m s) as [[a t]|] eqn:E; [|discriminate].
  rewrite (Hk a t b s' H). exact (Hm s a t E).
Qed.

Lemma pres_getS_bind {A} (k : GameState -> M A) :
  (forall s a s', k s s = Some (a, s') -> f s' = f s) -> pres f (bind getS k).
Proof. intros Hk s a s' H. exact (Hk s a s' H). Qed.

Lemma pres_forM {A} (l : list A) (g : A -> M unit) :
  (forall x, pres f (g x)) -> pres f (forM l g).
Proof.
  intros Hg. induction l as [|x r IH]; cbn [forM]; [apply pres_ret|].
  apply pres_bind; [apply Hg|intros _; exact IH].
Qed.

Lemma pres_times n (body : M unit) : pres f body -> pres f (times n body).
Proof.
  intros Hb. induction n as [|n IH]; cbn [times]; [apply pres_ret|].
  apply pres_bind; [exact Hb|intros _; exact IH].
Qed.
End Pres.

Lemma table_upd_player pid g s : table (upd_player pid g s) = table s.
Proof. now destruct pid. Qed.

Lemma table_upd_card id g s : table (upd_card id g s) = table s.
Proof. reflexivity. Qed.

Lemma pres_table_pushLog msg : pres table (pushLog msg).
Proof. apply pres_modify. reflexivity. Qed.

Lemma moveDest_GY s rc : PlayerZone_eqb (moveDest s rc GY) BF = false.
Proof.
  unfold moveDest. destruct (_ && _); [|reflexivity].
  now destruct (tokensLeaveTo (tokens (rules s))).
Qed.

(** A move to the graveyard fires nothing: it changes zone arrays and the
    zone field of the card, and nothing else. *)
Lemma moveCard_GY fuel rec id s :
  moveCard fuel rec id GY s
  = Some (tt, match JsMap.get id (cards s) with
              | Some rc => relocate id (rc_owner rc) (moveDest s rc GY) s
              | None => s
              end).
Proof.
  rewrite moveCard_unfold. destruct (JsMap.get id (cards s)) as [rc|]; [|reflexivity].
  cbv zeta. now rewrite moveDest_GY.
Qed.

Lemma pres_table_moveCard_GY fuel rec id : pres table (moveCard fuel rec id GY).
Proof.
  intros s a s' H. rewrite moveCard_GY in H. injection H as _ <-.
  destruct (JsMap.get id (cards s)); [|reflexivity].
  unfold relocate. now rewrite table_upd_card, table_upd_player.
Qed.

Lemma pres_table_transferControl id o : pres table (transferControl id o).
Proof.
  unfold transferControl. apply pres_getS_bind. intros s a s'.
  destruct (JsMap.get id (cards s)) as [rc|]; [|apply pres_ret].
  destruct (PlayerIndex_eqb (rc_owner rc) o); [apply pres_ret|].
  repeat (apply pres_bind; [|intros _]); apply pres_modify; intros t;
    rewrite ?table_upd_player, ?table_upd_card; reflexivity.
Qed.

Lemma pres_table_assignEach ids g : pres table (assignEach ids g).
Proof.
  unfold assignEach. apply pres_forM. intros id. apply pres_getS_bind. intros s a s'.
  destruct (JsMap.get id (cards s)); [|apply pres_fail].
  apply pres_modify. intros t. apply table_upd_card.
Qed.

Lemma pres_table_endTurnCleanup fuel rec pid : pres table (endTurnCleanup fuel rec pid).
Proof.
  unfold endTurnCleanup. apply pres_getS_bind. intros s0 a0 s0'. cbv zeta.
  apply pres_bind; [|intros _].
  - destruct (maxHandSize (build (rules s0))) as [mx|]; [|apply pres_ret].
    destruct (mx <? _); [|apply pres_ret].
    apply pres_times. apply pres_getS_bind. intros s a s'.
    apply pres_bind; [|intros _; apply pres_table_pushLog].
    destruct (hand (player s pid)) as [|id rest]; [apply pres_ret|].
    apply pres_bind; [apply pres_modify; intros t; apply table_upd_player|intros _].
    apply pres_table_moveCard_GY.
  - apply pres_getS_bind. intros s2 a2 s2'.
    apply pres_bind; [|intros _].
    + destruct (damagePersistsTurn _); [apply pres_table_assignEach|apply pres_ret].
    + apply pres_getS_bind. intros s3 a3 s3'. apply pres_table_assignEach.
Qed.

(** X17.  EndTurn passes the turn to the other player, one turn number up, in
    the UPKEEP phase, and empties the end-of-turn prevention pool and the
    record of control changes to revert; it declares no winner, makes no
    id, and leaves the permanent prevention pool, the event counters and
    the usage counters as they were. *)
Theorem endTurn_passes_the_turn fuel s s' :
  applyOperation (S fuel) EndTurn s = Some (tt, s') ->
  turn s' = mkTurn (number (turn s) + 1) (other (active (turn s))) UPKEEP
  /\ preventEOT s' = []
  /\ controlRevertEOT s' = []
  /\ preventPERM s' = preventPERM s
  /\ winner s' = winner s
  /\ nextId s' = nextId s
  /\ rules s' = rules s
  /\ eventsGame s' = eventsGame s
  /\ eventsTurn s' = eventsTurn s
  /\ triggerUseTurn s' = triggerUseTurn s
  /\ triggerUseGame s' = triggerUseGame s
  /\ replUseTurn s' = replUseTurn s
  /\ replUseGame s' = replUseGame s.
Proof.
  cbn [applyOperation applyOperation_body]. unfold endTurnOp. intros H.
  unfold bind at 1 in H.
  destruct (endTurnCleanup fuel (applyOperation fuel) P0 s) as [[[] a]|] eqn:E0; [|discriminate].
  unfold bind at 1 in H.
  destruct (endTurnCleanup fuel (applyOperation fuel) P1 a) as [[[] b]|] eqn:E1; [|discriminate].
  apply pres_table_endTurnCleanup in E0, E1.
  rewrite bind_modify in H. cbv beta in H.
  unfold bind at 1, getS at 1 in H. cbv beta iota in H.
  unfold bind at 1 in H.
  match type of H with
  | match forM ?l ?g ?st with _ => _ end = _ =>
      destruct (forM l g st) as [[[] c]|] eqn:E2; [|discriminate];
      assert (P2 : table c = table st)
  end.
  { revert E2. apply pres_forM. intros e. apply pres_getS_bind. intros t x t'.
    destruct (JsMap.get (fst e) (cards t)); [apply pres_table_transferControl|apply pres_ret]. }
  rewrite bind_modify in H. unfold modify in H. injection H as <-.
  unfold table in *. cbn [rules turn winner stack nextId preventPERM preventEOT
    controlRevertEOT eventsTurn eventsGame triggerUseTurn triggerUseGame replUseTurn
    replUseGame set_turn set_controlRevertEOT set_preventEOT] in *.
  injection P2 as R T W S N PP PE CR ET EG TT TG RT RG.
  injection E1 as R1 T1 W1 S1 N1 PP1 PE1 CR1 ET1 EG1 TT1 TG1 RT1 RG1.
  injection E0 as R0 T0 W0 S0 N0 PP0 PE0 CR0 ET0 EG0 TT0 TG0 RT0 RG0.
  repeat split; congruence.
Qed.

(* ------------------------------------------------------------------ *)
(** ** The end-of-turn cleanup on a well-formed state *)

Lemma occ_In l id : In id l <-> (0 < occ l id)%nat.
Proof. unfold occ. apply count_occ_In. Qed.

(** On a well-formed state an id in a zone array of a player is
    registered, owned by that player and in no other zone array. *)
Lemma wellFormed_listed s p z id :
  wellFormed s -> In id (getZoneArray (player s p) z) ->
  exists rc, JsMap.get id (cards s) = Some rc /\ rc_owner rc = p
             /\ zoneCount (player s p) id = 1%nat.
Proof.
  intros (G & _ & _) Hin. apply occ_In in Hin.
  pose proof (occ_le_zoneCount (player s p) z id) as Hle.
  specialize (G id). unfold placedOnce in G.
  destruct (JsMap.get id (cards s)) as [rc|].
  - exists rc. destruct G as [G1 G2]. split; [reflexivity|].
    destruct (PlayerIndex_cases (rc_owner rc) p) as [-> | ->]; [now split|lia].
  - destruct G as [G1 G2]. destruct p; lia.
Qed.

Lemma remove_first_absent x l : occ l x = 0%nat -> remove_first x l = l.
Proof.
  induction l as [|y r IH]; [reflexivity|]. rewrite occ_cons. cbn [remove_first].
  rewrite (String.eqb_sym x y). destruct (String.eqb y x); [lia|].
  intros H. now rewrite IH.
Qed.

Section Cleanup.
Variable fuel : nat.
Variable rec : Operation -> M unit.

(** One discard of the hand-size loop. *)
Lemma discard_step pid msg s :
  wellFormed s ->
  exists s',
    ((s1 <- getS ;;
      (match hand (player s1 pid) with
       | [] => ret tt
       | id :: rest =>
           modify (upd_player pid (setZoneArray HAND rest)) ;;;
           moveCard fuel rec id GY
       end) ;;;
      pushLog msg) s) = Some (tt, s')
    /\ wellFormed s'
    /\ (forall p, battlefield (player s' p) = battlefield (player s p))
    /\ (forall i p, In i (battlefield (player s p)) ->
                    JsMap.get i (cards s') = JsMap.get i (cards s))
    /\ rules s' = rules s.
Proof.
  intros W. cbv beta iota delta [bind getS].
  destruct (hand (player s pid)) as [|id rest] eqn:Eh.
  - eexists. split; [reflexivity|].
    split; [now apply (wellFormed_frame s)|]. now repeat split.
  - unfold modify at 1. cbv beta iota. rewrite moveCard_GY. cbv beta iota.
    set (s1 := upd_player pid (setZoneArray HAND rest) s).
    destruct (wellFormed_listed s pid HAND id W) as (rc & Hget & Ho & Hz).
    { cbn [getZoneArray]. rewrite Eh. now left. }
    assert (Hget1 : JsMap.get id (cards s1) = Some rc).
    { unfold s1. now rewrite cards_upd_player. }
    rewrite Hget1. rewrite Ho.
    set (dest := moveDest s1 rc GY).
    assert (Hd : PlayerZone_eqb dest BF = false) by apply moveDest_GY.
    eexists. split; [reflexivity|].
    assert (Hbf : occ (battlefield (player s pid)) id = 0%nat).
    { rewrite zoneCount_zones in Hz. cbn [getZoneArray] in Hz.
      rewrite Eh, occ_cons, String.eqb_refl in Hz. lia. }
    assert (Hother : forall p, ~ In id (battlefield (player s p))).
    { intros p Hin. destruct (wellFormed_listed s p BF id W Hin) as (rc' & Hg' & Ho' & _).
      rewrite Hget in Hg'. injection Hg' as <-. rewrite Ho in Ho'. subst p.
      apply occ_In in Hin. lia. }
    split; [|split; [|split]].
    + apply (wellFormed_frame (relocate id pid dest s1)); try reflexivity.
      unfold relocate. rewrite <- Ho. apply wellFormed_relocate; [|exact Hget1].
      apply wellFormedBut_take; [exact W|].
      intros i. cbn [getZoneArray]. rewrite Eh, occ_cons. lia.
    + intros p. unfold relocate, s1.
      change (player (set_log ?l ?x) ?q) with (player x q).
      rewrite player_upd_card, !player_upd_player.
      destruct (PlayerIndex_eqb p pid) eqn:Ep; [|reflexivity].
      apply PlayerIndex_eqb_eq in Ep. subst p.
      change (battlefield ?q) with (getZoneArray q BF).
      rewrite getZoneArray_pushZone.
      replace (PlayerZone_eqb BF dest) with false by (now destruct dest).
      rewrite getZoneArray_removeFromAll, getZoneArray_set. cbn [PlayerZone_eqb].
      apply remove_first_absent. exact Hbf.
    + intros i p Hin. unfold relocate, s1.
      change (cards (set_log ?l ?x)) with (cards x).
      rewrite cards_upd_card, !cards_upd_player, JsMapFacts.get_upd.
      destruct (String.eqb_spec i id) as [->|]; [|reflexivity].
      now destruct (Hother p).
    + unfold relocate, s1. now destruct pid.
Qed.

Lemma discard_loop pid msg n s :
  wellFormed s ->
  exists s',
    times n
      (s1 <- getS ;;
       (match hand (player s1 pid) with
        | [] => ret tt
        | id :: rest =>
            modify (upd_player pid (setZoneArray HAND rest)) ;;;
            moveCard fuel rec id GY
        end) ;;;
       pushLog msg) s = Some (tt, s')
    /\ wellFormed s'
    /\ (forall p, battlefield (player s' p) = battlefield (player s p))
    /\ (forall i p, In i (battlefield (player s p)) ->
                    JsMap.get i (cards s') = JsMap.get i (cards s))
    /\ rules s' = rules s.
Proof.
  revert s. induction n as [|n IH]; intros s W.
  - exists s. split; [reflexivity|]. split; [exact W|]. now repeat split.
  - destruct (discard_step pid msg s W) as (s1 & E1 & W1 & B1 & C1 & R1).
    destruct (IH s1 W1) as (s2 & E2 & W2 & B2 & C2 & R2).
    exists s2. split; [|split; [exact W2|split; [|split]]].
    + cbn [times]. unfold bind at 1. rewrite E1. exact E2.
    + intros p. now rewrite B2, B1.
    + intros i p Hin. rewrite (C2 i p), (C1 i p); [reflexivity|exact Hin|].
      now rewrite B1.
    + now rewrite R2.
Qed.
End Cleanup.

(** [assignEach] returns when every id it is given is registered. *)
Lemma assignEach_runs ids g s :
  (forall id, In id ids -> JsMap.get id (cards s) <> None) ->
  exists s', assignEach ids g s = Some (tt, s').
Proof.
  revert s. induction ids as [|i r IH]; intros s H; [now exists s|].
  unfold assignEach. cbn [forM]. cbv beta iota delta [bind getS].
  destruct (JsMap.get i (cards s)) as [rc|] eqn:E.
  - unfold modify at 1. cbv beta iota. apply IH. intros id Hin.
    rewrite cards_upd_card, JsMapFacts.get_upd.
    specialize (H id (or_intror Hin)).
    destruct (JsMap.get id (cards s)); [|congruence].
    now destruct (String.eqb id i).
  - now destruct (H i (or_introl eq_refl)).
Qed.

Lemma pres_players_assignEach ids g : pres players (assignEach ids g).
Proof.
  unfold assignEach. apply pres_forM. intros id. apply pres_getS_bind. intros s a s'.
  destruct (JsMap.get id (cards s)); [|apply pres_fail].
  apply pres_modify. reflexivity.
Qed.

Lemma existsb_eqb_In i l : existsb (String.eqb i) l = true <-> In i l.
Proof.
  rewrite existsb_exists. split.
  - intros (x & Hin & E). apply String.eqb_eq in E. now subst.
  - intros Hin. exists i. split; [exact Hin|apply String.eqb_refl].
Qed.

Lemma assignEach_spec ids g s :
  wellFormed s ->
  (forall id, In id ids -> exists p, In id (battlefield (player s p))) ->
  (forall rc, g (g rc) = g rc) ->
  (forall rc, rc_owner (g rc) = rc_owner rc) ->
  (forall rc, 0 <= rc_damage rc -> 0 <= rc_damage (g rc)) ->
  exists s',
    assignEach ids g s = Some (tt, s')
    /\ wellFormed s'
    /\ players s' = players s
    /\ table s' = table s
    /\ forall id rc, JsMap.get id (cards s) = Some rc ->
         JsMap.get id (cards s')
         = Some (if existsb (String.eqb id) ids then g rc else rc).
Proof.
  intros W Hreg Hg Ho Hd.
  destruct (assignEach_runs ids g s) as [s' E].
  { intros id Hin. destruct (Hreg id Hin) as [p Hp].
    destruct (wellFormed_listed s p BF id W Hp) as (rc & -> & _). discriminate. }
  exists s'. split; [exact E|]. split; [|split; [|split]].
  - exact (keeps_assignEach ids g Ho Hd s tt s' W E).
  - exact (pres_players_assignEach ids g s tt s' E).
  - exact (pres_table_assignEach ids g s tt s' E).
  - exact (assignEach_get ids g s s' Hg E).
Qed.

Lemma player_same s s' p : players s' = players s -> player s' p = player s p.
Proof. unfold player. now intros ->. Qed.

Lemma rules_table s s' : table s' = table s -> rules s' = rules s.
Proof. unfold table. now intros [= -> _]. Qed.

(** The cleanup of one player returns on a well-formed state; it leaves
    the battlefields as they were and cleanses the cards of the
    battlefield of that player, and no other card of a battlefield. *)
Lemma endTurnCleanup_spec fuel rec pid s :
  wellFormed s ->
  exists s',
    endTurnCleanup fuel rec pid s = Some (tt, s')
    /\ wellFormed s'
    /\ (forall p, battlefield (player s' p) = battlefield (player s p))
    /\ rules s' = rules s
    /\ forall i p rc, In i (battlefield (player s p)) ->
         JsMap.get i (cards s) = Some rc ->
         JsMap.get i (cards s')
         = Some (if PlayerIndex_eqb p pid then cleanse s rc else rc).
Proof.
  intros W. unfold endTurnCleanup. unfold bind at 1, getS at 1. cbv beta iota zeta.
  assert (D : exists sa,
    (match maxHandSize (build (rules s)) with
     | Some mx =>
         if mx <? Z.of_nat (List.length (hand (player s pid))) then
           times (Z.to_nat (Z.of_nat (List.length (hand (player s pid))) - mx))
             (s1 <- getS ;;
              (match hand (player s1 pid) with
               | [] => ret tt
               | id :: rest =>
                   modify (upd_player pid (setZoneArray HAND rest)) ;;;
                   moveCard fuel rec id GY
               end) ;;;
              pushLog (p_name (player s pid) ++ " discards down to max hand."))
         else ret tt
     | None => ret tt
     end) s = Some (tt, sa)
    /\ wellFormed sa
    /\ (forall p, battlefield (player sa p) = battlefield (player s p))
    /\ (forall i p, In i (battlefield (player s p)) ->
                    JsMap.get i (cards sa) = JsMap.get i (cards s))
    /\ rules sa = rules s).
  { destruct (maxHandSize (build (rules s))) as [mx|].
    - destruct (mx <? _).
      + apply discard_loop. exact W.
      + exists s. split; [reflexivity|]. split; [exact W|]. now repeat split.
    - exists s. split; [reflexivity|]. split; [exact W|]. now repeat split. }
  destruct D as (sa & Ea & Wa & Ba & Ca & Ra).
  unfold bind at 1. rewrite Ea. cbv beta iota.
  unfold bind at 1, getS at 1. cbv beta iota.
  assert (Hreg : forall t, (forall p, battlefield (player t p) = battlefield (player s p)) ->
            forall id, In id (battlefield (player t pid)) ->
            exists p, In id (battlefield (player t p))).
  { intros t _ id Hin. now exists pid. }
  assert (B : exists sb,
    (if damagePersistsTurn (damage (rules sa)) then
       assignEach (battlefield (player sa pid)) (set_rc_damage 0)
     else ret tt) sa = Some (tt, sb)
    /\ wellFormed sb
    /\ players sb = players sa
    /\ rules sb = rules sa
    /\ forall id rc, JsMap.get id (cards sa) = Some rc ->
         JsMap.get id (cards sb)
         = Some (if existsb (String.eqb id) (battlefield (player sa pid))
                 then (if damagePersistsTurn (damage (rules sa))
                       then set_rc_damage 0 rc else rc)
                 else rc)).
  { destruct (damagePersistsTurn (damage (rules sa))).
    - destruct (assignEach_spec (battlefield (player sa pid)) (set_rc_damage 0) sa Wa
                  (Hreg sa Ba) (fun _ => eq_refl) (fun _ => eq_refl)
                  (fun _ _ => Z.le_refl 0))
        as (sb & Eb & Wb & Pb & Tb & Cb).
      exists sb. repeat (split; [assumption|]). split; [now apply rules_table|exact Cb].
    - exists sa. split; [reflexivity|]. split; [exact Wa|].
      split; [reflexivity|]. split; [reflexivity|].
      intros id rc ->. now destruct (existsb _ _). }
  destruct B as (sb & Eb & Wb & Pb & Rb & Cb).
  unfold bind at 1. rewrite Eb. cbv beta iota.
  unfold bind at 1, getS at 1. cbv beta iota.
  destruct (assignEach_spec (battlefield (player sb pid))
              (fun rc => set_transformEOT None (set_bonusEOT (Some 0) (Some 0) rc)) sb Wb
              (fun id Hin => ex_intro _ pid Hin) (fun _ => eq_refl) (fun _ => eq_refl)
              (fun _ H => H))
    as (sc & Ec & Wc & Pc & Tc & Cc).
  exists sc. split; [exact Ec|]. split; [exact Wc|].
  assert (Bb : forall p, battlefield (player sb p) = battlefield (player s p)).
  { intros p. now rewrite (player_same sa sb p Pb). }
  split; [|split].
  - intros p. now rewrite (player_same sb sc p Pc).
  - apply rules_table in Tc. congruence.
  - intros i p rc Hin Hget.
    assert (Ha : JsMap.get i (cards sa) = Some rc) by (now rewrite (Ca i p Hin)).
    rewrite (Cc i _ (Cb i rc Ha)). f_equal.
    rewrite (player_same sa sb pid Pb), Ba, Ra.
    destruct (PlayerIndex_eqb p pid) eqn:Ep.
    + apply PlayerIndex_eqb_eq in Ep. subst p.
      apply existsb_eqb_In in Hin. now rewrite Hin.
    + destruct (existsb (String.eqb i) (battlefield (player s pid))) eqn:Ex; [|reflexivity].
      apply existsb_eqb_In in Ex.
      destruct (wellFormed_listed s p BF i W Hin) as (r1 & G1 & O1 & _).
      destruct (wellFormed_listed s pid BF i W Ex) as (r2 & G2 & O2 & _).
      rewrite G1 in G2. injection G2 as <-.
      assert (p = pid) as -> by congruence.
      rewrite PlayerIndex_eqb_refl in Ep. discriminate Ep.
Qed.

Lemma transferControl_runs id o s : exists s', transferControl id o s = Some (tt, s').
Proof.
  unfold transferControl. cbv beta iota delta [bind getS].
  destruct (JsMap.get id (cards s)) as [rc|]; [|now eexists].
  destruct (PlayerIndex_eqb (rc_owner rc) o); now eexists.
Qed.

Lemma revert_loop_runs (l : list (string * PlayerIndex)) s :
  exists s',
    forM l (fun e =>
      s1 <- getS ;;
      match JsMap.get (fst e) (cards s1) with
      | Some _ => transferControl (fst e) (snd e)
      | None => ret tt
      end) s = Some (tt, s').
Proof.
  revert s. induction l as [|e r IH]; intros s; [now exists s|].
  cbn [forM]. unfold bind at 1.
  assert (E : exists s1,
    (s1 <- getS ;;
     match JsMap.get (fst e) (cards s1) with
     | Some _ => transferControl (fst e) (snd e)
     | None => ret tt
     end) s = Some (tt, s1)).
  { cbv beta iota delta [bind getS].
    destruct (JsMap.get (fst e) (cards s)); [apply transferControl_runs|now eexists]. }
  destruct E as [s1 ->]. apply IH.
Qed.

Lemma pres_ownerless_transferControl i id o : pres (ownerless i) (transferControl id o).
Proof.
  unfold transferControl. apply pres_getS_bind. intros s a s'.
  destruct (JsMap.get id (cards s)) as [rc|]; [|apply pres_ret].
  destruct (PlayerIndex_eqb (rc_owner rc) o); [apply pres_ret|].
  repeat (apply pres_bind; [|intros _]); apply pres_modify; intros t; unfold ownerless;
    rewrite ?cards_upd_player; try reflexivity.
  rewrite cards_upd_card, JsMapFacts.get_upd.
  destruct (String.eqb i id); [|reflexivity].
  now destruct (JsMap.get i (cards t)).
Qed.

Lemma some_eq {A} (a b : A) : Some a = Some b -> a = b.
Proof. now intros [=]. Qed.

Lemma set_rc_owner_eq rc' x :
  set_rc_owner P0 rc' = set_rc_owner P0 x -> rc' = set_rc_owner (rc_owner rc') x.
Proof.
  destruct rc', x. unfold set_rc_owner. cbn. intros H. injection H. intros. subst.
  reflexivity.
Qed.

Lemma cleanse_rules s s' rc : rules s' = rules s -> cleanse s' rc = cleanse s rc.
Proof. unfold cleanse. now intros ->. Qed.

(** X18.  On a well-formed state EndTurn returns, and every card that was on a
    battlefield has lost its end-of-turn bonuses and its end-of-turn
    transformation, and its damage if the rules clear damage at the end of
    a turn; nothing else of the card has changed but, where a change of
    control is reverted, its owner. *)
Theorem endTurn_clears_battlefield fuel s :
  wellFormed s ->
  exists s',
    applyOperation (S fuel) EndTurn s = Some (tt, s')
    /\ wellFormed s'
    /\ forall id p, In id (battlefield (player s p)) ->
         exists rc rc',
           JsMap.get id (cards s) = Some rc
           /\ JsMap.get id (cards s') = Some rc'
           /\ rc' = set_rc_owner (rc_owner rc') (cleanse s rc)
           /\ bonusAtkEOT rc' = Some 0
           /\ bonusHpEOT rc' = Some 0
           /\ transformEOT rc' = None
           /\ rc_damage rc'
              = (if damagePersistsTurn (damage (rules s)) then 0 else rc_damage rc).
Proof.
  intros W.
  assert (R : exists s',
    applyOperation (S fuel) EndTurn s = Some (tt, s')
    /\ forall id p rc, In id (battlefield (player s p)) ->
         JsMap.get id (cards s) = Some rc ->
         ownerless id s' = Some (set_rc_owner P0 (cleanse s rc))).
  { cbn [applyOperation applyOperation_body]. unfold endTurnOp.
    destruct (endTurnCleanup_spec fuel (applyOperation fuel) P0 s W)
      as (s1 & E1 & W1 & B1 & R1 & C1).
    destruct (endTurnCleanup_spec fuel (applyOperation fuel) P1 s1 W1)
      as (s2 & E2 & W2 & B2 & R2 & C2).
    unfold bind at 1. rewrite E1. unfold bind at 1. rewrite E2.
    rewrite bind_modify. unfold bind at 1, getS at 1. cbv beta iota.
    destruct (revert_loop_runs (controlRevertEOT (set_preventEOT [] s2)) (set_preventEOT [] s2))
      as [s3 E3].
    unfold bind at 1. rewrite E3. rewrite bind_modify. unfold modify.
    eexists. split; [reflexivity|].
    intros id p rc Hin Hget.
    assert (O3 : ownerless id s3 = ownerless id (set_preventEOT [] s2)).
    { revert E3. apply (pres_forM (ownerless id)). intros e.
      apply pres_getS_bind. intros t x t'.
      destruct (JsMap.get (fst e) (cards t));
        [apply pres_ownerless_transferControl|apply pres_ret]. }
    change (ownerless id (set_turn ?t (set_controlRevertEOT ?l s3))) with (ownerless id s3).
    rewrite O3. change (ownerless id (set_preventEOT [] s2)) with (ownerless id s2).
    unfold ownerless.
    assert (Hin1 : In id (battlefield (player s1 p))) by (now rewrite B1).
    rewrite (C2 id p _ Hin1 (C1 id p rc Hin Hget)). cbn [option_map]. do 2 f_equal.
    rewrite (cleanse_rules s s1 _ R1).
    destruct p; cbn [PlayerIndex_eqb]; reflexivity. }
  destruct R as (s' & E & C). exists s'. split; [exact E|].
  split; [exact (keeps_applyOperation (S fuel) EndTurn s tt s' W E)|].
  intros id p Hin.
  destruct (wellFormed_listed s p BF id W Hin) as (rc & Hget & _).
  specialize (C id p rc Hin Hget). unfold ownerless in C.
  destruct (JsMap.get id (cards s')) as [rc'|]; [|discriminate C].
  exists rc, rc'. split; [exact Hget|]. split; [reflexivity|].
  cbn [option_map] in C. apply some_eq in C.
  assert (Q : rc' = set_rc_owner (rc_owner rc') (cleanse s rc))
    by (now apply set_rc_owner_eq).
  split; [exact Q|]. rewrite Q. unfold cleanse.
  destruct (damagePersistsTurn (damage (rules s))); now repeat split.
Qed.

Lemma rallied_reachable : reachable rallied.
Proof.
  apply (reach_step 10 (DoResolve P0 None rally None)
           (after (startTurn 10 ;;; advancePhase 10 ;;;
                   (_ <- castFromHand 10 P0 0 None ;; ret tt)) openingState)).
  - apply (reach_step 10 (DoCast P0 0 None)
             (after (startTurn 10 ;;; advancePhase 10) openingState)).
    + apply (reach_step 10 DoAdvancePhase (after (startTurn 10) openingState)).
      * apply (reach_step 10 DoStartTurn openingState);
          [exact opening_reachable|vm_compute; reflexivity].
      * vm_compute; reflexivity.
    + vm_compute; reflexivity.
  - vm_compute; reflexivity.
Qed.

Lemma endTurn_passes_the_turn_witness :
  exists s',
    applyOperation 10 EndTurn rallied = Some (tt, s')
    /\ turn s' = mkTurn (number (turn rallied) + 1) (other (active (turn rallied))) UPKEEP
    /\ preventEOT s' = []
    /\ controlRevertEOT s' = []
    /\ preventPERM s' = preventPERM rallied
    /\ winner s' = winner rallied
    /\ nextId s' = nextId rallied
    /\ rules s' = rules rallied
    /\ eventsGame s' = eventsGame rallied
    /\ eventsTurn s' = eventsTurn rallied
    /\ triggerUseTurn s' = triggerUseTurn rallied
    /\ triggerUseGame s' = triggerUseGame rallied
    /\ replUseTurn s' = replUseTurn rallied
    /\ replUseGame s' = replUseGame rallied.
Proof.
  assert (E : exists s', applyOperation 10 EndTurn rallied = Some (tt, s'))
    by (eexists; vm_compute; reflexivity).
  destruct E as [s' E]. exists s'. split; [exact E|].
  exact (endTurn_passes_the_turn 9 rallied s' E).
Defined.

Lemma endTurn_clears_battlefield_witness :
  battlefield (player rallied P0) = ["C1"]
  /\ option_map bonusAtkEOT (JsMap.get "C1" (cards rallied)) = Some (Some 2)
  /\ exists s',
       applyOperation 10 EndTurn rallied = Some (tt, s')
       /\ wellFormed s'
       /\ forall id p, In id (battlefield (player rallied p)) ->
            exists rc rc',
              JsMap.get id (cards rallied) = Some rc
              /\ JsMap.get id (cards s') = Some rc'
              /\ rc' = set_rc_owner (rc_owner rc') (cleanse rallied rc)
              /\ bonusAtkEOT rc' = Some 0
              /\ bonusHpEOT rc' = Some 0
              /\ transformEOT rc' = None
              /\ rc_damage rc'
                 = (if damagePersistsTurn (damage (rules rallied)) then 0 else rc_damage rc).
Proof.
  split; [vm_compute; reflexivity|]. split; [vm_compute; reflexivity|].
  exact (endTurn_clears_battlefield 9 rallied (reachable_wellFormed rallied rallied_reachable)).
Defined.

Import Fixtures Scenes Scenes2 Scenes3 Scenes4.

(* ------------------------------------------------------------------ *)
(** ** Cards taken off the top of a library *)

Lemma moveDest_cases s rc to :
  to <> BF -> to <> LIB -> moveDest s rc to <> BF /\ moveDest s rc to <> LIB.
Proof.
  intros H1 H2. unfold moveDest. destruct (_ && _); [|now split].
  destruct (tokensLeaveTo (tokens (rules s))); cbn; split; discriminate.
Qed.

Lemma PlayerZone_eqb_neq a b : a <> b -> PlayerZone_eqb a b = false.
Proof. destruct a, b; cbn; congruence. Qed.

Lemma moveDest_rules s s' rc z : rules s' = rules s -> moveDest s' rc z = moveDest s rc z.
Proof. unfold moveDest. now intros ->. Qed.

Lemma seatOf_setZoneArray z l p : seatOf (setZoneArray z l p) = seatOf p.
Proof. now destruct z. Qed.

Lemma seatOf_pushZone z id p : seatOf (pushZone z id p) = seatOf p.
Proof. apply seatOf_setZoneArray. Qed.

Lemma seatOf_removeFromAll id p : seatOf (removeFromAll id p) = seatOf p.
Proof. unfold removeFromAll. cbn [fold_left PLAYER_ZONES]. now rewrite !seatOf_setZoneArray. Qed.

Lemma player_other_upd s pid f : player (upd_player pid f s) (other pid) = player s (other pid).
Proof. now destruct pid. Qed.

(** A move that does not end on the battlefield fires nothing. *)
Lemma moveCard_offBoard fuel rec id to s :
  to <> BF ->
  moveCard fuel rec id to s
  = Some (tt, match JsMap.get id (cards s) with
              | Some rc => relocate id (rc_owner rc) (moveDest s rc to) s
              | None => s
              end).
Proof.
  intros Hto. rewrite moveCard_unfold. destruct (JsMap.get id (cards s)) as [rc|]; [|reflexivity].
  cbv zeta. replace (PlayerZone_eqb (moveDest s rc to) BF) with false; [reflexivity|].
  symmetry. apply PlayerZone_eqb_neq. unfold moveDest. destruct (_ && _); [|exact Hto].
  destruct (tokensLeaveTo (tokens (rules s))); discriminate.
Qed.

Section TakeSteps.
Variable fuel : nat.
Variable rec : Operation -> M unit.
Variable to : PlayerZone.
Hypothesis to_BF : to <> BF.
Hypothesis to_LIB : to <> LIB.

(** The top card of the library is moved to zone [to]. *)
Lemma take_step pid s id rest :
  wellFormed s -> pop (library (player s pid)) = Some (id, rest) ->
  exists rc s1,
    JsMap.get id (cards s) = Some rc
    /\ (modify (upd_player pid (setZoneArray LIB rest)) ;;; moveCard fuel rec id to) s
       = Some (tt, s1)
    /\ wellFormed s1
    /\ (forall z, getZoneArray (player s1 pid) z
                  = (if PlayerZone_eqb z LIB then rest else getZoneArray (player s pid) z)
                    ++ (if PlayerZone_eqb z (moveDest s rc to) then [id] else []))
    /\ player s1 (other pid) = player s (other pid)
    /\ seatOf (player s1 pid) = seatOf (player s pid)
    /\ cards s1 = JsMap.upd id (set_rc_zone (moveDest s rc to)) (cards s)
    /\ table s1 = table s
    /\ log s1 = log s
    /\ occ rest id = 0%nat.
Proof.
  intros W Hpop. pose proof (pop_app _ _ _ Hpop) as Hlib.
  destruct (wellFormed_listed s pid LIB id W) as (rc & Hget & Ho & Hz).
  { cbn [getZoneArray]. rewrite Hlib. apply in_or_app. right. now left. }
  assert (Hocc : forall z, occ (getZoneArray (player s pid) z) id
                           = if PlayerZone_eqb z LIB then 1%nat else 0%nat).
  { assert (L : (1 <= occ (getZoneArray (player s pid) LIB) id)%nat).
    { cbn [getZoneArray]. rewrite Hlib, occ_app, occ_cons, String.eqb_refl. lia. }
    rewrite zoneCount_zones in Hz. intros z. destruct z; cbn [PlayerZone_eqb]; lia. }
  assert (Hrest : occ rest id = 0%nat).
  { specialize (Hocc LIB). cbn [getZoneArray PlayerZone_eqb] in Hocc.
    rewrite Hlib, occ_app, occ_cons, String.eqb_refl in Hocc. cbn in Hocc. lia. }
  set (s0 := upd_player pid (setZoneArray LIB rest) s).
  assert (Hget0 : JsMap.get id (cards s0) = Some rc).
  { unfold s0. now rewrite cards_upd_player. }
  assert (Hd0 : moveDest s0 rc to = moveDest s rc to).
  { apply moveDest_rules. unfold s0. now destruct pid. }
  exists rc, (relocate id pid (moveDest s rc to) s0).
  split; [exact Hget|]. split.
  { rewrite bind_modify. fold s0. rewrite moveCard_offBoard, Hget0, Ho, Hd0 by exact to_BF.
    reflexivity. }
  split.
  { unfold relocate. rewrite <- Ho, <- Hd0. apply wellFormed_relocate; [|exact Hget0].
    apply wellFormedBut_take; [exact W|].
    intros i. cbn [getZoneArray]. now apply occ_pop. }
  split.
  { intros z. unfold relocate, s0. rewrite player_upd_card, !player_upd_player.
    rewrite PlayerIndex_eqb_refl, getZoneArray_pushZone, getZoneArray_removeFromAll,
      getZoneArray_set.
    rewrite remove_first_absent.
    - now destruct (PlayerZone_eqb z (moveDest s rc to)); rewrite ?app_nil_r.
    - specialize (Hocc z). destruct z; cbn [PlayerZone_eqb] in *; try exact Hocc.
      exact Hrest. }
  split.
  { unfold relocate, s0. now rewrite player_upd_card, !player_other_upd. }
  split.
  { unfold relocate, s0. rewrite player_upd_card, !player_upd_player, PlayerIndex_eqb_refl.
    now rewrite seatOf_pushZone, seatOf_removeFromAll, seatOf_setZoneArray. }
  split.
  { unfold relocate, s0. now rewrite cards_upd_card, !cards_upd_player. }
  split.
  { unfold relocate, s0. now rewrite table_upd_card, !table_upd_player. }
  split; [|exact Hrest].
  unfold relocate, s0. now destruct pid.
Qed.
End TakeSteps.

Lemma pop_None {A} (l : list A) : pop l = None -> l = [].
Proof.
  unfold pop. destruct (List.rev l) as [|x r] eqn:E; [|discriminate].
  intros _. rewrite <- (rev_involutive l), E. reflexivity.
Qed.

Lemma firstn_snoc {A} (l : list A) x j :
  (j <= List.length l)%nat -> firstn j (l ++ [x]) = firstn j l.
Proof.
  intros H. rewrite firstn_app. replace (j - List.length l)%nat with 0%nat by lia.
  cbn [firstn]. apply app_nil_r.
Qed.

Lemma skipn_snoc {A} (l : list A) x j :
  (j <= List.length l)%nat -> skipn j (l ++ [x]) = skipn j l ++ [x].
Proof.
  intros H. rewrite skipn_app. now replace (j - List.length l)%nat with 0%nat by lia.
Qed.

Lemma existsb_absent i l : occ l i = 0%nat -> existsb (String.eqb i) l = false.
Proof.
  intros H. destruct (existsb (String.eqb i) l) eqn:E; [|reflexivity].
  apply existsb_eqb_In, occ_In in E. lia.
Qed.

Lemma occ_skipn_le j l i : (occ (skipn j l) i <= occ l i)%nat.
Proof. rewrite (occ_firstn_skipn j l i). lia. Qed.

Lemma tookTop_none to pid s : wellFormed s -> tookTop to pid 0 s s.
Proof.
  intros W. unfold tookTop. cbv zeta.
  rewrite Nat.sub_0_r, skipn_all, firstn_all. cbn [List.rev filter existsb].
  split; [exact W|]. split.
  { intros z. rewrite app_nil_r. now destruct z. }
  repeat (split; [reflexivity|]).
  intros i. now destruct (JsMap.get i (cards s)).
Qed.

(** One more card on top of [k] cards taken. *)
Lemma tookTop_step to pid s id rest rc s1 k s2 :
  to <> BF -> to <> LIB ->
  wellFormed s ->
  library (player s pid) = rest ++ [id] ->
  JsMap.get id (cards s) = Some rc ->
  (forall z, getZoneArray (player s1 pid) z
             = (if PlayerZone_eqb z LIB then rest else getZoneArray (player s pid) z)
               ++ (if PlayerZone_eqb z (moveDest s rc to) then [id] else [])) ->
  player s1 (other pid) = player s (other pid) ->
  seatOf (player s1 pid) = seatOf (player s pid) ->
  cards s1 = JsMap.upd id (set_rc_zone (moveDest s rc to)) (cards s) ->
  table s1 = table s ->
  occ rest id = 0%nat ->
  (k <= List.length rest)%nat ->
  tookTop to pid k s1 s2 ->
  tookTop to pid (S k) s s2.
Proof.
  intros Hto1 Hto2 W Hlib Hget Z1 O1 S1 C1 T1 Hrest Hk (W2 & Z2 & O2 & S2 & T2 & C2).
  cbv zeta in *.
  assert (Hd : PlayerZone_eqb LIB (moveDest s rc to) = false).
  { apply PlayerZone_eqb_neq. intros E. now apply (moveDest_cases s rc to Hto1 Hto2). }
  assert (Hlib1 : library (player s1 pid) = rest).
  { change (library (player s1 pid)) with (getZoneArray (player s1 pid) LIB).
    rewrite Z1, Hd. cbn [PlayerZone_eqb]. apply app_nil_r. }
  assert (Hr : rules s1 = rules s) by (now apply rules_table).
  rewrite Hlib1 in *.
  unfold tookTop. cbv zeta. rewrite Hlib, length_app. cbn [List.length].
  replace (List.length rest + 1 - S k)%nat with (List.length rest - k)%nat by lia.
  rewrite firstn_snoc, skipn_snoc by lia. rewrite rev_app_distr. cbn [List.rev app].
  set (top := List.rev (skipn (List.length rest - k) rest)) in *.
  assert (Htop : existsb (String.eqb id) top = false).
  { apply existsb_absent. unfold top. rewrite occ_rev.
    pose proof (occ_skipn_le (List.length rest - k) rest id). lia. }
  assert (Hgo : forall z, filter (goes s1 to z) top = filter (goes s to z) top).
  { intros z. apply filter_ext_in. intros i Hi. unfold goes.
    rewrite C1, JsMapFacts.get_upd.
    destruct (String.eqb_spec i id) as [-> |].
    - apply existsb_eqb_In in Hi. congruence.
    - destruct (JsMap.get i (cards s)); [|reflexivity].
      now rewrite (moveDest_rules s s1 _ _ Hr). }
  split; [exact W2|]. split; [|split; [|split; [|split]]].
  - intros z. rewrite Z2, Z1, Hgo. cbn [filter]. unfold goes at 2. rewrite Hget.
    destruct (PlayerZone_eqb z LIB) eqn:Ez.
    + destruct z; try discriminate Ez. now rewrite Hd.
    + destruct (PlayerZone_eqb z (moveDest s rc to)); now rewrite <- app_assoc.
  - congruence.
  - congruence.
  - congruence.
  - intros i. rewrite C2, C1, JsMapFacts.get_upd. cbn [existsb].
    destruct (String.eqb_spec i id) as [-> |].
    + rewrite Htop, Hget. cbn [option_map orb]. reflexivity.
    + cbn [orb]. destruct (JsMap.get i (cards s)) as [r|]; [|reflexivity].
      cbn [option_map]. now rewrite (moveDest_rules s s1 _ _ Hr).
Qed.

(** The relation does not look at the log. *)
Lemma tookTop_log_l to pid k s l s' : tookTop to pid k (set_log l s) s' -> tookTop to pid k s s'.
Proof. exact (fun H => H). Qed.

Lemma goes_elsewhere s to z l :
  to <> BF -> to <> LIB -> z = BF \/ z = LIB -> filter (goes s to z) l = [].
Proof.
  intros H1 H2 Hz. induction l as [|i r IH]; [reflexivity|]. cbn [filter]. rewrite IH.
  unfold goes. destruct (JsMap.get i (cards s)) as [rc|]; [|reflexivity].
  rewrite PlayerZone_eqb_neq; [reflexivity|].
  destruct (moveDest_cases s rc to H1 H2) as [A B]. destruct Hz as [-> | ->]; congruence.
Qed.

Lemma goes_GY_elsewhere s z l : z <> GY -> z <> EXILE -> filter (goes s GY z) l = [].
Proof.
  intros H1 H2. induction l as [|i r IH]; [reflexivity|]. cbn [filter]. rewrite IH.
  unfold goes. destruct (JsMap.get i (cards s)) as [rc|]; [|reflexivity].
  rewrite PlayerZone_eqb_neq; [reflexivity|].
  unfold moveDest. destruct (_ && _); [|exact H1].
  destruct (tokensLeaveTo (tokens (rules s))); cbn; assumption.
Qed.

(* ------------------------------------------------------------------ *)
(** ** Mill *)

Section MillLoop.
Variable fuel : nat.
Variable rec : Operation -> M unit.
Variable pid : PlayerIndex.

Lemma millLoop_spec n moved s :
  wellFormed s ->
  exists s',
    millLoop fuel rec pid n moved s
    = Some ((moved + Nat.min n (List.length (library (player s pid))))%nat, s')
    /\ tookTop GY pid (Nat.min n (List.length (library (player s pid)))) s s'
    /\ log s' = log s.
Proof.
  revert moved s. induction n as [|n IH]; intros moved s W.
  - exists s. split; [cbn; now rewrite Nat.add_0_r|]. split; [now apply tookTop_none|reflexivity].
  - cbn [millLoop]. unfold bind at 1, getS at 1. cbv beta iota.
    destruct (pop (library (player s pid))) as [[id rest]|] eqn:Hpop.
    + destruct (take_step fuel rec GY ltac:(discriminate) pid s id rest W Hpop)
        as (rc & s1 & Hget & E1 & W1 & Z1 & O1 & S1 & C1 & T1 & L1 & Hrest).
      pose proof (pop_app _ _ _ Hpop) as Hlib.
      assert (Hlib1 : library (player s1 pid) = rest).
      { change (library (player s1 pid)) with (getZoneArray (player s1 pid) LIB).
        rewrite Z1, (PlayerZone_eqb_neq LIB (moveDest s rc GY)); [apply app_nil_r|].
        intros E. now apply (moveDest_cases s rc GY ltac:(discriminate) ltac:(discriminate)). }
      destruct (IH (S moved) s1 W1) as (s2 & E2 & M2 & L2).
      rewrite Hlib1 in E2, M2.
      exists s2. split; [|split].
      * rewrite bind_modify. rewrite bind_modify in E1.
        unfold bind at 1. rewrite E1, E2. do 2 f_equal.
        rewrite Hlib, length_app. cbn [List.length]. lia.
      * rewrite Hlib, length_app. cbn [List.length].
        replace (Nat.min (S n) (List.length rest + 1)) with
          (S (Nat.min n (List.length rest))) by lia.
        eapply (tookTop_step GY); eauto; try discriminate. lia.
      * congruence.
    + apply pop_None in Hpop. exists s. rewrite Hpop. cbn [List.length].
      rewrite Nat.min_0_r, Nat.add_0_r. split; [reflexivity|].
      split; [now apply tookTop_none|reflexivity].
Qed.
End MillLoop.

(** X19.  On a well-formed state [Mill n] returns.  It takes the top
    [min n (library size)] cards off the library of the player (none when
    [n] is negative) and appends them, the top one first, to the graveyard,
    or to the zone the rules send a token to that leaves the battlefield;
    the zone field of each follows.  Hand and battlefield, the other
    player, the turn, the winner, the counters and the pools stay as they
    were, and the log gets one line with the count. *)
Theorem mill_moves_top_cards fuel pid n s :
  wellFormed s ->
  exists s',
    applyOperation (S fuel) (OpMill pid n) s = Some (tt, s')
    /\ wellFormed s'
    /\ library (player s' pid)
       = firstn (List.length (library (player s pid)) - topCount s pid n)
                (library (player s pid))
    /\ hand (player s' pid) = hand (player s pid)
    /\ battlefield (player s' pid) = battlefield (player s pid)
    /\ graveyard (player s' pid)
       = graveyard (player s pid) ++ filter (goes s GY GY) (topCards s pid n)
    /\ exile (player s' pid)
       = exile (player s pid) ++ filter (goes s GY EXILE) (topCards s pid n)
    /\ seatOf (player s' pid) = seatOf (player s pid)
    /\ player s' (other pid) = player s (other pid)
    /\ table s' = table s
    /\ log s' = log s ++ [(p_name (player s pid) ++ " mills "
                           ++ show_nat (topCount s pid n) ++ " card(s).")%string]
    /\ forall i,
         JsMap.get i (cards s')
         = option_map
             (fun rc => if existsb (String.eqb i) (topCards s pid n)
                        then set_rc_zone (moveDest s rc GY) rc else rc)
             (JsMap.get i (cards s)).
Proof.
  intros W. cbn [applyOperation applyOperation_body].
  destruct (millLoop_spec fuel (applyOperation fuel) pid (Z.to_nat n) 0 s W)
    as (s1 & E1 & (W1 & Z1 & O1 & S1 & T1 & C1) & L1).
  cbv zeta in *. fold (topCount s pid n) in *. fold (topCards s pid n) in *.
  unfold bind at 1. rewrite E1. cbn [Nat.add]. unfold bind at 1, getS at 1. cbv beta iota.
  unfold pushLog, modify. eexists. split; [reflexivity|].
  assert (Hname : p_name (player s1 pid) = p_name (player s pid)).
  { unfold seatOf in S1. now injection S1. }
  split; [now apply (wellFormed_frame s1)|].
  change (player (set_log ?l s1) ?q) with (player s1 q).
  change (cards (set_log ?l s1)) with (cards s1).
  change (table (set_log ?l s1)) with (table s1).
  change (log (set_log ?l s1)) with l.
  split; [exact (eq_trans (Z1 LIB) (eq_trans (f_equal _ (goes_GY_elsewhere s LIB _
            ltac:(discriminate) ltac:(discriminate))) (app_nil_r _)))|].
  split; [exact (eq_trans (Z1 HAND) (eq_trans (f_equal _ (goes_GY_elsewhere s HAND _
            ltac:(discriminate) ltac:(discriminate))) (app_nil_r _)))|].
  split; [exact (eq_trans (Z1 BF) (eq_trans (f_equal _ (goes_GY_elsewhere s BF _
            ltac:(discriminate) ltac:(discriminate))) (app_nil_r _)))|].
  split; [exact (Z1 GY)|]. split; [exact (Z1 EXILE)|].
  split; [exact S1|]. split; [exact O1|]. split; [exact T1|].
  split; [now rewrite L1, Hname|]. exact C1.
Qed.

Lemma mill_moves_top_cards_witness :
  library (player openingState P0) = ["C2"; "C8"; "C3"]
  /\ topCards openingState P0 2 = ["C3"; "C8"]
  /\ exists s',
    applyOperation 10 (OpMill P0 2) openingState = Some (tt, s')
    /\ wellFormed s'
    /\ library (player s' P0)
       = firstn (List.length (library (player openingState P0)) - topCount openingState P0 2)
                (library (player openingState P0))
    /\ hand (player s' P0) = hand (player openingState P0)
    /\ battlefield (player s' P0) = battlefield (player openingState P0)
    /\ graveyard (player s' P0)
       = graveyard (player openingState P0)
         ++ filter (goes openingState GY GY) (topCards openingState P0 2)
    /\ exile (player s' P0)
       = exile (player openingState P0)
         ++ filter (goes openingState GY EXILE) (topCards openingState P0 2)
    /\ seatOf (player s' P0) = seatOf (player openingState P0)
    /\ player s' (other P0) = player openingState (other P0)
    /\ table s' = table openingState
    /\ log s' = log openingState
                ++ [(p_name (player openingState P0) ++ " mills "
                     ++ show_nat (topCount openingState P0 2) ++ " card(s).")%string]
    /\ forall i,
         JsMap.get i (cards s')
         = option_map
             (fun rc => if existsb (String.eqb i) (topCards openingState P0 2)
                        then set_rc_zone (moveDest openingState rc GY) rc else rc)
             (JsMap.get i (cards openingState)).
Proof.
  split; [vm_compute; reflexivity|]. split; [vm_compute; reflexivity|].
  exact (mill_moves_top_cards 9 P0 2 openingState
           (reachable_wellFormed openingState opening_reachable)).
Defined.

(* ------------------------------------------------------------------ *)
(** ** Draw *)

Lemma drawQuiet_card s rc : drawQuiet s = true -> In rc (JsMap.values (cards s)) ->
  drawQuietCard (rc_card rc) = true.
Proof.
  unfold drawQuiet. rewrite forallb_forall. intros H Hin. exact (H rc Hin).
Qed.

Lemma drawQuiet_upd id f s s' :
  (forall c, rc_card (f c) = rc_card c) -> cards s' = JsMap.upd id f (cards s) ->
  drawQuiet s' = drawQuiet s.
Proof.
  intros Hf Hc. unfold drawQuiet. rewrite Hc.
  assert (E : forall l, forallb (fun rc => drawQuietCard (rc_card rc)) l
                        = forallb drawQuietCard (map rc_card l)).
  { induction l as [|x l IH]; [reflexivity|]. cbn. now rewrite IH. }
  now rewrite !E, values_upd.
Qed.

Lemma planTriggers_drawQuiet fuel w ctx s :
  drawQuiet s = true -> w = OnDraw \/ w = OnNameMatched ->
  planTriggers fuel w ctx s = Some ([], s).
Proof.
  intros Q Hw. unfold planTriggers. cbv beta iota delta [bind getS].
  apply concatM_nil. intros rc Hrc. apply concatM_nil. intros [i t] Hit.
  apply In_indexed in Hit.
  pose proof (drawQuiet_card s rc Q Hrc) as Qc. unfold drawQuietCard in Qc.
  apply andb_prop in Qc. destruct Qc as [Qt _].
  rewrite forallb_forall in Qt. specialize (Qt t Hit).
  apply andb_prop in Qt. destruct Qt as [Q1 Q2].
  destruct Hw as [-> | ->].
  - rewrite Q1. reflexivity.
  - rewrite Q2. reflexivity.
Qed.

Lemma fireTriggers_drawQuiet fuel rec w ctx s :
  drawQuiet s = true -> w = OnDraw \/ w = OnNameMatched ->
  fireTriggers fuel rec w ctx s = Some (tt, s).
Proof.
  intros Q Hw. unfold fireTriggers, bind. rewrite planTriggers_drawQuiet by assumption.
  reflexivity.
Qed.

Lemma wouldDrawLoop_none fuel who l s :
  (forall c, In c l -> ReplWhen_eqb (repl_when (snd (fst c))) WouldDraw = false) ->
  wouldDrawLoop fuel who l s = Some ([], s).
Proof.
  induction l as [|[[host repl] index] r IH]; intros H; [reflexivity|].
  cbn [wouldDrawLoop]. pose proof (H (host, repl, index) (or_introl eq_refl)) as Hh.
  cbn [fst snd] in Hh. rewrite Hh. cbn [negb].
  apply IH. intros c Hc. apply H. now right.
Qed.

Lemma applyWouldDraw_drawQuiet fuel rec who s :
  drawQuiet s = true -> applyWouldDrawReplacement fuel rec who s = Some (false, s).
Proof.
  intros Q. unfold applyWouldDrawReplacement, planWouldDrawReplacement.
  cbv beta iota delta [bind getS]. rewrite wouldDrawLoop_none; [reflexivity|].
  intros [[host repl] index] Hin. cbn [fst snd].
  unfold listActiveReplacements in Hin. apply in_flat_map in Hin.
  destruct Hin as (rc & Hrc & Hin).
  destruct (PlayerZone_eqb (rc_zone rc) BF); [|destruct Hin].
  apply in_map_iff in Hin. destruct Hin as ([i r] & [= <- <- <-] & Hir).
  apply In_indexed in Hir.
  pose proof (drawQuiet_card s rc Q Hrc) as Qc. unfold drawQuietCard in Qc.
  apply andb_prop in Qc. destruct Qc as [_ Qr].
  rewrite forallb_forall in Qr. specialize (Qr r Hir).
  now apply negb_true_iff in Qr.
Qed.

Section DrawLoop.
Variable fuel : nat.
Variable rec : Operation -> M unit.
Variable pid : PlayerIndex.

Lemma topDrawLoop_spec n s :
  wellFormed s -> drawQuiet s = true ->
  exists s0,
    tookTop HAND pid (Nat.min n (List.length (library (player s pid)))) s s0
    /\ drawQuiet s0 = true
    /\ log s0 = log s ++ repeat (p_name (player s pid) ++ " draws a card.")%string
                           (Nat.min n (List.length (library (player s pid))))
    /\ topDrawLoop fuel rec pid n s
       = Some (negb (List.length (library (player s pid)) <? n)%nat,
               if (List.length (library (player s pid)) <? n)%nat
                  && truthy (drawFromEmptyLoss (win (rules s)))
               then set_log (log s0 ++ [("Player " ++ p_name (player s pid)
                                          ++ " cannot draw and loses.")%string])
                      (set_winner (Some (other pid)) s0)
               else s0).
Proof.
  revert s. induction n as [|n IH]; intros s W Q.
  - exists s. split; [now apply tookTop_none|]. split; [exact Q|].
    split; [cbn; now rewrite app_nil_r|]. reflexivity.
  - cbn [topDrawLoop]. unfold bind at 1. rewrite applyWouldDraw_drawQuiet by exact Q.
    cbv beta iota. unfold bind at 1, getS at 1. cbv beta iota.
    destruct (pop (library (player s pid))) as [[id rest]|] eqn:Hpop.
    + destruct (take_step fuel rec HAND ltac:(discriminate) pid s id rest W Hpop)
        as (rc & s1 & Hget & E1 & W1 & Z1 & O1 & S1 & C1 & T1 & L1 & Hrest).
      pose proof (pop_app _ _ _ Hpop) as Hlib.
      assert (Hlib1 : library (player s1 pid) = rest).
      { change (library (player s1 pid)) with (getZoneArray (player s1 pid) LIB).
        rewrite Z1, (PlayerZone_eqb_neq LIB (moveDest s rc HAND)); [apply app_nil_r|].
        intros E. now apply (moveDest_cases s rc HAND ltac:(discriminate) ltac:(discriminate)). }
      assert (Hname : p_name (player s1 pid) = p_name (player s pid)).
      { unfold seatOf in S1. now injection S1. }
      assert (Hr : rules s1 = rules s) by (now apply rules_table).
      set (line := (p_name (player s pid) ++ " draws a card.")%string).
      set (s1' := set_log (log s1 ++ [line]) s1).
      assert (Q1 : drawQuiet s1' = true).
      { rewrite <- Q. apply (drawQuiet_upd id (set_rc_zone (moveDest s rc HAND))); [reflexivity|].
        exact C1. }
      assert (W1' : wellFormed s1') by (now apply (wellFormed_frame s1)).
      destruct (IH s1' W1' Q1) as (s0 & M0 & Q0 & L0 & E0).
      change (library (player s1' pid)) with (library (player s1 pid)) in M0, L0, E0.
      change (p_name (player s1' pid)) with (p_name (player s1 pid)) in L0, E0.
      change (rules s1') with (rules s1) in E0.
      rewrite Hlib1 in M0, L0, E0. rewrite Hname in L0, E0. rewrite Hr in E0.
      exists s0. rewrite Hlib, length_app. cbn [List.length].
      replace (Nat.min (S n) (List.length rest + 1)) with
        (S (Nat.min n (List.length rest))) by lia.
      replace (List.length rest + 1 <? S n)%nat with (List.length rest <? n)%nat
        by (destruct (Nat.ltb_spec (List.length rest) n),
              (Nat.ltb_spec (List.length rest + 1) (S n)); reflexivity || lia).
      split; [|split; [exact Q0|split]].
      * apply (tookTop_step HAND pid s id rest rc s1); try assumption; try discriminate.
        lia.
      * rewrite L0. unfold s1'. cbn [log set_log repeat]. rewrite L1, <- app_assoc.
        reflexivity.
      * rewrite bind_modify. rewrite bind_modify in E1.
        unfold bind at 1. rewrite E1. unfold pushLog. rewrite bind_modify. fold line. fold s1'.
        unfold bind at 1. rewrite fireTriggers_drawQuiet by (auto; exact Q1).
        unfold bind at 1. rewrite fireTriggers_drawQuiet by (auto; exact Q1).
        exact E0.
    + apply pop_None in Hpop. exists s. rewrite Hpop. cbn [List.length].
      rewrite Nat.min_0_r. split; [now apply tookTop_none|]. split; [exact Q|].
      split; [cbn; now rewrite app_nil_r|].
      cbn [Nat.ltb Nat.leb negb andb].
      destruct (truthy (drawFromEmptyLoss (win (rules s)))); reflexivity.
Qed.
End DrawLoop.

(** What the draw loop of [n] rounds leaves, where no card reacts to a draw. *)
Lemma topDrawLoop_result fuel rec pid n s :
  wellFormed s -> drawQuiet s = true ->
  exists s',
    topDrawLoop fuel rec pid n s
    = Some (negb (List.length (library (player s pid)) <? n)%nat, s')
    /\ wellFormed s'
    /\ drawQuiet s' = true
    /\ (forall z,
          getZoneArray (player s' pid) z
          = (if PlayerZone_eqb z LIB
             then firstn (List.length (library (player s pid))
                          - Nat.min n (List.length (library (player s pid))))
                         (library (player s pid))
             else getZoneArray (player s pid) z)
            ++ (if PlayerZone_eqb z LIB || PlayerZone_eqb z BF then []
                else filter (goes s HAND z)
                       (List.rev (skipn (List.length (library (player s pid))
                                         - Nat.min n (List.length (library (player s pid))))
                                    (library (player s pid))))))
    /\ seatOf (player s' pid) = seatOf (player s pid)
    /\ player s' (other pid) = player s (other pid)
    /\ winner s'
       = (if (List.length (library (player s pid)) <? n)%nat
             && truthy (drawFromEmptyLoss (win (rules s)))
          then Some (other pid) else winner s)
    /\ table (set_winner (winner s) s') = table s
    /\ log s'
       = log s
         ++ repeat (p_name (player s pid) ++ " draws a card.")%string
              (Nat.min n (List.length (library (player s pid))))
         ++ (if (List.length (library (player s pid)) <? n)%nat
                && truthy (drawFromEmptyLoss (win (rules s)))
             then [("Player " ++ p_name (player s pid) ++ " cannot draw and loses.")%string]
             else [])
    /\ forall i,
         JsMap.get i (cards s')
         = option_map
             (fun rc =>
                if existsb (String.eqb i)
                     (List.rev (skipn (List.length (library (player s pid))
                                       - Nat.min n (List.length (library (player s pid))))
                                  (library (player s pid))))
                then set_rc_zone (moveDest s rc HAND) rc else rc)
             (JsMap.get i (cards s)).
Proof.
  intros W Q.
  destruct (topDrawLoop_spec fuel rec pid n s W Q)
    as (s0 & (W0 & Z0 & O0 & S0 & T0 & C0) & Q0 & L0 & E0).
  cbv zeta in *.
  set (b := (List.length (library (player s pid)) <? n)%nat
            && truthy (drawFromEmptyLoss (win (rules s)))) in *.
  eexists. split; [exact E0|].
  assert (F : forall A (f : GameState -> A) (x : A),
            (forall l w, f (set_log l (set_winner w s0)) = f s0) -> f s0 = x ->
            f (if b then set_log (log s0 ++ [("Player " ++ p_name (player s pid)
                                               ++ " cannot draw and loses.")%string])
                           (set_winner (Some (other pid)) s0)
               else s0) = x).
  { intros A f x H1 H2. destruct b; [now rewrite H1|exact H2]. }
  split.
  { destruct b; [|exact W0]. now apply (wellFormed_frame s0). }
  split; [now destruct b|].
  split.
  { intros z. apply (F _ (fun t => getZoneArray (player t pid) z)); [reflexivity|].
    rewrite Z0. f_equal.
    destruct z; cbn [PlayerZone_eqb orb]; try reflexivity;
      apply goes_elsewhere; auto; discriminate. }
  split; [apply (F _ (fun t => seatOf (player t pid))); [reflexivity|exact S0]|].
  split; [apply (F _ (fun t => player t (other pid))); [reflexivity|exact O0]|].
  split.
  { destruct b; [reflexivity|]. unfold table in T0. now injection T0. }
  split.
  { apply (F _ (fun t => table (set_winner (winner s) t))); [reflexivity|].
    unfold table in *. cbn [rules turn winner stack nextId preventPERM preventEOT
      controlRevertEOT eventsTurn eventsGame triggerUseTurn triggerUseGame replUseTurn
      replUseGame set_winner].
    injection T0. intros. congruence. }
  split.
  { destruct b; cbn [log set_log]; rewrite L0; [now rewrite <- app_assoc|].
    now rewrite app_nil_r. }
  destruct b; exact C0.
Qed.

(** X20.  On a well-formed state where no card reacts to a draw, [Draw n]
    returns.  It takes the top [min n (library size)] cards off the
    library of the player and appends them, the top one first, to the
    hand (a token whose zone field says battlefield goes where the rules
    send tokens), with one log line each.  When the library runs out
    before [n] cards are drawn and the rules make that a loss, the other
    player is the winner and the log says so; otherwise the winner is as
    before.  Battlefield, the other player, the turn, the counters and the
    pools stay as they were. *)
Theorem draw_takes_top_cards fuel pid n s :
  wellFormed s -> drawQuiet s = true ->
  exists s',
    applyOperation (S fuel) (OpDraw pid n) s = Some (tt, s')
    /\ wellFormed s'
    /\ library (player s' pid)
       = firstn (List.length (library (player s pid)) - topCount s pid n)
                (library (player s pid))
    /\ hand (player s' pid)
       = hand (player s pid) ++ filter (goes s HAND HAND) (topCards s pid n)
    /\ battlefield (player s' pid) = battlefield (player s pid)
    /\ graveyard (player s' pid)
       = graveyard (player s pid) ++ filter (goes s HAND GY) (topCards s pid n)
    /\ exile (player s' pid)
       = exile (player s pid) ++ filter (goes s HAND EXILE) (topCards s pid n)
    /\ seatOf (player s' pid) = seatOf (player s pid)
    /\ player s' (other pid) = player s (other pid)
    /\ winner s'
       = (if ranOut s pid n && truthy (drawFromEmptyLoss (win (rules s)))
          then Some (other pid) else winner s)
    /\ table (set_winner (winner s) s') = table s
    /\ log s'
       = log s
         ++ repeat (p_name (player s pid) ++ " draws a card.")%string (topCount s pid n)
         ++ (if ranOut s pid n && truthy (drawFromEmptyLoss (win (rules s)))
             then [("Player " ++ p_name (player s pid) ++ " cannot draw and loses.")%string]
             else [])
    /\ forall i,
         JsMap.get i (cards s')
         = option_map
             (fun rc => if existsb (String.eqb i) (topCards s pid n)
                        then set_rc_zone (moveDest s rc HAND) rc else rc)
             (JsMap.get i (cards s)).
Proof.
  intros W Q. cbn [applyOperation applyOperation_body]. unfold topDraw.
  destruct (topDrawLoop_result fuel (applyOperation fuel) pid (Z.to_nat n) s W Q)
    as (s' & E & W' & _ & Zs & S' & O' & Wn & T' & L' & C').
  fold (topCount s pid n) in *. fold (topCards s pid n) in *. fold (ranOut s pid n) in *.
  exists s'. split; [unfold bind; now rewrite E|]. split; [exact W'|].
  split; [exact (eq_trans (Zs LIB) (app_nil_r _))|].
  split; [exact (Zs HAND)|].
  split; [exact (eq_trans (Zs BF) (app_nil_r _))|].
  split; [exact (Zs GY)|]. split; [exact (Zs EXILE)|].
  repeat (split; [assumption|]). exact C'.
Qed.

Lemma draw_takes_top_cards_witness :
  topCards openingState P0 4 = ["C3"; "C8"; "C2"]
  /\ ranOut openingState P0 4 = true
  /\ exists s',
    applyOperation 10 (OpDraw P0 4) openingState = Some (tt, s')
    /\ wellFormed s'
    /\ library (player s' P0)
       = firstn (List.length (library (player openingState P0)) - topCount openingState P0 4)
                (library (player openingState P0))
    /\ hand (player s' P0)
       = hand (player openingState P0)
         ++ filter (goes openingState HAND HAND) (topCards openingState P0 4)
    /\ battlefield (player s' P0) = battlefield (player openingState P0)
    /\ graveyard (player s' P0)
       = graveyard (player openingState P0)
         ++ filter (goes openingState HAND GY) (topCards openingState P0 4)
    /\ exile (player s' P0)
       = exile (player openingState P0)
         ++ filter (goes openingState HAND EXILE) (topCards openingState P0 4)
    /\ seatOf (player s' P0) = seatOf (player openingState P0)
    /\ player s' (other P0) = player openingState (other P0)
    /\ winner s'
       = (if ranOut openingState P0 4
             && truthy (drawFromEmptyLoss (win (rules openingState)))
          then Some (other P0) else winner openingState)
    /\ table (set_winner (winner openingState) s') = table openingState
    /\ log s'
       = log openingState
         ++ repeat (p_name (player openingState P0) ++ " draws a card.")%string
              (topCount openingState P0 4)
         ++ (if ranOut openingState P0 4
                && truthy (drawFromEmptyLoss (win (rules openingState)))
             then [("Player " ++ p_name (player openingState P0)
                    ++ " cannot draw and loses.")%string]
             else [])
    /\ forall i,
         JsMap.get i (cards s')
         = option_map
             (fun rc => if existsb (String.eqb i) (topCards openingState P0 4)
                        then set_rc_zone (moveDest openingState rc HAND) rc else rc)
             (JsMap.get i (cards openingState)).
Proof.
  split; [vm_compute; reflexivity|]. split; [vm_compute; reflexivity|].
  apply (draw_takes_top_cards 9 P0 4 openingState
           (reachable_wellFormed openingState opening_reachable)).
  vm_compute. reflexivity.
Defined.


(* ------------------------------------------------------------------ *)
(** ** engine.ts: validateDeck *)

Lemma fold_left_keys (l : list RuntimeCard) (m : JsMap.t Z) :
  fold_left (fun m rc => bump (deckKey (rc_card rc)) 1 m) l m
  = fold_left (fun need c => bump c 1 need) (map (fun rc => deckKey (rc_card rc)) l) m.
Proof. revert m. induction l as [|x r IH]; intros m; cbn [fold_left map]; auto. Qed.

Lemma flat_map_nil {A B} (f : A -> list B) l :
  flat_map f l = [] <-> forall x, In x l -> f x = [].
Proof.
  induction l as [|y r IH]; cbn [flat_map In]; [tauto|]. split.
  - intros H x [<-|Hx]; apply app_eq_nil in H; destruct H as [H1 H2]; [exact H1|].
    now apply IH.
  - intros H. rewrite (H y (or_introl eq_refl)). apply IH. intros x Hx. apply H. now right.
Qed.

(** X21.  A deck is accepted exactly when it has the minimum size and no name
    has more copies in it than the rules allow; a card goes by its
    canonical name when it has one, by its name otherwise. *)
Theorem validateDeck_accepts lst rules :
  fst (validateDeck lst rules) = true
  <-> minDeckSize (build rules) <= Z.of_nat (List.length lst)
      /\ forall rc, In rc lst ->
           copiesOf lst (deckKey (rc_card rc)) <= maxCopiesPerName (build rules).
Proof.
  unfold validateDeck. cbv zeta. cbn [fst]. rewrite fold_left_keys.
  set (keys := map (fun rc => deckKey (rc_card rc)) lst).
  set (byName := fold_left (fun need c => bump c 1 need) keys []).
  destruct (tally_keys keys [] (NoDup_nil _)) as [N K]. fold byName in N, K.
  assert (V : forall k v, In (k, v) byName ->
              v = Z.of_nat (count_occ string_dec keys k) /\ In k keys).
  { intros k v Hin. pose proof (In_get k v byName N Hin) as G.
    pose proof (tally_fold keys [] k) as T. fold byName in T. rewrite G in T. cbn in T.
    split; [exact T|]. destruct (K k) as [[]|H]; [|exact H].
    change k with (fst (k, v)). now apply in_map. }
  assert (P : forall k, In k keys -> In (k, Z.of_nat (count_occ string_dec keys k)) byName).
  { intros k Hk. pose proof (tally_fold keys [] k) as T. fold byName in T. cbn in T.
    apply (count_occ_In string_dec) in Hk.
    destruct (JsMap.get k byName) as [v|] eqn:G; cbn in T; [|lia].
    subst v. now apply JsMapFacts.get_In. }
  split.
  - intros H.
    match type of H with (match ?a ++ ?b with _ => _ end) = _ =>
      destruct a eqn:Ea; [|discriminate H]; destruct b eqn:Eb; [|discriminate H] end.
    split.
    + destruct (Z.ltb_spec (Z.of_nat (List.length lst)) (minDeckSize (build rules)));
        [discriminate Ea|lia].
    + intros rc Hrc. unfold copiesOf. fold keys.
      assert (Hk : In (deckKey (rc_card rc)) keys).
      { unfold keys. now apply (in_map (fun rc => deckKey (rc_card rc))). }
      pose proof (proj1 (flat_map_nil _ _) Eb _ (P _ Hk)) as F. cbn [fst snd] in F.
      destruct (Z.ltb_spec (maxCopiesPerName (build rules))
                  (Z.of_nat (count_occ string_dec keys (deckKey (rc_card rc)))));
        [discriminate F|lia].
  - intros [H1 H2].
    destruct (Z.ltb_spec (Z.of_nat (List.length lst)) (minDeckSize (build rules))); [lia|].
    cbn [app].
    match goal with |- (match ?b with _ => _ end) = _ =>
      assert (E : b = []); [|now rewrite E] end.
    apply flat_map_nil. intros [k v] Hin. cbn [fst snd].
    destruct (V k v Hin) as [-> Hk].
    unfold keys in Hk. apply in_map_iff in Hk. destruct Hk as (rc & <- & Hrc).
    specialize (H2 rc Hrc). unfold copiesOf in H2. fold keys in H2.
    destruct (Z.ltb_spec (maxCopiesPerName (build rules))
                (Z.of_nat (count_occ string_dec keys (deckKey (rc_card rc))))); [lia|reflexivity].
Qed.

(* ------------------------------------------------------------------ *)
(** ** Match setup *)

Lemma loadCopies_cards owner card count nid :
  Forall (fun rc => rc_card rc = card /\ isToken rc = None)
         (fst (loadCopies owner card count nid)).
Proof.
  revert nid. induction count as [|k IH]; intros nid; cbn [loadCopies]; [constructor|].
  specialize (IH (S nid)). destruct (loadCopies owner card k (S nid)) as [rest nid'].
  cbn [fst] in *. constructor; [now split|exact IH].
Qed.

Lemma loadEntries_cards owner entries nid :
  Forall (fun rc => In (rc_card rc) (map de_card entries) /\ isToken rc = None)
         (fst (loadEntries owner entries nid)).
Proof.
  revert nid. induction entries as [|e r IH]; intros nid; cbn [loadEntries]; [constructor|].
  pose proof (loadCopies_cards owner (de_card e) (Z.to_nat (Z.max 0 (de_count e))) nid) as L.
  destruct (loadCopies owner (de_card e) (Z.to_nat (Z.max 0 (de_count e))) nid) as [x nid1].
  specialize (IH nid1). destruct (loadEntries owner r nid1) as [y nid2].
  cbn [fst map] in *. apply Forall_app. split.
  - eapply Forall_impl; [|exact L]. intros rc [-> T]. split; [now left|exact T].
  - eapply Forall_impl; [|exact IH]. intros rc [I T]. split; [now right|exact T].
Qed.

Lemma loadDeck_cards raw owner nid :
  Forall (fun rc => In (rc_card rc) (map de_card (raw_cards raw)) /\ isToken rc = None)
         (deck_list (fst (loadDeck raw owner nid))).
Proof.
  unfold loadDeck. pose proof (loadEntries_cards owner (raw_cards raw) nid) as H.
  destruct (loadEntries owner (raw_cards raw) nid) as [l nid']. exact H.
Qed.

Lemma values_set {V} k (v : V) m x :
  In x (JsMap.values (JsMap.set k v m)) -> x = v \/ In x (JsMap.values m).
Proof.
  unfold JsMap.values. induction m as [|[k0 v0] r IH]; cbn [JsMap.set map snd In].
  - intros [<-|[]]. now left.
  - destruct (String.eqb k k0); cbn [map snd In].
    + intros [<-|H]; auto.
    + intros [<-|H]; [auto|]. destruct (IH H); auto.
Qed.

Lemma values_registerDeck d cs x :
  In x (JsMap.values (registerDeck d cs)) -> In x (deck_list d) \/ In x (JsMap.values cs).
Proof.
  unfold registerDeck. revert cs. induction (deck_list d) as [|rc r IH]; intros cs H.
  - now right.
  - cbn [fold_left] in H. destruct (IH _ H) as [I|I]; [left; now right|].
    apply values_set in I. destruct I as [->|I]; [left; now left|now right].
Qed.

Lemma shuffle_length {R} (rng : R -> Z * R) (arr : list string) r :
  List.length (fst (shuffle rng arr r)) = List.length arr.
Proof.
  apply Permutation_length, (Permutation_count_occ string_dec). intros x. apply occ_shuffle.
Qed.

Lemma in_values {V} k (v : V) m : JsMap.get k m = Some v -> In v (JsMap.values m).
Proof.
  intros H. apply JsMapFacts.get_In in H. unfold JsMap.values.
  change v with (snd (k, v)). now apply in_map.
Qed.

(** Where no card is a token, what is taken off a library for the hand
    ends in the hand. *)
Lemma goes_HAND_tokenFree s pid k s' :
  wellFormed s -> tokenFree s -> tookTop HAND pid k s s' ->
  library (player s' pid)
  = firstn (List.length (library (player s pid)) - k) (library (player s pid))
  /\ hand (player s' pid)
     = hand (player s pid)
       ++ List.rev (skipn (List.length (library (player s pid)) - k) (library (player s pid)))
  /\ battlefield (player s' pid) = battlefield (player s pid)
  /\ graveyard (player s' pid) = graveyard (player s pid)
  /\ exile (player s' pid) = exile (player s pid)
  /\ tokenFree s'.
Proof.
  intros W TF (W' & Z & O & S & T & C). cbv zeta in *.
  set (top := List.rev (skipn (List.length (library (player s pid)) - k)
                          (library (player s pid)))) in *.
  assert (G : forall z, filter (goes s HAND z) top = if PlayerZone_eqb z HAND then top else []).
  { intros z. assert (E : forall i, In i top -> goes s HAND z i = PlayerZone_eqb z HAND).
    { intros i Hi. unfold top in Hi. apply in_rev in Hi.
      assert (Hl : In i (getZoneArray (player s pid) LIB)).
      { cbn [getZoneArray]. rewrite <- (firstn_skipn (List.length (library (player s pid)) - k)).
        apply in_or_app. now right. }
      destruct (wellFormed_listed s pid LIB i W Hl) as (rc & Hget & _).
      unfold goes. rewrite Hget. unfold moveDest. now rewrite (TF i rc Hget). }
    destruct (PlayerZone_eqb z HAND).
    - rewrite (filter_ext_in _ (fun _ => true)) by exact E.
      clear. induction top as [|x r IH]; [reflexivity|]. cbn. now rewrite IH.
    - rewrite (filter_ext_in _ (fun _ => false)) by exact E.
      clear. induction top as [|x r IH]; [reflexivity|]. exact IH. }
  split; [exact (eq_trans (Z LIB) (eq_trans (f_equal _ (G LIB)) (app_nil_r _)))|].
  split; [exact (eq_trans (Z HAND) (f_equal _ (G HAND)))|].
  split; [exact (eq_trans (Z BF) (eq_trans (f_equal _ (G BF)) (app_nil_r _)))|].
  split; [exact (eq_trans (Z GY) (eq_trans (f_equal _ (G GY)) (app_nil_r _)))|].
  split; [exact (eq_trans (Z EXILE) (eq_trans (f_equal _ (G EXILE)) (app_nil_r _)))|].
  intros i rc Hget. rewrite C in Hget.
  destruct (JsMap.get i (cards s)) as [r0|] eqn:E; [|discriminate Hget].
  cbn [option_map] in Hget. apply some_eq in Hget. subst rc.
  destruct (existsb _ _); [exact (TF i r0 E)|exact (TF i r0 E)].
Qed.

Section Deal.
Variable fuel : nat.
Variable rec : Operation -> M unit.

(** A draw of [n] cards where no card reacts to a draw and none is a token. *)
Lemma topDraw_deal pid n s :
  wellFormed s -> drawQuiet s = true -> tokenFree s ->
  exists s',
    topDrawLoop fuel rec pid n s
    = Some (negb (List.length (library (player s pid)) <? n)%nat, s')
    /\ wellFormed s' /\ drawQuiet s' = true /\ tokenFree s'
    /\ library (player s' pid)
       = firstn (List.length (library (player s pid)) - n) (library (player s pid))
    /\ hand (player s' pid)
       = hand (player s pid)
         ++ List.rev (skipn (List.length (library (player s pid)) - n)
                        (library (player s pid)))
    /\ battlefield (player s' pid) = battlefield (player s pid)
    /\ graveyard (player s' pid) = graveyard (player s pid)
    /\ exile (player s' pid) = exile (player s pid)
    /\ seatOf (player s' pid) = seatOf (player s pid)
    /\ player s' (other pid) = player s (other pid)
    /\ winner s'
       = (if (List.length (library (player s pid)) <? n)%nat
             && truthy (drawFromEmptyLoss (win (rules s)))
          then Some (other pid) else winner s)
    /\ table (set_winner (winner s) s') = table s
    /\ log s'
       = log s
         ++ repeat (p_name (player s pid) ++ " draws a card.")%string
              (Nat.min n (List.length (library (player s pid))))
         ++ (if (List.length (library (player s pid)) <? n)%nat
                && truthy (drawFromEmptyLoss (win (rules s)))
             then [("Player " ++ p_name (player s pid) ++ " cannot draw and loses.")%string]
             else []).
Proof.
  intros W Q TF.
  destruct (topDrawLoop_spec fuel rec pid n s W Q) as (s0 & M0 & Q0 & L0 & E0).
  destruct (goes_HAND_tokenFree s pid _ s0 W TF M0) as (Hl & Hh & Hb & Hg & He & TF0).
  destruct M0 as (W0 & _ & O0 & S0 & T0 & _).
  replace (List.length (library (player s pid))
           - Nat.min n (List.length (library (player s pid))))%nat
    with (List.length (library (player s pid)) - n)%nat in Hl, Hh by lia.
  set (b := (List.length (library (player s pid)) <? n)%nat
            && truthy (drawFromEmptyLoss (win (rules s)))) in *.
  eexists. split; [exact E0|].
  destruct b.
  - split; [now apply (wellFormed_frame s0)|]. split; [exact Q0|]. split; [exact TF0|].
    repeat (split; [assumption|]). split; [reflexivity|].
    split.
    { unfold table in *. cbn [rules turn winner stack nextId preventPERM preventEOT
        controlRevertEOT eventsTurn eventsGame triggerUseTurn triggerUseGame replUseTurn
        replUseGame set_winner set_log].
      injection T0. intros. congruence. }
    cbn [log set_log]. rewrite L0. now rewrite <- app_assoc.
  - split; [exact W0|]. split; [exact Q0|]. split; [exact TF0|].
    repeat (split; [assumption|]). split; [unfold table in T0; now injection T0|].
    split.
    { unfold table in *. cbn [rules turn winner stack nextId preventPERM preventEOT
        controlRevertEOT eventsTurn eventsGame triggerUseTurn triggerUseGame replUseTurn
        replUseGame set_winner].
      injection T0. intros. congruence. }
    rewrite L0. now rewrite app_nil_r.
Qed.
End Deal.

(** X22.  [initGame] on two decks loaded for player 0 and player 1, with ids
    that do not overlap and cards that do not react to a draw, returns a
    well-formed state under the core rules, turn 1 of player 0 in UPKEEP.
    Each player holds the top cards of the shuffled library, the top one
    first, up to the starting hand size, and the rest as library.  A
    player whose deck is smaller than the starting hand has lost at setup;
    when both decks are, player 0 is the winner. *)
Theorem initGame_deals fuel rawA rawB a b seed nid :
  (snd (loadDeck rawA P0 a) <= b \/ snd (loadDeck rawB P1 b) <= a)%nat ->
  (snd (loadDeck rawA P0 a) <= nid)%nat ->
  (snd (loadDeck rawB P1 b) <= nid)%nat ->
  (forall e, In e (raw_cards rawA ++ raw_cards rawB) -> drawQuietCard (de_card e) = true) ->
  exists s,
    initGame fuel (fst (loadDeck rawA P0 a)) (fst (loadDeck rawB P1 b)) seed nid = Some s
    /\ wellFormed s
    /\ (forall p,
          library (player s p)
          = firstn (List.length
                      (shuffledFor (fst (loadDeck rawA P0 a)) (fst (loadDeck rawB P1 b)) seed p)
                    - handSize)
                   (shuffledFor (fst (loadDeck rawA P0 a)) (fst (loadDeck rawB P1 b)) seed p)
          /\ hand (player s p)
             = List.rev
                 (skipn (List.length
                           (shuffledFor (fst (loadDeck rawA P0 a)) (fst (loadDeck rawB P1 b))
                              seed p)
                         - handSize)
                    (shuffledFor (fst (loadDeck rawA P0 a)) (fst (loadDeck rawB P1 b)) seed p))
          /\ battlefield (player s p) = []
          /\ graveyard (player s p) = []
          /\ exile (player s p) = []
          /\ life (player s p) = startingLife (build CORE_RULES)
          /\ ap (player s p) = 0)
    /\ winner s
       = (if (List.length (deck_list (fst (loadDeck rawB P1 b))) <? handSize)%nat
          then Some P0
          else if (List.length (deck_list (fst (loadDeck rawA P0 a))) <? handSize)%nat
               then Some P1 else None)
    /\ turn s = mkTurn 1 P0 UPKEEP
    /\ rules s = CORE_RULES
    /\ nextId s = nid.
Proof.
  intros Hdis Ha Hb Hq.
  set (dA := fst (loadDeck rawA P0 a)). set (dB := fst (loadDeck rawB P1 b)).
  pose proof (loadDeck_loaded rawA P0 a) as LA. pose proof (loadDeck_loaded rawB P1 b) as LB.
  pose proof (loadDeck_cards rawA P0 a) as CA. pose proof (loadDeck_cards rawB P1 b) as CB.
  fold dA in LA, CA. fold dB in LB, CB.
  unfold initGame, shuffledFor, shuffledLibraries.
  pose proof (occ_shuffle xorshift32 (map rc_id (deck_list dA)) (to_uint32 seed)) as O0.
  pose proof (shuffle_length xorshift32 (map rc_id (deck_list dA)) (to_uint32 seed)) as N0.
  destruct (shuffle xorshift32 (map rc_id (deck_list dA)) (to_uint32 seed)) as [lib0 st1].
  pose proof (occ_shuffle xorshift32 (map rc_id (deck_list dB)) st1) as O1.
  pose proof (shuffle_length xorshift32 (map rc_id (deck_list dB)) st1) as N1.
  destruct (shuffle xorshift32 (map rc_id (deck_list dB)) st1) as [lib1 st2].
  cbn [fst snd] in O0, O1, N0, N1 |- *. rewrite length_map in N0, N1.
  replace (analyzeRules CORE_RULES) with (@nil string, @nil string)
    by (vm_compute; reflexivity).
  cbv beta iota zeta.
  match goal with
  | |- exists s, match ?m ?s0 with _ => _ end = _ /\ _ => set (init := s0)
  end.
  assert (W : wellFormed init).
  { unfold init. eapply wellFormed_initial; eauto. }
  assert (V : forall rc, In rc (JsMap.values (cards init)) ->
                drawQuietCard (rc_card rc) = true /\ isToken rc = None).
  { intros rc Hin. unfold init in Hin. cbn [cards] in Hin.
    apply values_registerDeck in Hin. destruct Hin as [Hin|Hin].
    - rewrite Forall_forall in CB. destruct (CB rc Hin) as [Hc Ht]. split; [|exact Ht].
      apply in_map_iff in Hc. destruct Hc as (e & <- & He). apply Hq, in_or_app. now right.
    - apply values_registerDeck in Hin. destruct Hin as [Hin|[]].
      rewrite Forall_forall in CA. destruct (CA rc Hin) as [Hc Ht]. split; [|exact Ht].
      apply in_map_iff in Hc. destruct Hc as (e & <- & He). apply Hq, in_or_app. now left. }
  assert (Q : drawQuiet init = true).
  { unfold drawQuiet. apply forallb_forall. intros rc Hin. now apply V. }
  assert (TF : tokenFree init).
  { intros id rc Hget. apply in_values in Hget. destruct (V rc Hget) as [_ ->]. reflexivity. }
  unfold bind at 1, ret at 1. unfold bind at 1, ret at 1. unfold topDraw.
  change (Z.to_nat (startingHand (build CORE_RULES))) with handSize.
  destruct (topDraw_deal fuel (applyOperation fuel) P0 handSize init W Q TF)
    as (sA & EA & WA & QA & TFA & lA & hA & bA & gA & eA & seA & oA & wA & tA & _).
  destruct (topDraw_deal fuel (applyOperation fuel) P1 handSize sA WA QA TFA)
    as (sB & EB & WB & QB & TFB & lB & hB & bB & gB & eB & seB & oB & wB & tB & _).
  unfold bind at 1. rewrite EA. unfold bind at 1. rewrite EB. unfold ret.
  exists sB. split; [reflexivity|]. split; [exact WB|].
  cbn [other] in oA, oB.
  assert (RA : rules sA = CORE_RULES /\ turn sA = mkTurn 1 P0 UPKEEP /\ nextId sA = nid).
  { unfold table in tA. cbn [rules turn winner stack nextId preventPERM preventEOT
      controlRevertEOT eventsTurn eventsGame triggerUseTurn triggerUseGame replUseTurn
      replUseGame set_winner] in tA. injection tA. intros. unfold init in *. cbn in *.
    repeat split; assumption. }
  assert (RB : rules sB = CORE_RULES /\ turn sB = mkTurn 1 P0 UPKEEP /\ nextId sB = nid).
  { unfold table in tB. cbn [rules turn winner stack nextId preventPERM preventEOT
      controlRevertEOT eventsTurn eventsGame triggerUseTurn triggerUseGame replUseTurn
      replUseGame set_winner] in tB. injection tB. intros. destruct RA as (R1 & R2 & R3).
    repeat split; congruence. }
  split.
  { intros [|].
    - rewrite oB, lA, hA, bA, gA, eA.
      unfold seatOf in seA. injection seA. intros. unfold init. cbn [player players fst snd
        library hand battlefield graveyard exile life ap app]. repeat split.
      + unfold init in *. cbn in *. congruence.
      + unfold init in *. cbn in *. congruence.
    - rewrite lB, hB, bB, gB, eB, !oA.
      unfold seatOf in seB. injection seB. intros. rewrite oA in *. unfold init.
      cbn [player players fst snd library hand battlefield graveyard exile life ap app].
      repeat split.
      + unfold init in *. cbn in *. congruence.
      + unfold init in *. cbn in *. congruence. }
  split.
  { rewrite wB, wA. destruct RA as (-> & _ & _). rewrite oA.
    unfold init. cbn [player players fst snd library winner rules].
    change (truthy (drawFromEmptyLoss (win CORE_RULES))) with true.
    rewrite !andb_true_r, N0, N1. reflexivity. }
  destruct RB as (R1 & R2 & R3). now repeat split.
Qed.

Lemma initGame_deals_witness :
  exists s,
    initGame 10 (fst (loadDeck deckAnn P0 1)) (fst (loadDeck deckBob P1 9)) 42 16 = Some s
    /\ wellFormed s
    /\ (forall p,
          library (player s p)
          = firstn (List.length
                      (shuffledFor (fst (loadDeck deckAnn P0 1)) (fst (loadDeck deckBob P1 9))
                         42 p)
                    - handSize)
                   (shuffledFor (fst (loadDeck deckAnn P0 1)) (fst (loadDeck deckBob P1 9)) 42 p)
          /\ hand (player s p)
             = List.rev
                 (skipn (List.length
                           (shuffledFor (fst (loadDeck deckAnn P0 1))
                              (fst (loadDeck deckBob P1 9)) 42 p)
                         - handSize)
                    (shuffledFor (fst (loadDeck deckAnn P0 1)) (fst (loadDeck deckBob P1 9))
                       42 p))
          /\ battlefield (player s p) = []
          /\ graveyard (player s p) = []
          /\ exile (player s p) = []
          /\ life (player s p) = startingLife (build CORE_RULES)
          /\ ap (player s p) = 0)
    /\ winner s
       = (if (List.length (deck_list (fst (loadDeck deckBob P1 9))) <? handSize)%nat
          then Some P0
          else if (List.length (deck_list (fst (loadDeck deckAnn P0 1))) <? handSize)%nat
               then Some P1 else None)
    /\ turn s = mkTurn 1 P0 UPKEEP
    /\ rules s = CORE_RULES
    /\ nextId s = 16%nat.
Proof.
  apply (initGame_deals 10 deckAnn deckBob 1 9 42 16).
  - left. vm_compute. lia.
  - vm_compute. lia.
  - vm_compute. lia.
  - intros e H. cbn in H. destruct H as [<-|[<-|[<-|[]]]]; reflexivity.
Defined.


(* ------------------------------------------------------------------ *)
(** ** Control changes until end of turn *)

Lemma set_absent {V} k (v : V) m : JsMap.has k m = false -> JsMap.set k v m = m ++ [(k, v)].
Proof.
  unfold JsMap.has. induction m as [|[k0 v0] r IH]; cbn [JsMap.get JsMap.set app]; [reflexivity|].
  destruct (String.eqb k k0); [discriminate|]. intros H. now rewrite IH.
Qed.

Lemma forM_app {A} (l1 l2 : list A) (f : A -> M unit) s :
  forM (l1 ++ l2) f s = (forM l1 f ;;; forM l2 f) s.
Proof.
  revert s. induction l1 as [|x r IH]; intros s; cbn [app forM]; [reflexivity|].
  unfold bind. destruct (f x s) as [[[] t]|]; [|reflexivity].
  specialize (IH t). unfold bind in IH. exact IH.
Qed.

(** A transfer of another card leaves [id] where it is. *)
Lemma transfer_other id o c k o2 t t' :
  k <> id -> heldBy t id o c -> transferControl k o2 t = Some (tt, t') -> heldBy t' id o c.
Proof.
  intros Hk (r & Hget & Ho & Hz & Hc & Hin) H. unfold transferControl in H.
  cbv beta iota delta [bind getS] in H.
  destruct (JsMap.get k (cards t)) as [rk|]; [|injection H as <-; now exists r].
  destruct (PlayerIndex_eqb (rc_owner rk) o2); [injection H as <-; now exists r|].
  unfold modify in H. injection H as <-. exists r.
  split.
  { rewrite cards_upd_card, !cards_upd_player, JsMapFacts.get_upd.
    destruct (String.eqb_spec id k); [congruence|exact Hget]. }
  split; [exact Ho|]. split; [exact Hz|]. split; [exact Hc|].
  rewrite player_upd_card.
  change (battlefield ?q) with (getZoneArray q BF) in *.
  apply occ_In. apply occ_In in Hin.
  assert (E1 : occ (getZoneArray
                      (player (upd_player (rc_owner rk) (removeFromAll k) t) o) BF) id
               = occ (getZoneArray (player t o) BF) id).
  { rewrite player_upd_player. destruct (PlayerIndex_eqb o (rc_owner rk)); [|reflexivity].
    rewrite getZoneArray_removeFromAll, occ_remove_first.
    destruct (String.eqb_spec k id); [congruence|reflexivity]. }
  rewrite player_upd_player. destruct (PlayerIndex_eqb o o2); [|lia].
  rewrite getZoneArray_pushZone.
  destruct (PlayerZone_eqb BF (rc_zone rk)); [rewrite occ_app|]; lia.
Qed.

(** A transfer to the other player takes the card along. *)
Lemma transfer_across id o c t :
  heldBy t id o c ->
  exists t', transferControl id (other o) t = Some (tt, t') /\ heldBy t' id (other o) c
             /\ table t' = table t.
Proof.
  intros (r & Hget & Ho & Hz & Hc & Hin). unfold transferControl.
  cbv beta iota delta [bind getS]. rewrite Hget, Ho, other_neq'. unfold modify.
  eexists. split; [reflexivity|]. split.
  - exists (set_rc_owner (other o) r). split.
    { rewrite cards_upd_card, !cards_upd_player, JsMapFacts.get_upd, String.eqb_refl, Hget.
      reflexivity. }
    split; [reflexivity|]. split; [exact Hz|]. split; [exact Hc|].
    rewrite player_upd_card, player_upd_player, PlayerIndex_eqb_refl, Hz.
    change (battlefield ?q) with (getZoneArray q BF).
    rewrite getZoneArray_pushZone. cbn [PlayerZone_eqb]. apply in_or_app. right. now left.
  - now rewrite table_upd_card, !table_upd_player.
Qed.

Lemma held_placed t id o c : wellFormed t -> heldBy t id o c -> placedAt t id o BF.
Proof.
  intros W (r & Hget & Ho & _ & _ & Hin).
  destruct (wellFormed_exclusive t W id r Hget) as [z Pz]. rewrite Ho in Pz.
  apply occ_In in Hin. change (battlefield ?q) with (getZoneArray q BF) in Hin.
  rewrite (Pz o BF), PlayerIndex_eqb_refl in Hin. cbn [andb] in Hin.
  destruct z; cbn [PlayerZone_eqb] in Hin; try lia. exact Pz.
Qed.

Lemma heldBy_same t t' id o c :
  cards t' = cards t -> players t' = players t -> heldBy t id o c -> heldBy t' id o c.
Proof.
  intros Hc Hp (r & Hget & Ho & Hz & Hk & Hin). exists r. rewrite Hc.
  now rewrite (player_same t t' o Hp).
Qed.

Lemma other_other p : other (other p) = p.
Proof. now destruct p. Qed.

(** The reverts of other cards leave [id] where it is. *)
Lemma revert_others id o c (l : list (string * PlayerIndex)) t :
  (forall e, In e l -> fst e <> id) -> heldBy t id o c ->
  exists t',
    forM l (fun e =>
      s1 <- getS ;;
      match JsMap.get (fst e) (cards s1) with
      | Some _ => transferControl (fst e) (snd e)
      | None => ret tt
      end) t = Some (tt, t')
    /\ heldBy t' id o c.
Proof.
  revert t. induction l as [|e r IH]; intros t Hl H; [now exists t|].
  cbn [forM]. unfold bind at 1.
  assert (E : exists t1,
    (s1 <- getS ;;
     match JsMap.get (fst e) (cards s1) with
     | Some _ => transferControl (fst e) (snd e)
     | None => ret tt
     end) t = Some (tt, t1) /\ heldBy t1 id o c).
  { cbv beta iota delta [bind getS].
    destruct (JsMap.get (fst e) (cards t)); [|now exists t].
    destruct (transferControl_runs (fst e) (snd e) t) as [t1 E1]. exists t1.
    split; [exact E1|]. eapply transfer_other; eauto. apply Hl. now left. }
  destruct E as (t1 & -> & H1). apply IH; [|exact H1].
  intros x Hx. apply Hl. now right.
Qed.




(* ------------------------------------------------------------------ *)
(** ** Boards without triggers of some kinds *)

Lemma TriggerWhen_eqb_refl w : TriggerWhen_eqb w w = true.
Proof. now destruct w. Qed.

Lemma planTriggers_mute fuel ws w ctx s :
  mute ws s = true -> In w ws -> planTriggers fuel w ctx s = Some ([], s).
Proof.
  intros Q Hw. unfold planTriggers. cbv beta iota delta [bind getS].
  apply concatM_nil. intros rc Hrc. apply concatM_nil. intros [i t] Hit.
  apply In_indexed in Hit.
  unfold mute in Q. rewrite forallb_forall in Q. specialize (Q rc Hrc).
  rewrite forallb_forall in Q. specialize (Q t Hit). apply negb_true_iff in Q.
  replace (TriggerWhen_eqb (trg_when t) w) with false; [reflexivity|].
  destruct (TriggerWhen_eqb (trg_when t) w) eqn:E; [|reflexivity].
  assert (X : existsb (TriggerWhen_eqb (trg_when t)) ws = true)
    by (apply existsb_exists; now exists w).
  congruence.
Qed.

Lemma fireTriggers_mute fuel rec ws w ctx s :
  mute ws s = true -> In w ws -> fireTriggers fuel rec w ctx s = Some (tt, s).
Proof.
  intros Q Hw. unfold fireTriggers, bind. rewrite (planTriggers_mute fuel ws) by assumption.
  reflexivity.
Qed.

Lemma mute_upd ws id f s s' :
  (forall c, rc_card (f c) = rc_card c) -> cards s' = JsMap.upd id f (cards s) ->
  mute ws s' = mute ws s.
Proof.
  intros Hf Hc. unfold mute. rewrite Hc.
  set (g := fun c : Card =>
              forallb (fun t => negb (existsb (TriggerWhen_eqb (trg_when t)) ws))
                      (opt_list (triggers (textIR c)))).
  assert (E : forall l, forallb (fun rc => g (rc_card rc)) l = forallb g (map rc_card l)).
  { induction l as [|x l IH]; [reflexivity|]. cbn. now rewrite IH. }
  change (forallb (fun rc => g (rc_card rc)) (JsMap.values (JsMap.upd id f (cards s)))
          = forallb (fun rc => g (rc_card rc)) (JsMap.values (cards s))).
  now rewrite !E, values_upd.
Qed.

(* ------------------------------------------------------------------ *)
(** ** The start of a turn *)

Lemma forM_untap l s :
  forM l (fun id => modify (upd_card id (set_tapped (Some false)))) s
  = Some (tt, untapped l s).
Proof.
  revert s. induction l as [|x r IH]; intros s; [reflexivity|].
  cbn [forM]. rewrite bind_modify. apply IH.
Qed.

Lemma untapped_spec l s :
  (wellFormed s -> wellFormed (untapped l s))
  /\ players (untapped l s) = players s
  /\ table (untapped l s) = table s
  /\ log (untapped l s) = log s
  /\ mute [OnUpkeepStart] (untapped l s) = mute [OnUpkeepStart] s
  /\ drawQuiet (untapped l s) = drawQuiet s
  /\ forall i, JsMap.get i (cards (untapped l s))
               = if existsb (String.eqb i) l
                 then option_map (set_tapped (Some false)) (JsMap.get i (cards s))
                 else JsMap.get i (cards s).
Proof.
  revert s. induction l as [|x r IH]; intros s.
  - cbn [untapped fold_left existsb]. split; [exact (fun W => W)|]. now repeat split.
  - cbn [untapped fold_left]. fold (untapped r (upd_card x (set_tapped (Some false)) s)).
    destruct (IH (upd_card x (set_tapped (Some false)) s)) as (W & P & T & L & M & Q & C).
    split; [|split; [|split; [|split; [|split; [|split]]]]].
    + intros Ws. apply W. apply wellFormed_upd_card; auto.
    + now rewrite P.
    + now rewrite T.
    + now rewrite L.
    + rewrite M. now apply (mute_upd _ x (set_tapped (Some false))).
    + rewrite Q. now apply (drawQuiet_upd x (set_tapped (Some false))).
    + intros i. rewrite C, cards_upd_card, JsMapFacts.get_upd. cbn [existsb].
      destruct (String.eqb i x), (existsb (String.eqb i) r); cbn [orb]; try reflexivity.
      now destruct (JsMap.get i (cards s)).
Qed.

(** X24.  On a well-formed state where no card reacts to the start of an upkeep
    or to a draw, TurnStart returns.  The phase is UPKEEP, the turn
    otherwise as before; the counters kept per turn are empty; the active
    player has the action points the rules grant, and every card on that
    player's battlefield is untapped.  When the rules have a draw at the
    start of a turn, the top card of the library is drawn; with an empty
    library and the rule that this loses the game, the other player is
    the winner. *)
Theorem turnStart_refreshes fuel s :
  wellFormed s ->
  mute [OnUpkeepStart] s = true ->
  drawQuiet s = true ->
  idx (player s (active (turn s))) = active (turn s) ->
  exists s',
    applyOperation (S fuel) TurnStart s = Some (tt, s')
    /\ wellFormed s'
    /\ turn s' = mkTurn (number (turn s)) (active (turn s)) UPKEEP
    /\ eventsTurn s' = [] /\ triggerUseTurn s' = [] /\ replUseTurn s' = []
    /\ eventsGame s' = eventsGame s
    /\ triggerUseGame s' = triggerUseGame s
    /\ replUseGame s' = replUseGame s
    /\ ap (player s' (active (turn s))) = refill (rules s) (ap (player s (active (turn s))))
    /\ life (player s' (active (turn s))) = life (player s (active (turn s)))
    /\ player s' (other (active (turn s))) = player s (other (active (turn s)))
    /\ battlefield (player s' (active (turn s))) = battlefield (player s (active (turn s)))
    /\ (forall id, In id (battlefield (player s (active (turn s)))) ->
          exists r, JsMap.get id (cards s) = Some r
                    /\ JsMap.get id (cards s') = Some (set_tapped (Some false) r))
    /\ library (player s' (active (turn s)))
       = (if drawOnTurnStart (turns (rules s))
          then firstn (List.length (library (player s (active (turn s)))) - 1)
                      (library (player s (active (turn s))))
          else library (player s (active (turn s))))
    /\ hand (player s' (active (turn s)))
       = hand (player s (active (turn s)))
         ++ (if drawOnTurnStart (turns (rules s))
             then filter (goes s HAND HAND) (topCards s (active (turn s)) 1)
             else [])
    /\ winner s'
       = (if drawOnTurnStart (turns (rules s))
             && ranOut s (active (turn s)) 1
             && truthy (drawFromEmptyLoss (win (rules s)))
          then Some (other (active (turn s))) else winner s).
Proof.
  intros W Mu Q Hidx. set (pid := active (turn s)) in *. set (p := player s pid).
  cbn [applyOperation applyOperation_body]. unfold turnStart.
  unfold bind at 1, getS at 1. cbv beta iota zeta. fold pid. fold p.
  rewrite bind_modify. unfold pushLog. rewrite bind_modify.
  set (sB := set_log _ (set_turn _ s)).
  unfold bind at 1. rewrite forM_untap.
  destruct (untapped_spec (battlefield p) sB) as (WC & PC & TC & LC & MC & QC & CC).
  set (sC := untapped (battlefield p) sB) in *.
  rewrite !bind_modify.
  set (sD := set_replUseTurn [] (set_triggerUseTurn [] (set_eventsTurn [] sC))).
  assert (MD : mute [OnUpkeepStart] sD = true) by (rewrite <- Mu; exact MC).
  unfold bind at 1. rewrite (fireTriggers_mute _ _ [OnUpkeepStart]) by (auto; now left).
  rewrite bind_modify. cbv zeta.
  assert (RD : rules sD = rules s).
  { change (rules sD) with (rules sC). apply rules_table in TC. exact TC. }
  rewrite RD.
  set (sE := upd_player pid _ sD).
  assert (WE : wellFormed sE).
  { apply wellFormed_upd_player_fields; [intros q z; now destruct z|].
    apply (wellFormed_frame sC); try reflexivity. apply WC.
    now apply (wellFormed_frame s). }
  assert (QE : drawQuiet sE = true).
  { rewrite <- Q. transitivity (drawQuiet sC); [|exact QC].
    unfold drawQuiet, sE. now rewrite cards_upd_player. }
  assert (PE : forall q, player sE q
                = if PlayerIndex_eqb q pid
                  then set_ap (refill (rules s) (ap (player s q))) (player s q)
                  else player s q).
  { intros q. unfold sE. rewrite player_upd_player.
    change (player sD q) with (player sC q). rewrite (player_same sB sC q PC).
    change (player sB q) with (player s q). reflexivity. }
  assert (CE : forall i, JsMap.get i (cards sE)
                = if existsb (String.eqb i) (battlefield p)
                  then option_map (set_tapped (Some false)) (JsMap.get i (cards s))
                  else JsMap.get i (cards s)).
  { intros i. unfold sE. rewrite cards_upd_player. exact (CC i). }
  assert (TE : turn sE = mkTurn (number (turn s)) pid UPKEEP
               /\ eventsTurn sE = [] /\ triggerUseTurn sE = [] /\ replUseTurn sE = []
               /\ eventsGame sE = eventsGame s /\ triggerUseGame sE = triggerUseGame s
               /\ replUseGame sE = replUseGame s /\ winner sE = winner s
               /\ rules sE = rules s).
  { unfold table in TC. cbn [rules turn winner stack nextId preventPERM preventEOT
      controlRevertEOT eventsTurn eventsGame triggerUseTurn triggerUseGame replUseTurn
      replUseGame] in TC. injection TC. intros.
    assert (X : forall A (f : GameState -> A),
              (forall g t, f (upd_player pid g t) = f t) -> f sE = f sD).
    { intros A f Hf. apply Hf. }
    rewrite (X _ turn), (X _ eventsTurn), (X _ triggerUseTurn), (X _ replUseTurn),
      (X _ eventsGame), (X _ triggerUseGame), (X _ replUseGame), (X _ winner), (X _ rules)
      by (intros g t; now destruct pid).
    cbn [sD turn eventsTurn triggerUseTurn replUseTurn eventsGame triggerUseGame replUseGame
         winner rules set_replUseTurn set_triggerUseTurn set_eventsTurn].
    repeat split; assumption. }
  destruct TE as (T1 & T2 & T3 & T4 & T5 & T6 & T7 & T8 & T9).
  assert (Hbf : forall id, In id (battlefield p) ->
            exists r, JsMap.get id (cards s) = Some r
                      /\ JsMap.get id (cards sE) = Some (set_tapped (Some false) r)).
  { intros id Hin. destruct (wellFormed_listed s pid BF id W Hin) as (r & Hr & _).
    exists r. split; [exact Hr|]. rewrite CE, Hr.
    apply existsb_eqb_In in Hin. now rewrite Hin. }
  unfold bind at 1, getS at 1. cbv beta iota. rewrite T9.
  assert (LE : library (player sE pid) = library p
               /\ hand (player sE pid) = hand p
               /\ battlefield (player sE pid) = battlefield p
               /\ life (player sE pid) = life p
               /\ ap (player sE pid) = refill (rules s) (ap p)).
  { rewrite PE, PlayerIndex_eqb_refl. now repeat split. }
  destruct LE as (L1 & L2 & L3 & L4 & L5).
  assert (OE : player sE (other pid) = player s (other pid)).
  { rewrite PE. now rewrite other_neq. }
  destruct (drawOnTurnStart (turns (rules s))) eqn:Ed.
  - change (idx p) with (idx (player s pid)). rewrite Hidx. unfold topDraw.
    change (Z.to_nat 1) with 1%nat.
    destruct (topDrawLoop_result fuel (applyOperation fuel) pid 1 sE WE QE)
      as (s' & E & W' & _ & Zs & S' & O' & Wn & T' & _ & C').
    rewrite L1 in *. rewrite T9, T8 in Wn.
    unfold bind at 1. rewrite E. unfold ret. exists s'.
    split; [reflexivity|]. split; [exact W'|].
    unfold table in T'. cbn [rules turn winner stack nextId preventPERM preventEOT
      controlRevertEOT eventsTurn eventsGame triggerUseTurn triggerUseGame replUseTurn
      replUseGame set_winner] in T'. injection T'. intros.
    unfold seatOf in S'. injection S'. intros.
    split; [congruence|]. split; [congruence|]. split; [congruence|]. split; [congruence|].
    split; [congruence|]. split; [congruence|]. split; [congruence|].
    split; [congruence|]. split; [congruence|]. split; [congruence|].
    assert (Hlen : (List.length (library p) - Nat.min 1 (List.length (library p))
                    = List.length (library p) - 1)%nat) by lia.
    split.
    { pose proof (Zs BF) as B. cbn [PlayerZone_eqb orb getZoneArray] in B.
      rewrite app_nil_r in B. congruence. }
    split.
    { intros id Hin. destruct (Hbf id Hin) as (r & Hr & Hr'). exists r.
      split; [exact Hr|]. rewrite C', Hr'. cbn [option_map].
      replace (existsb (String.eqb id) _) with false; [reflexivity|].
      symmetry. apply existsb_absent. rewrite occ_rev.
      pose proof (occ_skipn_le (List.length (library p)
                                - Nat.min 1 (List.length (library p))) (library p) id).
      destruct (wellFormed_listed s pid BF id W Hin) as (r0 & _ & _ & Hz).
      rewrite zoneCount_zones in Hz. apply occ_In in Hin. fold p in Hz.
      cbn [getZoneArray] in Hz, Hin. lia. }
    split.
    { pose proof (Zs LIB) as B. cbn [PlayerZone_eqb orb getZoneArray] in B.
      rewrite app_nil_r, Hlen in B. exact B. }
    split.
    { pose proof (Zs HAND) as B. cbn [PlayerZone_eqb orb getZoneArray] in B.
      rewrite B, L2. f_equal. unfold topCards, topCount. fold pid. fold p.
      change (Z.to_nat 1) with 1%nat.
      apply filter_ext_in. intros i Hi. unfold goes. rewrite CE.
      unfold moveDest. rewrite T9.
      destruct (existsb (String.eqb i) (battlefield p)); [|reflexivity].
      now destruct (JsMap.get i (cards s)). }
    rewrite Wn. unfold ranOut. fold pid. fold p. change (Z.to_nat 1) with 1%nat.
    cbn [andb]. reflexivity.
  - unfold ret. exists sE. split; [reflexivity|]. split; [exact WE|].
    cbn [andb]. rewrite app_nil_r.
    repeat (split; [assumption|]). exact T8.
Qed.

Lemma turnStart_refreshes_witness :
  exists s',
    applyOperation 10 TurnStart openingState = Some (tt, s')
    /\ wellFormed s'
    /\ turn s' = mkTurn (number (turn openingState)) P0 UPKEEP
    /\ eventsTurn s' = [] /\ triggerUseTurn s' = [] /\ replUseTurn s' = []
    /\ eventsGame s' = eventsGame openingState
    /\ triggerUseGame s' = triggerUseGame openingState
    /\ replUseGame s' = replUseGame openingState
    /\ ap (player s' P0) = refill (rules openingState) (ap (player openingState P0))
    /\ life (player s' P0) = life (player openingState P0)
    /\ player s' (other P0) = player openingState (other P0)
    /\ battlefield (player s' P0) = battlefield (player openingState P0)
    /\ (forall id, In id (battlefield (player openingState P0)) ->
          exists r, JsMap.get id (cards openingState) = Some r
                    /\ JsMap.get id (cards s') = Some (set_tapped (Some false) r))
    /\ library (player s' P0)
       = (if drawOnTurnStart (turns (rules openingState))
          then firstn (List.length (library (player openingState P0)) - 1)
                      (library (player openingState P0))
          else library (player openingState P0))
    /\ hand (player s' P0)
       = hand (player openingState P0)
         ++ (if drawOnTurnStart (turns (rules openingState))
             then filter (goes openingState HAND HAND) (topCards openingState P0 1)
             else [])
    /\ winner s'
       = (if drawOnTurnStart (turns (rules openingState))
             && ranOut openingState P0 1
             && truthy (drawFromEmptyLoss (win (rules openingState)))
          then Some (other P0) else winner openingState).
Proof.
  change P0 with (active (turn openingState)).
  apply (turnStart_refreshes 9 openingState
           (reachable_wellFormed openingState opening_reachable));
    vm_compute; reflexivity.
Defined.


(* ------------------------------------------------------------------ *)
(** ** Damage to a player *)

Lemma PlayerIndex_eqb_sym p q : PlayerIndex_eqb p q = PlayerIndex_eqb q p.
Proof. now destruct p, q. Qed.

Lemma damagePlayer_result fuel pid n src s :
  quiet s = true ->
  idx (player s P0) = P0 -> idx (player s P1) = P1 ->
  exists s',
    applyOperation (S fuel) (DamagePlayer pid n src) s = Some (tt, s')
    /\ (forall q, life (player s' q)
                  = life (player s q) - (if PlayerIndex_eqb q pid then n else 0)
                    + (if gains s src q then n else 0))
    /\ winner s' = (if negb (lifeZeroLoss (win (rules s))) then winner s
                    else if life (player s' P1) <=? 0 then Some P0
                    else if life (player s' P0) <=? 0 then Some P1
                    else winner s)
    /\ cards s' = cards s
    /\ (forall p z, getZoneArray (player s' p) z = getZoneArray (player s p) z)
    /\ turn s' = turn s.
Proof.
  intros Q H0 H1. cbn [applyOperation applyOperation_body].
  rewrite bind_modify. unfold bind at 1, getS at 1. cbv beta iota.
  unfold pushLog at 1. rewrite bind_modify.
  set (sA := set_log _ (upd_player pid _ s)).
  assert (LA : forall q, life (player sA q)
                 = life (player s q) - (if PlayerIndex_eqb q pid then n else 0)).
  { intros q. unfold sA. change (player (set_log ?l ?x) q) with (player x q).
    rewrite player_upd_player. destruct (PlayerIndex_eqb q pid); cbn [life set_life]; lia. }
  assert (IA : forall q, idx (player sA q) = idx (player s q)).
  { intros q. unfold sA. change (player (set_log ?l ?x) q) with (player x q).
    rewrite player_upd_player. now destruct (PlayerIndex_eqb q pid). }
  assert (ZA : forall p z, getZoneArray (player sA p) z = getZoneArray (player s p) z).
  { intros q z. unfold sA. change (player (set_log ?l ?x) q) with (player x q).
    rewrite player_upd_player. destruct (PlayerIndex_eqb q pid); now destruct z. }
  assert (CA : cards sA = cards s /\ turn sA = turn s /\ rules sA = rules s
               /\ winner sA = winner s).
  { unfold sA. now destruct pid. }
  destruct CA as (CA & TA & RA & WA).
  assert (B : exists sB,
    lifelink src n sA = Some (tt, sB)
    /\ (forall q, life (player sB q) = life (player sA q) + (if gains s src q then n else 0))
    /\ (forall q, idx (player sB q) = idx (player sA q))
    /\ (forall p z, getZoneArray (player sB p) z = getZoneArray (player sA p) z)
    /\ cards sB = cards sA /\ turn sB = turn sA /\ rules sB = rules sA
    /\ winner sB = winner sA).
  { unfold lifelink, gains. destruct (nonempty_id src) as [sid|].
    2:{ exists sA. split; [reflexivity|]. split; [intros; lia|]. now repeat split. }
    cbv beta iota delta [bind getS]. rewrite CA.
    destruct (JsMap.get sid (cards s)) as [c|].
    2:{ exists sA. split; [reflexivity|]. split; [intros; lia|]. now repeat split. }
    destruct (hasKeyword c "Lifelink"); cbn [andb].
    2:{ exists sA. split; [reflexivity|]. split; [intros; lia|]. now repeat split. }
    unfold modify at 1. cbv beta iota. unfold pushLog, modify. eexists.
    split; [reflexivity|].
    split.
    { intros q. change (player (set_log ?l ?x) q) with (player x q).
      rewrite player_upd_player, (PlayerIndex_eqb_sym q (rc_owner c)).
      destruct (PlayerIndex_eqb (rc_owner c) q); cbn [life set_life]; lia. }
    split.
    { intros q. change (player (set_log ?l ?x) q) with (player x q).
      rewrite player_upd_player. now destruct (PlayerIndex_eqb q (rc_owner c)). }
    split.
    { intros q z. change (player (set_log ?l ?x) q) with (player x q).
      rewrite player_upd_player. destruct (PlayerIndex_eqb q (rc_owner c)); now destruct z. }
    now destruct (rc_owner c). }
  destruct B as (sB & EB & LB & IB & ZB & CB & TB & RB & WB).
  unfold bind at 1. rewrite EB.
  unfold bind at 1. rewrite fireTriggers_quiet; [|rewrite <- Q; apply quiet_same; congruence|auto].
  destruct (checkPlayerDeath_result sB) as (s' & E & Wn & P' & C' & T').
  { rewrite IB, IA. exact H0. }
  { rewrite IB, IA. exact H1. }
  exists s'. split; [exact E|].
  assert (L' : forall q, life (player s' q) = life (player sB q)).
  { intros q. now rewrite (player_same sB s' q P'). }
  split; [intros q; rewrite L', LB, LA; reflexivity|].
  split; [rewrite Wn, !L', RB, RA, WB, WA; reflexivity|].
  split; [congruence|]. split; [|congruence].
  intros p z. now rewrite (player_same sB s' p P'), ZB, ZA.
Qed.



(* ------------------------------------------------------------------ *)
(** ** Tokens *)

Lemma mute_set ws id rc s s' :
  opt_list (triggers (textIR (rc_card rc))) = [] ->
  cards s' = JsMap.set id rc (cards s) -> mute ws s = true -> mute ws s' = true.
Proof.
  intros Hrc Hc Q. unfold mute in *. rewrite forallb_forall in *. intros x Hx.
  rewrite Hc in Hx. apply values_set in Hx. destruct Hx as [->|Hx]; [|now apply Q].
  now rewrite Hrc.
Qed.

(** X26.  On a well-formed state where no card reacts to a token or to an
    arrival, CreateToken returns: the token is a new card under the next
    id of the counter, which no card had; it belongs to the player, is on
    that player's battlefield, at the end, and nowhere else; it has the
    stats asked for and no damage, and entered this turn.  The counter
    moves on by one, the count of created tokens of the player goes up by
    one, and every other card and zone is as before. *)
Theorem createToken_registers fuel pid atk hp tgs attrs s :
  wellFormed s ->
  mute [OnTokenCreated; OnEnter; OnNameMatched] s = true ->
  exists s',
    applyOperation (S fuel) (OpCreateToken pid atk hp tgs attrs) s = Some (tt, s')
    /\ wellFormed s'
    /\ JsMap.get (makeId (nextId s)) (cards s) = None
    /\ JsMap.get (makeId (nextId s)) (cards s') = Some (tokenOf s pid atk hp tgs attrs)
    /\ placedAt s' (makeId (nextId s)) pid BF
    /\ battlefield (player s' pid) = battlefield (player s pid) ++ [makeId (nextId s)]
    /\ nextId s' = S (nextId s)
    /\ (forall i, i <> makeId (nextId s) -> JsMap.get i (cards s') = JsMap.get i (cards s))
    /\ (forall p z, (p, z) <> (pid, BF) ->
          getZoneArray (player s' p) z = getZoneArray (player s p) z)
    /\ or0 (JsMap.get (eventKey TokenCreated pid) (eventsGame s'))
       = or0 (JsMap.get (eventKey TokenCreated pid) (eventsGame s)) + 1
    /\ winner s' = winner s /\ turn s' = turn s.
Proof.
  intros W Mu. cbn [applyOperation applyOperation_body]. unfold createToken.
  unfold bind at 1, getS at 1. cbv beta iota zeta.
  rewrite !bind_modify. unfold pushLog. rewrite bind_modify.
  unfold incEvent. rewrite bind_modify.
  fold (tokenOf s pid atk hp tgs attrs).
  set (id := makeId (nextId s)). set (rc := tokenOf s pid atk hp tgs attrs).
  set (s1 := upd_player pid (pushZone BF id)
               (set_cards (JsMap.set id rc (cards (set_nextId (S (nextId s)) s)))
                  (set_nextId (S (nextId s)) s))).
  match goal with
  | |- exists s', (_ ;;; _) ?st = _ /\ _ => set (s2 := st)
  end.
  assert (C2 : cards s2 = JsMap.set id rc (cards s)).
  { unfold s2. cbn [cards set_eventsGame set_eventsTurn set_log]. unfold s1.
    now rewrite cards_upd_player. }
  assert (M2 : mute [OnTokenCreated; OnEnter; OnNameMatched] s2 = true).
  { apply (mute_set _ id rc s); [reflexivity|exact C2|exact Mu]. }
  unfold bind at 1. rewrite (fireTriggers_mute _ _ _ _ _ _ M2) by (cbn; auto).
  unfold bind at 1. rewrite (fireTriggers_mute _ _ _ _ _ _ M2) by (cbn; auto).
  rewrite (fireTriggers_mute _ _ _ _ _ _ M2) by (cbn; auto).
  exists s2. split; [reflexivity|].
  assert (W1 : wellFormed s1).
  { unfold s1. apply (wellFormed_register s pid rc W); [reflexivity|cbn; lia]. }
  assert (W2 : wellFormed s2) by (now apply (wellFormed_frame s1)).
  assert (F : JsMap.get id (cards s) = None).
  { destruct W as (_ & Fr & _). apply Fr. lia. }
  assert (P2 : forall q, player s2 q
                 = if PlayerIndex_eqb q pid then pushZone BF id (player s q) else player s q).
  { intros q. unfold s2. change (player (set_eventsGame _ (set_eventsTurn _ (set_log _ s1))) q)
      with (player s1 q). unfold s1. rewrite player_upd_player. reflexivity. }
  assert (G2 : JsMap.get id (cards s2) = Some rc).
  { rewrite C2. apply JsMapFacts.get_set_eq. }
  assert (B2 : battlefield (player s2 pid) = battlefield (player s pid) ++ [id]).
  { rewrite P2, PlayerIndex_eqb_refl. reflexivity. }
  split; [exact W2|]. split; [exact F|]. split; [exact G2|].
  split.
  { destruct (wellFormed_exclusive s2 W2 id rc G2) as [z Pz].
    change (rc_owner rc) with pid in Pz.
    assert (Hin : In id (getZoneArray (player s2 pid) BF)).
    { cbn [getZoneArray]. rewrite B2. apply in_or_app. right. now left. }
    apply occ_In in Hin. rewrite (Pz pid BF), PlayerIndex_eqb_refl in Hin.
    cbn [andb] in Hin. destruct z; cbn [PlayerZone_eqb] in Hin; try lia. exact Pz. }
  split; [exact B2|]. split; [unfold s2, s1; now destruct pid|].
  split.
  { intros i Hi. rewrite C2. apply JsMapFacts.get_set_neq. exact Hi. }
  split.
  { intros p z Hpz. rewrite P2. destruct (PlayerIndex_eqb p pid) eqn:Ep; [|reflexivity].
    apply PlayerIndex_eqb_eq in Ep. subst p. rewrite getZoneArray_pushZone.
    destruct z; cbn [PlayerZone_eqb]; try reflexivity. congruence. }
  split.
  { unfold s2. cbn [eventsGame set_eventsGame]. unfold bump.
    rewrite JsMapFacts.get_set_eq. cbn [or0].
    change (eventsGame (set_eventsTurn ?a (set_log ?l s1))) with (eventsGame s1).
    unfold s1. now destruct pid. }
  unfold s2, s1. now destruct pid.
Qed.

Lemma createToken_registers_witness :
  exists s',
    applyOperation 10 (OpCreateToken P1 2 3 None None) openingState = Some (tt, s')
    /\ wellFormed s'
    /\ JsMap.get (makeId (nextId openingState)) (cards openingState) = None
    /\ JsMap.get (makeId (nextId openingState)) (cards s')
       = Some (tokenOf openingState P1 2 3 None None)
    /\ placedAt s' (makeId (nextId openingState)) P1 BF
    /\ battlefield (player s' P1)
       = battlefield (player openingState P1) ++ [makeId (nextId openingState)]
    /\ nextId s' = S (nextId openingState)
    /\ (forall i, i <> makeId (nextId openingState) ->
          JsMap.get i (cards s') = JsMap.get i (cards openingState))
    /\ (forall p z, (p, z) <> (P1, BF) ->
          getZoneArray (player s' p) z = getZoneArray (player openingState p) z)
    /\ or0 (JsMap.get (eventKey TokenCreated P1) (eventsGame s'))
       = or0 (JsMap.get (eventKey TokenCreated P1) (eventsGame openingState)) + 1
    /\ winner s' = winner openingState /\ turn s' = turn openingState.
Proof.
  apply (createToken_registers 9 P1 2 3 None None openingState
           (reachable_wellFormed openingState opening_reachable)).
  vm_compute. reflexivity.
Defined.


(* ------------------------------------------------------------------ *)
(** ** Casting a permanent *)

Lemma mute_same ws s s' : cards s' = cards s -> mute ws s' = mute ws s.
Proof. unfold mute. now intros ->. Qed.

Lemma canPay_generic s pid cols :
  payment (resources (rules s)) = GenericOnly -> canPayColoredCost s pid cols = inl [].
Proof. intros H. unfold canPayColoredCost. destruct cols; [reflexivity|]. now rewrite H. Qed.

Section DeathFrame.
Context {X : Type}.
Variable f : GameState -> X.
Hypothesis f_winner : forall w s, f (set_winner w s) = f s.
Hypothesis f_log : forall l s, f (set_log l s) = f s.

(** [checkPlayerDeath] writes the winner and the log, and nothing else. *)
Lemma pres_checkPlayerDeath : pres f checkPlayerDeath.
Proof.
  unfold checkPlayerDeath. apply pres_getS_bind. intros s a s'.
  destruct (negb (lifeZeroLoss (win (rules s)))); [apply pres_ret|].
  apply pres_forM. intros i. apply pres_getS_bind. intros t b t'.
  destruct (life (player t i) <=? 0); [|apply pres_ret].
  apply pres_bind; [apply pres_modify; intros u; apply f_winner|].
  intros _. apply pres_modify. intros u. apply f_log.
Qed.
End DeathFrame.

Lemma seat_moved z id q :
  seatOf (pushZone z id (removeFromAll id q)) = seatOf q.
Proof. now rewrite seatOf_pushZone, seatOf_removeFromAll. Qed.

Lemma idx_moved z id q : idx (pushZone z id (removeFromAll id q)) = idx q.
Proof. pose proof (seat_moved z id q) as H. unfold seatOf in H. now injection H. Qed.


Lemma mainPhase_reachable : reachable mainPhase.
Proof.
  apply (reach_step 10 DoAdvancePhase (after (startTurn 10) openingState)).
  - apply (reach_step 10 DoStartTurn openingState);
      [exact opening_reachable|vm_compute; reflexivity].
  - vm_compute; reflexivity.
Qed.


Import Fixtures Scenes Scenes2 Scenes3 Scenes4 Scenes5.

(* ------------------------------------------------------------------ *)
(** ** An attack on the player *)

Lemma gains_upd s id f src q :
  (forall c, rc_card (f c) = rc_card c) -> (forall c, rc_owner (f c) = rc_owner c) ->
  gains (upd_card id f s) src q = gains s src q.
Proof.
  intros Hc Ho. unfold gains. destruct (nonempty_id src) as [sid|]; [|reflexivity].
  rewrite cards_upd_card, JsMapFacts.get_upd.
  destruct (String.eqb sid id); [|reflexivity].
  destruct (JsMap.get sid (cards s)) as [c|]; [|reflexivity].
  cbn [option_map]. unfold hasKeyword. now rewrite Hc, Ho.
Qed.


